(* ===== verification/_CoqProject ===== *)
-Q . S2P
Prelude.v
BytesCrate.v
Types.v
Logging.v
NetText.v
TargetText.v
Codec.v
Header.v
Cmd.v
Addr.v
Quinn.v
Io.v
Callback.v
Proto.v
Messages.v
Moka.v
CoreUdp.v
Streams.v
SocksUdp.v
SocksInbound.v
Tasks.v
Reassembly.v
ReassemblySpec.v
Delivery.v
Buffer.v
UdpStream.v
Fragmentation.v
Outbound.v
Config.v
ConfigValue.v
Client.v
Traffic.v
SocksProps.v
Association.v
EndToEnd.v
Inbound.v
Server.v
App.v
AppProps.v
Shutdown.v
Pipeline.v
Connect.v
Tunnel.v
UnitTests.v
Startup.v
TestProxy.v
TestRuns.v
