(* ===== verification/Prelude.v ===== *)
(** * Wind: a verification library

    Wind is a proxy: local applications speak SOCKS5 to it, and it carries
    their TCP connections and UDP datagrams through one QUIC connection to a
    server, with the TUIC protocol (version 5, crates/wind-tuic/SPEC.md).
    This library models the Rust sources under src/crates and proves what
    makes them correct, together with the places where they are not.

    ** The program and the files that model it

    - wind-tuic/src/proto: the wire format.  [Header.v] (header.rs), [Cmd.v]
      (cmd.rs) and [Addr.v] (addr.rs) translate the three codecs; each
      discharges [FrameCodec] ([Codec.v], with error.rs), the contract its
      users rely on.  [Proto.v] (mod.rs) has the decoding helpers and the
      client's operations on a connection; [Messages.v] states the theorems
      about whole messages.
    - wind-tuic/src/proto/udp_stream.rs: UDP packets over datagrams.
      [Reassembly.v] is the fragment buffer with its shared metadata (a store
      of pointers for the [Arc]s), [ReassemblySpec.v] the abstract table it
      refines, [Delivery.v] and [Buffer.v] runs of it; [UdpStream.v] is the
      association's stream, [Fragmentation.v] what it sends.
    - wind-tuic/src/outbound.rs, task.rs: the client.  [Outbound.v] has the
      connection set-up, the poll loop, the two tasks of an association as
      step functions over a shared state; [Tasks.v] the accepting tasks;
      [Client.v] the theorems; [Traffic.v] what its operations put on the
      connection; [Association.v] what each step of the three tasks of an
      association does to its queues; [EndToEnd.v] a packet from peer to
      peer.
    - wind-tuic/src/inbound.rs: the server.  [Inbound.v] has its handlers in
      the error monad over the connection context and the connection and
      listening loops; [Server.v] the theorems.
    - wind-socks/src: [SocksUdp.v] (udp.rs), [SocksInbound.v] (inbound.rs,
      ext.rs, lib.rs: the listener and its sessions, over any callback),
      theorems also in [SocksProps.v].
    - wind-core/src: [Types.v] and [TargetText.v] (types.rs), [CoreUdp.v]
      (udp.rs), [Io.v] (io.rs), [Callback.v] (inbound.rs, outbound.rs: the
      interfaces between the two sides), [Streams.v] (the stream adapters,
      those of wind-tuic too), [Logging.v] (log.rs).  [NetText.v] has the
      number and IP address texts of the standard library that types.rs
      relies on.
    - wind/src: [Config.v] (conf/, util.rs, cli.rs; also wind-tuic/src/tls.rs
      and wind-core/src/interface.rs), [ConfigValue.v] (the derived [Serialize]
      and [Deserialize] of conf/persistent.rs over trees of values), [App.v] (main.rs: [Manager], which
      joins the SOCKS5 server to the TUIC client, and every task of the
      program interleaved over one state), [Startup.v] (main.rs from the
      command line to its result, with the files it reads and writes).
      [AppProps.v], [Shutdown.v], [Pipeline.v] and [Connect.v] have the
      theorems about the program as a whole, [Tunnel.v] those about the
      program and a server at the other end of its connection.
    - wind-test/src: [TestProxy.v], the proxy the tests use and the packets
      they send; [TestRuns.v], the probes and tests themselves.  [UnitTests.v]
      has the unit tests of the other crates.

    ** How code becomes definitions

    Integers are [Z] with their wrap-around written out ([as_u8], [as_u16],
    [usize_sub]); where a debug build panics on overflow and a release build
    wraps, the flag [overflow_checks] decides.  Bytes and strings are lists of
    [Z].  A call that may panic is an [exec]; [fn(&mut s) -> Result<A, E>] is
    the monad [M s E A] below, in which an error keeps the state reached and a
    panic unwinds.  [async] loops over [select!] are step functions over the
    event that completed, run over arbitrary lists of events, so a theorem
    about runs holds for every schedule.  A bounded channel is a list together
    with what the sender still has to send: while it is longer than the
    capacity the sender waits, and its task makes no step.  Log lines are left
    out but for one whose argument can overflow.

    Crates outside the repository are interfaces: operations in a class, what
    the crate documents as laws, with a concrete instance that satisfies the
    laws: [bytes] and [uuid] in [BytesCrate.v] ([BytesOps],
    [UuidOps]), [moka] in [Moka.v] ([MokaOps]: entries may be evicted beyond
    the capacity, closures are refused unless enabled), [quinn] in [Quinn.v]
    ([QuinnOps]: an oracle over the history of calls) and in [Inbound.v]
    ([RecvOps]), the text formats, [figment]'s providers and merge in
    [ConfigValue.v] ([SerdeOps]), the framed readers, JSON strings and
    hexadecimal texts of the tests in [UnitTests.v] ([FramedOps], [JsonOps],
    [HexOps]).  DNS, fast_socks5, socket2 and rustls appear as parameters or as
    the answers in an environment record.

    ** What the theorems show

    - Codecs: round trip of whole messages, truncated input asks for more and
      consumes nothing, hostile input never panics and decodes canonically,
      framing is unambiguous, exactly what is rejected.
    - Reassembly: the buffer implements its table under any run of fragments
      and collections; fragments in any order, repeated and interleaved, yield
      their packet once and whole; collections free nothing (the cache refuses
      the closure), an unchecked fragment id loses a packet, a stale fragment
      mixes two.
    - Sending: the datagrams of a packet, their number, sizes and limit;
      [send_packet] and the fragmented path on every branch, with the
      subtraction and the division that are not checked.
    - The program: its state stays well formed under every interleaving of its
      tasks; after Ctrl-C every task ends on every fair schedule in which the
      sessions do, and a session that is served keeps the listener from ending;
      what a SOCKS5 client asks to be connected to is what the TUIC server
      connects to, once the client has finished a stream of at most 512 bytes
      after the header, and otherwise the server connects to nothing.
    - Client: received datagrams reach their association as specified, exactly
      which datagrams make it panic, the heartbeat policy, local datagrams are
      cut into what they hold, and what happens to domain destinations.  End
      to end: whatever the network loses, reorders or repeats, a packet sent is
      received unchanged if all its datagrams arrive, and not more often than
      each of them.
    - UDP through the program: with any number of associations whose ids do
      not repeat, under every interleaving of all tasks and with the channels'
      capacities, no association skips, repeats, reorders or mixes packets on
      the way to [send_packet] or from the datagrams taken for it; a
      full channel holds up the poll loop for all of them; an id that repeats
      takes over a running association.
    - Both ends: whatever a run of the program puts on its connection, however
      the network delivers it, does not bring a server down, and the server
      connects only where a SOCKS5 client with the right credentials asked.
    - Server: relaying needs the token of a configured user; a client with
      the password gets in, another leaves no trace; what a TCP request leads
      to; input that brings the server down before authentication.
    - SOCKS5: the UDP parser against RFC 1928, access control, the path of a
      datagram to the tunnel's queue, and what empty or coalesced datagrams do.
    - Addresses as text: exactly which addresses survive being written to a
      configuration and read back, and which texts are accepted.
    - [copy_io] delivers prefixes of what was sent and ends at the first end of
      stream or error, which can cut the other direction short; forwarding
      tasks are lossless until they panic.
    - Configuration: what is exported is loaded back, field by field through
      the derives; the sources override each other setting by setting; a
      setting that no source has is an error, there are no defaults.
    - Logging: the compile-time loop that cuts a module path computes the crate
      name, and the filter enables exactly the lines it means to.
    - Tests: the unit tests pass for every implementation of the crates that
      keeps its contract (lemma [unit_tests_pass]); the large-packet test accepts a response just when
      it is the packet sent; what it means that the network tests pass, and
      where they cannot fail or cannot be skipped as they mean to.

    ** Bounds

    [digit_values] takes fuel, 20 digits, which is enough for a [u64].  The
    [while] loops of log.rs and of the tests recurse on a bound computed from
    their input: [find_end] on one round more than the string has bytes,
    [fill] on one more than the packet's size, [echo_fill] on the size;
    [find_end_spec], [fill_spec] and [echo_fill_len] show that the loops have
    ended by then.
    Loops of the code that count ([send_fragments],
    [gro_loop], [total_size_loop], [combine_loop]) recurse on their count;
    loops over the environment recurse on the list of events and return the
    state reached when the list ends.  [utf8_valid], [utf8_lossy] recurse on
    their input.

    ** Not modelled

    The output of log lines (what is modelled is which are enabled) and of the
    tests, the tests that exercise only other crates (udp_tests.rs) or only
    start both ends (integration_test.rs), and the benchmark of wind-test,
    which measures the standard library.  The limit on the size of a datagram
    does not change between the two places that read it for one packet.
    Cancellation drops a future at the
    point where it waits; the destructors that run then (of sockets and
    streams) are the crates' own.

    This file holds what the others share: machine integers, control flow, the
    monad with its run equations, lists indexed by [Z], big-endian numbers,
    and the automation. *)

From Stdlib Require Import ZArith Lia.
From stdpp Require Import base tactics list list_numbers gmap strings.

Declare Scope wind_scope.
Delimit Scope wind_scope with wind.
#[global] Open Scope Z_scope.

(** ** Machine integers and byte strings *)

Abbreviation u8 := Z (only parsing).
Abbreviation u16 := Z (only parsing).
Abbreviation u32 := Z (only parsing).
Abbreviation u64 := Z (only parsing).
Abbreviation usize := Z (only parsing).
Abbreviation bytes := (list Z) (only parsing).
(** A Rust [String]/[&str] is its UTF-8 encoding. *)
Abbreviation str := (list Z) (only parsing).

Definition is_u8 (z : Z) : Prop := 0 <= z < 2 ^ 8.
Definition is_u16 (z : Z) : Prop := 0 <= z < 2 ^ 16.
Definition usize_max : Z := 2 ^ 64 - 1.
Definition is_usize (z : Z) : Prop := 0 <= z <= usize_max.

#[export] Instance is_u8_dec z : Decision (is_u8 z).
Proof. unfold is_u8; apply _. Defined.
#[export] Instance is_u16_dec z : Decision (is_u16 z).
Proof. unfold is_u16; apply _. Defined.
#[export] Instance is_usize_dec z : Decision (is_usize z).
Proof. unfold is_usize; apply _. Defined.

(** Every element is a byte. *)
Definition bytes_ok (l : bytes) : Prop := Forall is_u8 l.

#[export] Instance bytes_ok_dec l : Decision (bytes_ok l).
Proof. unfold bytes_ok; apply _. Defined.

(** [x as u8] and [x as u16] on an unsigned source. *)
Definition as_u8 (z : Z) : u8 := z mod 2 ^ 8.
Definition as_u16 (z : Z) : u16 := z mod 2 ^ 16.

(** [a.len()] as a [usize]. *)
Definition len {A} (l : list A) : usize := Z.of_nat (length l).

(** [a.saturating_sub(b)] and [a.div_ceil(b)] for [b <> 0]. *)
Definition saturating_sub (a b : usize) : usize := Z.max 0 (a - b).
Definition div_ceil (a b : usize) : usize := (a + (b - 1)) / b.

(** ** Rust control flow *)

(** A call returns a value or panics. *)
Inductive exec (A : Type) : Type :=
| Returns (a : A)
| Panics.
Arguments Returns {A} _.
Arguments Panics {A}.

Definition exec_bind {A B} (m : exec A) (f : A -> exec B) : exec B :=
  match m with Returns a => f a | Panics => Panics end.

Inductive result (A E : Type) : Type :=
| Ok (a : A)
| Err (e : E).
Arguments Ok {A E} _.
Arguments Err {A E} _.

Definition result_map_err {A E F} (f : E -> F) (r : result A E) : result A F :=
  match r with Ok a => Ok a | Err e => Err (f e) end.

(** [fn f(&mut s, ..) -> Result<A, E>]: the state is kept on both outcomes,
    a panic unwinds. *)
Definition M (S E A : Type) : Type := S -> exec (result A E * S).

Section monad.
Context {S E : Type}.

Definition m_ret {A} (a : A) : M S E A := fun s => Returns (Ok a, s).

(** [return Err(e)] *)
Definition m_throw {A} (e : E) : M S E A := fun s => Returns (Err e, s).

Definition m_panic {A} : M S E A := fun _ => Panics.

(** The [?] operator. *)
Definition m_bind {A B} (m : M S E A) (f : A -> M S E B) : M S E B :=
  fun s => match m s with
           | Returns (Ok a, s') => f a s'
           | Returns (Err e, s') => Returns (Err e, s')
           | Panics => Panics
           end.

Definition m_get : M S E S := fun s => Returns (Ok s, s).
Definition m_put (s' : S) : M S E unit := fun _ => Returns (Ok (), s').
Definition m_modify (f : S -> S) : M S E unit := fun s => Returns (Ok (), f s).

(** A call on the state that can only panic. *)
Definition m_op {A} (f : S -> exec (A * S)) : M S E A :=
  fun s => match f s with
           | Returns (a, s') => Returns (Ok a, s')
           | Panics => Panics
           end.

Definition m_lift {A} (m : exec A) : M S E A :=
  fun s => match m with Returns a => Returns (Ok a, s) | Panics => Panics end.

Definition m_of_result {A} (r : result A E) : M S E A := fun s => Returns (r, s).

(** [ensure!(c, e)] *)
Definition m_ensure (c : bool) (e : E) : M S E unit :=
  if c then m_ret () else m_throw e.

(** [match m { r => f(r) }]: the caller inspects the [Result] itself. *)
Definition m_match {A B} (m : M S E A) (f : result A E -> M S E B) : M S E B :=
  fun s => match m s with
           | Returns (r, s') => f r s'
           | Panics => Panics
           end.
End monad.

(** [m?] when the callee's error type converts into the caller's. *)
Definition m_from {S E F A} (f : E -> F) (m : M S E A) : M S F A :=
  fun s => match m s with
           | Returns (r, s') => Returns (result_map_err f r, s')
           | Panics => Panics
           end.

(** Run a computation on a local variable of type [S'] inside a caller whose
    state is [S]; the local's final value comes back with the result. *)
Definition m_local {S S' E A} (m : M S' E A) (s' : S') : M S E (A * S') :=
  fun s => match m s' with
           | Returns (Ok a, s'') => Returns (Ok (a, s''), s)
           | Returns (Err e, _) => Returns (Err e, s)
           | Panics => Panics
           end.

Notation "'let!' x ':=' m 'in' k" := (m_bind m (fun x => k))
  (at level 10, x pattern, m at level 200, k at level 200,
   format "'[v' 'let!'  x  ':='  m  'in' '//' k ']'") : wind_scope.
Notation "m ';;!' k" := (m_bind m (fun _ => k))
  (at level 199, k at level 200, right associativity,
   format "'[v' m  ';;!' '//' k ']'") : wind_scope.
#[global] Open Scope wind_scope.

Definition returns_ok {S E A} (m : exec (result A E * S)) : Prop :=
  exists a s, m = Returns (Ok a, s).

Definition no_panic {A} (m : exec A) : Prop := m <> Panics.

(** [a - b] on [usize]: with overflow checks (debug builds) an underflow
    panics, without them it wraps. *)
Definition usize_sub (overflow_checks : bool) (a b : usize) : exec usize :=
  if b <=? a then Returns (a - b)
  else if overflow_checks then Panics else Returns ((a - b) mod 2 ^ 64).

(** [a + b] on [u8], likewise. *)
Definition u8_add (overflow_checks : bool) (a b : u8) : exec u8 :=
  if a + b <? 2 ^ 8 then Returns (a + b)
  else if overflow_checks then Panics else Returns (as_u8 (a + b)).

(** [a.div_ceil(b)] panics on [b = 0] in every build. *)
Definition usize_div_ceil (a b : usize) : exec usize :=
  if b =? 0 then Panics else Returns (div_ceil a b).

(** ** Running monadic code

    One equation per construct; [m_step] picks the one that applies. *)

Section run.
Context {S E : Type}.

Lemma run_get {A} (k : S -> M S E A) s : m_bind m_get k s = k s s.
Proof. done. Qed.
Lemma run_ret {A C} (a : A) (k : A -> M S E C) s : m_bind (m_ret a) k s = k a s.
Proof. done. Qed.
Lemma run_modify {A} f (k : unit -> M S E A) s : m_bind (m_modify f) k s = k () (f s).
Proof. done. Qed.
Lemma run_bind_assoc {A C D} (m : M S E A) (f : A -> M S E C) (g : C -> M S E D) s :
  m_bind (m_bind m f) g s = m_bind m (fun a => m_bind (f a) g) s.
Proof. unfold m_bind. by destruct (m s) as [[[]]|]. Qed.
Lemma run_bind_ok {A C} (m : M S E A) (k : A -> M S E C) s a s' :
  m s = Returns (Ok a, s') -> m_bind m k s = k a s'.
Proof. unfold m_bind; by intros ->. Qed.
Lemma run_bind_err {A C} (m : M S E A) (k : A -> M S E C) s e s' :
  m s = Returns (Err e, s') -> m_bind m k s = Returns (Err e, s').
Proof. unfold m_bind; by intros ->. Qed.
Lemma run_bind_panic {A C} (m : M S E A) (k : A -> M S E C) s :
  m s = Panics -> m_bind m k s = Panics.
Proof. unfold m_bind; by intros ->. Qed.
Lemma run_op {A C} f (k : A -> M S E C) s a s' :
  f s = Returns (a, s') -> m_bind (m_op f) k s = k a s'.
Proof. unfold m_bind, m_op; by intros ->. Qed.
Lemma run_op_panic {A C} (f : S -> exec (A * S)) (k : A -> M S E C) s :
  f s = Panics -> m_bind (m_op f) k s = Panics.
Proof. unfold m_bind, m_op; by intros ->. Qed.
Lemma run_lift {A C} (m : exec A) (k : A -> M S E C) s a :
  m = Returns a -> m_bind (m_lift m) k s = k a s.
Proof. unfold m_bind, m_lift; by intros ->. Qed.
Lemma run_local_ok {S' A C} (m : M S' E A) s' (k : A * S' -> M S E C) s a s'' :
  m s' = Returns (Ok a, s'') -> m_bind (m_local m s') k s = k (a, s'') s.
Proof. unfold m_bind, m_local; by intros ->. Qed.
Lemma run_local_err {S' A C} (m : M S' E A) s' (k : A * S' -> M S E C) s e s'' :
  m s' = Returns (Err e, s'') -> m_bind (m_local m s') k s = Returns (Err e, s).
Proof. unfold m_bind, m_local; by intros ->. Qed.
Lemma run_lift_panic {A C} (m : exec A) (k : A -> M S E C) s :
  m = Panics -> m_bind (m_lift m) k s = Panics.
Proof. unfold m_bind, m_lift; by intros ->. Qed.
Lemma run_ensure {A} c e (k : unit -> M S E A) s :
  m_bind (m_ensure c e) k s = if c then k () s else Returns (Err e, s).
Proof. unfold m_ensure. by destruct c. Qed.
Lemma run_if {A} (b : bool) (m n : M S E A) s : (if b then m else n) s = if b then m s else n s.
Proof. by destruct b. Qed.
End run.

(** ** Automation *)

Create HintDb wind.
Create Rewrite HintDb wind.

(** Decide a closed proposition by evaluation. *)
Ltac by_compute := apply (bool_decide_unpack _); vm_compute; exact I.

(** Step through monadic code whose sub-calls have reduced. *)
Ltac m_unfold :=
  unfold m_bind, m_ret, m_throw, m_panic, m_get, m_put, m_modify, m_op, m_lift,
         m_of_result, m_ensure, m_match, m_from, m_local in *; cbn beta iota in *.

Ltac m_step :=
  first [ rewrite run_get | rewrite run_ret | rewrite run_modify | rewrite run_bind_assoc
        | rewrite run_ensure | rewrite run_if ].

(** Case split on every boolean test and decision in the goal. *)
Ltac split_ifs :=
  repeat match goal with
         | |- context [if ?b then _ else _] => destruct b eqn:?
         end.

Ltac zify_bool :=
  repeat match goal with
         | H : (_ <? _) = true |- _ => apply Z.ltb_lt in H
         | H : (_ <? _) = false |- _ => apply Z.ltb_ge in H
         | H : (_ <=? _) = true |- _ => apply Z.leb_le in H
         | H : (_ <=? _) = false |- _ => apply Z.leb_gt in H
         | H : (_ =? _) = true |- _ => apply Z.eqb_eq in H
         | H : (_ =? _) = false |- _ => apply Z.eqb_neq in H
         end.

(** ** Lists indexed by [Z] *)

Section lists.
Context {A : Type}.
Implicit Types l k : list A.

(** [&l[..n]] and [&l[n..]] *)
Definition ztake (n : Z) l : list A := take (Z.to_nat n) l.
Definition zdrop (n : Z) l : list A := drop (Z.to_nat n) l.

Lemma len_nil : len (@nil A) = 0.
Proof. done. Qed.
Lemma len_cons (x : A) l : len (x :: l) = 1 + len l.
Proof. unfold len; cbn; lia. Qed.
Lemma len_app l k : len (l ++ k) = len l + len k.
Proof. unfold len; rewrite length_app; lia. Qed.
Lemma len_nonneg l : 0 <= len l.
Proof. unfold len; lia. Qed.
Lemma len_zero_inv l : len l = 0 -> l = [].
Proof. unfold len; destruct l; cbn; [done|lia]. Qed.

Lemma ztake_len_app l k : ztake (len l) (l ++ k) = l.
Proof. unfold ztake, len; rewrite Nat2Z.id; apply take_app_length. Qed.
Lemma zdrop_len_app l k : zdrop (len l) (l ++ k) = k.
Proof. unfold zdrop, len; rewrite Nat2Z.id; apply drop_app_length. Qed.
Lemma ztake_app_eq n l k : n = len l -> ztake n (l ++ k) = l.
Proof. intros ->; apply ztake_len_app. Qed.
Lemma zdrop_app_eq n l k : n = len l -> zdrop n (l ++ k) = k.
Proof. intros ->; apply zdrop_len_app. Qed.
Lemma ztake_zdrop n l : ztake n l ++ zdrop n l = l.
Proof. apply take_drop. Qed.
Lemma len_ztake n l : 0 <= n -> n <= len l -> len (ztake n l) = n.
Proof. unfold len, ztake; intros; rewrite length_take; lia. Qed.
Lemma len_zdrop n l : 0 <= n -> n <= len l -> len (zdrop n l) = len l - n.
Proof. unfold len, zdrop; intros; rewrite length_drop; lia. Qed.
Lemma ztake_all n l : len l <= n -> ztake n l = l.
Proof. unfold len, ztake; intros; apply take_ge; lia. Qed.
Lemma zdrop_zero l : zdrop 0 l = l.
Proof. done. Qed.
Lemma zdrop_zdrop n m l : 0 <= n -> 0 <= m -> zdrop n (zdrop m l) = zdrop (m + n) l.
Proof. unfold zdrop; intros; rewrite drop_drop; f_equal; lia. Qed.

(** A list of known length is its elements. *)
Lemma len_split_at n l : 0 <= n -> n <= len l -> exists l1 l2, l = l1 ++ l2 /\ len l1 = n.
Proof.
  intros; exists (ztake n l), (zdrop n l). rewrite ztake_zdrop. split; [done|].
  by apply len_ztake.
Qed.
End lists.

(** Induction on the length, for functions that consume several elements. *)
Lemma list_len_ind {A} (P : list A -> Prop) :
  (forall l, (forall l', (length l' < length l)%nat -> P l') -> P l) -> forall l, P l.
Proof.
  intros Hstep l. remember (length l) as n eqn:Hn. revert l Hn.
  induction n as [n IH] using lt_wf_ind. intros l ->. apply Hstep. intros l' Hl'. by eapply IH.
Qed.

(** Collecting the results of an optional function. *)
Lemma omap_via_fmap {A B} (f : A -> option B) (l : list A) : omap f l = omap id (f <$> l).
Proof. induction l as [|x l IH]; [done|]. cbn. by rewrite IH. Qed.
Lemma omap_none {A} n : omap id (replicate n (@None A)) = [].
Proof. by induction n. Qed.

#[export] Hint Rewrite @len_nil @len_cons @len_app : wind.

(** ** Indexing and slicing *)

(** [src[i]]: panics out of range. *)
Definition index (i : Z) (src : bytes) : exec u8 :=
  match src !! Z.to_nat i with
  | Some b => Returns b
  | None => Panics
  end.

(** [&src[..n]]: panics out of range. *)
Definition slice_to (n : Z) (src : bytes) : exec bytes :=
  if n <=? len src then Returns (ztake n src) else Panics.

(** [&buf[a..b]]: panics out of range. *)
Definition slice (a b : Z) (buf : bytes) : exec bytes :=
  if (a <=? b) && (b <=? len buf) then Returns (ztake (b - a) (zdrop a buf)) else Panics.

Lemma index_app l b r i : i = len l -> index i (l ++ b :: r) = Returns b.
Proof.
  intros ->. unfold index, len. rewrite Nat2Z.id, lookup_app_r by lia. by rewrite Nat.sub_diag.
Qed.
Lemma slice_app l m r a b : a = len l -> b = a + len m -> slice a b (l ++ m ++ r) = Returns m.
Proof.
  intros -> ->. unfold slice. rewrite !len_app. pose proof (len_nonneg m). pose proof (len_nonneg r).
  rewrite !(proj2 (Z.leb_le _ _)) by lia. cbn [andb]. f_equal.
  rewrite zdrop_len_app. apply ztake_app_eq. lia.
Qed.
Lemma slice_to_app l r n : n = len l -> slice_to n (l ++ r) = Returns l.
Proof.
  intros ->. unfold slice_to. rewrite len_app. pose proof (len_nonneg r).
  by rewrite (proj2 (Z.leb_le _ _)), ztake_len_app by lia.
Qed.

Lemma bytes_ok_app l k : bytes_ok (l ++ k) <-> bytes_ok l /\ bytes_ok k.
Proof. apply Forall_app. Qed.
Lemma bytes_ok_cons b l : bytes_ok (b :: l) <-> is_u8 b /\ bytes_ok l.
Proof. apply Forall_cons. Qed.
Lemma bytes_ok_ztake n l : bytes_ok l -> bytes_ok (ztake n l).
Proof. apply Forall_take. Qed.
Lemma bytes_ok_zdrop n l : bytes_ok l -> bytes_ok (zdrop n l).
Proof. apply Forall_drop. Qed.
#[export] Hint Resolve bytes_ok_ztake bytes_ok_zdrop : wind.

(** ** Big-endian [u16] *)

Definition be_hi (v : u16) : u8 := (v / 2 ^ 8) mod 2 ^ 8.
Definition be_lo (v : u16) : u8 := v mod 2 ^ 8.
Definition of_be (hi lo : u8) : u16 := hi * 2 ^ 8 + lo.

Lemma of_be_split v : is_u16 v -> of_be (be_hi v) (be_lo v) = v.
Proof.
  unfold is_u16, of_be, be_hi, be_lo; intros.
  rewrite (Z.mod_small (v / 2 ^ 8)) by (split; [apply Z.div_pos; lia | apply Z.div_lt_upper_bound; lia]).
  rewrite Z.mul_comm. symmetry. apply Z.div_mod. lia.
Qed.
Lemma be_hi_of_be hi lo : is_u8 hi -> is_u8 lo -> be_hi (of_be hi lo) = hi.
Proof.
  unfold is_u8, of_be, be_hi; intros. rewrite Z.div_add_l by lia.
  by rewrite (Z.div_small lo), Z.add_0_r, Z.mod_small by lia.
Qed.
Lemma be_lo_of_be hi lo : is_u8 hi -> is_u8 lo -> be_lo (of_be hi lo) = lo.
Proof.
  unfold is_u8, of_be, be_lo; intros. by rewrite Z.add_comm, Z.mod_add, Z.mod_small by lia.
Qed.
Lemma of_be_u16 hi lo : is_u8 hi -> is_u8 lo -> is_u16 (of_be hi lo).
Proof. unfold is_u8, is_u16, of_be; lia. Qed.
Lemma be_hi_u8 v : is_u8 (be_hi v).
Proof. unfold is_u8, be_hi; apply Z.mod_pos_bound; lia. Qed.
Lemma be_lo_u8 v : is_u8 (be_lo v).
Proof. unfold is_u8, be_lo; apply Z.mod_pos_bound; lia. Qed.
#[export] Hint Resolve of_be_u16 be_hi_u8 be_lo_u8 : wind.

(** The [u16] at the front of a byte string. *)
Definition u16_of (s : bytes) : u16 :=
  match s with h :: l :: _ => of_be h l | _ => 0 end.

Lemma u16_of_split s : 2 <= len s -> bytes_ok s ->
  is_u16 (u16_of s) /\ s = be_hi (u16_of s) :: be_lo (u16_of s) :: zdrop 2 s.
Proof.
  destruct s as [|h [|l r]]; rewrite ?len_cons, ?len_nil; [lia..|]. intros _ Hok.
  rewrite !bytes_ok_cons in Hok. destruct Hok as (?&?&_). cbn [u16_of].
  rewrite be_hi_of_be, be_lo_of_be by done. auto with wind.
Qed.

Lemma u16_of_be p r : is_u16 p -> u16_of (be_hi p :: be_lo p :: r) = p.
Proof. apply of_be_split. Qed.
