(* ===== verification/BytesCrate.v ===== *)
(** * The [bytes] and [uuid] crates, as interfaces

    Neither crate is part of the repository, so the operations the sources
    call are parameters ([BytesOps], [UuidOps]) and what the crates document
    about them are laws ([BytesLaws], [UuidLaws]).  A [Bytes]/[BytesMut] is
    observed through the byte slice it dereferences to.  [list_bytes] and
    [list_uuid] are concrete instances, used to evaluate the model. *)

From stdpp Require Import base list countable decidable.
From S2P Require Import Prelude.

(** The [Buf]/[BufMut]/[BytesMut] methods the sources call. *)
Class BytesOps := {
  get_u8 : bytes -> exec (u8 * bytes);
  get_u16 : bytes -> exec (u16 * bytes);
  advance : Z -> bytes -> exec (unit * bytes);
  (** [src.copy_to_slice(&mut dst)] with [dst.len() = n] *)
  copy_to_slice : Z -> bytes -> exec (bytes * bytes);
  copy_to_bytes : Z -> bytes -> exec (bytes * bytes);
  split_to : Z -> bytes -> exec (bytes * bytes);
  (** [Bytes::slice(begin..end)] *)
  bytes_slice : Z -> Z -> bytes -> exec bytes;
  put_u8 : u8 -> bytes -> bytes;
  put_u16 : u16 -> bytes -> bytes;
  put_slice : bytes -> bytes -> bytes;
  reserve : Z -> bytes -> bytes
}.

(** Documented behaviour: reads consume from the front in network byte order
    and panic when fewer bytes remain, writes append, [reserve] only affects
    the capacity. *)
Class BytesLaws (B : BytesOps) : Prop := {
  get_u8_cons b r : get_u8 (b :: r) = Returns (b, r);
  get_u8_short : get_u8 [] = Panics;
  get_u16_cons h l r : get_u16 (h :: l :: r) = Returns (of_be h l, r);
  get_u16_short s : len s < 2 -> get_u16 s = Panics;
  advance_le n s : 0 <= n <= len s -> advance n s = Returns ((), zdrop n s);
  advance_short n s : len s < n -> advance n s = Panics;
  copy_to_slice_le n s : 0 <= n <= len s -> copy_to_slice n s = Returns (ztake n s, zdrop n s);
  copy_to_slice_short n s : len s < n -> copy_to_slice n s = Panics;
  copy_to_bytes_le n s : 0 <= n <= len s -> copy_to_bytes n s = Returns (ztake n s, zdrop n s);
  copy_to_bytes_short n s : len s < n -> copy_to_bytes n s = Panics;
  split_to_le n s : 0 <= n <= len s -> split_to n s = Returns (ztake n s, zdrop n s);
  split_to_short n s : len s < n -> split_to n s = Panics;
  bytes_slice_le a b s : 0 <= a <= b -> b <= len s ->
    bytes_slice a b s = Returns (ztake (b - a) (zdrop a s));
  bytes_slice_out a b s : b < a \/ len s < b -> bytes_slice a b s = Panics;
  put_u8_app v s : put_u8 v s = s ++ [v];
  put_u16_app v s : put_u16 v s = s ++ [be_hi v; be_lo v];
  put_slice_app d s : put_slice d s = s ++ d;
  reserve_id n s : reserve n s = s
}.

Lemma get_u16_le `{BytesLaws} s : 2 <= len s -> get_u16 s = Returns (u16_of s, zdrop 2 s).
Proof.
  destruct s as [|h [|l r]]; rewrite ?len_cons, ?len_nil; [lia..|]. by rewrite get_u16_cons.
Qed.

(** [uuid::Uuid]: 16 bytes behind [from_bytes]/[as_bytes]. *)
Class UuidOps := {
  Uuid : Type;
  uuid_from_bytes : bytes -> Uuid;
  uuid_as_bytes : Uuid -> bytes;
  uuid_eq_dec :: EqDecision Uuid;
  uuid_countable :: Countable Uuid
}.

Class UuidLaws (U : UuidOps) : Prop := {
  uuid_as_from b : len b = 16 -> bytes_ok b -> uuid_as_bytes (uuid_from_bytes b) = b;
  uuid_from_as u : uuid_from_bytes (uuid_as_bytes u) = u;
  uuid_len u : len (uuid_as_bytes u) = 16;
  uuid_bytes_ok u : bytes_ok (uuid_as_bytes u)
}.

(** ** Concrete instances *)

Definition list_split (n : Z) (s : bytes) : exec (bytes * bytes) :=
  if bool_decide (len s < n) then Panics else Returns (ztake n s, zdrop n s).

Definition list_bytes : BytesOps := {|
  get_u8 s := match s with b :: r => Returns (b, r) | [] => Panics end;
  get_u16 s := match s with h :: l :: r => Returns (of_be h l, r) | _ => Panics end;
  advance n s := if bool_decide (len s < n) then Panics else Returns ((), zdrop n s);
  copy_to_slice := list_split;
  copy_to_bytes := list_split;
  split_to := list_split;
  bytes_slice a b s :=
    if bool_decide (b < a \/ len s < b) then Panics else Returns (ztake (b - a) (zdrop a s));
  put_u8 v s := s ++ [v];
  put_u16 v s := s ++ [be_hi v; be_lo v];
  put_slice d s := s ++ d;
  reserve _ s := s
|}.

Lemma list_bytes_laws : BytesLaws list_bytes.
Proof.
  split; cbn; unfold list_split; intros; try done;
    try (case_bool_decide; [lia|done]); try (by rewrite bool_decide_true).
  destruct s as [|? [|? r]]; [done|done|]. rewrite !len_cons in H.
  pose proof (len_nonneg r); lia.
Qed.

(** Sixteen bytes, canonically represented. *)
Definition uuid_canon (b : bytes) : bytes :=
  ztake 16 ((as_u8 <$> b) ++ replicate 16 0).

Lemma uuid_canon_len b : len (uuid_canon b) = 16.
Proof.
  unfold uuid_canon. apply len_ztake; [lia|].
  rewrite len_app. pose proof (len_nonneg (as_u8 <$> b)).
  change (len (replicate 16 0)) with 16. lia.
Qed.

Lemma uuid_canon_ok b : bytes_ok (uuid_canon b).
Proof.
  apply bytes_ok_ztake, bytes_ok_app. split; [|by_compute].
  apply Forall_fmap, Forall_true. intros x; cbn; unfold is_u8, as_u8.
  apply Z.mod_pos_bound; lia.
Qed.

Lemma uuid_canon_id b : len b = 16 -> bytes_ok b -> uuid_canon b = b.
Proof.
  intros Hl Hok. unfold uuid_canon. rewrite (list_fmap_ext as_u8 id b), list_fmap_id.
  - by apply ztake_app_eq.
  - intros i x Hx. unfold as_u8; cbn. apply Z.mod_small.
    by apply (Forall_lookup_1 _ _ _ _ Hok Hx).
Qed.

Definition uuid_wf (b : bytes) : Prop := len b = 16 /\ bytes_ok b.
#[export] Instance uuid_wf_dec b : Decision (uuid_wf b).
Proof. unfold uuid_wf; apply _. Defined.

Lemma uuid_canon_wf b : uuid_wf (uuid_canon b).
Proof. split; [apply uuid_canon_len | apply uuid_canon_ok]. Qed.

Definition list_uuid : UuidOps := {|
  Uuid := dsig uuid_wf;
  uuid_from_bytes b := dexist (uuid_canon b) (uuid_canon_wf b);
  uuid_as_bytes u := `u
|}.

Lemma list_uuid_laws : UuidLaws list_uuid.
Proof.
  split; cbn.
  - intros b ??. by apply uuid_canon_id.
  - intros u. apply dsig_eq; cbn. destruct (proj2_dsig u). by apply uuid_canon_id.
  - intros u. by destruct (proj2_dsig u).
  - intros u. by destruct (proj2_dsig u).
Qed.
