(* ===== verification/Types.v ===== *)
(** * Addresses and packets (wind-core/src/types.rs, udp.rs)

    [TargetAddr] and [UdpPacket], with the parts of [std::net] and
    [core::str] they are built on: IP addresses as their octets, socket
    addresses, UTF-8 validation. *)

From stdpp Require Import base list countable strings.
From S2P Require Import Prelude.

(** ** [std::net] *)

(** [Ipv4Addr] and [Ipv6Addr] are their octets, 4 and 16 of them. *)
Abbreviation Ipv4Addr := (list Z) (only parsing).
Abbreviation Ipv6Addr := (list Z) (only parsing).

Definition ipv4_ok (ip : Ipv4Addr) : Prop := len ip = 4 /\ bytes_ok ip.
Definition ipv6_ok (ip : Ipv6Addr) : Prop := len ip = 16 /\ bytes_ok ip.
#[export] Instance ipv4_ok_dec ip : Decision (ipv4_ok ip).
Proof. unfold ipv4_ok; apply _. Defined.
#[export] Instance ipv6_ok_dec ip : Decision (ipv6_ok ip).
Proof. unfold ipv6_ok; apply _. Defined.

Definition Ipv4Addr_UNSPECIFIED : Ipv4Addr := [0; 0; 0; 0].
Definition Ipv4Addr_LOCALHOST : Ipv4Addr := [127; 0; 0; 1].
Definition Ipv6Addr_UNSPECIFIED : Ipv6Addr := replicate 16 0.
Definition is_unspecified (ip : Ipv4Addr) : bool := bool_decide (ip = Ipv4Addr_UNSPECIFIED).

Inductive IpAddr := IpAddr_V4 (ip : Ipv4Addr) | IpAddr_V6 (ip : Ipv6Addr).
#[export] Instance IpAddr_eq_dec : EqDecision IpAddr.
Proof. solve_decision. Defined.

(** [SocketAddr::V6] also carries a flow label and a scope id. *)
Inductive SocketAddr :=
| SocketAddr_V4 (ip : Ipv4Addr) (port : u16)
| SocketAddr_V6 (ip : Ipv6Addr) (port : u16) (flowinfo scope_id : u32).
#[export] Instance SocketAddr_eq_dec : EqDecision SocketAddr.
Proof. solve_decision. Defined.

Definition SocketAddr_new (ip : IpAddr) (port : u16) : SocketAddr :=
  match ip with
  | IpAddr_V4 ip => SocketAddr_V4 ip port
  | IpAddr_V6 ip => SocketAddr_V6 ip port 0 0
  end.
Definition SocketAddr_ip (a : SocketAddr) : IpAddr :=
  match a with
  | SocketAddr_V4 ip _ => IpAddr_V4 ip
  | SocketAddr_V6 ip _ _ _ => IpAddr_V6 ip
  end.
Definition SocketAddr_port (a : SocketAddr) : u16 :=
  match a with SocketAddr_V4 _ p => p | SocketAddr_V6 _ p _ _ => p end.

(** ** [core::str::from_utf8] *)

Definition in_range (lo hi b : Z) : bool := (lo <=? b) && (b <=? hi).
Definition utf8_cont (b : Z) : bool := in_range 128 191 b.

(** The second byte allowed after a three- or four-byte lead. *)
Definition utf8_second3 (b1 b2 : Z) : bool :=
  if b1 =? 224 then in_range 160 191 b2
  else if b1 =? 237 then in_range 128 159 b2
  else utf8_cont b2.
Definition utf8_second4 (b1 b2 : Z) : bool :=
  if b1 =? 240 then in_range 144 191 b2
  else if b1 =? 244 then in_range 128 143 b2
  else utf8_cont b2.

Fixpoint utf8_valid (s : bytes) : bool :=
  match s with
  | [] => true
  | b1 :: r1 =>
    if in_range 0 127 b1 then utf8_valid r1
    else match r1 with
    | [] => false
    | b2 :: r2 =>
      if in_range 194 223 b1 then utf8_cont b2 && utf8_valid r2
      else match r2 with
      | [] => false
      | b3 :: r3 =>
        if in_range 224 239 b1 then utf8_second3 b1 b2 && utf8_cont b3 && utf8_valid r3
        else match r3 with
        | [] => false
        | b4 :: r4 =>
          in_range 240 244 b1 && utf8_second4 b1 b2 && utf8_cont b3 && utf8_cont b4
            && utf8_valid r4
        end
      end
    end
  end.

(** A Rust [String]: valid UTF-8 bytes. *)
Definition str_ok (s : str) : Prop := bytes_ok s /\ utf8_valid s = true.
#[export] Instance str_ok_dec s : Decision (str_ok s).
Proof. unfold str_ok; apply _. Defined.

(** ASCII text as bytes. *)
Fixpoint ascii_str (s : string) : str :=
  match s with
  | EmptyString => []
  | String c s' => Z.of_N (Ascii.N_of_ascii c) :: ascii_str s'
  end.

(** ** wind-core/src/types.rs *)

Inductive TargetAddr :=
| TargetAddr_Domain (domain : str) (port : u16)
| TargetAddr_IPv4 (ip : Ipv4Addr) (port : u16)
| TargetAddr_IPv6 (ip : Ipv6Addr) (port : u16).
#[export] Instance TargetAddr_eq_dec : EqDecision TargetAddr.
Proof. solve_decision. Defined.

(** [impl From<SocketAddr> for TargetAddr] *)
Definition TargetAddr_from_SocketAddr (addr : SocketAddr) : TargetAddr :=
  match addr with
  | SocketAddr_V4 ip port => TargetAddr_IPv4 ip port
  | SocketAddr_V6 ip port _ _ => TargetAddr_IPv6 ip port
  end.

(** What Rust's types say of a [TargetAddr]. *)
Definition TargetAddr_ok (a : TargetAddr) : Prop :=
  match a with
  | TargetAddr_Domain d p => str_ok d /\ is_u16 p
  | TargetAddr_IPv4 ip p => ipv4_ok ip /\ is_u16 p
  | TargetAddr_IPv6 ip p => ipv6_ok ip /\ is_u16 p
  end.
#[export] Instance TargetAddr_ok_dec a : Decision (TargetAddr_ok a).
Proof. destruct a; cbn; apply _. Defined.

(** ** wind-core/src/udp.rs *)

Record UdpPacket := {
  pkt_source : option TargetAddr;
  pkt_target : TargetAddr;
  pkt_payload : bytes
}.
#[export] Instance UdpPacket_eq_dec : EqDecision UdpPacket.
Proof. solve_decision. Defined.

(** A valid string cut before an ASCII byte is valid. *)
Lemma utf8_valid_cut s b r : utf8_valid (s ++ b :: r) = true -> b <= 127 -> utf8_valid s = true.
Proof.
  intros Hv Hb. assert (forall lo hi, 128 <= lo -> in_range lo hi b = false) as Hno.
  { intros lo hi Hlo. unfold in_range. by rewrite (proj2 (Z.leb_gt _ _)) by lia. }
  assert (utf8_cont b = false) as Hc by (by apply Hno).
  assert (forall b1, utf8_second3 b1 b = false) as H3
    by (intros; unfold utf8_second3; repeat case_match; by apply Hno).
  assert (forall b1, utf8_second4 b1 b = false) as H4
    by (intros; unfold utf8_second4; repeat case_match; by apply Hno).
  revert Hv. induction s as [[|b1 s] IH] using list_len_ind; [done|].
  cbn [app utf8_valid]. destruct (in_range 0 127 b1); [apply IH; cbn; lia|].
  destruct s as [|b2 s]; cbn [app].
  { rewrite Hc, H3, H4. repeat case_match; rewrite ?andb_false_r; cbn; done. }
  destruct (in_range 194 223 b1).
  { rewrite !andb_true_iff. intros [Ha Hv]. split; [exact Ha|]. apply IH; [cbn; lia|done]. }
  destruct s as [|b3 s]; cbn [app].
  { rewrite Hc. repeat case_match; rewrite ?andb_false_r; cbn; done. }
  destruct (in_range 224 239 b1).
  { rewrite !andb_true_iff. intros [Ha Hv]. split; [exact Ha|]. apply IH; [cbn; lia|done]. }
  destruct s as [|b4 s]; cbn [app].
  { rewrite Hc. by rewrite !andb_false_r. }
  rewrite !andb_true_iff. intros [Ha Hv]. split; [exact Ha|]. apply IH; [cbn; lia|done].
Qed.
