(* ===== verification/Logging.v ===== *)
(** * Logging (wind-core/src/log.rs, wind/src/log.rs)

    The macros compute the target of a log line at compile time, from the
    module path, with a hand-written loop and an unchecked slice; [init_log]
    installs a filter on targets.  Which lines are enabled matters: their
    arguments are only evaluated then. *)

From stdpp Require Import base list sets strings.
From S2P Require Import Prelude Types.

(** ** [extract_crate_name!] *)

Definition COLON : u8 := 58.

(** [while end_index < bytes.len()]; [n] bounds the rounds. *)
Fixpoint find_end (n : nat) (bytes : bytes) (end_index : usize) : exec usize :=
  match n with
  | O => Returns end_index
  | S n' =>
    if end_index <? len bytes then
      if end_index + 1 <? len bytes then
        exec_bind (index end_index bytes) (fun b =>
        if b =? COLON then
          exec_bind (index (end_index + 1) bytes) (fun c =>
          if c =? COLON then Returns end_index else find_end n' bytes (end_index + 1))
        else find_end n' bytes (end_index + 1))
      else find_end n' bytes (end_index + 1)
    else Returns end_index
  end.

(** [from_raw_parts(ptr, end)] and [from_utf8_unchecked] are undefined
    behaviour outside the string and on invalid UTF-8; here they panic, and
    the theorem says that they do not. *)
Definition slice_str (s : str) (end_ : usize) : exec str :=
  exec_bind (slice_to end_ s) (fun d => if utf8_valid d then Returns d else Panics).

Definition extract_crate_name (MODULE_PATH : str) : exec str :=
  exec_bind (find_end (S (length MODULE_PATH)) MODULE_PATH 0) (fun end_index =>
  slice_str MODULE_PATH end_index).

(** ** The macros *)

(** [tracing::Level], by verbosity. *)
Inductive Level := ERROR | WARN | INFO | DEBUG | TRACE.

Definition verbosity (l : Level) : Z :=
  match l with ERROR => 1 | WARN => 2 | INFO => 3 | DEBUG => 4 | TRACE => 5 end.

(** Which macro, from which module, with which [target:] argument. *)
Inductive LogMacro := info_macro | warn_macro | error_macro.

Definition macro_level (m : LogMacro) : Level :=
  match m with info_macro => INFO | warn_macro => WARN | error_macro => ERROR end.

(** Without [target:], [info!] uses the crate name, the other two leave
    [tracing]'s default, the module path. *)
Definition macro_target (m : LogMacro) (MODULE_PATH : str) (target : option str) : exec str :=
  match target with
  | Some t => exec_bind (extract_crate_name MODULE_PATH) (fun name => Returns (name ++ ascii_str " " ++ t))
  | None =>
    match m with
    | info_macro => extract_crate_name MODULE_PATH
    | warn_macro | error_macro => Returns MODULE_PATH
    end
  end.

(** ** [init_log] *)

(** [tracing_subscriber::filter::Targets]: directives and a default level;
    the documentation promises that a line is judged by the directive with the
    longest prefix of its target, and by the default when there is none. *)
Class TargetsOps := {
  would_enable : list (str * Level) -> Level -> str -> Level -> bool
}.

Class TargetsLaws (T : TargetsOps) : Prop := {
  enable_matched ds dflt target level p l :
    (p, l) ∈ ds -> p `prefix_of` target ->
    (forall p' l', (p', l') ∈ ds -> p' `prefix_of` target -> (length p' < length p)%nat \/ (p', l') = (p, l)) ->
    would_enable ds dflt target level = (verbosity level <=? verbosity l);
  enable_default ds dflt target level :
    (forall p l, (p, l) ∈ ds -> ~ p `prefix_of` target) ->
    would_enable ds dflt target level = (verbosity level <=? verbosity dflt)
}.

Definition log_targets (level : Level) : list (str * Level) :=
  [(ascii_str "wind", level); (ascii_str "wind_core", level); (ascii_str "wind_tuic", level);
   (ascii_str "wind_socks", level)].

(** The filter in force afterwards; [try_init] fails when there is one
    already. *)
Definition init_log {T : TargetsOps} (already_set : bool) (level : Level) :
    result (str -> Level -> bool) string :=
  if already_set then Err "SetGlobalDefaultError"%string
  else Ok (would_enable (log_targets level) INFO).

(** ** The crate name is what precedes the first [::] *)

Fixpoint before_sep (s : str) : str :=
  match s with
  | [] => []
  | b :: r =>
    match r with
    | c :: _ => if (b =? COLON) && (c =? COLON) then [] else b :: before_sep r
    | [] => [b]
    end
  end.

Lemma before_sep_cons b r :
  before_sep (b :: r) =
  if (b =? COLON) && (match r with c :: _ => c =? COLON | [] => false end) then [] else b :: before_sep r.
Proof. destruct r; cbn; [by rewrite andb_false_r|done]. Qed.

(** What the loop finds from an index on. *)
Lemma find_end_spec n pre s : (length s < n)%nat ->
  find_end n (pre ++ s) (len pre) = Returns (len pre + len (before_sep s)).
Proof.
  revert pre s; induction n as [|n IH]; intros pre s Hn; [lia|]. cbn [find_end].
  pose proof (len_nonneg s). rewrite len_app.
  destruct s as [|b r].
  { rewrite len_nil, (proj2 (Z.ltb_ge _ _)) by lia. cbn [before_sep]. by rewrite len_nil, Z.add_0_r. }
  rewrite len_cons. pose proof (len_nonneg r). rewrite (proj2 (Z.ltb_lt _ _)) by lia.
  assert (find_end n (pre ++ b :: r) (len pre + 1) = Returns (len pre + len (b :: before_sep r))) as Hnext.
  { replace (pre ++ b :: r) with ((pre ++ [b]) ++ r) by by rewrite <-app_assoc.
    replace (len pre + 1) with (len (pre ++ [b])) by (rewrite len_app; done).
    rewrite IH by (cbn in Hn; lia). rewrite len_app, !len_cons, len_nil. f_equal. lia. }
  rewrite before_sep_cons. destruct r as [|c r].
  { rewrite len_nil, (proj2 (Z.ltb_ge _ _)) by lia. by rewrite andb_false_r, Hnext. }
  rewrite len_cons. pose proof (len_nonneg r). rewrite (proj2 (Z.ltb_lt _ _)) by lia.
  rewrite (index_app pre) by done. cbn [exec_bind]. destruct (b =? COLON); cbn [andb]; [|done].
  replace (pre ++ b :: c :: r) with ((pre ++ [b]) ++ c :: r) by by rewrite <-app_assoc.
  rewrite (index_app (pre ++ [b])) by (rewrite len_app; done). cbn [exec_bind].
  rewrite <-app_assoc. cbn [app]. destruct (c =? COLON); [by rewrite Z.add_0_r|done].
Qed.

Lemma before_sep_split s : exists rest,
  s = before_sep s ++ rest /\ (rest = [] \/ exists r, rest = COLON :: COLON :: r) /\
  forall q r, s = q ++ COLON :: COLON :: r -> before_sep s `prefix_of` q.
Proof.
  induction s as [|b s (rest&Hs&Hr&Hmin)]; [exists []; split_and!; [done|by left|by intros [] ?]|].
  rewrite before_sep_cons. destruct (_ && _) eqn:Hb.
  - exists (b :: s). split_and!; [done| |intros; apply prefix_nil].
    right. apply andb_true_iff in Hb as [->%Z.eqb_eq Hc]. destruct s as [|c s]; [done|].
    apply Z.eqb_eq in Hc as ->. by eexists.
  - exists rest. split_and!; [cbn; by rewrite <-Hs|done|]. intros [|x q] r; cbn.
    + intros [= -> ->]. by rewrite !Z.eqb_refl in Hb.
    + intros [= -> Hq]. by apply prefix_cons, (Hmin q r).
Qed.

(** The loop and the slice compute the reference definition. *)
Lemma extract_crate_name_eq path : utf8_valid path = true ->
  extract_crate_name path = Returns (before_sep path) /\ utf8_valid (before_sep path) = true.
Proof.
  intros Hv. destruct (before_sep_split path) as (rest&Hp&Hr&_).
  assert (utf8_valid (before_sep path) = true) as Hname.
  { destruct Hr as [-> |[r ->]]; [by rewrite Hp, app_nil_r in Hv|].
    rewrite Hp in Hv. by eapply utf8_valid_cut; [exact Hv|]. }
  split; [|done]. unfold extract_crate_name, slice_str.
  rewrite (find_end_spec _ [] path) by lia. cbn [exec_bind].
  rewrite len_nil, Z.add_0_l.
  assert (slice_to (len (before_sep path)) (before_sep path ++ rest) = Returns (before_sep path)) as Hsl
    by by apply slice_to_app.
  rewrite <-Hp in Hsl. rewrite Hsl. cbn [exec_bind]. by rewrite Hname.
Qed.

(** C33: the crate name.  On every module path the compile-time loop stops
    within the string and the unchecked slice is valid UTF-8; the result is
    exactly the part before the first [::], the whole path if there is none. *)
Theorem extract_crate_name_correct path :
  utf8_valid path = true ->
  extract_crate_name path = Returns (before_sep path) /\ utf8_valid (before_sep path) = true /\
  exists rest, path = before_sep path ++ rest /\ (rest = [] \/ exists r, rest = COLON :: COLON :: r) /\
    forall q r, path = q ++ COLON :: COLON :: r -> before_sep path `prefix_of` q.
Proof.
  intros Hv. destruct (extract_crate_name_eq path Hv) as [He Hn]. split_and!; [done|done|].
  apply before_sep_split.
Qed.

(** ** Which lines the binary logs *)

Section filter.
Context {T : TargetsOps} {TL : TargetsLaws T}.

(** All directives have one level, so some longest match decides. *)
Lemma same_level_directives ds dflt target level l :
  Forall (fun d => d.2 = l) ds -> NoDup ds.*1 -> Exists (fun d => d.1 `prefix_of` target) ds ->
  would_enable ds dflt target level = (verbosity level <=? verbosity l).
Proof.
  intros Hl Hnd Hex.
  assert (exists d, d ∈ ds /\ d.1 `prefix_of` target /\
    forall d', d' ∈ ds -> d'.1 `prefix_of` target -> (length d'.1 <= length d.1)%nat) as (d&Hd&Hp&Hmax).
  { clear Hl Hnd. induction ds as [|d ds IH]; [by apply Exists_nil in Hex|].
    destruct (decide (Exists (fun d => d.1 `prefix_of` target) ds)) as [Hds|Hds].
    - destruct (IH Hds) as (e&He&Hep&Hemax).
      destruct (decide (d.1 `prefix_of` target /\ length e.1 < length d.1)%nat) as [[Hdp Hlt]|Hno].
      + exists d. split_and!; [set_solver|done|]. intros d' [->|Hd']%elem_of_cons Hp'; [done|].
        specialize (Hemax d' Hd' Hp'). lia.
      + exists e. split_and!; [set_solver|done|]. intros d' [->|Hd']%elem_of_cons Hp'; [|auto].
        destruct (decide (length e.1 < length d.1)%nat); [naive_solver|lia].
    - exists d. apply Exists_cons in Hex as [Hp|?]; [|done]. split_and!; [set_solver|done|].
      intros d' [->|Hd']%elem_of_cons Hp'; [done|]. destruct Hds. apply Exists_exists. eauto. }
  destruct d as [p l0]. rewrite Forall_forall in Hl. pose proof (Hl _ Hd) as Hd2. cbn in Hd2, Hp, Hmax. subst l0.
  apply (enable_matched ds dflt target level p l Hd Hp). intros p' l' Hd' Hp'.
  destruct (Nat.lt_ge_cases (length p') (length p)) as [|Hge]; [by left|right].
  assert (length p' = length p) as Hlen by (specialize (Hmax _ Hd' Hp'); cbn in Hmax; lia).
  assert (p' = p) as ->.
  { destruct Hp as [k1 ->], Hp' as [k2 Hk]. by apply app_inj_1 in Hk as [-> _]. }
  f_equal. by pose proof (Hl _ Hd').
Qed.

(** Every log line of the program is enabled.  Whatever macro is used, in
    whichever module of a crate whose name starts with [wind], with or without
    a target of its own, the filter [main] installs lets the line through, so
    its arguments are evaluated; with another level it lets through exactly
    the lines up to that level. *)
Lemma wind_lines_enabled m path target level filter line_target :
  utf8_valid path = true -> ascii_str "wind" `prefix_of` before_sep path ->
  init_log false level = Ok filter -> macro_target m path target = Returns line_target ->
  filter line_target (macro_level m) = (verbosity (macro_level m) <=? verbosity level) /\
  (level = TRACE -> filter line_target (macro_level m) = true).
Proof.
  intros Hv Hw [= <-] Ht.
  assert (ascii_str "wind" `prefix_of` line_target) as Hp.
  { destruct (extract_crate_name_eq path Hv) as [He _]. destruct (before_sep_split path) as (rest&Hs&_).
    unfold macro_target in Ht. rewrite He in Ht. destruct target as [t|]; cbn [exec_bind] in Ht.
    - injection Ht as <-. by apply prefix_app_r.
    - destruct m; injection Ht as <-; [done|..]; rewrite Hs; by apply prefix_app_r. }
  rewrite (same_level_directives _ INFO line_target _ level);
    [|by repeat constructor|by_compute|by left]. split; [done|].
  intros ->. by destruct m.
Qed.
End filter.

(** ** Witnesses *)

Lemma extract_crate_name_correct_witness :
  extract_crate_name (ascii_str "wind_tuic::proto::udp_stream") = Returns (ascii_str "wind_tuic").
Proof. exact (proj1 (extract_crate_name_correct (ascii_str "wind_tuic::proto::udp_stream") eq_refl)). Defined.

(** A filter with the documented behaviour: the longest matching directive. *)
Definition longest_prefix (ds : list (str * Level)) (target : str) : option (str * Level) :=
  foldr (fun d best =>
    if bool_decide (d.1 `prefix_of` target) then
      match best with
      | Some b => if (length d.1 <? length b.1)%nat then Some b else Some d
      | None => Some d
      end
    else best) None ds.

Definition prefix_targets : TargetsOps := {|
  would_enable ds dflt target level :=
    match longest_prefix ds target with
    | Some d => verbosity level <=? verbosity d.2
    | None => verbosity level <=? verbosity dflt
    end
|}.

Lemma longest_prefix_spec ds target :
  match longest_prefix ds target with
  | Some d => d ∈ ds /\ d.1 `prefix_of` target /\
      forall d', d' ∈ ds -> d'.1 `prefix_of` target -> (length d'.1 <= length d.1)%nat
  | None => forall d, d ∈ ds -> ~ d.1 `prefix_of` target
  end.
Proof.
  induction ds as [|d ds IH]; [by intros d ?%elem_of_nil|]. unfold longest_prefix in *. cbn [foldr].
  fold (longest_prefix ds target) in *. case_bool_decide as Hp; destruct (longest_prefix ds target) as [b|].
  - destruct IH as (Hb&Hbp&Hmax). destruct (Nat.ltb_spec (length d.1) (length b.1)) as [Hlt|Hge].
    + split_and!; [apply elem_of_cons; by auto|done|]. intros d' [->|Hd']%elem_of_cons ?; [lia|auto].
    + split_and!; [apply elem_of_cons; by auto|done|]. intros d' [->|Hd']%elem_of_cons Hp'; [lia|].
      specialize (Hmax d' Hd' Hp'). lia.
  - split_and!; [apply elem_of_cons; by auto|done|]. intros d' [->|Hd']%elem_of_cons Hp'; [lia|by apply IH in Hp'].
  - destruct IH as (Hb&Hbp&Hmax). split_and!; [apply elem_of_cons; by auto|done|].
    intros d' [->|Hd']%elem_of_cons Hp'; [done|auto].
  - intros d' [->|Hd']%elem_of_cons; auto.
Qed.

Lemma prefix_targets_laws : TargetsLaws prefix_targets.
Proof.
  split; cbn.
  - intros ds dflt target level p l Hin Hp Hmax. pose proof (longest_prefix_spec ds target) as Hs.
    destruct (longest_prefix ds target) as [[p1 l1]|]; [|by destruct (Hs _ Hin)].
    destruct Hs as (Hin1&Hp1&Hmax1). destruct (Hmax p1 l1 Hin1 Hp1) as [Hlt|[= -> ->]]; [|done].
    specialize (Hmax1 (p, l) Hin Hp). cbn in Hmax1. lia.
  - intros ds dflt target level Hno. pose proof (longest_prefix_spec ds target) as Hs.
    destruct (longest_prefix ds target) as [[p1 l1]|]; [|done]. destruct Hs as (Hin1&Hp1&_).
    by destruct (Hno p1 l1).
Qed.

Lemma wind_line_enabled :
  would_enable (TargetsOps:=prefix_targets) (log_targets TRACE) INFO (ascii_str "wind_tuic [OUT]") INFO = true.
Proof.
  apply (wind_lines_enabled (TL:=prefix_targets_laws) info_macro (ascii_str "wind_tuic::outbound")
    (Some (ascii_str "[OUT]")) TRACE _ (ascii_str "wind_tuic [OUT]")); [reflexivity| |reflexivity|reflexivity|reflexivity].
  by exists (ascii_str "_tuic").
Qed.
