(* ===== verification/NetText.v ===== *)
(** * Numbers and IP addresses as text ([core::num], [core::net])

    The parts of the standard library that types.rs prints and parses
    addresses with: [Display] and [FromStr] of the integer types, [Ipv4Addr]
    and [Ipv6Addr].  The parsers are functions from the remaining input to a
    result and the new remaining input; [read_atomically] is that a caller
    that gets [None] still holds its own input. *)

From stdpp Require Import base list list_numbers.
From S2P Require Import Prelude Types.

(** ** Digits *)

(** [char::to_digit(radix)] *)
Definition to_digit (radix : Z) (b : u8) : option Z :=
  let d := if in_range 48 57 b then b - 48
           else if in_range 97 122 b then b - 87
           else if in_range 65 90 b then b - 55
           else radix in
  if d <? radix then Some d else None.

(** The digit [{}] and [{:x}] print. *)
Definition digit_char (d : Z) : u8 := if d <? 10 then 48 + d else 87 + d.

(** The digits of [n], most significant first; at most [fuel] of them. *)
Fixpoint digit_values (fuel : nat) (radix n : Z) : list Z :=
  match fuel with
  | O => []
  | S fuel' =>
    if n <? radix then [n] else digit_values fuel' radix (n / radix) ++ [n mod radix]
  end.

(** [write!(f, "{}", n)] and [write!(f, "{:x}", n)]: a [u64] has at most 20
    digits in any base from 10 on. *)
Definition show_radix (radix n : Z) : str := digit_char <$> digit_values 20 radix n.
Definition show (n : Z) : str := show_radix 10 n.
Definition show_hex (n : Z) : str := show_radix 16 n.

(** [str::parse::<u16>]: an optional plus sign and decimal digits. *)
Fixpoint parse_digits (result : Z) (s : str) : option Z :=
  match s with
  | [] => Some result
  | b :: s' =>
    match to_digit 10 b with
    | None => None
    | Some d => if 65535 <? result * 10 + d then None else parse_digits (result * 10 + d) s'
    end
  end.

Definition parse_u16 (s : str) : option u16 :=
  match s with
  | [] => None
  | b :: s' =>
    if (b =? 43) || (b =? 45) then
      match s' with
      | [] => None
      | _ => if b =? 43 then parse_digits 0 s' else None
      end
    else parse_digits 0 s
  end.

(** ** The parser of [core::net] *)

(** The loop of [read_number], for a type whose largest value is [max]. *)
Fixpoint read_digits (radix max max_digits result digit_count : Z) (s : bytes) :
    option (Z * Z * bytes) :=
  match s with
  | [] => Some (result, digit_count, s)
  | b :: s' =>
    match to_digit radix b with
    | None => Some (result, digit_count, s)
    | Some digit =>
      if max <? result * radix + digit then None
      else if max_digits <? digit_count + 1 then None
      else read_digits radix max max_digits (result * radix + digit) (digit_count + 1) s'
    end
  end.

Definition has_leading_zero (s : bytes) : bool :=
  match s with b :: _ => b =? 48 | [] => false end.

Definition read_number (radix max max_digits : Z) (allow_zero_prefix : bool) (s : bytes) :
    option (Z * bytes) :=
  match read_digits radix max max_digits 0 0 s with
  | None => None
  | Some (result, digit_count, s') =>
    if digit_count =? 0 then None
    else if negb allow_zero_prefix && has_leading_zero s && (1 <? digit_count) then None
    else Some (result, s')
  end.

Definition read_given_char (c : Z) (s : bytes) : option bytes :=
  match s with b :: s' => if b =? c then Some s' else None | [] => None end.

Definition read_separator {A} (sep : Z) (index : nat) (inner : bytes -> option (A * bytes))
    (s : bytes) : option (A * bytes) :=
  match index with O => inner s | S _ => read_given_char sep s ≫= inner end.

(** [for (i, slot) in groups.iter_mut().enumerate()] over the [n] octets from
    [i] on *)
Fixpoint read_octets (n i : nat) (s : bytes) : option (list Z * bytes) :=
  match n with
  | O => Some ([], s)
  | S n' =>
    match read_separator 46 i (read_number 10 255 3 false) s with
    | None => None
    | Some (o, s') =>
      match read_octets n' (S i) s' with
      | None => None
      | Some (os, s'') => Some (o :: os, s'')
      end
    end
  end.
Definition read_ipv4_addr (s : bytes) : option (Ipv4Addr * bytes) := read_octets 4 0 s.

(** [read_groups] with [n] slots left, from index [i]: the groups read, and
    whether an embedded IPv4 address ended them. *)
Fixpoint read_groups (n i : nat) (s : bytes) : list u16 * bool * bytes :=
  match n with
  | O => ([], false, s)
  | S n' =>
    match (if (1 <=? n')%nat then read_separator 58 i read_ipv4_addr s else None) with
    | Some (ip, s') => ([u16_of ip; u16_of (zdrop 2 ip)], true, s')
    | None =>
      match read_separator 58 i (read_number 16 65535 4 true) s with
      | Some (g, s') =>
        let '(gs, v4, s'') := read_groups n' (S i) s' in (g :: gs, v4, s'')
      | None => ([], false, s)
      end
    end
  end.

(** [Ipv6Addr::from([u16; 8])] and [segments()] *)
Fixpoint of_segments (gs : list u16) : Ipv6Addr :=
  match gs with [] => [] | g :: gs' => be_hi g :: be_lo g :: of_segments gs' end.
Fixpoint segments (ip : Ipv6Addr) : list u16 :=
  match ip with h :: l :: ip' => of_be h l :: segments ip' | _ => [] end.

Definition read_ipv6_addr (s : bytes) : option (Ipv6Addr * bytes) :=
  let '(head, head_ipv4, s) := read_groups 8 0 s in
  if (length head =? 8)%nat then Some (of_segments head, s)
  else if head_ipv4 then None
  else
    read_given_char 58 s ≫= (fun s =>
    read_given_char 58 s ≫= (fun s =>
    let '(tail, _, s) := read_groups (7 - length head) 0 s in
    Some (of_segments (head ++ replicate (8 - length head - length tail) 0 ++ tail), s))).

(** [parse_with]: the whole input has to be consumed. *)
Definition parse_with {A} (inner : bytes -> option (A * bytes)) (s : bytes) : option A :=
  match inner s with Some (a, []) => Some a | _ => None end.

Definition parse_ipv4 (s : str) : option Ipv4Addr :=
  if 15 <? len s then None else parse_with read_ipv4_addr s.
Definition parse_ipv6 (s : str) : option Ipv6Addr := parse_with read_ipv6_addr s.

(** ** [Display] of the addresses *)

Fixpoint show_list (sep : Z) (shown : Z -> str) (l : list Z) : str :=
  match l with
  | [] => []
  | [x] => shown x
  | x :: l' => shown x ++ sep :: show_list sep shown l'
  end.

Definition show_ipv4 (ip : Ipv4Addr) : str := show_list 46 show ip.

(** The longest run of zero segments, the first of several. *)
Record Span := { span_start : nat; span_len : nat }.
Definition Span_default : Span := {| span_start := 0; span_len := 0 |}.

Fixpoint zero_span (gs : list u16) (i : nat) (longest current : Span) : Span :=
  match gs with
  | [] => longest
  | g :: gs' =>
    if g =? 0 then
      let current := {| span_start := if (span_len current =? 0)%nat then i else span_start current;
                        span_len := S (span_len current) |} in
      zero_span gs' (S i) (if (span_len longest <? span_len current)%nat then current else longest)
        current
    else zero_span gs' (S i) longest Span_default
  end.

(** [to_ipv4_mapped] *)
Definition to_ipv4_mapped (ip : Ipv6Addr) : option Ipv4Addr :=
  if decide (take 12 ip = replicate 10 0 ++ [255; 255]) then Some (drop 12 ip) else None.

Definition show_ipv6 (ip : Ipv6Addr) : str :=
  match to_ipv4_mapped ip with
  | Some ipv4 => [58; 58; 102; 102; 102; 102; 58] ++ show_ipv4 ipv4
  | None =>
    let gs := segments ip in
    let z := zero_span gs 0 Span_default Span_default in
    if (1 <? span_len z)%nat
    then show_list 58 show_hex (take (span_start z) gs) ++ [58; 58]
           ++ show_list 58 show_hex (drop (span_start z + span_len z) gs)
    else show_list 58 show_hex gs
  end.

(** ** Socket addresses *)

(** [read_port] and [read_scope_id]: any number of digits. *)
Definition read_port (s : bytes) : option (u16 * bytes) :=
  read_given_char 58 s ≫= fun s => read_number 10 65535 (len s) true s.
Definition read_scope_id (s : bytes) : option (u32 * bytes) :=
  read_given_char 37 s ≫= fun s => read_number 10 (2 ^ 32 - 1) (len s) true s.

Definition read_socket_addr_v4 (s : bytes) : option (SocketAddr * bytes) :=
  '(ip, s) ← read_ipv4_addr s;
  '(port, s) ← read_port s;
  Some (SocketAddr_V4 ip port, s).

Definition read_socket_addr_v6 (s : bytes) : option (SocketAddr * bytes) :=
  s ← read_given_char 91 s;
  '(ip, s) ← read_ipv6_addr s;
  let '(scope_id, s) := default (0, s) (read_scope_id s) in
  s ← read_given_char 93 s;
  '(port, s) ← read_port s;
  Some (SocketAddr_V6 ip port 0 scope_id, s).

Definition or_else {A} (o1 o2 : option A) : option A := match o1 with Some _ => o1 | None => o2 end.

Definition parse_socket_addr (s : str) : option SocketAddr :=
  parse_with (fun s => or_else (read_socket_addr_v4 s) (read_socket_addr_v6 s)) s.
Definition parse_ip_addr (s : str) : option IpAddr :=
  parse_with (fun s => or_else (prod_map IpAddr_V4 id <$> read_ipv4_addr s)
                               (prod_map IpAddr_V6 id <$> read_ipv6_addr s)) s.

Definition show_socket_addr (a : SocketAddr) : str :=
  match a with
  | SocketAddr_V4 ip port => show_ipv4 ip ++ 58 :: show port
  | SocketAddr_V6 ip port _ scope_id =>
    91 :: show_ipv6 ip ++ (if scope_id =? 0 then [] else 37 :: show scope_id) ++ 93 :: 58 :: show port
  end.
Definition show_ip_addr (a : IpAddr) : str :=
  match a with IpAddr_V4 ip => show_ipv4 ip | IpAddr_V6 ip => show_ipv6 ip end.

(** ** Printed numbers are read back *)

Definition horner (radix acc : Z) (vs : list Z) : Z := foldl (fun a d => a * radix + d) acc vs.

(** The input does not go on with a digit. *)
Definition no_digit (radix : Z) (rest : bytes) : Prop :=
  match rest with b :: _ => to_digit radix b = None | [] => True end.

Lemma to_digit_char radix d : radix <= 36 -> 0 <= d < radix -> to_digit radix (digit_char d) = Some d.
Proof.
  intros Hr Hd. unfold to_digit, digit_char, in_range.
  destruct (Z.ltb_spec d 10);
    repeat match goal with |- context [?a <=? ?b] => destruct (Z.leb_spec a b); try lia end; cbn;
    rewrite (proj2 (Z.ltb_lt _ _)) by lia; f_equal; lia.
Qed.

Lemma to_digit_range radix b d : to_digit radix b = Some d -> 0 <= d < radix.
Proof.
  unfold to_digit, in_range.
  repeat match goal with |- context [?a <=? ?b] => destruct (Z.leb_spec a b) end; cbn;
    match goal with |- context [?a <? radix] => destruct (Z.ltb_spec a radix); [|done] end;
    intros [= <-]; lia.
Qed.

Section numbers.
Context (radix : Z) (Hradix : 2 <= radix <= 36).

Lemma horner_app acc vs ws : horner radix acc (vs ++ ws) = horner radix (horner radix acc vs) ws.
Proof. apply foldl_app. Qed.

Lemma horner_mono acc vs : 0 <= acc -> Forall (fun d => 0 <= d) vs -> acc <= horner radix acc vs.
Proof.
  intros Ha Hvs. revert acc Ha. induction Hvs as [|d vs Hd _ IH]; intros acc Ha; [cbn; lia|].
  cbn. transitivity (acc * radix + d); [nia|]. apply IH. nia.
Qed.

Lemma digit_values_range fuel n : 0 <= n -> Forall (fun d => 0 <= d < radix) (digit_values fuel radix n).
Proof.
  revert n; induction fuel as [|fuel IH]; intros n Hn; cbn; [done|].
  destruct (Z.ltb_spec n radix); [by repeat constructor|].
  apply Forall_app. split; [apply IH, Z.div_pos; lia|].
  repeat constructor; apply Z.mod_pos_bound; lia.
Qed.

Lemma digit_values_horner fuel n : 0 <= n < radix ^ Z.of_nat fuel -> fuel <> O ->
  horner radix 0 (digit_values fuel radix n) = n.
Proof.
  revert n; induction fuel as [|fuel IH]; intros n Hn Hf; [done|]. cbn [digit_values].
  destruct (Z.ltb_spec n radix); [done|].
  rewrite Nat2Z.inj_succ, Z.pow_succ_r in Hn by lia.
  rewrite horner_app, IH.
  - cbn. pose proof (Z.div_mod n radix). lia.
  - split; [apply Z.div_pos; lia|]. apply Z.div_lt_upper_bound; lia.
  - intros ->. cbn in Hn. lia.
Qed.

Lemma digit_values_len fuel k n : 0 <= n < radix ^ Z.of_nat k -> k <> O ->
  (1 <= fuel)%nat -> (1 <= length (digit_values fuel radix n) <= k)%nat.
Proof.
  revert k n; induction fuel as [|fuel IH]; intros k n Hn Hk Hf; [lia|]. cbn.
  destruct (Z.ltb_spec n radix); [cbn; lia|].
  destruct k as [|[|k]]; [done|cbn in Hn; lia|].
  rewrite Nat2Z.inj_succ, Z.pow_succ_r in Hn by lia. rewrite length_app. cbn.
  destruct fuel as [|fuel]; [cbn; lia|].
  assert (1 <= length (digit_values (S fuel) radix (n / radix)) <= S k)%nat; [|lia].
  apply IH; [|done|lia]. split; [apply Z.div_pos; lia|]. apply Z.div_lt_upper_bound; lia.
Qed.

(** No leading zero. *)
Lemma digit_values_head fuel n ds : 0 <= n < radix ^ Z.of_nat fuel -> fuel <> O ->
  digit_values fuel radix n = 0 :: ds -> ds = [].
Proof.
  revert n ds; induction fuel as [|fuel IH]; intros n ds Hn Hf Heq; [done|]. cbn [digit_values] in Heq.
  destruct (Z.ltb_spec n radix) as [|Hge]; [by simplify_eq|].
  rewrite Nat2Z.inj_succ, Z.pow_succ_r in Hn by lia.
  assert (0 <= n / radix < radix ^ Z.of_nat fuel) as Hq.
  { split; [apply Z.div_pos; lia|]. apply Z.div_lt_upper_bound; lia. }
  assert (fuel <> O) as Hf' by (intros ->; cbn in Hn; lia).
  pose proof (digit_values_horner fuel _ Hq Hf') as Hh.
  destruct (digit_values fuel radix (n / radix)) as [|d ds'] eqn:Hd; cbn in Heq; simplify_eq.
  - cbn in Hh. pose proof (Z.div_le_lower_bound n radix 1). lia.
  - rewrite (IH _ ds' Hq Hf' Hd) in Hh. cbn in Hh.
    pose proof (Z.div_le_lower_bound n radix 1). lia.
Qed.

Lemma read_digits_values max max_digits vs rest acc count :
  Forall (fun d => 0 <= d < radix) vs -> 0 <= acc -> horner radix acc vs <= max ->
  count + len vs <= max_digits -> no_digit radix rest ->
  read_digits radix max max_digits acc count ((digit_char <$> vs) ++ rest)
  = Some (horner radix acc vs, count + len vs, rest).
Proof.
  intros Hvs. revert acc count. induction Hvs as [|d vs Hd Hvs IH]; intros acc count Ha Hm Hc Hr.
  - cbn. rewrite Z.add_0_r. destruct rest as [|b rest]; cbn; [done|]. cbn in Hr. by rewrite Hr.
  - rewrite len_cons in *. pose proof (len_nonneg vs). cbn [fmap list_fmap app read_digits].
    cbn in Hm. rewrite to_digit_char by lia.
    pose proof (horner_mono (acc * radix + d) vs ltac:(nia)
      ltac:(eapply Forall_impl; [exact Hvs|]; cbn; lia)).
    unfold horner in *.
    rewrite (proj2 (Z.ltb_ge _ _)), (proj2 (Z.ltb_ge _ _)) by lia.
    rewrite IH by (done || nia || lia). cbn. do 3 f_equal. lia.
Qed.

(** A printed number is read back and nothing more is consumed. *)
Lemma read_number_shown max md azp n rest :
  0 <= n <= max -> n < radix ^ 20 -> len (show_radix radix n) <= md -> no_digit radix rest ->
  read_number radix max md azp (show_radix radix n ++ rest) = Some (n, rest).
Proof.
  intros Hn Hlt Hmd Hr. unfold read_number, show_radix, len in *. rewrite length_fmap in Hmd.
  pose proof (digit_values_range 20 n ltac:(lia)) as Hrange.
  pose proof (digit_values_horner 20 n ltac:(lia) ltac:(done)) as Hh.
  pose proof (digit_values_len 20 20 n ltac:(lia) ltac:(lia) ltac:(lia)) as Hl.
  pose proof (digit_values_head 20 n) as Hz.
  set (vs := digit_values 20 radix n) in *.
  rewrite read_digits_values by (done || unfold len; lia). rewrite Hh, Z.add_0_l.
  assert (len vs =? 0 = false) as -> by (apply Z.eqb_neq; unfold len; lia).
  destruct vs as [|d ds]; [cbn in Hl; lia|]. inversion_clear Hrange as [|? ? Hd _].
  destruct (decide (d = 0)) as [->|Hne].
  - rewrite (Hz ds) by (done || lia). by rewrite andb_false_r.
  - replace (has_leading_zero _) with false; [by rewrite andb_false_r|].
    cbn. unfold digit_char. symmetry. apply Z.eqb_neq. case_match; zify_bool; lia.
Qed.

Lemma read_number_show max (max_digits : nat) azp n rest :
  0 <= n <= max -> n < radix ^ Z.of_nat max_digits -> (1 <= max_digits <= 20)%nat ->
  no_digit radix rest ->
  read_number radix max (Z.of_nat max_digits) azp (show_radix radix n ++ rest) = Some (n, rest).
Proof.
  intros Hn Hlt Hmd Hr. pose proof (Z.pow_le_mono_r radix (Z.of_nat max_digits) 20).
  apply read_number_shown; [done|lia| |done]. unfold show_radix, len. rewrite length_fmap.
  pose proof (digit_values_len 20 max_digits n ltac:(lia) ltac:(lia) ltac:(lia)). lia.
Qed.

End numbers.

(** What is read is in range. *)
Lemma read_digits_bound radix max md acc count s r c rest : 0 <= radix -> 0 <= acc <= max ->
  read_digits radix max md acc count s = Some (r, c, rest) -> 0 <= r <= max.
Proof.
  intros Hr. revert acc count; induction s as [|b s IH]; intros acc count Ha; cbn.
  - by intros [= <- <- <-].
  - destruct (to_digit radix b) as [d|] eqn:Hd; [|by intros [= <- <- <-]].
    apply to_digit_range in Hd. destruct (Z.ltb_spec max (acc * radix + d)); [done|].
    destruct (_ <? _); [done|]. apply IH. nia.
Qed.

Lemma read_number_bound radix max md azp s n rest : 0 <= radix -> 0 <= max ->
  read_number radix max md azp s = Some (n, rest) -> 0 <= n <= max.
Proof.
  intros Hr Hm. unfold read_number.
  destruct (read_digits radix max md 0 0 s) as [[[r c] s']|] eqn:Hd; [|done].
  apply read_digits_bound in Hd; [|lia..]. repeat case_match; naive_solver.
Qed.

(** The decimal digits read are a prefix of the input. *)
Lemma read_digits_split radix max md acc count s r c rest :
  read_digits radix max md acc count s = Some (r, c, rest) ->
  exists pre, s = pre ++ rest /\ Forall (fun b => is_Some (to_digit radix b)) pre.
Proof.
  revert acc count; induction s as [|b s IH]; intros acc count; cbn.
  - intros [= <- <- <-]. by exists [].
  - destruct (to_digit radix b) as [d|] eqn:Hd; [|intros [= <- <- <-]; by exists []].
    destruct (_ <? _); [done|]. destruct (_ <? _); [done|].
    intros (pre&->&Hpre)%IH. exists (b :: pre). split; [done|]. constructor; [|done]. by rewrite Hd.
Qed.

(** ** IPv4 addresses *)

(** The elements of [l], each but a first one behind a separator. *)
Fixpoint group_text (sep : Z) (i : nat) (shown : Z -> str) (l : list Z) : str :=
  match l with
  | [] => []
  | x :: l' => match i with O => [] | S _ => [sep] end ++ shown x ++ group_text sep (S i) shown l'
  end.

Lemma group_text_S sep i j shown l : group_text sep (S i) shown l = group_text sep (S j) shown l.
Proof. revert i j; induction l as [|x l IH]; intros i j; [done|]. cbn. do 2 f_equal. apply IH. Qed.

Lemma show_list_text sep shown l : show_list sep shown l = group_text sep 0 shown l.
Proof.
  destruct l as [|x l]; [done|]. cbn [group_text app]. revert x; induction l as [|y l IH]; intros x.
  - cbn. by rewrite app_nil_r.
  - change (shown x ++ sep :: show_list sep shown (y :: l)
      = shown x ++ group_text sep 1 shown (y :: l)).
    rewrite IH. cbn [group_text app]. by rewrite (group_text_S sep 0 1).
Qed.

Lemma read_separator_text {A} sep i (inner : bytes -> option (A * bytes)) s :
  read_separator sep i inner (match i with O => [] | S _ => [sep] end ++ s) = inner s.
Proof. destruct i; cbn; [done|]. by rewrite Z.eqb_refl. Qed.

Lemma read_octet_show o rest : is_u8 o -> no_digit 10 rest ->
  read_number 10 255 3 false (show o ++ rest) = Some (o, rest).
Proof.
  intros Ho Hr. unfold is_u8 in Ho. apply (read_number_show 10 ltac:(lia) 255 3); [lia..|done].
Qed.

Lemma read_octets_show ip i rest : Forall is_u8 ip -> no_digit 10 rest ->
  read_octets (length ip) i (group_text 46 i show ip ++ rest) = Some (ip, rest).
Proof.
  intros Hip Hr. revert i. induction Hip as [|o ip Ho _ IH]; intros i; [done|].
  cbn [length read_octets group_text]. rewrite <-!app_assoc, read_separator_text.
  rewrite read_octet_show; [by rewrite IH|done|]. by destruct ip.
Qed.

Lemma read_ipv4_show ip rest : ipv4_ok ip -> no_digit 10 rest ->
  read_ipv4_addr (show_ipv4 ip ++ rest) = Some (ip, rest).
Proof.
  intros [Hl Hip] Hr. unfold read_ipv4_addr, show_ipv4. rewrite show_list_text.
  replace 4%nat with (length ip) by (unfold len in Hl; lia). by apply read_octets_show.
Qed.

Lemma show_octet_len o : is_u8 o -> 1 <= len (show o) <= 3.
Proof.
  intros Ho. unfold is_u8 in Ho. unfold show, show_radix, len. rewrite length_fmap.
  pose proof (digit_values_len 10 ltac:(lia) 20 3 o ltac:(cbn; lia) ltac:(done) ltac:(lia)). lia.
Qed.

Lemma parse_show_ipv4 ip : ipv4_ok ip -> parse_ipv4 (show_ipv4 ip) = Some ip.
Proof.
  intros Hok. unfold parse_ipv4, parse_with.
  pose proof (read_ipv4_show ip [] Hok I) as Hr. rewrite app_nil_r in Hr. rewrite Hr.
  rewrite (proj2 (Z.ltb_ge _ _)); [done|]. destruct Hok as [Hl Hip].
  destruct ip as [|a [|b [|c [|d [|? ip]]]]]; rewrite ?len_cons, ?len_nil in Hl; try lia;
    [|pose proof (len_nonneg ip); lia].
  rewrite !bytes_ok_cons in Hip. destruct Hip as (Ha&Hb&Hc&Hd&_).
  unfold show_ipv4. cbn [show_list]. rewrite !len_app, !len_cons, !len_app, !len_cons, !len_app, !len_cons.
  apply show_octet_len in Ha, Hb, Hc, Hd. lia.
Qed.

Lemma read_octets_ok n i s ip rest : read_octets n i s = Some (ip, rest) ->
  length ip = n /\ Forall is_u8 ip.
Proof.
  revert i s ip; induction n as [|n IH]; intros i s ip; cbn; [by intros [= <- <-]|].
  destruct (read_separator _ _ _ s) as [[o s']|] eqn:Hs; [|done].
  destruct (read_octets n (S i) s') as [[os s'']|] eqn:Ho; [|done]. intros [= <- <-].
  apply IH in Ho as [<- Hos]. split; [done|]. constructor; [|done].
  assert (exists t, read_number 10 255 3 false t = Some (o, s')) as (t&Ht).
  { destruct i; cbn in Hs; [by eexists|]. destruct (read_given_char 46 s); [by eexists|done]. }
  apply read_number_bound in Ht; unfold is_u8; lia.
Qed.

Lemma parse_ipv4_ok s ip : parse_ipv4 s = Some ip -> ipv4_ok ip.
Proof.
  unfold parse_ipv4, parse_with, read_ipv4_addr. destruct (_ <? _); [done|].
  destruct (read_octets 4 0 s) as [[ip' [|]]|] eqn:Hr; [|done..]. intros [= <-].
  apply read_octets_ok in Hr as [Hl Hip]. split; [unfold len; lia|done].
Qed.

(** ** IPv6 addresses *)

(** An IPv4 address starts with decimal digits and a dot, which the text of
    a group followed by a colon or the end does not. *)
Lemma read_ipv4_dotted s r : read_ipv4_addr s = Some r ->
  exists pre rest, s = pre ++ 46 :: rest /\ Forall (fun b => is_Some (to_digit 10 b)) pre.
Proof.
  unfold read_ipv4_addr. cbn [read_octets read_separator].
  destruct (read_number 10 255 3 false s) as [[o s']|] eqn:Hn; [|done].
  unfold read_number in Hn.
  destruct (read_digits 10 255 3 0 0 s) as [[[v c] t]|] eqn:Hd; [|done].
  assert (t = s') as -> by (repeat case_match; naive_solver).
  apply read_digits_split in Hd as (pre&->&Hpre).
  destruct s' as [|b s']; cbn [read_given_char]; [done|].
  destruct (Z.eqb_spec b 46) as [->|]; [|done]. by exists pre, s'.
Qed.

Lemma group_not_dotted vs rest pre rest' :
  Forall (fun b => is_Some (to_digit 16 b)) vs -> no_digit 10 rest -> head rest <> Some 46 ->
  vs ++ rest = pre ++ 46 :: rest' -> Forall (fun b => is_Some (to_digit 10 b)) pre -> False.
Proof.
  intros Hvs Hr H46. revert pre; induction Hvs as [|v vs Hv _ IH]; intros pre Heq Hpre.
  - destruct Hpre as [|b pre Hb _]; cbn in Heq; subst rest; [done|].
    cbn in Hr. rewrite Hr in Hb. by destruct Hb.
  - destruct Hpre as [|b pre Hb Hpre]; cbn in Heq; simplify_eq.
    + vm_compute in Hv. by destruct Hv.
    + by eapply IH.
Qed.

Lemma show_hex_digits n : 0 <= n -> Forall (fun b => is_Some (to_digit 16 b)) (show_hex n).
Proof.
  intros Hn. unfold show_hex, show_radix. apply Forall_fmap.
  eapply Forall_impl; [by apply (digit_values_range 16)|]. cbn. intros d Hd.
  rewrite to_digit_char by lia. done.
Qed.

(** What may follow an address, the end or the bracket or percent sign of a
    socket address; and what may follow its groups, [::] too. *)
Definition ends (rest : bytes) : Prop := rest = [] \/ exists c r, rest = c :: r /\ (c = 93 \/ c = 37).
Definition stops (rest : bytes) : Prop := ends rest \/ exists r, rest = 58 :: 58 :: r.

Lemma group_tail i gs rest : stops rest ->
  let t := group_text 58 (S i) show_hex gs ++ rest in
  no_digit 16 t /\ no_digit 10 t /\ head t <> Some 46.
Proof. intros [[->|(c&r&->&[->| ->])]|(r&->)]; destruct gs; done. Qed.

Lemma ends_no_digit rest : ends rest -> no_digit 10 rest.
Proof. by intros [->|(c&r&->&[->| ->])]. Qed.

Lemma read_groups_text gs n i rest : Forall is_u16 gs -> (length gs <= n)%nat -> stops rest ->
  read_groups n i (group_text 58 i show_hex gs ++ rest) = (gs, false, rest).
Proof.
  intros Hgs. revert n i. induction Hgs as [|g gs Hg _ IH]; intros n i Hn Hr.
  - destruct n as [|n]; [done|]. cbn [group_text app read_groups].
    destruct Hr as [[->|(c&r&->&[->| ->])]|(r&->)]; destruct i, n; reflexivity.
  - destruct n as [|n]; [cbn in Hn; lia|]. cbn [group_text read_groups].
    rewrite <-!app_assoc, !read_separator_text.
    destruct (group_tail i gs rest Hr) as (H16&H10&H46). unfold is_u16 in Hg.
    assert (forall b : bool, (if b then read_ipv4_addr (show_hex g ++ group_text 58 (S i) show_hex gs ++ rest)
                     else None) = None) as ->.
    { intros []; [|done]. destruct (read_ipv4_addr _) as [r|] eqn:Hd; [|done]. exfalso.
      apply read_ipv4_dotted in Hd as (pre&rest'&Heq&Hpre).
      eapply group_not_dotted; [|exact H10|exact H46|exact Heq|exact Hpre].
      apply show_hex_digits; lia. }
    rewrite (read_number_show 16 ltac:(lia) 65535 4 true g) by (done || lia).
    rewrite IH by (done || cbn in Hn; lia). done.
Qed.

(** The run found is a run of zeros. *)
Definition zeros_at (gs : list Z) (z : Span) : Prop :=
  drop (span_start z) gs = replicate (span_len z) 0 ++ drop (span_start z + span_len z) gs.

Lemma zero_span_ok full gs i longest current :
  drop i full = gs -> zeros_at full longest -> zeros_at full current ->
  (span_len current = O \/ span_start current + span_len current = i)%nat ->
  zeros_at full (zero_span gs i longest current).
Proof.
  revert i longest current. induction gs as [|g gs IH]; intros i longest current Hd Hl Hc Hi; [done|].
  assert (drop (S i) full = gs) as Hd' by (rewrite <-Nat.add_1_r, <-drop_drop, Hd; done).
  cbn [zero_span]. destruct (Z.eqb_spec g 0) as [->|]; [|by apply IH; [..|left]].
  set (c' := {| span_start := _; span_len := _ |}).
  assert (zeros_at full c' /\ span_start c' + span_len c' = S i)%nat as [Hc' Hi'].
  { unfold zeros_at, c'. cbn [span_start span_len]. destruct (Nat.eqb_spec (span_len current) 0) as [H0|H0].
    - rewrite H0, Hd, Nat.add_1_r, Hd'. split; [done|lia].
    - destruct Hi as [|Hi]; [done|]. unfold zeros_at in Hc.
      replace (span_start current + S (span_len current))%nat with (S i) by lia.
      rewrite Hc, Hi, Hd, Hd', replicate_S_end, <-app_assoc. done. }
  apply IH; [done| |done|by right]. by case_match.
Qed.

Lemma segments_ok ip : ipv6_ok ip ->
  length (segments ip) = 8%nat /\ Forall is_u16 (segments ip) /\ of_segments (segments ip) = ip.
Proof.
  intros [Hl Hip].
  do 16 (destruct ip as [|? ip]; [rewrite ?len_cons, ?len_nil in Hl; lia|]).
  destruct ip; [|rewrite !len_cons in Hl; pose proof (len_nonneg ip); lia].
  rewrite !bytes_ok_cons in Hip. destruct_and? Hip. cbn. split; [done|].
  split; [repeat constructor; by apply of_be_u16|].
  by rewrite !be_hi_of_be, !be_lo_of_be by done.
Qed.

Lemma read_ipv6_mapped ip rest : ipv4_ok ip -> ends rest ->
  read_ipv6_addr ([58; 58; 102; 102; 102; 102; 58] ++ show_ipv4 ip ++ rest)
  = Some (replicate 10 0 ++ [255; 255] ++ ip, rest).
Proof.
  intros Hok He. pose proof (read_ipv4_show ip rest Hok (ends_no_digit rest He)) as Hr.
  destruct Hok as [Hl Hip]. unfold read_ipv6_addr.
  pose proof (read_groups_text [] 8 0 ([58; 58; 102; 102; 102; 102; 58] ++ show_ipv4 ip ++ rest)
    ltac:(done) ltac:(cbn; lia) ltac:(right; by eexists)) as Hh.
  cbn [group_text] in Hh. rewrite app_nil_l in Hh. rewrite Hh.
  cbn [length Nat.eqb read_given_char app mbind option_bind Z.eqb Pos.eqb Nat.sub].
  change (read_groups 7 0 (102 :: 102 :: 102 :: 102 :: 58 :: show_ipv4 ip ++ rest)) with
    (let '(gs, v4, s'') := read_groups 6 1 (58 :: show_ipv4 ip ++ rest) in (65535 :: gs, v4, s'')).
  cbn [read_groups Nat.leb read_separator read_given_char Z.eqb Pos.eqb mbind option_bind].
  rewrite Hr.
  destruct ip as [|a [|b [|c [|d [|? ip]]]]]; rewrite ?len_cons, ?len_nil in Hl; try lia;
    [|pose proof (len_nonneg ip); lia].
  rewrite !bytes_ok_cons in Hip. destruct Hip as (?&?&?&?&_).
  cbn. change (u16_of (zdrop 2 [a; b; c; d])) with (of_be c d).
  by rewrite !(be_hi_of_be a b), !(be_hi_of_be c d), !(be_lo_of_be a b), !(be_lo_of_be c d) by done.
Qed.

(** An address as it is printed is read back, up to its end. *)
Lemma read_ipv6_show ip rest : ipv6_ok ip -> ends rest ->
  read_ipv6_addr (show_ipv6 ip ++ rest) = Some (ip, rest).
Proof.
  intros Hok He. unfold show_ipv6, to_ipv4_mapped. destruct (decide _) as [Hm|Hm].
  - destruct Hok as [Hl Hip]. rewrite <-app_assoc, read_ipv6_mapped; [|split|done].
    + f_equal. f_equal. rewrite app_assoc, <-Hm. apply take_drop.
    + unfold len in *. rewrite length_drop. lia.
    + by apply Forall_drop.
  - destruct (segments_ok ip Hok) as (H8&Hgs&Hip).
    set (gs := segments ip) in *. set (z := zero_span gs 0 Span_default Span_default).
    unfold read_ipv6_addr. rewrite !show_list_text.
    destruct (Nat.ltb_spec 1 (span_len z)) as [Hz|_].
    + assert (zeros_at gs z) as Hza by (apply zero_span_ok; [reflexivity..|left; reflexivity]).
      unfold zeros_at in Hza. set (A := take (span_start z) gs). set (C := drop (span_start z + span_len z) gs) in *.
      assert (gs = A ++ replicate (span_len z) 0 ++ C) as Hsplit by (unfold A; by rewrite <-Hza, take_drop).
      pose proof (f_equal length Hsplit) as Hlen. rewrite !length_app, length_replicate in Hlen.
      rewrite Hsplit, !Forall_app in Hgs. destruct Hgs as (HA&_&HC). rewrite <-!app_assoc.
      rewrite read_groups_text by (done || lia || right; by eexists).
      rewrite (proj2 (Nat.eqb_neq _ _)) by lia.
      cbn [read_given_char app mbind option_bind Z.eqb Pos.eqb].
      rewrite read_groups_text by (done || lia || by left).
      replace (8 - length A - length C)%nat with (span_len z) by lia. by rewrite <-Hsplit, Hip.
    + rewrite read_groups_text by (done || lia || by left). by rewrite H8, Hip.
Qed.

Lemma parse_show_ipv6 ip : ipv6_ok ip -> parse_ipv6 (show_ipv6 ip) = Some ip.
Proof.
  intros Hok. unfold parse_ipv6, parse_with.
  pose proof (read_ipv6_show ip [] Hok (or_introl eq_refl)) as Hr. rewrite app_nil_r in Hr. by rewrite Hr.
Qed.

(** What is read is an address. *)
Lemma read_groups_len n i s gs v4 rest : read_groups n i s = (gs, v4, rest) -> (length gs <= n)%nat.
Proof.
  revert i s gs; induction n as [|n IH]; intros i s gs; cbn [read_groups]; [by intros [= <- <- <-]|].
  destruct (if (1 <=? n)%nat then read_separator 58 i read_ipv4_addr s else None) as [[ip s']|] eqn:H4.
  { destruct (Nat.leb_spec 1 n); [|done]. intros [= <- <- <-]. cbn. lia. }
  destruct (read_separator 58 i (read_number 16 65535 4 true) s) as [[g s']|]; [|intros [= <- <- <-]; cbn; lia].
  destruct (read_groups n (S i) s') as [[gs' v4'] s''] eqn:Hg. intros [= <- <- <-].
  apply IH in Hg. cbn. lia.
Qed.

Lemma of_segments_ok gs : length gs = 8%nat -> ipv6_ok (of_segments gs).
Proof.
  intros H8. split.
  - assert (forall l, length (of_segments l) = (2 * length l)%nat) as Hl
      by (intros l; induction l; cbn; lia).
    unfold len. rewrite Hl. lia.
  - clear H8. induction gs as [|g gs IH]; [by constructor|].
    cbn. rewrite !bytes_ok_cons. auto with wind.
Qed.

Lemma parse_ipv6_ok s ip : parse_ipv6 s = Some ip -> ipv6_ok ip.
Proof.
  unfold parse_ipv6, parse_with. destruct (read_ipv6_addr s) as [[ip' rest]|] eqn:Hr; [|done].
  intros Heq. assert (ip' = ip) as -> by (destruct rest; naive_solver). clear Heq.
  unfold read_ipv6_addr in Hr. destruct (read_groups 8 0 s) as [[h v4] s'] eqn:Hh.
  apply read_groups_len in Hh. destruct (Nat.eqb_spec (length h) 8) as [H8|H8].
  { simplify_eq. by apply of_segments_ok. }
  destruct v4; [done|].
  destruct (read_given_char 58 s') as [s1|]; [|done]. cbn in Hr.
  destruct (read_given_char 58 s1) as [s2|]; [|done]. cbn in Hr.
  destruct (read_groups (7 - length h) 0 s2) as [[t v4'] s3] eqn:Ht.
  apply read_groups_len in Ht. simplify_eq. apply of_segments_ok.
  rewrite !length_app, length_replicate. lia.
Qed.

(** ** Socket addresses are read back *)

Definition ip_addr_ok (a : IpAddr) : Prop :=
  match a with IpAddr_V4 ip => ipv4_ok ip | IpAddr_V6 ip => ipv6_ok ip end.

(** The text of an IPv6 socket address has no flow information. *)
Definition socket_addr_ok (a : SocketAddr) : Prop :=
  match a with
  | SocketAddr_V4 ip port => ipv4_ok ip /\ is_u16 port
  | SocketAddr_V6 ip port flowinfo scope_id =>
    ipv6_ok ip /\ is_u16 port /\ flowinfo = 0 /\ 0 <= scope_id < 2 ^ 32
  end.

Lemma read_port_show port : is_u16 port -> read_port (58 :: show port) = Some (port, []).
Proof.
  intros Hp. unfold is_u16 in Hp. unfold read_port. cbn.
  pose proof (read_number_shown 10 ltac:(lia) 65535 (len (show port)) true port []) as Hr.
  rewrite app_nil_r in Hr. apply Hr; [lia|lia|done|done].
Qed.

(** A number that goes on with other text, given room for all its digits. *)
Lemma read_scope_show scope rest : 0 <= scope < 2 ^ 32 -> no_digit 10 rest ->
  read_scope_id (37 :: show scope ++ rest) = Some (scope, rest).
Proof.
  intros Hs Hr. unfold read_scope_id. cbn [read_given_char Z.eqb Pos.eqb mbind option_bind].
  apply (read_number_shown 10); [lia|lia|lia| |done]. fold (show scope). rewrite len_app.
  pose proof (len_nonneg rest). lia.
Qed.

Lemma read_ipv4_not_dotted s : (forall pre rest, s = pre ++ 46 :: rest ->
  ~ Forall (fun b => is_Some (to_digit 10 b)) pre) -> read_ipv4_addr s = None.
Proof.
  intros H. destruct (read_ipv4_addr s) as [r|] eqn:Hr; [|done].
  apply read_ipv4_dotted in Hr as (pre&rest&Hs&Hp). by destruct (H pre rest Hs).
Qed.

Lemma parse_show_socket_addr a : socket_addr_ok a -> parse_socket_addr (show_socket_addr a) = Some a.
Proof.
  intros Hok. unfold parse_socket_addr, parse_with. destruct a as [ip port|ip port flow scope].
  - destruct Hok as [Hip Hp]. unfold show_socket_addr, read_socket_addr_v4.
    rewrite read_ipv4_show by done. cbn [mbind option_bind]. by rewrite read_port_show.
  - destruct Hok as (Hip&Hp&->&Hs). unfold show_socket_addr.
    replace (read_socket_addr_v4 _) with (@None (SocketAddr * bytes)).
    2: { symmetry. unfold read_socket_addr_v4. rewrite read_ipv4_not_dotted; [done|].
         intros [|b pre] rest; cbn; [done|]. intros [= <- _] Hf. inversion_clear Hf as [|? ? Hb _]. by destruct Hb. }
    unfold or_else, read_socket_addr_v6. cbn [read_given_char Z.eqb Pos.eqb mbind option_bind].
    destruct (Z.eqb_spec scope 0) as [->|Hne].
    + rewrite read_ipv6_show by (done || right; eauto). cbn [mbind option_bind].
      change (read_scope_id _) with (@None (Z * bytes)).
      cbn [default from_option id read_given_char Z.eqb Pos.eqb app mbind option_bind]. by rewrite read_port_show.
    + rewrite read_ipv6_show by (done || right; eauto).
      cbn [mbind option_bind]. rewrite <-app_comm_cons, read_scope_show by done.
      cbn [default from_option id read_given_char Z.eqb Pos.eqb app mbind option_bind]. by rewrite read_port_show.
Qed.

(** The text of an IPv6 address does not start like an IPv4 address. *)
Lemma show_ipv6_not_ipv4 ip : ipv6_ok ip -> read_ipv4_addr (show_ipv6 ip) = None.
Proof.
  intros Hok. apply read_ipv4_not_dotted. intros pre rest Heq Hpre. unfold show_ipv6 in Heq.
  assert (forall t, 58 :: t = pre ++ 46 :: rest -> False) as Hcolon.
  { intros t. destruct Hpre as [|b pre Hb _]; cbn; [done|]. intros [= <- _]. by destruct Hb. }
  destruct (to_ipv4_mapped ip); [by apply Hcolon in Heq|].
  destruct (segments_ok ip Hok) as (H8&Hgs&_). set (gs := segments ip) in *.
  assert (forall l r, Forall is_u16 l -> no_digit 10 r -> head r <> Some 46 ->
    group_text 58 0 show_hex l ++ r = pre ++ 46 :: rest -> False) as Hgroups.
  { intros [|g l] r Hl Hr H46 He.
    - eapply (group_not_dotted []); [constructor|exact Hr|exact H46|exact He|exact Hpre].
    - cbn [group_text app] in He. rewrite <-app_assoc in He. apply Forall_cons in Hl as [Hg _].
      assert (0 <= g) as Hg0 by (unfold is_u16 in Hg; lia).
      eapply group_not_dotted; [by apply show_hex_digits| | |exact He|exact Hpre];
        destruct l; done. }
  rewrite !show_list_text in Heq. case_match.
  - eapply Hgroups in Heq; [done|by apply Forall_take|done|done].
  - rewrite <-(app_nil_r (group_text _ _ _ _)) in Heq. by eapply Hgroups; [| | |exact Heq].
Qed.

Lemma parse_show_ip_addr a : ip_addr_ok a -> parse_ip_addr (show_ip_addr a) = Some a.
Proof.
  intros Hok. unfold parse_ip_addr, parse_with. destruct a as [ip|ip]; cbn [show_ip_addr].
  - pose proof (read_ipv4_show ip [] Hok I) as Hr. rewrite app_nil_r in Hr. by rewrite Hr.
  - rewrite show_ipv6_not_ipv4 by done. cbn [fmap option_fmap option_map or_else].
    pose proof (read_ipv6_show ip [] Hok (or_introl eq_refl)) as Hr. rewrite app_nil_r in Hr. by rewrite Hr.
Qed.
