(* ===== verification/TargetText.v ===== *)
(** * [TargetAddr] as text (wind-core/src/types.rs)

    [Display], [Serialize] and [Deserialize] of target addresses, over the
    text forms of [NetText], and when the text of an address reads back as
    the address. *)

From stdpp Require Import base list list_numbers strings.
From S2P Require Import Prelude Types NetText.

(** ** [core::str] *)

Definition starts_with (c : Z) (s : str) : bool := match s with b :: _ => b =? c | [] => false end.

(** [s.find(c)] for an ASCII character [c] *)
Fixpoint find_char (c : Z) (s : str) : option Z :=
  match s with
  | [] => None
  | b :: s' => if b =? c then Some 0 else (fun i => i + 1) <$> find_char c s'
  end.

(** [s.split(c).collect()]: one part more than there are separators. *)
Fixpoint split_char (c : Z) (s : str) : list str :=
  match s with
  | [] => [[]]
  | b :: s' =>
    if b =? c then [] :: split_char c s'
    else match split_char c s' with
         | [] => [[b]]
         | part :: parts => (b :: part) :: parts
         end
  end.

(** ** types.rs *)

Definition TargetAddr_to_string (a : TargetAddr) : str :=
  match a with
  | TargetAddr_Domain domain port => domain ++ [58] ++ show port
  | TargetAddr_IPv4 addr port => show_ipv4 addr ++ [58] ++ show port
  | TargetAddr_IPv6 addr port => [91] ++ show_ipv6 addr ++ [93; 58] ++ show port
  end.

(** [self.to_string().serialize(serializer)]: the string handed to serde. *)
Definition TargetAddr_serialize (a : TargetAddr) : str := TargetAddr_to_string a.

(** [s] is the string serde found; an error is its custom message.  The
    slices start and end next to ASCII characters, so only their bounds can
    panic. *)
Definition TargetAddr_deserialize (s : str) : exec (result TargetAddr string) :=
  if starts_with 91 s then
    match find_char 93 s with
    | None => Returns (Err "Invalid IPv6 address format, missing closing bracket"%string)
    | Some end_bracket =>
      if (len s <=? end_bracket + 1) || negb (starts_with 58 (zdrop (end_bracket + 1) s))
      then Returns (Err "Invalid IPv6 address format, expected [IPv6]:port"%string)
      else
        exec_bind (slice 1 end_bracket s) (fun ipv6_str =>
        exec_bind (slice (end_bracket + 2) (len s) s) (fun port_str =>
        match parse_ipv6 ipv6_str with
        | None => Returns (Err "Invalid IPv6 address"%string)
        | Some ipv6_addr =>
          match parse_u16 port_str with
          | None => Returns (Err "Invalid port number"%string)
          | Some port => Returns (Ok (TargetAddr_IPv6 ipv6_addr port))
          end
        end))
    end
  else
    match split_char 58 s with
    | [host; port_str] =>
      match parse_u16 port_str with
      | None => Returns (Err "Invalid port number"%string)
      | Some port =>
        match parse_ipv4 host with
        | Some ipv4 => Returns (Ok (TargetAddr_IPv4 ipv4 port))
        | None => Returns (Ok (TargetAddr_Domain host port))
        end
      end
    | _ => Returns (Err "Invalid address format, expected host:port"%string)
    end.

(** ** Lemmas *)

Lemma find_char_app c l r : c ∉ l -> find_char c (l ++ c :: r) = Some (len l).
Proof.
  induction l as [|b l IH]; intros Hl; cbn [app find_char].
  - by rewrite Z.eqb_refl.
  - rewrite not_elem_of_cons in Hl. destruct Hl as [Hb Hl].
    rewrite (proj2 (Z.eqb_neq _ _)), IH by done. cbn. rewrite len_cons. f_equal. lia.
Qed.

Lemma find_char_split c s i : find_char c s = Some i -> exists l r, s = l ++ c :: r /\ i = len l.
Proof.
  revert i; induction s as [|b s IH]; intros i; cbn; [done|].
  destruct (Z.eqb_spec b c) as [->|]; [intros [= <-]; by exists [], s|].
  destruct (find_char c s) as [j|]; [|done]. intros [= <-].
  destruct (IH j eq_refl) as (l&r&->&->). exists (b :: l), r. split; [done|]. rewrite len_cons. lia.
Qed.

Lemma split_char_free c l : c ∉ l -> split_char c l = [l].
Proof.
  induction l as [|b l IH]; [done|]. rewrite not_elem_of_cons. intros [Hb Hl]. cbn.
  rewrite (proj2 (Z.eqb_neq _ _)) by done. by rewrite IH.
Qed.

Lemma split_char_app c l r : c ∉ l -> split_char c (l ++ c :: r) = l :: split_char c r.
Proof.
  induction l as [|b l IH]; cbn [app split_char].
  - by rewrite Z.eqb_refl.
  - rewrite not_elem_of_cons. intros [Hb Hl]. rewrite (proj2 (Z.eqb_neq _ _)) by done. by rewrite IH.
Qed.

Lemma split_char_ne c s : split_char c s <> [].
Proof. destruct s as [|b s]; cbn; [done|]. by repeat case_match. Qed.

(** The parts, joined by the separator, are the input. *)
Lemma split_char_one c s p : split_char c s = [p] -> s = p.
Proof.
  revert p; induction s as [|b s IH]; intros p; cbn; [naive_solver|].
  destruct (b =? c); [intros [= _ H]; by apply split_char_ne in H|].
  destruct (split_char c s) as [|q qs] eqn:Hs; [by apply split_char_ne in Hs|].
  intros [= <- ->]. f_equal. by apply IH.
Qed.

Lemma split_char_two c s p q : split_char c s = [p; q] -> s = p ++ c :: q.
Proof.
  revert p; induction s as [|b s IH]; intros p; cbn; [done|].
  destruct (Z.eqb_spec b c) as [->|].
  - intros [= <- Hq]. by apply split_char_one in Hq as ->.
  - destruct (split_char c s) as [|p' ps] eqn:Hs; [by apply split_char_ne in Hs|].
    intros [= <- ->]. cbn. f_equal. by apply IH.
Qed.

(** The characters of printed numbers and addresses. *)
Lemma show_radix_chars radix n : 2 <= radix <= 16 -> 0 <= n ->
  Forall (fun b => 48 <= b < 48 + radix /\ b <= 57 \/ 97 <= b <= 102) (show_radix radix n).
Proof.
  intros Hr Hn. unfold show_radix. apply Forall_fmap.
  eapply Forall_impl; [apply (digit_values_range radix); lia|]. intros d Hd. cbn in *.
  unfold digit_char. destruct (Z.ltb_spec d 10); lia.
Qed.

Lemma group_text_chars (P : Z -> Prop) sep i shown l :
  P sep -> Forall (fun x => Forall P (shown x)) l -> Forall P (group_text sep i shown l).
Proof.
  intros Hsep Hl. revert i. induction Hl as [|x l Hx _ IH]; intros i; cbn; [done|].
  apply Forall_app. split; [by destruct i; repeat constructor|]. by apply Forall_app.
Qed.

Lemma show_ipv4_chars ip : Forall is_u8 ip -> Forall (fun b => b = 46 \/ 48 <= b <= 57 \/ 97 <= b <= 102) (show_ipv4 ip).
Proof.
  intros Hip. unfold show_ipv4. rewrite show_list_text. apply group_text_chars; [by left|].
  eapply Forall_impl; [exact Hip|]. intros o Ho. unfold is_u8 in Ho.
  eapply Forall_impl; [apply show_radix_chars; lia|]. cbn. lia.
Qed.

Lemma show_ipv6_chars ip : ipv6_ok ip ->
  Forall (fun b => b = 46 \/ b = 58 \/ 48 <= b <= 57 \/ 97 <= b <= 102) (show_ipv6 ip).
Proof.
  intros Hok. destruct (segments_ok ip Hok) as (_&Hgs&_). unfold show_ipv6, to_ipv4_mapped.
  assert (forall l, Forall is_u16 l -> Forall (fun b => b = 46 \/ b = 58 \/ 48 <= b <= 57 \/ 97 <= b <= 102)
    (show_list 58 show_hex l)) as Hl.
  { intros l Hl. rewrite show_list_text. apply group_text_chars; [by right; left|].
    eapply Forall_impl; [exact Hl|]. intros g Hg. unfold is_u16 in Hg.
    eapply Forall_impl; [apply show_radix_chars; lia|]. cbn. lia. }
  destruct (decide _).
  - apply Forall_app. split; [repeat constructor; lia|].
    eapply Forall_impl; [apply show_ipv4_chars, Forall_drop; apply Hok|]. cbn. lia.
  - case_match; [|by apply Hl]. rewrite !Forall_app. split_and!.
    + by apply Hl, Forall_take.
    + repeat constructor; lia.
    + by apply Hl, Forall_drop.
Qed.

Lemma not_in_chars (P : Z -> Prop) b l : Forall P l -> ~ P b -> b ∉ l.
Proof. intros Hl Hb Hin. apply Hb. by eapply Forall_forall in Hin. Qed.

Lemma show_no_colon p : 0 <= p -> 58 ∉ show p.
Proof. intros Hp. eapply not_in_chars; [apply show_radix_chars; lia|]. cbn. lia. Qed.

(** A printed port is parsed back. *)
Lemma parse_digits_values vs acc : Forall (fun d => 0 <= d < 10) vs -> 0 <= acc ->
  horner 10 acc vs <= 65535 -> parse_digits acc (digit_char <$> vs) = Some (horner 10 acc vs).
Proof.
  intros Hvs. revert acc. induction Hvs as [|d vs Hd Hvs IH]; intros acc Ha Hm; [done|].
  cbn [fmap list_fmap parse_digits]. rewrite to_digit_char by lia.
  pose proof (horner_mono 10 ltac:(lia) (acc * 10 + d) vs ltac:(lia)
    ltac:(eapply Forall_impl; [exact Hvs|]; cbn; lia)).
  change (horner 10 acc (d :: vs)) with (horner 10 (acc * 10 + d) vs) in *.
  rewrite (proj2 (Z.ltb_ge _ _)) by lia. apply IH; lia.
Qed.

Lemma parse_show_u16 p : is_u16 p -> parse_u16 (show p) = Some p.
Proof.
  unfold is_u16. intros Hp. unfold show, show_radix.
  pose proof (digit_values_range 10 ltac:(lia) 20 p ltac:(lia)) as Hr.
  pose proof (digit_values_horner 10 ltac:(lia) 20 p ltac:(cbn; lia) ltac:(done)) as Hh.
  pose proof (parse_digits_values _ 0 Hr ltac:(lia) ltac:(lia)) as Hd. rewrite Hh in Hd.
  destruct (digit_values 20 10 p) as [|d ds] eqn:He.
  { pose proof (digit_values_len 10 ltac:(lia) 20 5 p ltac:(cbn; lia) ltac:(done) ltac:(lia)) as Hl.
    rewrite He in Hl. cbn in Hl. lia. }
  inversion_clear Hr as [|? ? Hd0 _]. unfold parse_u16.
  change (digit_char <$> d :: ds) with (digit_char d :: (digit_char <$> ds)) in *.
  assert (48 <= digit_char d) by (unfold digit_char; case_match; zify_bool; lia).
  cbv beta iota. rewrite !(proj2 (Z.eqb_neq _ _)) by lia. done.
Qed.

Lemma parse_digits_bound s acc p : 0 <= acc <= 65535 -> parse_digits acc s = Some p -> is_u16 p.
Proof.
  revert acc; induction s as [|b s IH]; intros acc Ha; cbn.
  - intros [= <-]. unfold is_u16. lia.
  - destruct (to_digit 10 b) as [d|] eqn:Hd; [|done]. apply to_digit_range in Hd.
    destruct (Z.ltb_spec 65535 (acc * 10 + d)); [done|]. apply IH. lia.
Qed.

Lemma parse_u16_ok s p : parse_u16 s = Some p -> is_u16 p.
Proof.
  unfold parse_u16. intros H. repeat case_match; try done; by eapply parse_digits_bound, H; lia.
Qed.

(** The two forms of text, as the parser sees them. *)
Definition ipv6_result (t port_str : str) : result TargetAddr string :=
  match parse_ipv6 t with
  | None => Err "Invalid IPv6 address"%string
  | Some ip => match parse_u16 port_str with
               | None => Err "Invalid port number"%string
               | Some port => Ok (TargetAddr_IPv6 ip port)
               end
  end.

Definition host_result (host port_str : str) : result TargetAddr string :=
  match parse_u16 port_str with
  | None => Err "Invalid port number"%string
  | Some port => match parse_ipv4 host with
                 | Some ip => Ok (TargetAddr_IPv4 ip port)
                 | None => Ok (TargetAddr_Domain host port)
                 end
  end.

Lemma deserialize_bracketed t r : find_char 93 (91 :: t ++ 93 :: r) = Some (1 + len t) ->
  TargetAddr_deserialize (91 :: t ++ 93 :: r) =
  match r with
  | 58 :: port_str => Returns (ipv6_result t port_str)
  | _ => Returns (Err "Invalid IPv6 address format, expected [IPv6]:port"%string)
  end.
Proof.
  intros Hf. unfold TargetAddr_deserialize. cbn [starts_with Z.eqb Pos.eqb]. rewrite Hf.
  assert (zdrop (1 + len t + 1) (91 :: t ++ 93 :: r) = r) as Hd.
  { replace (91 :: t ++ 93 :: r) with ((91 :: t ++ [93]) ++ r) by (cbn; by rewrite <-app_assoc).
    apply zdrop_app_eq. rewrite len_cons, len_app, len_cons, len_nil. lia. }
  rewrite Hd. rewrite len_cons, len_app, len_cons. pose proof (len_nonneg t).
  destruct r as [|b r]; [by rewrite (proj2 (Z.leb_le _ _)) by (rewrite len_nil; lia)|].
  rewrite len_cons. pose proof (len_nonneg r). rewrite (proj2 (Z.leb_gt _ _)) by lia. cbn [orb starts_with].
  destruct (Z.eqb_spec b 58) as [->|Hb]; cbn [negb]; [|by repeat case_match].
  rewrite (slice_app [91] t (93 :: 58 :: r)) by (rewrite ?len_cons, ?len_nil; lia). cbn [exec_bind].
  replace (91 :: t ++ 93 :: 58 :: r) with ((91 :: t ++ [93; 58]) ++ r ++ [])
    by (cbn; by rewrite app_nil_r, <-app_assoc).
  rewrite slice_app by (rewrite ?len_cons, ?len_app, ?len_cons, ?len_nil; lia).
  cbn [exec_bind]. unfold ipv6_result. by repeat case_match.
Qed.

Lemma deserialize_host host port_str :
  starts_with 91 (host ++ 58 :: port_str) = false -> 58 ∉ host -> 58 ∉ port_str ->
  TargetAddr_deserialize (host ++ 58 :: port_str) = Returns (host_result host port_str).
Proof.
  intros Hs Hh Hp. unfold TargetAddr_deserialize, host_result.
  rewrite Hs, split_char_app, split_char_free by done. by repeat case_match.
Qed.

(** A name that reads back: no colon, no opening bracket, and not the text of
    an IPv4 address. *)
Definition text_safe (a : TargetAddr) : Prop :=
  match a with
  | TargetAddr_Domain d _ => 58 ∉ d /\ starts_with 91 d = false /\ parse_ipv4 d = None
  | _ => True
  end.

Lemma deserialize_show_ip a : TargetAddr_ok a -> (forall d p, a <> TargetAddr_Domain d p) ->
  TargetAddr_deserialize (TargetAddr_to_string a) = Returns (Ok a).
Proof.
  destruct a as [d p|ip p|ip p]; intros [Hok Hp] Hd; [by destruct (Hd d p)| |]; cbn [TargetAddr_to_string app].
  - pose proof (show_ipv4_chars ip (proj2 Hok)) as Hc.
    rewrite deserialize_host.
    + unfold host_result. by rewrite parse_show_u16, parse_show_ipv4.
    + destruct (show_ipv4 ip) as [|b l]; [done|]. inversion_clear Hc. cbn. apply Z.eqb_neq. lia.
    + eapply not_in_chars; [exact Hc|]. cbn. lia.
    + apply show_no_colon, Hp.
  - rewrite deserialize_bracketed.
    + unfold ipv6_result. by rewrite parse_show_u16, parse_show_ipv6.
    + rewrite <-(len_cons 91). apply (find_char_app 93 (91 :: show_ipv6 ip)).
      rewrite not_elem_of_cons. split; [lia|].
      eapply not_in_chars; [by apply show_ipv6_chars|]. cbn. lia.
Qed.

(** Only a bracket leads to an IPv6 address, and nothing else does. *)
Lemma deserialize_bracket s : starts_with 91 s = true -> exists r,
  TargetAddr_deserialize s = Returns r /\
  forall a, r = Ok a -> exists t port_str, s = 91 :: t ++ 93 :: 58 :: port_str /\
    r = ipv6_result t port_str.
Proof.
  intros Hs. destruct s as [|b s]; [done|]. cbn in Hs. apply Z.eqb_eq in Hs as ->.
  destruct (find_char 93 (91 :: s)) as [i|] eqn:Hf.
  - pose proof Hf as Hf'. apply find_char_split in Hf as (l&r&Heq&->). destruct l as [|x t]; [done|].
    cbn in Heq. simplify_eq. rewrite len_cons in Hf'. rewrite deserialize_bracketed by done.
    destruct r as [|b r]; [by eexists|]. destruct (decide (b = 58)) as [->|Hb].
    + eexists. split; [done|]. intros a Ha. by exists t, r.
    + exists (Err "Invalid IPv6 address format, expected [IPv6]:port"%string).
      split; [by repeat case_match|done].
  - exists (Err "Invalid IPv6 address format, missing closing bracket"%string).
    split; [|done]. unfold TargetAddr_deserialize. cbn [starts_with Z.eqb Pos.eqb].
    by rewrite Hf.
Qed.

Lemma split_char_elem c l r : c ∈ l -> exists p q ps, split_char c (l ++ c :: r) = p :: q :: ps /\ ps <> [].
Proof.
  intros Hin. induction l as [|b l IH]; [by apply elem_of_nil in Hin|]. cbn [app split_char].
  destruct (Z.eqb_spec b c) as [->|Hb].
  - destruct (decide (c ∈ l)) as [Hl|Hl].
    + destruct (IH Hl) as (p&q&ps&->&Hps). by eexists _, _, _.
    + rewrite split_char_app by done. destruct (split_char c r) eqn:Hr; [by apply split_char_ne in Hr|].
      by eexists _, _, _.
  - apply elem_of_cons in Hin as [->|Hin]; [done|]. destruct (IH Hin) as (p&q&ps&->&Hps).
    by eexists _, _, _.
Qed.

Lemma deserialize_text_safe a : TargetAddr_ok a -> text_safe a ->
  TargetAddr_deserialize (TargetAddr_serialize a) = Returns (Ok a).
Proof.
  intros Hok Hs. unfold TargetAddr_serialize. destruct a as [d p|ip p|ip p]; [|by apply deserialize_show_ip..].
  destruct Hok as [Hd Hp], Hs as (Hc&Hs&Hn). cbn [TargetAddr_to_string app].
  rewrite deserialize_host; [|by destruct d|done|apply show_no_colon, Hp].
  unfold host_result. by rewrite parse_show_u16, Hn.
Qed.

(** ** Theorems *)

(** C22: the text of an address.  What [Serialize] writes is read back by
    [Deserialize] as the same address: always for IP addresses, IPv6 in its
    compressed and mapped forms included, and for a domain name exactly when
    it has no colon, no leading bracket and is not spelled like an IPv4
    address. *)
Theorem target_text_roundtrip a : TargetAddr_ok a ->
  TargetAddr_deserialize (TargetAddr_serialize a) = Returns (Ok a) <-> text_safe a.
Proof.
  intros Hok. split; [|by apply deserialize_text_safe]. intros Heq. unfold TargetAddr_serialize in Heq.
  destruct a as [d p|ip p|ip p]; [|done..]. destruct Hok as [Hd Hp]. cbn [TargetAddr_to_string text_safe app] in *.
  pose proof (show_no_colon p (proj1 Hp)) as Hcp. destruct (starts_with 91 (d ++ 58 :: show p)) eqn:Hs.
  { destruct (deserialize_bracket _ Hs) as (r&Hr&Hform). rewrite Hr in Heq. injection Heq as ->.
    destruct (Hform _ eq_refl) as (t&ps&_&Hres). unfold ipv6_result in Hres. by repeat case_match. }
  assert (58 ∉ d) as Hc.
  { intros Hin. unfold TargetAddr_deserialize in Heq. rewrite Hs in Heq.
    destruct (split_char_elem 58 d (show p) Hin) as (a&b&ps&Hsp&Hne). rewrite Hsp in Heq.
    by destruct ps. }
  rewrite deserialize_host in Heq by done. injection Heq as Heq. unfold host_result in Heq.
  rewrite parse_show_u16 in Heq by done. split_and!; [done| |by case_match].
  by destruct d.
Qed.

(** C23: what configuration text is accepted.  [Deserialize] never panics;
    an address it returns is well formed, the text is a host and a port
    number separated by a colon, and the host is the name itself, an IPv4
    address or a bracketed IPv6 address. *)
Theorem deserialize_sound s : str_ok s ->
  exists r, TargetAddr_deserialize s = Returns r /\
  forall a, r = Ok a -> TargetAddr_ok a /\
    exists host port_str port, s = host ++ [58] ++ port_str /\ parse_u16 port_str = Some port /\
      match a with
      | TargetAddr_Domain d p => p = port /\ d = host
      | TargetAddr_IPv4 ip p => p = port /\ parse_ipv4 host = Some ip
      | TargetAddr_IPv6 ip p => p = port /\ exists t, host = 91 :: t ++ [93] /\ parse_ipv6 t = Some ip
      end.
Proof.
  intros [Hb Hu]. destruct (starts_with 91 s) eqn:Hs.
  - destruct (deserialize_bracket s Hs) as (r&Hr&Hform). exists r. split; [done|]. intros a Ha.
    destruct (Hform a Ha) as (t&ps&->&Hres). rewrite Ha in Hres. unfold ipv6_result in Hres.
    destruct (parse_ipv6 t) as [ip|] eqn:Hip; [|done]. destruct (parse_u16 ps) as [p|] eqn:Hp; [|done].
    simplify_eq. split; [split; [by eapply parse_ipv6_ok|by eapply parse_u16_ok]|].
    exists (91 :: t ++ [93]), ps, p. cbn. rewrite <-app_assoc. naive_solver.
  - unfold TargetAddr_deserialize. rewrite Hs.
    destruct (split_char 58 s) as [|host [|ps [|]]] eqn:Hsp; try by eexists; split.
    destruct (parse_u16 ps) as [p|] eqn:Hp; [|by eexists; split].
    apply split_char_two in Hsp as ->. apply Forall_app in Hb as [Hb _].
    destruct (parse_ipv4 host) as [ip|] eqn:Hip; eexists; (split; [done|]); intros a [= <-].
    + split; [split; [by eapply parse_ipv4_ok|by eapply parse_u16_ok]|]. by exists host, ps, p.
    + split; [|by exists host, ps, p]. split; [|by eapply parse_u16_ok].
      split; [done|]. eapply utf8_valid_cut; [exact Hu|lia].
Qed.

(** ** Witnesses *)

Lemma target_text_roundtrip_witness :
  TargetAddr_serialize (TargetAddr_IPv6 [32; 1; 13; 184; 0; 0; 0; 0; 0; 0; 0; 0; 0; 0; 0; 1] 5678)
    = [91; 50; 48; 48; 49; 58; 100; 98; 56; 58; 58; 49; 93; 58; 53; 54; 55; 56] /\
  TargetAddr_deserialize [91; 50; 48; 48; 49; 58; 100; 98; 56; 58; 58; 49; 93; 58; 53; 54; 55; 56]
    = Returns (Ok (TargetAddr_IPv6 [32; 1; 13; 184; 0; 0; 0; 0; 0; 0; 0; 0; 0; 0; 0; 1] 5678)).
Proof.
  split; [reflexivity|].
  apply (target_text_roundtrip
    (TargetAddr_IPv6 [32; 1; 13; 184; 0; 0; 0; 0; 0; 0; 0; 0; 0; 0; 0; 1] 5678)); [by_compute|exact I].
Defined.

(** "127.0.0.1:8080" *)
Lemma deserialize_sound_witness :
  let s := [49; 50; 55; 46; 48; 46; 48; 46; 49; 58; 56; 48; 56; 48] in
  TargetAddr_deserialize s = Returns (Ok (TargetAddr_IPv4 [127; 0; 0; 1] 8080)) /\
  TargetAddr_ok (TargetAddr_IPv4 [127; 0; 0; 1] 8080).
Proof.
  destruct (deserialize_sound [49; 50; 55; 46; 48; 46; 48; 46; 49; 58; 56; 48; 56; 48]
    ltac:(by_compute)) as (r&Hr&Hok).
  assert (r = Ok (TargetAddr_IPv4 [127; 0; 0; 1] 8080)) as Heq
    by (vm_compute in Hr; injection Hr; intros <-; reflexivity).
  split; [rewrite <-Heq; exact Hr|exact (proj1 (Hok _ Heq))].
Defined.
