(* ===== verification/Codec.v ===== *)
(** * TUIC errors and the codec interface (wind-tuic/src/proto/error.rs)

    [ProtoError] and the contract every [Decoder]/[Encoder] pair of
    wind-tuic/src/proto promises its callers, [FrameCodec]: it is stated
    against the wire image of a value and discharged by Header.v, Cmd.v and
    Addr.v; Proto.v and the datagram paths are proved against it. *)

From stdpp Require Import base list.
From S2P Require Import Prelude.

(** Backtraces are not modelled; [FailParseDomain] keeps the raw bytes its
    hex string encodes, [Io] and [ReadToEnd] are never built by the codecs. *)
Inductive ProtoError :=
| VersionDismatch (expect current : u8)
| UnknownCommandType (value : u8)
| UnknownAddressType (value : u8)
| FailParseDomain (raw : bytes)
| DomainTooLong (domain : str)
| BytesRemaining
| Io
| NumericOverflow (field num : str)
| ReadToEnd.

(** [decode_eof] is the same wrapper in all three codecs:
    [match self.decode(buf) { Ok(None) => BytesRemainingSnafu.fail(), v => v }] *)
Definition decode_eof_of {A} (decode : M bytes ProtoError (option A)) :
    M bytes ProtoError (option A) :=
  m_match decode (fun r => match r with
                           | Ok None => m_throw BytesRemaining
                           | v => m_of_result v
                           end).

(** The contract of a codec whose values [a] with [wf a] travel as [wire a]. *)
Class FrameCodec {A : Type} (wf : A -> Prop) (wire : A -> bytes)
    (encode : A -> M bytes ProtoError unit)
    (decode : M bytes ProtoError (option A)) : Prop := {
  (** encoding appends the wire image *)
  fc_encode a dst : wf a -> encode a dst = Returns (Ok (), dst ++ wire a);
  (** decoding takes exactly one image off the front *)
  fc_decode a rest : wf a -> decode (wire a ++ rest) = Returns (Ok (Some a), rest);
  (** a truncated image asks for more bytes and consumes nothing *)
  fc_partial a p q : wf a -> wire a = p ++ q -> q <> [] -> decode p = Returns (Ok None, p);
  (** a decoded value was on the wire, and is well formed *)
  fc_sound src a rest : bytes_ok src -> decode src = Returns (Ok (Some a), rest) ->
    wf a /\ src = wire a ++ rest;
  (** no input makes the decoder panic *)
  fc_total src : bytes_ok src -> no_panic (decode src)
}.

Section frame_codec.
Context {A : Type} {wf : A -> Prop} {wire : A -> bytes}
        {encode : A -> M bytes ProtoError unit}
        {decode : M bytes ProtoError (option A)}
        `{!FrameCodec wf wire encode decode}.

(** At end of input a truncated image is reported, not awaited. *)
Lemma decode_eof_partial a p q :
  wf a -> wire a = p ++ q -> q <> [] -> decode_eof_of decode p = Returns (Err BytesRemaining, p).
Proof.
  intros Hwf Hw Hq. unfold decode_eof_of, m_match. by rewrite (fc_partial a p q).
Qed.

(** Two values with a common continuation of their images are equal: images
    are prefix free. *)
Lemma wire_prefix_free a b p q :
  wf a -> wf b -> wire a ++ p = wire b ++ q -> a = b /\ p = q.
Proof.
  intros Ha Hb Heq. pose proof (fc_decode a p Ha) as H1.
  rewrite Heq, (fc_decode b q Hb) in H1. by simplify_eq.
Qed.
End frame_codec.
