(* ===== verification/Header.v ===== *)
(** * The TUIC command header (wind-tuic/src/proto/header.rs) *)

From stdpp Require Import base list.
From S2P Require Import Prelude BytesCrate Codec.

(** wind-tuic/src/proto/mod.rs *)
Definition VER : u8 := 5.

Inductive CmdType :=
| CmdType_Auth
| CmdType_Connect
| CmdType_Packet
| CmdType_Dissociate
| CmdType_Heartbeat
| CmdType_Other (value : u8).
#[export] Instance CmdType_eq_dec : EqDecision CmdType.
Proof. solve_decision. Defined.

(** [FromPrimitive] and [IntoPrimitive] as derived from the discriminants. *)
Definition CmdType_from_u8 (b : u8) : CmdType :=
  if b =? 0 then CmdType_Auth
  else if b =? 1 then CmdType_Connect
  else if b =? 2 then CmdType_Packet
  else if b =? 3 then CmdType_Dissociate
  else if b =? 4 then CmdType_Heartbeat
  else CmdType_Other b.

Definition u8_from_CmdType (c : CmdType) : u8 :=
  match c with
  | CmdType_Auth => 0
  | CmdType_Connect => 1
  | CmdType_Packet => 2
  | CmdType_Dissociate => 3
  | CmdType_Heartbeat => 4
  | CmdType_Other v => v
  end.

Record Header := { hdr_version : u8; hdr_command : CmdType }.

Definition Header_new (command : CmdType) : Header :=
  {| hdr_version := VER; hdr_command := command |}.

Definition is_other (c : CmdType) : bool :=
  match c with CmdType_Other _ => true | _ => false end.

Section header.
Context {B : BytesOps}.

Definition HeaderCodec_decode : M bytes ProtoError (option Header) :=
  let! src := m_get in
  if len src <? 2 then m_ret None
  else
    let! ver := m_op get_u8 in
    m_ensure (ver =? VER) (VersionDismatch VER ver) ;;!
    let! b := m_op get_u8 in
    let cmd := CmdType_from_u8 b in
    m_ensure (negb (is_other cmd)) (UnknownCommandType (u8_from_CmdType cmd)) ;;!
    m_ret (Some (Header_new cmd)).

Definition HeaderCodec_decode_eof : M bytes ProtoError (option Header) :=
  decode_eof_of HeaderCodec_decode.

Definition HeaderCodec_encode (item : Header) : M bytes ProtoError unit :=
  m_modify (reserve 2) ;;!
  m_modify (put_u8 (hdr_version item)) ;;!
  m_modify (put_u8 (u8_from_CmdType (hdr_command item))) ;;!
  m_ret ().
End header.

(** The wire image of SPEC.md section 4.1, and the headers that have one. *)
Definition header_wire (h : Header) : bytes :=
  [hdr_version h; u8_from_CmdType (hdr_command h)].
Definition header_wf (h : Header) : Prop :=
  hdr_version h = VER /\ is_other (hdr_command h) = false.

Lemma CmdType_from_into c : is_other c = false -> CmdType_from_u8 (u8_from_CmdType c) = c.
Proof. by destruct c. Qed.
Lemma CmdType_into_from b : u8_from_CmdType (CmdType_from_u8 b) = b.
Proof. unfold CmdType_from_u8. split_ifs; zify_bool; cbn; lia. Qed.
#[export] Hint Rewrite CmdType_into_from : wind.

Section laws.
Context {B : BytesOps} {BL : BytesLaws B}.

(** The decoder as a function of its input, every branch. *)
Lemma header_decode_eq src :
  HeaderCodec_decode src =
  match src with
  | v :: c :: rest =>
    if negb (v =? VER) then Returns (Err (VersionDismatch VER v), c :: rest)
    else if is_other (CmdType_from_u8 c) then Returns (Err (UnknownCommandType c), rest)
    else Returns (Ok (Some (Header_new (CmdType_from_u8 c))), rest)
  | _ => Returns (Ok None, src)
  end.
Proof.
  unfold HeaderCodec_decode; m_unfold.
  destruct src as [|v [|c rest]]; [done..|].
  rewrite !len_cons. pose proof (len_nonneg rest).
  rewrite (proj2 (Z.ltb_ge _ _)) by lia. rewrite get_u8_cons. cbn.
  destruct (v =? VER); cbn; [|done]. rewrite get_u8_cons. cbn.
  rewrite CmdType_into_from. by destruct (is_other _).
Qed.

#[export] Instance header_codec :
  FrameCodec header_wf header_wire HeaderCodec_encode HeaderCodec_decode.
Proof.
  split.
  - intros [v c] dst _. unfold HeaderCodec_encode; m_unfold.
    rewrite reserve_id, !put_u8_app, <-app_assoc. done.
  - intros [v c] rest [Hv Hc]; cbn in Hv, Hc; subst v. rewrite header_decode_eq; cbn.
    rewrite CmdType_from_into by done. by rewrite Hc.
  - intros h p q _ Hw Hq. rewrite header_decode_eq.
    destruct p as [|? [|? p]]; [done..|]. destruct p, q; naive_solver.
  - intros src h rest _ Hd. rewrite header_decode_eq in Hd.
    destruct src as [|v [|c src]]; [done..|].
    destruct (v =? VER) eqn:Hv; [|done]. cbn in Hd.
    destruct (is_other _) eqn:Hc; simplify_eq. apply Z.eqb_eq in Hv as ->.
    unfold header_wf, header_wire; cbn. by rewrite CmdType_into_from.
  - intros src _. rewrite header_decode_eq. unfold no_panic.
    destruct src as [|v [|c src]]; [done..|]. by split_ifs.
Qed.
End laws.
