(* ===== verification/Cmd.v ===== *)
(** * TUIC commands (wind-tuic/src/proto/cmd.rs) *)

From stdpp Require Import base list.
From S2P Require Import Prelude BytesCrate Codec Header.

Inductive Command {U : UuidOps} :=
| Command_Auth (uuid : Uuid) (token : bytes)
| Command_Connect
| Command_Packet (assoc_id pkt_id : u16) (frag_total frag_id : u8) (size : u16)
| Command_Dissociate (assoc_id : u16)
| Command_Heartbeat.
Arguments Command : clear implicits.
Arguments Command {U}.

#[export] Instance Command_eq_dec {U : UuidOps} : EqDecision Command.
Proof. solve_decision. Defined.

(** wind-tuic/src/proto/header.rs: [impl From<&Command> for CmdType] *)
Definition CmdType_from_Command {U : UuidOps} (value : Command) : CmdType :=
  match value with
  | Command_Auth _ _ => CmdType_Auth
  | Command_Connect => CmdType_Connect
  | Command_Packet _ _ _ _ _ => CmdType_Packet
  | Command_Dissociate _ => CmdType_Dissociate
  | Command_Heartbeat => CmdType_Heartbeat
  end.

Section cmd.
Context {B : BytesOps} {U : UuidOps}.

(** [CmdCodec(cmd_type)] *)
Definition CmdCodec_decode (cmd_type : CmdType) : M bytes ProtoError (option Command) :=
  let! src := m_get in
  match cmd_type with
  | CmdType_Auth =>
    if len src <? 16 + 32 then m_ret None
    else
      let! uuid := m_op (copy_to_slice 16) in
      let uuid := uuid_from_bytes uuid in
      let! token := m_op (copy_to_slice 32) in
      m_ret (Some (Command_Auth uuid token))
  | CmdType_Connect => m_ret (Some Command_Connect)
  | CmdType_Packet =>
    if len src <? 8 then m_ret None
    else
      let! assoc_id := m_op get_u16 in
      let! pkt_id := m_op get_u16 in
      let! frag_total := m_op get_u8 in
      let! frag_id := m_op get_u8 in
      let! size := m_op get_u16 in
      m_ret (Some (Command_Packet assoc_id pkt_id frag_total frag_id size))
  | CmdType_Dissociate =>
    if len src <? 2 then m_ret None
    else
      let! assoc_id := m_op get_u16 in
      m_ret (Some (Command_Dissociate assoc_id))
  | CmdType_Heartbeat => m_ret (Some Command_Heartbeat)
  | CmdType_Other value => m_throw (UnknownCommandType value)
  end.

Definition CmdCodec_decode_eof (cmd_type : CmdType) : M bytes ProtoError (option Command) :=
  decode_eof_of (CmdCodec_decode cmd_type).

(** The codec's own [CmdType] is not consulted when encoding. *)
Definition CmdCodec_encode (cmd_type : CmdType) (item : Command) : M bytes ProtoError unit :=
  match item with
  | Command_Auth uuid token =>
    m_modify (reserve (16 + 32)) ;;!
    m_modify (put_slice (uuid_as_bytes uuid)) ;;!
    m_modify (put_slice token)
  | Command_Connect => m_ret ()
  | Command_Packet assos_id pkt_id frag_total frag_id size =>
    m_modify (reserve 8) ;;!
    m_modify (put_u16 assos_id) ;;!
    m_modify (put_u16 pkt_id) ;;!
    m_modify (put_u8 frag_total) ;;!
    m_modify (put_u8 frag_id) ;;!
    m_modify (put_u16 size)
  | Command_Dissociate assos_id =>
    m_modify (reserve 2) ;;!
    m_modify (put_u16 assos_id)
  | Command_Heartbeat => m_ret ()
  end ;;!
  m_ret ().

(** The wire image of SPEC.md section 5. *)
Definition command_wire (c : Command) : bytes :=
  match c with
  | Command_Auth uuid token => uuid_as_bytes uuid ++ token
  | Command_Connect => []
  | Command_Packet assoc_id pkt_id frag_total frag_id size =>
    [be_hi assoc_id; be_lo assoc_id; be_hi pkt_id; be_lo pkt_id;
     frag_total; frag_id; be_hi size; be_lo size]
  | Command_Dissociate assoc_id => [be_hi assoc_id; be_lo assoc_id]
  | Command_Heartbeat => []
  end.

(** What Rust's types say of a command of type [ty]. *)
Definition command_wf (ty : CmdType) (c : Command) : Prop :=
  CmdType_from_Command c = ty /\
  match c with
  | Command_Auth _ token => len token = 32 /\ bytes_ok token
  | Command_Packet a p t f s => is_u16 a /\ is_u16 p /\ is_u8 t /\ is_u8 f /\ is_u16 s
  | Command_Dissociate a => is_u16 a
  | _ => True
  end.

#[export] Instance command_wf_dec ty c : Decision (command_wf ty c).
Proof. unfold command_wf; destruct c; apply _. Defined.

(** Encoded sizes (SPEC.md section 8.2 without the two header bytes). *)
Definition command_size (c : Command) : Z :=
  match c with
  | Command_Auth _ _ => 48
  | Command_Connect | Command_Heartbeat => 0
  | Command_Packet _ _ _ _ _ => 8
  | Command_Dissociate _ => 2
  end.
End cmd.

Section laws.
Context {B : BytesOps} {BL : BytesLaws B} {U : UuidOps} {UL : UuidLaws U}.

Lemma command_wire_len ty c : command_wf ty c -> len (command_wire c) = command_size c.
Proof.
  intros [_ Hwf]. destruct c; cbn in *; try done.
  rewrite len_app, uuid_len. lia.
Qed.

(** The three decoders that read, as functions of their input. *)
Lemma auth_decode_eq src :
  CmdCodec_decode CmdType_Auth src =
  if len src <? 48 then Returns (Ok None, src)
  else Returns (Ok (Some (Command_Auth (uuid_from_bytes (ztake 16 src)) (ztake 32 (zdrop 16 src)))),
                zdrop 48 src).
Proof.
  unfold CmdCodec_decode; m_unfold. change (16 + 32) with 48.
  destruct (len src <? 48) eqn:Hl; [done|]. zify_bool.
  rewrite copy_to_slice_le by lia. cbn.
  rewrite copy_to_slice_le by (rewrite len_zdrop; lia). cbn. by rewrite zdrop_zdrop.
Qed.

Lemma packet_decode_eq src :
  CmdCodec_decode CmdType_Packet src =
  match src with
  | a1 :: a0 :: p1 :: p0 :: t :: f :: s1 :: s0 :: rest =>
    Returns (Ok (Some (Command_Packet (of_be a1 a0) (of_be p1 p0) t f (of_be s1 s0))), rest)
  | _ => Returns (Ok None, src)
  end.
Proof.
  unfold CmdCodec_decode; m_unfold.
  destruct src as [|? [|? [|? [|? [|? [|? [|? [|? rest]]]]]]]]; [done..|].
  rewrite !len_cons. pose proof (len_nonneg rest).
  rewrite (proj2 (Z.ltb_ge _ _)) by lia.
  by repeat (rewrite get_u16_cons || rewrite get_u8_cons; cbn).
Qed.

Lemma dissociate_decode_eq src :
  CmdCodec_decode CmdType_Dissociate src =
  match src with
  | a1 :: a0 :: rest => Returns (Ok (Some (Command_Dissociate (of_be a1 a0))), rest)
  | _ => Returns (Ok None, src)
  end.
Proof.
  unfold CmdCodec_decode; m_unfold.
  destruct src as [|? [|? rest]]; [done..|].
  rewrite !len_cons. pose proof (len_nonneg rest).
  rewrite (proj2 (Z.ltb_ge _ _)) by lia. by rewrite get_u16_cons.
Qed.

Lemma command_encode_ok ty ty' c dst :
  command_wf ty' c -> CmdCodec_encode ty c dst = Returns (Ok (), dst ++ command_wire c).
Proof.
  intros _. unfold CmdCodec_encode; destruct c; m_unfold; cbn;
    by rewrite ?reserve_id, ?put_slice_app, ?put_u16_app, ?put_u8_app, ?put_u16_app,
      <-?app_assoc, ?app_nil_r.
Qed.

Lemma command_decode_wire ty c rest :
  command_wf ty c -> CmdCodec_decode ty (command_wire c ++ rest) = Returns (Ok (Some c), rest).
Proof.
  intros [<- Hwf]. destruct c as [u t| |a p t f s|a|]; cbn [CmdType_from_Command]; [|done| | |done].
  - destruct Hwf as [Ht _]. rewrite auth_decode_eq. cbn [command_wire].
    rewrite !len_app, uuid_len, Ht. pose proof (len_nonneg rest).
    rewrite (proj2 (Z.ltb_ge _ _)) by lia. rewrite <-!app_assoc.
    rewrite (ztake_app_eq 16) by (by rewrite uuid_len).
    rewrite (zdrop_app_eq 16) by (by rewrite uuid_len).
    rewrite (ztake_app_eq 32) by done. rewrite uuid_from_as, app_assoc.
    rewrite zdrop_app_eq by (rewrite len_app, uuid_len; lia). done.
  - destruct Hwf as (?&?&?&?&?). rewrite packet_decode_eq; cbn. by rewrite !of_be_split.
  - rewrite dissociate_decode_eq; cbn. by rewrite of_be_split.
Qed.

Lemma command_decode_partial ty c p q :
  command_wf ty c -> command_wire c = p ++ q -> q <> [] ->
  CmdCodec_decode ty p = Returns (Ok None, p).
Proof.
  intros Hwf Hw Hq.
  assert (len p < command_size c) as Hlt.
  { rewrite <-(command_wire_len ty c), Hw, len_app by done.
    destruct q; [done|]. rewrite len_cons. pose proof (len_nonneg q). lia. }
  destruct Hwf as [<- _]; destruct c; cbn [CmdType_from_Command command_size] in *;
    try (pose proof (len_nonneg p); lia).
  - rewrite auth_decode_eq. by rewrite (proj2 (Z.ltb_lt _ _)).
  - rewrite packet_decode_eq. do 8 (destruct p as [|? p]; [done|]).
    rewrite !len_cons in Hlt. pose proof (len_nonneg p); lia.
  - rewrite dissociate_decode_eq. do 2 (destruct p as [|? p]; [done|]).
    rewrite !len_cons in Hlt. pose proof (len_nonneg p); lia.
Qed.

Lemma command_decode_sound ty src c rest :
  bytes_ok src -> CmdCodec_decode ty src = Returns (Ok (Some c), rest) ->
  command_wf ty c /\ src = command_wire c ++ rest.
Proof.
  intros Hok Hd. destruct ty; try (by unfold CmdCodec_decode in Hd; m_unfold; simplify_eq).
  - rewrite auth_decode_eq in Hd. destruct (len src <? 48) eqn:Hl; simplify_eq. zify_bool.
    assert (len (ztake 16 src) = 16) by (apply len_ztake; lia).
    assert (len (ztake 32 (zdrop 16 src)) = 32) by (apply len_ztake; [lia|rewrite len_zdrop; lia]).
    split; [by split; [|split; [|auto with wind]]|]. cbn [command_wire].
    rewrite uuid_as_from by auto with wind.
    rewrite <-(ztake_zdrop 16 src) at 1. rewrite <-app_assoc. f_equal.
    rewrite <-(ztake_zdrop 32 (zdrop 16 src)) at 1. f_equal. by rewrite zdrop_zdrop.
  - rewrite packet_decode_eq in Hd.
    destruct src as [|a1 [|a0 [|p1 [|p0 [|t [|f [|s1 [|s0 src]]]]]]]]; [done..|].
    simplify_eq. rewrite !bytes_ok_cons in Hok. destruct Hok as (?&?&?&?&?&?&?&?&?).
    cbn [command_wire app].
    rewrite !be_hi_of_be, !be_lo_of_be by done.
    split; [|done]. split_and!; auto with wind.
  - rewrite dissociate_decode_eq in Hd.
    destruct src as [|a1 [|a0 src]]; [done..|].
    simplify_eq. rewrite !bytes_ok_cons in Hok. destruct Hok as (?&?&?).
    cbn [command_wire app]. rewrite be_hi_of_be, be_lo_of_be by done.
    split; [split; [done|cbn; auto with wind]|done].
Qed.

#[export] Instance cmd_codec ty :
  FrameCodec (command_wf ty) command_wire (CmdCodec_encode ty) (CmdCodec_decode ty).
Proof.
  split.
  - intros c dst. apply command_encode_ok.
  - apply command_decode_wire.
  - apply command_decode_partial.
  - apply command_decode_sound.
  - intros src _. unfold no_panic. destruct ty; try done.
    + rewrite auth_decode_eq. by split_ifs.
    + rewrite packet_decode_eq. do 8 (destruct src as [|? src]; [done|]). done.
    + rewrite dissociate_decode_eq. do 2 (destruct src as [|? src]; [done|]). done.
Qed.
End laws.
