(* ===== verification/Addr.v ===== *)
(** * TUIC addresses (wind-tuic/src/proto/addr.rs) *)

From stdpp Require Import base list.
From S2P Require Import Prelude BytesCrate Types Codec.

Inductive Address :=
| Address_None
| Address_Domain (domain : str) (port : u16)
| Address_IPv4 (ip : Ipv4Addr) (port : u16)
| Address_IPv6 (ip : Ipv6Addr) (port : u16).
#[export] Instance Address_eq_dec : EqDecision Address.
Proof. solve_decision. Defined.

Inductive AddressType :=
| AddressType_None
| AddressType_Domain
| AddressType_IPv4
| AddressType_IPv6
| AddressType_Other (value : u8).

Definition AddressType_from_u8 (b : u8) : AddressType :=
  if b =? 255 then AddressType_None
  else if b =? 0 then AddressType_Domain
  else if b =? 1 then AddressType_IPv4
  else if b =? 2 then AddressType_IPv6
  else AddressType_Other b.

Definition u8_from_AddressType (t : AddressType) : u8 :=
  match t with
  | AddressType_None => 255
  | AddressType_Domain => 0
  | AddressType_IPv4 => 1
  | AddressType_IPv6 => 2
  | AddressType_Other v => v
  end.

(** [impl From<TargetAddr> for Address] *)
Definition Address_from_TargetAddr (value : TargetAddr) : Address :=
  match value with
  | TargetAddr_Domain s port => Address_Domain s port
  | TargetAddr_IPv4 addr port => Address_IPv4 addr port
  | TargetAddr_IPv6 addr port => Address_IPv6 addr port
  end.

Section addr.
Context {B : BytesOps}.

Definition AddressCodec_decode : M bytes ProtoError (option Address) :=
  let! src := m_get in
  if bool_decide (src = []) then m_ret None
  else
    let! b := m_lift (index 0 src) in
    let addr_type := AddressType_from_u8 b in
    m_ensure (negb match addr_type with AddressType_Other _ => true | _ => false end)
             (UnknownAddressType (u8_from_AddressType addr_type)) ;;!
    match addr_type with
    | AddressType_None =>
      m_op (advance 1) ;;!
      m_ret (Some Address_None)
    | AddressType_IPv4 =>
      if len src <? 1 + 4 + 2 then m_ret None
      else
        m_op (advance 1) ;;!
        let! octets := m_op (copy_to_slice 4) in
        let! port := m_op get_u16 in
        m_ret (Some (Address_IPv4 octets port))
    | AddressType_IPv6 =>
      if len src <? 1 + 16 + 2 then m_ret None
      else
        m_op (advance 1) ;;!
        let! octets := m_op (copy_to_slice 16) in
        let! port := m_op get_u16 in
        m_ret (Some (Address_IPv6 octets port))
    | AddressType_Domain =>
      if len src <? 1 + 1 then m_ret None
      else
        let! domain_len := m_lift (index 1 src) in
        if len src <? 1 + 1 + domain_len + 2 then m_ret None
        else
          m_op (advance 2) ;;!
          let! src' := m_get in
          let! domain := m_lift (slice_to domain_len src') in
          m_ensure (utf8_valid domain) (FailParseDomain domain) ;;!
          m_op (advance domain_len) ;;!
          let! port := m_op get_u16 in
          m_ret (Some (Address_Domain domain port))
    | AddressType_Other _ => m_panic
    end.

Definition AddressCodec_decode_eof : M bytes ProtoError (option Address) :=
  decode_eof_of AddressCodec_decode.

Definition AddressCodec_encode (item : Address) : M bytes ProtoError unit :=
  match item with
  | Address_None =>
    m_modify (reserve 1) ;;!
    m_modify (put_u8 (u8_from_AddressType AddressType_None))
  | Address_IPv4 ip port =>
    m_modify (reserve (1 + 4 + 2)) ;;!
    m_modify (put_u8 (u8_from_AddressType AddressType_IPv4)) ;;!
    m_modify (put_slice ip) ;;!
    m_modify (put_u16 port)
  | Address_IPv6 ip port =>
    m_modify (reserve (1 + 16 + 2)) ;;!
    m_modify (put_u8 (u8_from_AddressType AddressType_IPv6)) ;;!
    m_modify (put_slice ip) ;;!
    m_modify (put_u16 port)
  | Address_Domain domain port =>
    if 255 <? len domain then m_throw (DomainTooLong domain)
    else
      m_modify (reserve (1 + 1 + len domain + 2)) ;;!
      m_modify (put_u8 (u8_from_AddressType AddressType_Domain)) ;;!
      m_modify (put_u8 (as_u8 (len domain))) ;;!
      m_modify (put_slice domain) ;;!
      m_modify (put_u16 port)
  end ;;!
  m_ret ().
End addr.

(** The wire image of SPEC.md section 6. *)
Definition address_wire (a : Address) : bytes :=
  match a with
  | Address_None => [255]
  | Address_Domain d p => 0 :: len d :: d ++ [be_hi p; be_lo p]
  | Address_IPv4 ip p => 1 :: ip ++ [be_hi p; be_lo p]
  | Address_IPv6 ip p => 2 :: ip ++ [be_hi p; be_lo p]
  end.

(** What Rust's types say of an address, and the domain length limit. *)
Definition address_wf (a : Address) : Prop :=
  match a with
  | Address_None => True
  | Address_Domain d p => str_ok d /\ len d <= 255 /\ is_u16 p
  | Address_IPv4 ip p => ipv4_ok ip /\ is_u16 p
  | Address_IPv6 ip p => ipv6_ok ip /\ is_u16 p
  end.
#[export] Instance address_wf_dec a : Decision (address_wf a).
Proof. destruct a; cbn; apply _. Defined.

(** The sizes of SPEC.md section 8.3. *)
Definition address_size (a : Address) : Z :=
  match a with
  | Address_None => 1
  | Address_Domain d _ => 1 + 1 + len d + 2
  | Address_IPv4 _ _ => 1 + 4 + 2
  | Address_IPv6 _ _ => 1 + 16 + 2
  end.

Lemma address_wire_len a : address_wf a -> len (address_wire a) = address_size a.
Proof.
  destruct a; cbn; unfold ipv4_ok, ipv6_ok; intros; rewrite ?len_cons, ?len_app, ?len_cons;
    change (len (@nil Z)) with 0; lia.
Qed.

Lemma AddressType_into_from b : u8_from_AddressType (AddressType_from_u8 b) = b.
Proof. unfold AddressType_from_u8. split_ifs; zify_bool; cbn; lia. Qed.

Section laws.
Context {B : BytesOps} {BL : BytesLaws B}.

(** The decoder as a function of its input, every branch. *)
Lemma address_decode_eq src : (forall n d, src = 0 :: n :: d -> 0 <= n) ->
  AddressCodec_decode src =
  match src with
  | [] => Returns (Ok None, src)
  | t :: r =>
    match AddressType_from_u8 t with
    | AddressType_None => Returns (Ok (Some Address_None), r)
    | AddressType_IPv4 =>
      if len r <? 6 then Returns (Ok None, src)
      else Returns (Ok (Some (Address_IPv4 (ztake 4 r) (u16_of (zdrop 4 r)))), zdrop 6 r)
    | AddressType_IPv6 =>
      if len r <? 18 then Returns (Ok None, src)
      else Returns (Ok (Some (Address_IPv6 (ztake 16 r) (u16_of (zdrop 16 r)))), zdrop 18 r)
    | AddressType_Domain =>
      match r with
      | [] => Returns (Ok None, src)
      | n :: d =>
        if len d <? n + 2 then Returns (Ok None, src)
        else if utf8_valid (ztake n d)
        then Returns (Ok (Some (Address_Domain (ztake n d) (u16_of (zdrop n d)))), zdrop (n + 2) d)
        else Returns (Err (FailParseDomain (ztake n d)), d)
      end
    | AddressType_Other v => Returns (Err (UnknownAddressType v), src)
    end
  end.
Proof.
  intros Hok. unfold AddressCodec_decode. rewrite run_get, run_if. destruct src as [|t r]; [done|].
  rewrite bool_decide_false by done. erewrite run_lift by done. cbv zeta.
  rewrite run_ensure, AddressType_into_from.
  pose proof (len_nonneg r). rewrite len_cons.
  destruct (AddressType_from_u8 t) eqn:Ht; cbn [negb].
  - rewrite (run_op _ _ _ () r); [done|]. by rewrite advance_le by (rewrite len_cons; lia).
  - rewrite run_if. destruct r as [|n d]; [done|]. rewrite len_cons in *.
    pose proof (AddressType_into_from t) as Ht'. rewrite Ht in Ht'; cbn in Ht'; subst t.
    pose proof (Hok n d eq_refl). pose proof (len_nonneg d).
    rewrite (proj2 (Z.ltb_ge _ _)) by lia. erewrite run_lift by done. rewrite run_if.
    replace (1 + (1 + len d) <? 1 + 1 + n + 2) with (len d <? n + 2) by lia.
    destruct (len d <? n + 2) eqn:Hd; [done|]. zify_bool.
    rewrite (run_op _ _ _ () d) by (by rewrite advance_le by (rewrite !len_cons; lia)).
    rewrite run_get, (run_lift _ _ _ (ztake n d)), run_ensure
      by (unfold slice_to; by rewrite (proj2 (Z.leb_le _ _)) by lia).
    destruct (utf8_valid _); [|done].
    erewrite run_op by (apply advance_le; lia).
    erewrite run_op by (apply get_u16_le; rewrite len_zdrop; lia).
    by rewrite zdrop_zdrop.
  - rewrite run_if. replace (1 + len r <? 1 + 4 + 2) with (len r <? 6) by lia.
    destruct (len r <? 6) eqn:Hr; [done|]. zify_bool.
    rewrite (run_op _ _ _ () r) by (by rewrite advance_le by (rewrite !len_cons; lia)).
    erewrite run_op by (apply copy_to_slice_le; lia).
    erewrite run_op by (apply get_u16_le; rewrite len_zdrop; lia). by rewrite zdrop_zdrop.
  - rewrite run_if. replace (1 + len r <? 1 + 16 + 2) with (len r <? 18) by lia.
    destruct (len r <? 18) eqn:Hr; [done|]. zify_bool.
    rewrite (run_op _ _ _ () r) by (by rewrite advance_le by (rewrite !len_cons; lia)).
    erewrite run_op by (apply copy_to_slice_le; lia).
    erewrite run_op by (apply get_u16_le; rewrite len_zdrop; lia). by rewrite zdrop_zdrop.
  - pose proof (AddressType_into_from t) as <-. by rewrite Ht.
Qed.

Lemma address_encode_ok a dst :
  address_wf a -> AddressCodec_encode a dst = Returns (Ok (), dst ++ address_wire a).
Proof.
  intros Hwf. unfold AddressCodec_encode. destruct a as [|d p|ip p|ip p]; cbn in Hwf.
  2: { rewrite (proj2 (Z.ltb_ge _ _)) by lia. m_unfold. cbn.
       replace (as_u8 (len d)) with (len d).
       2: { unfold as_u8. pose proof (len_nonneg d). rewrite Z.mod_small; lia. }
       by rewrite reserve_id, put_u16_app, put_slice_app, !put_u8_app, <-!app_assoc. }
  all: m_unfold; cbn;
    by rewrite reserve_id, ?put_u16_app, ?put_slice_app, ?put_u8_app, <-?app_assoc.
Qed.

(** A domain that does not fit its length byte is refused, nothing written. *)
Lemma address_encode_too_long d p dst :
  255 < len d -> AddressCodec_encode (Address_Domain d p) dst = Returns (Err (DomainTooLong d), dst).
Proof. intros. unfold AddressCodec_encode. by rewrite (proj2 (Z.ltb_lt _ _)). Qed.

Lemma address_wire_ok a : address_wf a -> bytes_ok (address_wire a).
Proof.
  destruct a as [|d p|ip p|ip p]; cbn; [intros _; by_compute| | |];
    rewrite ?bytes_ok_cons, ?bytes_ok_app, ?bytes_ok_cons.
  - intros ([? _]&?&?). pose proof (len_nonneg d).
    split_and!; auto with wind; unfold is_u8; lia || constructor.
  - intros ([_ ?]&?). split_and!; auto with wind; unfold is_u8; lia || constructor.
  - intros ([_ ?]&?). split_and!; auto with wind; unfold is_u8; lia || constructor.
Qed.

(** The fixed-size IP arms of the decoder on [ip ++ port ++ rest]. *)
Lemma ip_port_split n ip p rest : len ip = n -> is_u16 p ->
  let r := (ip ++ [be_hi p; be_lo p]) ++ rest in
  n + 2 <= len r /\ ztake n r = ip /\ u16_of (zdrop n r) = p /\ zdrop (n + 2) r = rest.
Proof.
  intros Hn Hp r; subst r. pose proof (len_nonneg rest). split_and!.
  - rewrite !len_app, Hn. change (len [be_hi p; be_lo p]) with 2. lia.
  - rewrite <-app_assoc. by apply ztake_app_eq.
  - rewrite <-app_assoc, zdrop_app_eq by done. by apply u16_of_be.
  - apply zdrop_app_eq. rewrite len_app, Hn. done.
Qed.

Lemma address_decode_wire a rest :
  address_wf a -> AddressCodec_decode (address_wire a ++ rest) = Returns (Ok (Some a), rest).
Proof.
  intros Hwf. rewrite address_decode_eq.
  2: { intros n d. destruct a; cbn; intros; simplify_eq. apply len_nonneg. }
  destruct a as [|d p|ip p|ip p]; cbn [address_wire app]; [done|..]; cbn in Hwf.
  - destruct Hwf as ([? Hu]&?&?).
    destruct (ip_port_split (len d) d p rest) as (?&->&->&->); [done..|]. cbn.
    rewrite (proj2 (Z.ltb_ge _ _)) by lia. by rewrite Hu.
  - destruct Hwf as ([? _]&?).
    destruct (ip_port_split 4 ip p rest) as (?&->&->&Hd); [done..|]. cbn.
    rewrite (proj2 (Z.ltb_ge _ _)) by lia. by change 6 with (4 + 2); rewrite Hd.
  - destruct Hwf as ([? _]&?).
    destruct (ip_port_split 16 ip p rest) as (?&->&->&Hd); [done..|]. cbn.
    rewrite (proj2 (Z.ltb_ge _ _)) by lia. by change 18 with (16 + 2); rewrite Hd.
Qed.

Lemma bytes_ok_domain_len src n d : bytes_ok src -> src = 0 :: n :: d -> 0 <= n.
Proof. intros Hok ->. rewrite !bytes_ok_cons in Hok. destruct Hok as (_&[? _]&_). lia. Qed.

Lemma address_decode_partial a p q :
  address_wf a -> address_wire a = p ++ q -> q <> [] ->
  AddressCodec_decode p = Returns (Ok None, p).
Proof.
  intros Hwf Hw Hq.
  assert (bytes_ok p) as Hok.
  { pose proof (address_wire_ok a Hwf) as H. rewrite Hw in H. by apply bytes_ok_app in H as []. }
  assert (len p < address_size a) as Hlt.
  { rewrite <-address_wire_len, Hw, len_app by done.
    destruct q as [|? q]; [done|]. rewrite len_cons. pose proof (len_nonneg q). lia. }
  rewrite address_decode_eq by eauto using bytes_ok_domain_len.
  destruct p as [|t r]; [done|]. rewrite len_cons in Hlt. pose proof (len_nonneg r).
  destruct a as [|d pt|ip pt|ip pt]; cbn [address_wire app] in Hw; cbn [address_size] in Hlt; [lia|..]; simplify_eq; cbn [AddressType_from_u8 Z.eqb Pos.eqb].
  - destruct r as [|n d']; [done|]. cbn [app] in *. simplify_eq. rewrite len_cons in Hlt.
    by rewrite (proj2 (Z.ltb_lt _ _)) by lia.
  - by rewrite (proj2 (Z.ltb_lt _ _)) by lia.
  - by rewrite (proj2 (Z.ltb_lt _ _)) by lia.
Qed.

Lemma ip_port_join n s : 0 <= n -> n + 2 <= len s -> bytes_ok s ->
  is_u16 (u16_of (zdrop n s)) /\
  s = (ztake n s ++ [be_hi (u16_of (zdrop n s)); be_lo (u16_of (zdrop n s))]) ++ zdrop (n + 2) s.
Proof.
  intros Hn Hl Hok. destruct (u16_of_split (zdrop n s)) as [Hu Hs];
    [rewrite len_zdrop; lia | auto with wind |].
  split; [done|]. rewrite <-(ztake_zdrop n s) at 1. rewrite <-app_assoc. f_equal.
  rewrite Hs at 1. cbn. by rewrite zdrop_zdrop by lia.
Qed.

Lemma address_decode_sound src a rest :
  bytes_ok src -> AddressCodec_decode src = Returns (Ok (Some a), rest) ->
  address_wf a /\ src = address_wire a ++ rest.
Proof.
  intros Hok Hd. rewrite address_decode_eq in Hd by eauto using bytes_ok_domain_len.
  destruct src as [|t r]; [done|]. pose proof (AddressType_into_from t) as Ht.
  apply bytes_ok_cons in Hok as [_ Hok].
  destruct (AddressType_from_u8 t); cbn in Ht; subst t; [by simplify_eq| | | |done].
  - destruct r as [|n d]; [done|]. apply bytes_ok_cons in Hok as [[Hn Hn'] Hok].
    destruct (len d <? n + 2) eqn:Hl; [done|]. zify_bool.
    destruct (utf8_valid _) eqn:Hu; simplify_eq.
    destruct (ip_port_join n d) as [? Hs]; [done..|]. cbn. rewrite len_ztake by lia.
    split; [|by rewrite Hs at 1].
    change (2 ^ 8) with 256 in Hn'.
    split_and!; [split; auto with wind | lia | done].
  - destruct (len r <? 6) eqn:Hl; simplify_eq. zify_bool.
    destruct (ip_port_join 4 r) as [? Hs]; [lia..|done|]. cbn.
    split; [|by rewrite Hs at 1]. split; [split; [apply len_ztake; lia | auto with wind] | done].
  - destruct (len r <? 18) eqn:Hl; simplify_eq. zify_bool.
    destruct (ip_port_join 16 r) as [? Hs]; [lia..|done|]. cbn.
    split; [|by rewrite Hs at 1]. split; [split; [apply len_ztake; lia | auto with wind] | done].
Qed.

#[export] Instance addr_codec :
  FrameCodec address_wf address_wire AddressCodec_encode AddressCodec_decode.
Proof.
  split; [apply address_encode_ok | apply address_decode_wire | apply address_decode_partial
         | apply address_decode_sound |].
  intros src Hok. rewrite address_decode_eq by eauto using bytes_ok_domain_len.
  unfold no_panic. by repeat case_match.
Qed.
End laws.
