(* ===== verification/Quinn.v ===== *)
(** * The QUIC transport, as an interface (the [quinn] crate)

    [quinn] is not part of the repository.  A connection is modelled by the
    history of the calls the sources make on it, each with whether it
    succeeded; [QuinnOps] is an oracle that answers a call from the history
    so far, arbitrarily; the datagram limit is such an answer too, so it can
    change from one packet to the next but not while one is being cut.  Transport errors are only ever displayed or wrapped
    by the sources, so their payload is dropped.  [QuinnLaws] states what RFC
    5705 and the crate say of the keying-material exporter. *)

From stdpp Require Import base list strings.
From S2P Require Import Prelude Codec.

(** [eyre::Report], the crate's [Error] type. *)
Inductive Report :=
| Report_Proto (e : ProtoError)
| Report_Quinn (what : string)
| Report_Io (what : string)
| Report_Msg (msg : string).

Inductive QuicCall :=
| OpenUni
| OpenBi
| WriteChunk (stream : nat) (chunk : bytes)
| WriteAllChunks (stream : nat) (chunks : list bytes)
| SendDatagram (data : bytes).

Abbreviation QHist := (list (QuicCall * bool)) (only parsing).

Class QuinnOps := {
  q_open_uni : QHist -> option nat;
  q_open_bi : QHist -> option nat;
  q_write_chunk : QHist -> nat -> bytes -> bool;
  q_write_all_chunks : QHist -> nat -> list bytes -> bool;
  q_send_datagram : QHist -> bytes -> bool;
  q_max_datagram_size : QHist -> option usize;
  (** [export_keying_material(&mut [0; n], label, context)] *)
  q_export_keying_material : Z -> bytes -> bytes -> option bytes
}.

Class QuinnLaws (Q : QuinnOps) : Prop := {
  q_ekm_len n label context out : 0 <= n ->
    q_export_keying_material n label context = Some out -> len out = n /\ bytes_ok out
}.

Section ops.
Context {Q : QuinnOps}.

Definition q_call {A} (call : QuicCall) (ans : QHist -> option A) : M QHist Report A :=
  fun h => match ans h with
           | Some a => Returns (Ok a, h ++ [(call, true)])
           | None => Returns (Err (Report_Quinn "connection error"), h ++ [(call, false)])
           end.

Definition guard_unit (b : bool) : option unit := if b then Some () else None.

Definition open_uni : M QHist Report nat := q_call OpenUni q_open_uni.
Definition open_bi : M QHist Report nat := q_call OpenBi q_open_bi.
Definition write_chunk (sid : nat) (chunk : bytes) : M QHist Report unit :=
  q_call (WriteChunk sid chunk) (fun h => guard_unit (q_write_chunk h sid chunk)).
Definition write_all_chunks (sid : nat) (chunks : list bytes) : M QHist Report unit :=
  q_call (WriteAllChunks sid chunks) (fun h => guard_unit (q_write_all_chunks h sid chunks)).
Definition send_datagram (data : bytes) : M QHist Report unit :=
  q_call (SendDatagram data) (fun h => guard_unit (q_send_datagram h data)).
Definition max_datagram_size : M QHist Report (option usize) :=
  fun h => Returns (Ok (q_max_datagram_size h), h).
End ops.

(** The datagrams a history delivered to the transport. *)
Definition sent_datagrams (h : QHist) : list bytes :=
  omap (fun e => match e with (SendDatagram d, true) => Some d | _ => None end) h.

Lemma sent_datagrams_app h k : sent_datagrams (h ++ k) = sent_datagrams h ++ sent_datagrams k.
Proof. apply omap_app. Qed.

(** ** A transport that accepts everything *)
Section loopback.
Context (mtu : option usize) (ekm : Z -> bytes -> bytes -> option bytes).

Definition loopback : QuinnOps := {|
  q_open_uni h := Some (length h);
  q_open_bi h := Some (length h);
  q_write_chunk _ _ _ := true;
  q_write_all_chunks _ _ _ := true;
  q_send_datagram _ _ := true;
  q_max_datagram_size _ := mtu;
  q_export_keying_material := ekm
|}.
End loopback.

(** A toy exporter for evaluation: it folds its inputs into [n] bytes. *)
Definition toy_ekm (n : Z) (label context : bytes) : option bytes :=
  Some (replicate (Z.to_nat n) (as_u8 (foldr Z.add 0 (label ++ context)))).

Lemma loopback_laws mtu : QuinnLaws (loopback mtu toy_ekm).
Proof.
  split. intros n label context out Hn [= <-]. split.
  - unfold len. rewrite length_replicate. lia.
  - apply Forall_replicate. unfold is_u8, as_u8. apply Z.mod_pos_bound. lia.
Qed.
