(* ===== verification/Io.v ===== *)
(** * Bidirectional copy (wind-core/src/io.rs)

    [copy_io] relays between two byte streams with a [select!] over both
    reads.  The streams and the scheduler are the environment: a script of
    which read completed, with what, and how the write it triggered ended. *)

From stdpp Require Import base list strings.
From S2P Require Import Prelude.

Definition BUFFER_SIZE : usize := 16 * 1024.

Inductive IoError := io_error (what : string).

(** [write_all] either completes or fails after writing a prefix. *)
Inductive WriteOutcome :=
| Written
| WriteFailed (written : Z) (err : IoError).

(** The read that completed first, its result, and the outcome of the
    [write_all] that follows a non-empty read. *)
Inductive IoEvent :=
| ReadA (r : result bytes IoError) (w : WriteOutcome)
| ReadB (r : result bytes IoError) (w : WriteOutcome).

Record CopyState := {
  a2b_num : usize;
  b2a_num : usize;
  (** what the peers have received so far *)
  to_b : bytes;
  to_a : bytes
}.

Definition copy_init : CopyState := {| a2b_num := 0; b2a_num := 0; to_b := []; to_a := [] |}.

(** One iteration: [inl] continues the loop, [inr] is a [break] with
    [last_err]. *)
Definition copy_step (s : CopyState) (ev : IoEvent) : CopyState + (CopyState * option IoError) :=
  match ev with
  | ReadA (Ok data) w =>
    if len data =? 0 then inr (s, None)
    else
      let s' := {| a2b_num := a2b_num s + len data; b2a_num := b2a_num s;
                   to_b := to_b s ++ data; to_a := to_a s |} in
      match w with
      | Written => inl s'
      | WriteFailed n err =>
        inr ({| a2b_num := a2b_num s'; b2a_num := b2a_num s;
                to_b := to_b s ++ ztake n data; to_a := to_a s |}, Some err)
      end
  | ReadA (Err err) _ => inr (s, Some err)
  | ReadB (Ok data) w =>
    if len data =? 0 then inr (s, None)
    else
      let s' := {| a2b_num := a2b_num s; b2a_num := b2a_num s + len data;
                   to_b := to_b s; to_a := to_a s ++ data |} in
      match w with
      | Written => inl s'
      | WriteFailed n err =>
        inr ({| a2b_num := a2b_num s; b2a_num := b2a_num s';
                to_b := to_b s; to_a := to_a s ++ ztake n data |}, Some err)
      end
  | ReadB (Err err) _ => inr (s, Some err)
  end.

(** The loop: [None] while the script ends before a [break]. *)
Fixpoint copy_loop (s : CopyState) (script : list IoEvent) : option (CopyState * option IoError) :=
  match script with
  | [] => None
  | ev :: script' =>
    match copy_step s ev with
    | inl s' => copy_loop s' script'
    | inr out => Some out
    end
  end.

Definition copy_io (script : list IoEvent) : option (usize * usize * option IoError) :=
  match copy_loop copy_init script with
  | Some (s, last_err) => Some (a2b_num s, b2a_num s, last_err)
  | None => None
  end.

(** ** What the relay does *)

(** The events before the one that ends the loop. *)
Definition is_data (ev : IoEvent) : bool :=
  match ev with
  | ReadA (Ok d) Written | ReadB (Ok d) Written => negb (len d =? 0)
  | _ => false
  end.

Definition read_a (ev : IoEvent) : bytes := match ev with ReadA (Ok d) _ => d | _ => [] end.
Definition read_b (ev : IoEvent) : bytes := match ev with ReadB (Ok d) _ => d | _ => [] end.
Definition from_a (script : list IoEvent) : bytes := concat (read_a <$> script).
Definition from_b (script : list IoEvent) : bytes := concat (read_b <$> script).

Lemma copy_loop_data s pre rest : forallb is_data pre = true ->
  copy_loop s (pre ++ rest) =
  copy_loop {| a2b_num := a2b_num s + len (from_a pre); b2a_num := b2a_num s + len (from_b pre);
               to_b := to_b s ++ from_a pre; to_a := to_a s ++ from_b pre |} rest.
Proof.
  revert s; induction pre as [|ev pre IH]; intros s.
  - intros _. cbn. rewrite !app_nil_r, !len_nil, !Z.add_0_r. by destruct s.
  - cbn [forallb]. intros [Hev Hpre]%andb_true_iff.
    destruct ev as [[d|e] [|]|[d|e] [|]]; try done; cbn in Hev |- *;
      destruct (len d =? 0); try done; rewrite IH by done; unfold from_a, from_b; cbn; f_equal;
      rewrite ?len_app, ?app_assoc, ?Z.add_assoc; done.
Qed.

Lemma copy_step_stop s ev : is_data ev = false ->
  exists out err, copy_step s ev = inr (out, err) /\
    to_b s `prefix_of` to_b out /\ to_b out `prefix_of` to_b s ++ read_a ev /\
    to_a s `prefix_of` to_a out /\ to_a out `prefix_of` to_a s ++ read_b ev /\
    a2b_num out = a2b_num s + len (read_a ev) /\ b2a_num out = b2a_num s + len (read_b ev) /\
    (err = None -> to_b out = to_b s /\ to_a out = to_a s /\ read_a ev = [] /\ read_b ev = []).
Proof.
  intros Hev.
  assert (forall n (l d : bytes), l ++ ztake n d `prefix_of` l ++ d) as Hpre.
  { intros n l d. apply prefix_app. exists (zdrop n d). by rewrite ztake_zdrop. }
  destruct ev as [[d|e] w|[d|e] w]; cbn in Hev |- *;
    try (do 2 eexists; split; [done|]; cbn; rewrite ?app_nil_r, ?len_nil, ?Z.add_0_r; by split_and!);
    destruct (len d =? 0) eqn:Hd;
    try (apply Z.eqb_eq, len_zero_inv in Hd as ->; do 2 eexists; split; [done|];
         cbn; rewrite ?app_nil_r, ?len_nil, ?Z.add_0_r; by split_and!);
    (destruct w; [done|]); do 2 eexists; (split; [done|]); cbn;
    rewrite ?app_nil_r, ?len_nil, ?Z.add_0_r; split_and!; try done;
    by apply prefix_app_r.
Qed.

(** A script splits at its first event that is not a relayed chunk. *)
Lemma script_split script :
  forallb is_data script = true \/
  exists pre ev rest, script = pre ++ ev :: rest /\ forallb is_data pre = true /\ is_data ev = false.
Proof.
  induction script as [|ev script IH]; [by left|]. cbn.
  destruct (is_data ev) eqn:Hev.
  - destruct IH as [IH|(pre&ev'&rest&->&Hp&He)]; [by left|right].
    exists (ev :: pre), ev', rest. cbn. by rewrite Hev.
  - right. by exists [], ev, script.
Qed.

Lemma copy_loop_stop s pre ev rest :
  forallb is_data pre = true -> is_data ev = false ->
  exists out, copy_loop s (pre ++ ev :: rest) = Some out /\
    copy_step {| a2b_num := a2b_num s + len (from_a pre); b2a_num := b2a_num s + len (from_b pre);
                 to_b := to_b s ++ from_a pre; to_a := to_a s ++ from_b pre |} ev = inr out.
Proof.
  intros Hp He. rewrite copy_loop_data by done. cbn [copy_loop].
  edestruct copy_step_stop as (out&err&Hs&_); [done|]. rewrite Hs. eauto.
Qed.

Lemma from_a_snoc pre ev : from_a (pre ++ [ev]) = from_a pre ++ read_a ev.
Proof. unfold from_a. rewrite fmap_app, concat_app. cbn. by rewrite app_nil_r. Qed.
Lemma from_b_snoc pre ev : from_b (pre ++ [ev]) = from_b pre ++ read_b ev.
Proof. unfold from_b. rewrite fmap_app, concat_app. cbn. by rewrite app_nil_r. Qed.

(** C20: the relay terminates exactly when an end of stream or an error
    occurs on either side: it never stops on relayed data and never goes on
    after anything else. *)
Theorem copy_io_terminates script :
  copy_io script = None <-> forallb is_data script = true.
Proof.
  unfold copy_io. split.
  - intros Hn. destruct (script_split script) as [?|(pre&ev&rest&->&Hp&He)]; [done|].
    destruct (copy_loop_stop copy_init pre ev rest Hp He) as ([??]&Hs&_). by rewrite Hs in Hn.
  - intros Hd. rewrite <-(app_nil_r script). by rewrite copy_loop_data.
Qed.

(** A script between peers that send [sa] and [sb]: each read takes the next
    piece of what its peer sent, at most a buffer of it, and reports the end of
    the stream only when all of it has been read. *)
Inductive feeds : bytes -> bytes -> list IoEvent -> Prop :=
| feeds_nil sa sb : feeds sa sb []
| feeds_a sa sb d w script : len d <= BUFFER_SIZE -> (d = [] -> sa = []) ->
    feeds sa sb script -> feeds (d ++ sa) sb (ReadA (Ok d) w :: script)
| feeds_b sa sb d w script : len d <= BUFFER_SIZE -> (d = [] -> sb = []) ->
    feeds sa sb script -> feeds sa (d ++ sb) (ReadB (Ok d) w :: script)
| feeds_err_a sa sb e w script : feeds sa sb script -> feeds sa sb (ReadA (Err e) w :: script)
| feeds_err_b sa sb e w script : feeds sa sb script -> feeds sa sb (ReadB (Err e) w :: script).

Lemma feeds_split sa sb pre ev rest : feeds sa sb (pre ++ ev :: rest) ->
  exists sa' sb', sa = from_a pre ++ sa' /\ sb = from_b pre ++ sb' /\ feeds sa' sb' (ev :: rest).
Proof.
  revert sa sb; induction pre as [|e pre IH]; intros sa sb H; [by exists sa, sb|].
  cbn [app] in H. inversion H; subst;
    match goal with F : feeds _ _ (pre ++ _) |- _ => destruct (IH _ _ F) as (sa'&sb'&->&->&?) end;
    exists sa', sb'; unfold from_a, from_b; cbn; by rewrite <-?app_assoc.
Qed.

(** What the event that ends the relay leaves unread. *)
Lemma feeds_stop sa sb ev rest : feeds sa sb (ev :: rest) ->
  read_a ev `prefix_of` sa /\ read_b ev `prefix_of` sb /\
  (forall w, ev = ReadA (Ok []) w -> sa = []) /\ (forall w, ev = ReadB (Ok []) w -> sb = []).
Proof.
  inversion 1; subst; cbn; split_and!; try done; try apply prefix_nil; try (by eexists);
    intros ? [= ->]; cbn; naive_solver.
Qed.

(** Without an error the loop was ended by an end of stream. *)
Lemma copy_step_eof s ev out : copy_step s ev = inr (out, None) ->
  exists w, ev = ReadA (Ok []) w \/ ev = ReadB (Ok []) w.
Proof.
  destruct ev as [[d|e] w|[d|e] w]; cbn; try done; destruct (len d =? 0) eqn:Hd;
    try (destruct w; done); apply Z.eqb_eq, len_zero_inv in Hd as ->; eauto.
Qed.

(** One byte at a time, then the end of the stream. *)
Definition drain_a (sa : bytes) : list IoEvent :=
  ((fun x => ReadA (Ok [x]) Written) <$> sa) ++ [ReadA (Ok []) Written].

Lemma drain_a_feeds sa sb : feeds sa sb (drain_a sa).
Proof.
  unfold drain_a. induction sa as [|x sa IH]; cbn.
  - by apply (feeds_a [] sb []); [|by intros|constructor].
  - by apply (feeds_a sa sb [x]).
Qed.

Lemma drain_a_run sa : copy_loop copy_init (drain_a sa) =
  Some ({| a2b_num := len sa; b2a_num := 0; to_b := sa; to_a := [] |}, None).
Proof.
  unfold drain_a. rewrite copy_loop_data.
  - assert (from_a ((fun x => ReadA (Ok [x]) Written) <$> sa) = sa) as ->
      by (unfold from_a; induction sa as [|x sa IH]; cbn; by rewrite ?IH).
    assert (from_b ((fun x => ReadA (Ok [x]) Written) <$> sa) = []) as ->
      by (unfold from_b; induction sa as [|x sa IH]; cbn; by rewrite ?IH).
    done.
  - induction sa as [|x sa IH]; [done|]. by cbn.
Qed.

(** C19: what the relay guarantees, and what it does not.  Between peers that
    send [sa] and [sb], in whatever order the reads complete and whichever
    write fails, each peer has received a prefix of what the other sent.  If
    the relay returns without an error, the counts are what was delivered and
    the stream of one of the peers was delivered whole; the other may have
    been cut anywhere: the first end of stream ends both directions, so
    that a peer which closes its sending half can be denied all of the answer,
    with no error reported.  If it returns an error, the counts are at least
    what was delivered. *)
Theorem copy_io_faithful sa sb :
  (forall script a2b b2a last_err, feeds sa sb script ->
     copy_io script = Some (a2b, b2a, last_err) ->
     exists s, copy_loop copy_init script = Some (s, last_err) /\
       to_b s `prefix_of` sa /\ to_a s `prefix_of` sb /\
       len (to_b s) <= a2b /\ len (to_a s) <= b2a /\
       (last_err = None ->
          a2b = len (to_b s) /\ b2a = len (to_a s) /\ (to_b s = sa \/ to_a s = sb))) /\
  (exists script s, feeds sa sb script /\
     copy_io script = Some (len sa, 0, None) /\
     copy_loop copy_init script = Some (s, None) /\ to_b s = sa /\ to_a s = []).
Proof.
  split.
  - intros script a2b b2a last_err Hf. unfold copy_io.
    destruct (script_split script) as [Hd|(pre&ev&rest&->&Hp&He)].
    { rewrite <-(app_nil_r script), copy_loop_data by done. done. }
    destruct (copy_loop_stop copy_init pre ev rest Hp He) as ([s err]&Hs&Hstep). rewrite Hs.
    intros [= <- <- <-]. exists s. split; [done|].
    apply feeds_split in Hf as (sa'&sb'&->&->&Hf). apply feeds_stop in Hf as (Ha&Hb&Hea&Heb).
    edestruct copy_step_stop as (out&err'&Hs'&Hout); [done|].
    rewrite Hstep in Hs'. injection Hs' as <- <-. cbn in Hout.
    destruct Hout as (_&Hb1&_&Ha1&Hn1&Hn2&Hnone).
    apply prefix_length in Hb1 as Hl1. apply prefix_length in Ha1 as Hl2.
    rewrite length_app in Hl1, Hl2. rewrite Hn1, Hn2. split_and!.
    + etrans; [done|]. by apply prefix_app.
    + etrans; [done|]. by apply prefix_app.
    + unfold len. lia.
    + unfold len. lia.
    + intros ->. destruct (Hnone eq_refl) as (->&->&->&->). split_and!; [unfold len; cbn; lia..|].
      destruct (copy_step_eof _ _ _ Hstep) as (w&[->| ->]);
        [left; rewrite (Hea w) by done|right; rewrite (Heb w) by done]; by rewrite app_nil_r.
  - exists (drain_a sa). eexists. unfold copy_io. rewrite drain_a_run.
    split_and!; [apply drain_a_feeds|done..].
Qed.

Lemma copy_io_faithful_witness :
  exists s, copy_loop copy_init [ReadA (Ok [1; 2]) Written; ReadB (Ok [3]) Written; ReadA (Ok []) Written]
      = Some (s, None) /\
    to_b s `prefix_of` [1; 2] /\ to_a s `prefix_of` [3; 4] /\ len (to_b s) <= 2 /\ len (to_a s) <= 1 /\
    (@None IoError = None -> 2 = len (to_b s) /\ 1 = len (to_a s) /\ (to_b s = [1; 2] \/ to_a s = [3; 4])).
Proof.
  apply (proj1 (copy_io_faithful [1; 2] [3; 4])); [|reflexivity].
  apply (feeds_a [] [3; 4] [1; 2]); [by_compute|done|].
  apply (feeds_b [] [4] [3]); [by_compute|done|].
  apply (feeds_a [] [4] []); [by_compute|done|constructor].
Defined.
