(* ===== verification/Callback.v ===== *)
(** * The interfaces between inbounds and outbounds
      (wind-core/src/inbound.rs, outbound.rs)

    An inbound hands the streams and sockets it accepts to an
    [InboundCallback]; an outbound implements [AbstractOutbound].  Their
    methods are asynchronous: a call is modelled by the part that runs up to
    the point where it first waits, which leaves a future, and by the steps
    that resume the future.  [S] is the state the methods share with the rest
    of the program. *)

From stdpp Require Import base list.
From S2P Require Import Prelude Types Codec Quinn Io.

Class InboundCallback (S : Type) := {
  TcpFuture : Type;
  UdpFuture : Type;
  (** [handle_tcpstream], and one round of the relay it ends in: [None] when
      the method returns *)
  handle_tcpstream : TargetAddr -> M S Report TcpFuture;
  poll_tcpstream : IoEvent -> TcpFuture -> M S Report (option TcpFuture);
  (** [handle_udpsocket], and its end when it sees the cancellation *)
  handle_udpsocket : M S Report UdpFuture;
  cancel_udpsocket : UdpFuture -> M S Report unit
}.

Class AbstractOutbound (S : Type) := {
  OutTcp : Type;
  OutUdp : Type;
  out_handle_tcp : TargetAddr -> M S Report OutTcp;
  out_poll_tcp : IoEvent -> OutTcp -> M S Report (option OutTcp);
  out_handle_udp : M S Report OutUdp;
  out_cancel_udp : OutUdp -> M S Report unit
}.

(** A relay resumed read by read is [copy_io] on the whole script. *)
Fixpoint relay_script {S} {CB : InboundCallback S} (script : list IoEvent) (f : TcpFuture) :
    M S Report (option TcpFuture) :=
  match script with
  | [] => m_ret (Some f)
  | ev :: script' =>
    let! o := poll_tcpstream ev f in
    match o with
    | Some f' => relay_script script' f'
    | None => m_ret None
    end
  end.
