(* ===== verification/Proto.v ===== *)
(** * Message helpers and the client side of the protocol
      (wind-tuic/src/proto/mod.rs) *)

From stdpp Require Import base list strings.
From S2P Require Import Prelude BytesCrate Types Codec Header Cmd Addr Quinn Io.

Definition incomplete (what context : string) : Report :=
  Report_Msg ("Incomplete " ++ what ++ " in " ++ context)%string.

(** [codec.decode(buf)?.ok_or_else(..)] *)
Definition decode_some {A} (decode : M bytes ProtoError (option A)) (e : Report) :
    M bytes Report A :=
  let! o := m_from Report_Proto decode in
  match o with
  | Some a => m_ret a
  | None => m_throw e
  end.

Definition address_to_target (addr : Address) : result TargetAddr Report :=
  match addr with
  | Address_Domain domain port => Ok (TargetAddr_Domain domain port)
  | Address_IPv4 ip port => Ok (TargetAddr_IPv4 ip port)
  | Address_IPv6 ip port => Ok (TargetAddr_IPv6 ip port)
  | Address_None => Err (Report_Msg "Address::None cannot be converted to TargetAddr")
  end.

Section decode.
Context {B : BytesOps} {U : UuidOps}.

Definition decode_header (context : string) : M bytes Report Header :=
  decode_some HeaderCodec_decode (incomplete "header" context).

Definition decode_command (cmd_type : CmdType) (context : string) : M bytes Report Command :=
  decode_some (CmdCodec_decode cmd_type) (incomplete "command" context).

Definition decode_address (context : string) : M bytes Report Address :=
  decode_some AddressCodec_decode (incomplete "address" context).
End decode.

(** ** [ClientProtoExt for quinn::Connection] *)
Section client.
Context {B : BytesOps} {U : UuidOps} {Q : QuinnOps}.

(** Encode into a fresh buffer, [?] on the codec's error. *)
Definition encode_into (m : M bytes ProtoError unit) (buf : bytes) : M QHist Report bytes :=
  let! r := m_local (m_from Report_Proto m) buf in m_ret r.2.

Definition encode_and_send_uni (cmd_type : CmdType) (command : Command)
    (address : option Address) : M QHist Report unit :=
  let! buf := encode_into (HeaderCodec_encode (Header_new cmd_type)) [] in
  let! buf := encode_into (CmdCodec_encode cmd_type command) buf in
  let! buf := match address with
              | Some addr => encode_into (AddressCodec_encode addr) buf
              | None => m_ret buf
              end in
  let! send := open_uni in
  write_chunk send buf ;;!
  m_ret ().

Definition send_auth (uuid : Uuid) (secret : bytes) : M QHist Report unit :=
  let! token := match q_export_keying_material 32 (uuid_as_bytes uuid) secret with
                | Some t => m_ret t
                | None => m_throw (Report_Msg
                    "export_keying_material requested output length is too large.")
                end in
  let auth_cmd := Command_Auth uuid token in
  let! buf := encode_into (HeaderCodec_encode (Header_new CmdType_Auth)) [] in
  let! buf := encode_into (CmdCodec_encode CmdType_Auth auth_cmd) buf in
  let! send := open_uni in
  write_chunk send buf ;;!
  m_ret ().

(** [script] is what happens on the two streams during the relay; the result
    is [None] while the relay is still running when the script ends. *)
Definition open_tcp (addr : TargetAddr) (script : list IoEvent) :
    M QHist Report (option (usize * usize)) :=
  let! send := open_bi in
  let! buf := encode_into (HeaderCodec_encode (Header_new CmdType_Connect)) [] in
  let! buf := encode_into (CmdCodec_encode CmdType_Connect Command_Connect) buf in
  let! buf := encode_into (AddressCodec_encode (Address_from_TargetAddr addr)) buf in
  write_chunk send buf ;;!
  match copy_io script with
  | None => m_ret None
  | Some (a, b, Some e) => m_throw (Report_Io "copy_io")
  | Some (a, b, None) => m_ret (Some (a, b))
  end.

Definition send_udp (assoc_id pkt_id : u16) (addr : TargetAddr) (payload : bytes)
    (datagram : bool) : M QHist Report unit :=
  let! buf := encode_into (HeaderCodec_encode (Header_new CmdType_Packet)) [] in
  let! buf := encode_into (CmdCodec_encode CmdType_Packet
                (Command_Packet assoc_id pkt_id 1 0 (as_u16 (len payload)))) buf in
  let! buf := encode_into (AddressCodec_encode (Address_from_TargetAddr addr)) buf in
  (if datagram then send_datagram (buf ++ payload)
   else
     let! send := open_uni in
     write_all_chunks send [buf; payload]) ;;!
  m_ret ().

Definition drop_udp (assoc_id : u16) : M QHist Report unit :=
  let! send := open_uni in
  let! buf := encode_into (HeaderCodec_encode (Header_new CmdType_Dissociate)) [] in
  let! buf := encode_into (CmdCodec_encode CmdType_Dissociate (Command_Dissociate assoc_id)) buf in
  write_chunk send buf ;;!
  m_ret ().

Definition send_heartbeat : M QHist Report unit :=
  let! buf := encode_into (HeaderCodec_encode (Header_new CmdType_Heartbeat)) [] in
  send_datagram buf ;;!
  m_ret ().
End client.

(** ** Messages on the wire *)

(** A command with its header and, for Connect and Packet, its address. *)
Definition message_wire {U : UuidOps} (c : Command) (addr : option Address) : bytes :=
  header_wire (Header_new (CmdType_from_Command c)) ++ command_wire c ++
  match addr with Some a => address_wire a | None => [] end.

(** The encoders cannot fail on what the types allow, the domain length
    apart. *)
Definition target_fits (a : TargetAddr) : Prop :=
  match a with TargetAddr_Domain d _ => len d <= 255 | _ => True end.
#[export] Instance target_fits_dec a : Decision (target_fits a).
Proof. destruct a; cbn; apply _. Defined.

Lemma address_from_target_wf a :
  TargetAddr_ok a -> target_fits a -> address_wf (Address_from_TargetAddr a).
Proof. destruct a; cbn; tauto. Qed.

Lemma address_to_from_target a : address_to_target (Address_from_TargetAddr a) = Ok a.
Proof. by destruct a. Qed.

Section laws.
Context {B : BytesOps} {BL : BytesLaws B} {U : UuidOps} {UL : UuidLaws U} {Q : QuinnOps}.

Lemma decode_some_ok {A wf wire enc dec} (F : @FrameCodec A wf wire enc dec) a rest e :
  wf a -> decode_some dec e (wire a ++ rest) = Returns (Ok a, rest).
Proof.
  intros Hwf. unfold decode_some, m_bind, m_from. by rewrite (fc_decode a rest Hwf).
Qed.

Lemma decode_some_partial {A wf wire enc dec} (F : @FrameCodec A wf wire enc dec) a p q e :
  wf a -> wire a = p ++ q -> q <> [] -> decode_some dec e p = Returns (Err e, p).
Proof.
  intros Hwf Hw Hq. unfold decode_some, m_bind, m_from. by rewrite (fc_partial a p q).
Qed.

(** What all callers see of a truncated image. *)
Lemma codec_truncated {A wf wire enc dec} (F : @FrameCodec A wf wire enc dec) a p q e :
  wf a -> wire a = p ++ q -> q <> [] ->
  dec p = Returns (Ok None, p) /\ decode_eof_of dec p = Returns (Err BytesRemaining, p) /\
  decode_some dec e p = Returns (Err e, p).
Proof.
  intros; split_and!; [by eapply fc_partial|by eapply decode_eof_partial|by eapply decode_some_partial].
Qed.

(** A decoder never panics, and what it takes off the buffer is what
    encoding its result would write. *)
Lemma codec_canonical {A wf wire enc dec} (F : @FrameCodec A wf wire enc dec) src :
  bytes_ok src -> no_panic (dec src) /\
  forall a rest, dec src = Returns (Ok (Some a), rest) ->
    exists taken, src = taken ++ rest /\ forall dst, enc a dst = Returns (Ok (), dst ++ taken).
Proof.
  intros Hok. split; [by apply fc_total|]. intros a rest Hd.
  destruct (fc_sound src a rest Hok Hd) as [Hwf ->].
  exists (wire a). split; [done|]. intros dst. by apply fc_encode.
Qed.

Lemma decode_some_total {A wf wire enc dec} (F : @FrameCodec A wf wire enc dec) src e :
  bytes_ok src -> no_panic (decode_some dec e src).
Proof.
  intros Hok Hp. apply (fc_total src Hok). unfold decode_some, m_bind, m_from in Hp.
  by destruct (dec src) as [[[[]|] ?]|].
Qed.

Lemma decode_some_sound {A wf wire enc dec} (F : @FrameCodec A wf wire enc dec) src a rest e :
  bytes_ok src -> decode_some dec e src = Returns (Ok a, rest) -> wf a /\ src = wire a ++ rest.
Proof.
  intros Hok Hd. apply (fc_sound (decode:=dec)); [done|]. unfold decode_some, m_bind, m_from in Hd.
  by (destruct (dec src) as [[[[]|] ?]|]; unfold m_ret, m_throw in Hd; simplify_eq/=).
Qed.

(** A decoding helper either fails or has found a value on the wire. *)
Lemma decode_some_cases {A wf wire enc dec} (F : @FrameCodec A wf wire enc dec) src e :
  bytes_ok src ->
  (exists e' rest, decode_some dec e src = Returns (Err e', rest)) \/
  (exists a rest, decode_some dec e src = Returns (Ok a, rest) /\ wf a /\ src = wire a ++ rest /\
     bytes_ok rest).
Proof.
  intros Hok. pose proof (decode_some_total F src e Hok) as Ht.
  destruct (decode_some dec e src) as [[[a|e'] rest]|] eqn:Hd; [right|left; eauto|done].
  destruct (decode_some_sound F src a rest e Hok Hd) as [? ->].
  apply bytes_ok_app in Hok as [_ ?]. by exists a, rest.
Qed.

Lemma encode_into_ok {A wf wire enc dec} (F : @FrameCodec A wf wire enc dec) a buf
    {C} (k : bytes -> M QHist Report C) h :
  wf a -> m_bind (encode_into (enc a) buf) k h = k (buf ++ wire a) h.
Proof.
  intros Hwf. unfold encode_into, m_bind, m_local, m_from. by rewrite (fc_encode a buf Hwf).
Qed.
End laws.
