(* ===== verification/Messages.v ===== *)
(** * Messages on the wire

    Theorems about whole TUIC messages, the way both peers build and parse
    them (SPEC.md sections 4 to 6): header, command and address encoded one
    after the other, decoded by [decode_header], [decode_command] and
    [decode_address] in sequence, with the payload left in the buffer. *)

From stdpp Require Import base list strings.
From S2P Require Import Prelude BytesCrate Types Codec Header Cmd Addr Quinn Io.
From S2P Require Import Proto.

Section messages.
Context {B : BytesOps} {U : UuidOps}.

(** The encoding sequence of proto/mod.rs and udp_stream.rs. *)
Definition encode_message (c : Command) (a : Address) : M bytes ProtoError unit :=
  let ty := CmdType_from_Command c in
  HeaderCodec_encode (Header_new ty) ;;!
  CmdCodec_encode ty c ;;!
  AddressCodec_encode a.

(** The decoding sequence of inbound.rs and outbound.rs. *)
Definition decode_message (context : string) : M bytes Report (Command * Address) :=
  let! header := decode_header context in
  let! cmd := decode_command (hdr_command header) context in
  let! addr := decode_address context in
  m_ret (cmd, addr).
End messages.

Section laws.
Context {B : BytesOps} {BL : BytesLaws B} {U : UuidOps} {UL : UuidLaws U}.

Lemma header_new_wf c : is_other c = false -> header_wf (Header_new c).
Proof. done. Qed.

Lemma command_type_known c : is_other (CmdType_from_Command c) = false.
Proof. by destruct c. Qed.

Lemma encode_message_ok c a dst :
  command_wf (CmdType_from_Command c) c -> address_wf a ->
  encode_message c a dst = Returns (Ok (), dst ++ message_wire c (Some a)).
Proof.
  intros Hc Ha. unfold encode_message. cbv zeta.
  erewrite run_bind_ok by (apply (fc_encode (FrameCodec:=header_codec)), header_new_wf, command_type_known).
  erewrite run_bind_ok by (by apply (fc_encode (FrameCodec:=cmd_codec _))).
  rewrite (fc_encode (FrameCodec:=addr_codec)) by done.
  unfold message_wire. by rewrite <-!app_assoc.
Qed.

Lemma decode_header_command c rest ctx ctx' {A} (k : Header -> Command -> M bytes Report A) :
  command_wf (CmdType_from_Command c) c ->
  (let! h := decode_header ctx in
   let! cmd := decode_command (hdr_command h) ctx' in k h cmd)
    (header_wire (Header_new (CmdType_from_Command c)) ++ command_wire c ++ rest) =
  k (Header_new (CmdType_from_Command c)) c rest.
Proof.
  intros Hc. unfold decode_header, decode_command.
  erewrite run_bind_ok by (apply (decode_some_ok header_codec), header_new_wf, command_type_known).
  cbn [Header_new hdr_command].
  erewrite run_bind_ok; [done|]. by apply (decode_some_ok (cmd_codec _)).
Qed.

Lemma decode_message_ok c a payload ctx :
  command_wf (CmdType_from_Command c) c -> address_wf a ->
  decode_message ctx (message_wire c (Some a) ++ payload) = Returns (Ok (c, a), payload).
Proof.
  intros Hc Ha. unfold decode_message, message_wire. rewrite <-!app_assoc.
  rewrite decode_header_command by done. unfold decode_address.
  erewrite run_bind_ok; [done|]. by apply (decode_some_ok addr_codec).
Qed.

(** C11: round trip.  Any command with any address, encoded and followed by a
    payload, is decoded to the same command and address, and exactly the
    payload is left in the buffer. *)
Theorem message_roundtrip c a payload ctx :
  command_wf (CmdType_from_Command c) c -> address_wf a ->
  exists image,
    encode_message c a [] = Returns (Ok (), image) /\
    decode_message ctx (image ++ payload) = Returns (Ok (c, a), payload).
Proof.
  intros Hc Ha. exists (message_wire c (Some a)).
  split; [by apply (encode_message_ok c a [])|by apply decode_message_ok].
Qed.

(** C13: incremental decoding.  Given a strict prefix of a header, command or
    address image, the decoder asks for more bytes and consumes nothing, its
    [decode_eof] reports [BytesRemaining] and the [decode_*] helper reports an
    incomplete message. *)
Theorem truncated_input :
  (forall h p q ctx, header_wf h -> header_wire h = p ++ q -> q <> [] ->
     HeaderCodec_decode p = Returns (Ok None, p) /\
     HeaderCodec_decode_eof p = Returns (Err BytesRemaining, p) /\
     decode_header ctx p = Returns (Err (incomplete "header" ctx), p)) /\
  (forall ty c p q ctx, command_wf ty c -> command_wire c = p ++ q -> q <> [] ->
     CmdCodec_decode ty p = Returns (Ok None, p) /\
     CmdCodec_decode_eof ty p = Returns (Err BytesRemaining, p) /\
     decode_command ty ctx p = Returns (Err (incomplete "command" ctx), p)) /\
  (forall a p q ctx, address_wf a -> address_wire a = p ++ q -> q <> [] ->
     AddressCodec_decode p = Returns (Ok None, p) /\
     AddressCodec_decode_eof p = Returns (Err BytesRemaining, p) /\
     decode_address ctx p = Returns (Err (incomplete "address" ctx), p)).
Proof.
  split_and!; intros; [eapply (codec_truncated header_codec)
    | eapply (codec_truncated (cmd_codec _)) | eapply (codec_truncated addr_codec)]; done.
Qed.

(** C12: hostile input.  On every byte string the decoders do not panic, and a
    value they return is the one whose encoding they consumed: nothing is
    skipped and no two spellings decode to the same value. *)
Theorem decoders_canonical src :
  bytes_ok src ->
  (no_panic (HeaderCodec_decode src) /\
   forall h rest, HeaderCodec_decode src = Returns (Ok (Some h), rest) ->
     exists taken, src = taken ++ rest /\
       forall dst, HeaderCodec_encode h dst = Returns (Ok (), dst ++ taken)) /\
  (forall ty, no_panic (CmdCodec_decode ty src) /\
   forall c rest, CmdCodec_decode ty src = Returns (Ok (Some c), rest) ->
     exists taken, src = taken ++ rest /\
       forall dst, CmdCodec_encode ty c dst = Returns (Ok (), dst ++ taken)) /\
  (no_panic (AddressCodec_decode src) /\
   forall a rest, AddressCodec_decode src = Returns (Ok (Some a), rest) ->
     exists taken, src = taken ++ rest /\
       forall dst, AddressCodec_encode a dst = Returns (Ok (), dst ++ taken)).
Proof.
  intros Hok. split; [by apply (codec_canonical header_codec)|split].
  - intros ty. by apply (codec_canonical (cmd_codec ty)).
  - by apply (codec_canonical addr_codec).
Qed.

(** Unambiguous framing: if what the encoders write for two messages,
    each followed by a payload, coincides as bytes, then command, address and
    payload are the same: no message is a prefix of another one. *)
Lemma message_unambiguous c1 a1 p1 i1 c2 a2 p2 i2 :
  command_wf (CmdType_from_Command c1) c1 -> address_wf a1 ->
  command_wf (CmdType_from_Command c2) c2 -> address_wf a2 ->
  encode_message c1 a1 [] = Returns (Ok (), i1) ->
  encode_message c2 a2 [] = Returns (Ok (), i2) ->
  i1 ++ p1 = i2 ++ p2 -> c1 = c2 /\ a1 = a2 /\ p1 = p2.
Proof.
  intros Hc1 Ha1 Hc2 Ha2. rewrite !encode_message_ok by done. intros [= <-] [= <-] Heq.
  pose proof (decode_message_ok c1 a1 p1 "" Hc1 Ha1) as H1.
  rewrite Heq, decode_message_ok in H1 by done. by simplify_eq.
Qed.

(** A domain frame whose length byte covers [n] bytes, split as the decoder
    reads it. *)
Lemma domain_frame_split n d : bytes_ok d -> 0 <= n -> n + 2 <= len d ->
  exists s p r, d = s ++ [be_hi p; be_lo p] ++ r /\ len s = n.
Proof.
  intros Hok Hn Hl. rewrite <-(ztake_zdrop n d) in Hok |- *. apply bytes_ok_app in Hok as [_ Hok].
  assert (2 <= len (zdrop n d)) as Hr by (rewrite len_zdrop; lia).
  destruct (zdrop n d) as [|hi [|lo r]] eqn:E; [by cbn in Hr..|].
  rewrite !bytes_ok_cons in Hok. destruct Hok as (Hhi&Hlo&_). unfold is_u8 in *.
  exists (ztake n d), (of_be hi lo), r. split; [|rewrite len_ztake; lia].
  by rewrite be_hi_of_be, be_lo_of_be.
Qed.

Lemma is_other_gt c : is_u8 c -> is_other (CmdType_from_u8 c) = true <-> 4 < c.
Proof. unfold is_u8, CmdType_from_u8. split_ifs; zify_bool; cbn; split; intros; try done; lia. Qed.

Lemma header_rejects src e rest : bytes_ok src ->
  HeaderCodec_decode src = Returns (Err e, rest) <->
  exists v c r, src = v :: c :: r /\
    ((v <> VER /\ e = VersionDismatch VER v /\ rest = c :: r) \/
     (v = VER /\ 4 < c /\ e = UnknownCommandType c /\ rest = r)).
Proof.
  intros Hok. rewrite header_decode_eq.
  destruct src as [|v [|c r]]; [split; [done|naive_solver]..|].
  rewrite !bytes_ok_cons in Hok. destruct Hok as (_&Hc&_). pose proof (is_other_gt c Hc) as Ho.
  destruct (Z.eqb_spec v VER) as [->|Hv]; cbn [negb]; [destruct (is_other _) eqn:E|]; naive_solver.
Qed.

Lemma command_rejects ty src e rest :
  CmdCodec_decode ty src = Returns (Err e, rest) <->
  exists v, ty = CmdType_Other v /\ e = UnknownCommandType v /\ rest = src.
Proof.
  destruct ty as [| | | | |v].
  - rewrite auth_decode_eq. split; [by case_match|by intros (?&?&_)].
  - split; [done|by intros (?&?&_)].
  - rewrite packet_decode_eq. split; [by repeat case_match|by intros (?&?&_)].
  - rewrite dissociate_decode_eq. split; [by repeat case_match|by intros (?&?&_)].
  - split; [done|by intros (?&?&_)].
  - split; [intros [= <- <-]; eauto|intros (?&[= <-]&->&->); done].
Qed.

Lemma address_rejects src e rest : bytes_ok src ->
  AddressCodec_decode src = Returns (Err e, rest) <->
  (exists t r, src = t :: r /\ 2 < t < 255 /\ e = UnknownAddressType t /\ rest = src) \/
  (exists d p r, src = 0 :: len d :: d ++ [be_hi p; be_lo p] ++ r /\ len d <= 255 /\
     utf8_valid d = false /\ e = FailParseDomain d /\ rest = d ++ [be_hi p; be_lo p] ++ r).
Proof.
  intros Hok. rewrite address_decode_eq.
  2: { intros n d ->. rewrite !bytes_ok_cons in Hok. unfold is_u8 in Hok. lia. }
  split.
  - destruct src as [|t r]; [done|]. rewrite bytes_ok_cons in Hok. destruct Hok as [Ht Hr].
    destruct (AddressType_from_u8 t) eqn:E.
    + done.
    + pose proof (AddressType_into_from t) as Ht'. rewrite E in Ht'; cbn in Ht'; subst t.
      destruct r as [|n d]; [done|]. rewrite bytes_ok_cons in Hr. destruct Hr as [Hn Hd].
      destruct (len d <? n + 2) eqn:Hl; [done|]. zify_bool. unfold is_u8 in Hn.
      destruct (domain_frame_split n d) as (s&p&q&->&<-); [done|lia..|].
      rewrite ztake_len_app. destruct (utf8_valid s) eqn:Hu; [done|]. intros [= <- <-].
      right. exists s, p, q. split_and!; [done|lia|done..].
    + by case_match.
    + by case_match.
    + intros [= <- <-]. left. exists t, r. pose proof (AddressType_into_from t) as Ht'.
      rewrite E in Ht'; cbn in Ht'; subst.
      enough (2 < t < 255) by done. unfold AddressType_from_u8 in E. unfold is_u8 in Ht.
      revert E; split_ifs; zify_bool; intros; try done; lia.
  - intros [(t&r&->&Ht&->&->)|(d&p&r&->&Hd&Hu&->&->)].
    + unfold AddressType_from_u8. by rewrite !(proj2 (Z.eqb_neq _ _)) by lia.
    + cbn. rewrite len_app, !len_cons. pose proof (len_nonneg r).
      rewrite (proj2 (Z.ltb_ge _ _)) by lia. by rewrite ztake_len_app, Hu.
Qed.

Lemma address_encode_rejects a dst e out :
  AddressCodec_encode a dst = Returns (Err e, out) <->
  exists d p, a = Address_Domain d p /\ 255 < len d /\ e = DomainTooLong d /\ out = dst.
Proof.
  unfold AddressCodec_encode. destruct a as [|d p|ip p|ip p]; try (split; [done|naive_solver]).
  destruct (255 <? len d) eqn:Hl; zify_bool.
  - split; [intros [= <- <-]; eauto 10|intros (?&?&[= <- <-]&_&->&->); done].
  - split; [done|]. intros (?&?&[= <- <-]&?&_). lia.
Qed.

Lemma decode_eof_rejects {A} (decode : M bytes ProtoError (option A)) src e rest :
  decode_eof_of decode src = Returns (Err e, rest) <->
  decode src = Returns (Err e, rest) \/ (decode src = Returns (Ok None, rest) /\ e = BytesRemaining).
Proof.
  unfold decode_eof_of, m_match. destruct (decode src) as [[[[a|]|e0] s]|]; m_unfold; cbn; split;
    intros H; [by left|by destruct H as [|[]]|right; by simplify_eq|destruct H as [|[[= <-] ->]]; done|by left| |by left|];
    by destruct H as [|[]].
Qed.

(** C29: every rejection of the three decoders, with the buffer it leaves,
    and nothing else is rejected.  A foreign version is rejected after its
    byte, an unknown command after both header bytes or by the command decoder
    on the type it was given, an unknown address type without consuming it, a
    domain that is not UTF-8 after its length byte; at the end of the input
    incomplete frames are rejected too.  Of the encoders only the address
    encoder rejects anything: an over-long domain, before it writes a byte. *)
Theorem rejected_input :
  (forall src e rest, bytes_ok src ->
     HeaderCodec_decode src = Returns (Err e, rest) <->
     exists v c r, src = v :: c :: r /\
       ((v <> VER /\ e = VersionDismatch VER v /\ rest = c :: r) \/
        (v = VER /\ 4 < c /\ e = UnknownCommandType c /\ rest = r))) /\
  (forall ty src e rest,
     CmdCodec_decode ty src = Returns (Err e, rest) <->
     exists v, ty = CmdType_Other v /\ e = UnknownCommandType v /\ rest = src) /\
  (forall src e rest, bytes_ok src ->
     AddressCodec_decode src = Returns (Err e, rest) <->
     (exists t r, src = t :: r /\ 2 < t < 255 /\ e = UnknownAddressType t /\ rest = src) \/
     (exists d p r, src = 0 :: len d :: d ++ [be_hi p; be_lo p] ++ r /\ len d <= 255 /\
        utf8_valid d = false /\ e = FailParseDomain d /\ rest = d ++ [be_hi p; be_lo p] ++ r)) /\
  (forall src e rest,
     (HeaderCodec_decode_eof src = Returns (Err e, rest) <->
        HeaderCodec_decode src = Returns (Err e, rest) \/
        (HeaderCodec_decode src = Returns (Ok None, rest) /\ e = BytesRemaining)) /\
     (AddressCodec_decode_eof src = Returns (Err e, rest) <->
        AddressCodec_decode src = Returns (Err e, rest) \/
        (AddressCodec_decode src = Returns (Ok None, rest) /\ e = BytesRemaining)) /\
     (forall ty, CmdCodec_decode_eof ty src = Returns (Err e, rest) <->
        CmdCodec_decode ty src = Returns (Err e, rest) \/
        (CmdCodec_decode ty src = Returns (Ok None, rest) /\ e = BytesRemaining))) /\
  (forall h ty c dst e out,
     HeaderCodec_encode h dst <> Returns (Err e, out) /\ CmdCodec_encode ty c dst <> Returns (Err e, out)) /\
  (forall a dst e out,
     AddressCodec_encode a dst = Returns (Err e, out) <->
     exists d p, a = Address_Domain d p /\ 255 < len d /\ e = DomainTooLong d /\ out = dst).
Proof.
  split_and!.
  - exact header_rejects.
  - exact command_rejects.
  - exact address_rejects.
  - intros src e rest. split_and!; intros; apply decode_eof_rejects.
  - intros h ty c dst e out. split; [done|]. by destruct c.
  - exact address_encode_rejects.
Qed.
End laws.

(** ** Witnesses *)

Definition demo_uuid : Uuid (UuidOps:=list_uuid) := uuid_from_bytes (UuidOps:=list_uuid) (replicate 16 7).
Definition demo_packet : Command (U:=list_uuid) := Command_Packet 1 258 3 0 5.
Definition demo_address : Address := Address_Domain [119; 46; 105; 111] 443.

Lemma message_roundtrip_witness : exists image,
  encode_message (B:=list_bytes) demo_packet demo_address [] = Returns (Ok (), image) /\
  decode_message (B:=list_bytes) "x" (image ++ [1; 2; 3; 4; 5]) =
    Returns (Ok (demo_packet, demo_address), [1; 2; 3; 4; 5]).
Proof.
  apply (message_roundtrip (BL:=list_bytes_laws) (UL:=list_uuid_laws)); by_compute.
Defined.

Lemma truncated_input_witness :
  AddressCodec_decode (B:=list_bytes) [0; 4; 119; 46] = Returns (Ok None, [0; 4; 119; 46]).
Proof.
  eapply (proj2 (proj2 (truncated_input (BL:=list_bytes_laws) (UL:=list_uuid_laws)))
            demo_address [0; 4; 119; 46] [105; 111; 1; 187] ""); [by_compute|reflexivity|done].
Defined.

Lemma decoders_canonical_witness :
  no_panic (CmdCodec_decode (B:=list_bytes) (U:=list_uuid) CmdType_Packet [1; 2; 3]).
Proof.
  apply (decoders_canonical (BL:=list_bytes_laws) (UL:=list_uuid_laws) [1; 2; 3]); by_compute.
Defined.

Lemma rejected_input_witness :
  HeaderCodec_decode (B:=list_bytes) [4; 2; 9] = Returns (Err (VersionDismatch VER 4), [2; 9]).
Proof.
  apply (proj1 (rejected_input (BL:=list_bytes_laws) (U:=list_uuid)) [4; 2; 9]); [by_compute|].
  exists 4, 2, [9]. split; [reflexivity|]. left. split_and!; [|reflexivity..]. by_compute.
Defined.
