(* ===== verification/Moka.v ===== *)
(** * The [moka] cache, as an interface

    [moka::future::Cache] is not part of the repository.  The operations the
    sources call are [MokaOps]; what the crate documents is [MokaLaws], stated
    over the entries a cache holds ([contents]):
    - a cache keeps what is inserted while there is room; beyond
      [max_capacity] the admission policy may drop entries, the new one
      included, but never invents any;
    - [run_pending_tasks] may evict entries, but none while the cache is
      within its capacity, and [entry_count] is exact after it;
    - [invalidate_entries_if] is refused ([InvalidationClosuresDisabled])
      unless the cache was built with [support_invalidation_closures], which
      [Cache::new] does not do.
    [bounded_map] is a concrete instance, used to evaluate the model. *)

From stdpp Require Import base list gmap.
From S2P Require Import Prelude.

Class MokaOps := {
  Cache (K V : Type) `{Countable K} : Type;
  cache_new {K V} `{Countable K} : Z -> Cache K V;
  cache_get {K V} `{Countable K} : K -> Cache K V -> option V * Cache K V;
  cache_insert {K V} `{Countable K} : K -> V -> Cache K V -> Cache K V;
  cache_remove {K V} `{Countable K} : K -> Cache K V -> option V * Cache K V;
  (** [cache.entry(k).or_insert_with(async { v }).await.into_value()] *)
  cache_or_insert {K V} `{Countable K} : K -> V -> Cache K V -> V * Cache K V;
  cache_entry_count {K V} `{Countable K} : Cache K V -> Z;
  cache_run_pending_tasks {K V} `{Countable K} : Cache K V -> Cache K V;
  (** [Err(())] stands for [PredicateError::InvalidationClosuresDisabled] *)
  cache_invalidate_entries_if {K V} `{Countable K} :
    (K -> V -> bool) -> Cache K V -> result unit unit * Cache K V;

  (** observations the laws speak about *)
  contents {K V} `{Countable K} : Cache K V -> gmap K V;
  capacity {K V} `{Countable K} : Cache K V -> Z;
  closures_enabled {K V} `{Countable K} : Cache K V -> bool
}.

Section room.
Context {MO : MokaOps} {K V : Type} `{Countable K}.

(** Inserting [k] does not exceed the capacity. *)
Definition cache_room (k : K) (c : Cache K V) : Prop :=
  is_Some (contents c !! k) \/ Z.of_nat (size (contents c)) < capacity c.

(** [c'] is [c] but for its entries. *)
Definition same_config (c c' : Cache K V) : Prop :=
  capacity c' = capacity c /\ closures_enabled c' = closures_enabled c.
End room.

Class MokaLaws (MO : MokaOps) : Prop := {
  contents_new {K V} `{Countable K} n : contents (K:=K) (V:=V) (cache_new n) = ∅;
  capacity_new {K V} `{Countable K} n : capacity (K:=K) (V:=V) (cache_new n) = n;
  closures_new {K V} `{Countable K} n : closures_enabled (K:=K) (V:=V) (cache_new n) = false;

  get_value {K V} `{Countable K} k (c : Cache K V) : (cache_get k c).1 = contents c !! k;
  get_contents {K V} `{Countable K} k (c : Cache K V) : contents (cache_get k c).2 = contents c;
  get_config {K V} `{Countable K} k (c : Cache K V) : same_config c (cache_get k c).2;

  insert_room {K V} `{Countable K} k v (c : Cache K V) :
    cache_room k c -> contents (cache_insert k v c) = <[k:=v]> (contents c);
  insert_sub {K V} `{Countable K} k v (c : Cache K V) :
    contents (cache_insert k v c) ⊆ <[k:=v]> (contents c);
  insert_config {K V} `{Countable K} k v (c : Cache K V) : same_config c (cache_insert k v c);

  remove_value {K V} `{Countable K} k (c : Cache K V) : (cache_remove k c).1 = contents c !! k;
  remove_contents {K V} `{Countable K} k (c : Cache K V) :
    contents (cache_remove k c).2 = delete k (contents c);
  remove_config {K V} `{Countable K} k (c : Cache K V) : same_config c (cache_remove k c).2;

  or_insert_some {K V} `{Countable K} k v v' (c : Cache K V) :
    contents c !! k = Some v' ->
    (cache_or_insert k v c).1 = v' /\ contents (cache_or_insert k v c).2 = contents c;
  or_insert_none {K V} `{Countable K} k v (c : Cache K V) :
    contents c !! k = None -> (cache_or_insert k v c).1 = v;
  or_insert_room {K V} `{Countable K} k v (c : Cache K V) :
    contents c !! k = None -> cache_room k c ->
    contents (cache_or_insert k v c).2 = <[k:=v]> (contents c);
  or_insert_sub {K V} `{Countable K} k v (c : Cache K V) :
    contents c !! k = None -> contents (cache_or_insert k v c).2 ⊆ <[k:=v]> (contents c);
  or_insert_config {K V} `{Countable K} k v (c : Cache K V) :
    same_config c (cache_or_insert k v c).2;

  pending_contents {K V} `{Countable K} (c : Cache K V) :
    Z.of_nat (size (contents c)) <= capacity c -> contents (cache_run_pending_tasks c) = contents c;
  pending_sub {K V} `{Countable K} (c : Cache K V) :
    contents (cache_run_pending_tasks c) ⊆ contents c;
  pending_count {K V} `{Countable K} (c : Cache K V) :
    cache_entry_count (cache_run_pending_tasks c) = Z.of_nat (size (contents (cache_run_pending_tasks c)));
  pending_config {K V} `{Countable K} (c : Cache K V) :
    same_config c (cache_run_pending_tasks c);

  invalidate_disabled {K V} `{Countable K} f (c : Cache K V) :
    closures_enabled c = false ->
    (cache_invalidate_entries_if f c).1 = Err () /\
    contents (cache_invalidate_entries_if f c).2 = contents c;
  invalidate_config {K V} `{Countable K} f (c : Cache K V) :
    same_config c (cache_invalidate_entries_if f c).2
}.

(** ** A concrete cache: a map that refuses newcomers when full *)

Record bounded (K V : Type) `{Countable K} := Bounded {
  bd_map : gmap K V;
  bd_cap : Z;
  bd_closures : bool
}.
Arguments Bounded {K V _ _} _ _ _.
Arguments bd_map {K V _ _} _.
Arguments bd_cap {K V _ _} _.
Arguments bd_closures {K V _ _} _.

Definition bd_put {K V} `{Countable K} (k : K) (v : V) (c : bounded K V) : bounded K V :=
  if bool_decide (is_Some (bd_map c !! k) \/ Z.of_nat (size (bd_map c)) < bd_cap c)
  then Bounded (<[k:=v]> (bd_map c)) (bd_cap c) (bd_closures c) else c.

Definition bounded_map : MokaOps := {|
  Cache K V _ _ := bounded K V;
  cache_new _ _ _ _ n := Bounded ∅ n false;
  cache_get _ _ _ _ k c := (bd_map c !! k, c);
  cache_insert _ _ _ _ := bd_put;
  cache_remove _ _ _ _ k c :=
    (bd_map c !! k, Bounded (delete k (bd_map c)) (bd_cap c) (bd_closures c));
  cache_or_insert _ _ _ _ k v c :=
    match bd_map c !! k with Some v' => (v', c) | None => (v, bd_put k v c) end;
  cache_entry_count _ _ _ _ c := Z.of_nat (size (bd_map c));
  cache_run_pending_tasks _ _ _ _ c := c;
  cache_invalidate_entries_if _ _ _ _ f c :=
    if bd_closures c
    then (Ok (), Bounded (filter (fun kv => f kv.1 kv.2 = false) (bd_map c)) (bd_cap c) true)
    else (Err (), c);
  contents _ _ _ _ := bd_map;
  capacity _ _ _ _ := bd_cap;
  closures_enabled _ _ _ _ := bd_closures
|}.

Lemma bounded_map_laws : MokaLaws bounded_map.
Proof.
  assert (forall K V `{Countable K} k v (c : bounded K V),
    bd_cap (bd_put k v c) = bd_cap c /\ bd_closures (bd_put k v c) = bd_closures c /\
    bd_map (bd_put k v c) ⊆ <[k:=v]> (bd_map c)) as Hput.
  { intros. unfold bd_put. case_bool_decide as Hr; [done|]. split_and!; [done..|].
    apply insert_subseteq. destruct (bd_map c !! k) eqn:E; naive_solver. }
  split; intros; cbn in *; unfold same_config, cache_room in *; cbn in *; try done;
    try (by destruct (Hput K V _ _ k v c) as (?&?&?)).
  all: try (by unfold bd_put; rewrite bool_decide_true).
  - by rewrite H0.
  - by rewrite H0.
  - rewrite H0. cbn. unfold bd_put. by rewrite bool_decide_true.
  - rewrite H0. cbn. by destruct (Hput K V _ _ k v c) as (?&?&?).
  - destruct (bd_map c !! k); [done|]. by destruct (Hput K V _ _ k v c) as (?&?&?).
  - by rewrite H0.
  - by destruct (bd_closures c) eqn:E.
Qed.
