(* ===== verification/CoreUdp.v ===== *)
(** * UDP sockets (wind-core/src/udp.rs)

    The metadata of received datagrams, the default methods of
    [AbstractUdpSocket], receiving on a tokio socket and the writability
    poller.  The operating system and the runtime are the environment. *)

From stdpp Require Import base list strings.
From S2P Require Import Prelude Types.

(** [quinn_udp::RecvMeta] *)
Record QuinnRecvMeta := {
  qm_addr : SocketAddr;
  qm_len : usize;
  qm_stride : usize;
  qm_ecn : option Z;
  qm_dst_ip : option IpAddr
}.

Record RecvMeta := {
  rm_addr : SocketAddr;
  rm_len : usize;
  rm_stride : usize;
  rm_ecn : option Z;
  rm_dst_ip : option IpAddr;
  rm_destination : option TargetAddr
}.

Definition RecvMeta_default : RecvMeta :=
  {| rm_addr := SocketAddr_new (IpAddr_V6 Ipv6Addr_UNSPECIFIED) 0; rm_len := 0; rm_stride := 0;
     rm_ecn := None; rm_dst_ip := None; rm_destination := None |}.

(** [impl From<QuinnRecvMeta> for RecvMeta] *)
Definition RecvMeta_from (m : QuinnRecvMeta) : RecvMeta :=
  {| rm_addr := qm_addr m; rm_len := qm_len m; rm_stride := qm_stride m; rm_ecn := qm_ecn m;
     rm_dst_ip := qm_dst_ip m; rm_destination := None |}.

Definition rm_set_len (n : usize) (m : RecvMeta) : RecvMeta :=
  {| rm_addr := rm_addr m; rm_len := n; rm_stride := rm_stride m; rm_ecn := rm_ecn m;
     rm_dst_ip := rm_dst_ip m; rm_destination := rm_destination m |}.
Definition rm_set_destination (t : option TargetAddr) (m : RecvMeta) : RecvMeta :=
  {| rm_addr := rm_addr m; rm_len := rm_len m; rm_stride := rm_stride m; rm_ecn := rm_ecn m;
     rm_dst_ip := rm_dst_ip m; rm_destination := t |}.

(** [quinn_udp::Transmit] *)
Record Transmit := {
  tx_destination : SocketAddr;
  tx_ecn : option Z;
  tx_contents : bytes;
  tx_segment_size : option usize;
  tx_src_ip : option IpAddr
}.

Inductive poll (A : Type) := Ready (a : A) | Pending.
Arguments Ready {A} _.
Arguments Pending {A}.

(** ** [AbstractUdpSocket], supplied methods *)

(** The datagram [send] hands to [try_send]. *)
Definition send_transmit (buf : bytes) (target : SocketAddr) : Transmit :=
  {| tx_destination := target; tx_ecn := None; tx_contents := buf; tx_segment_size := None;
     tx_src_ip := None |}.

(** [poll_send]: never pending. *)
Definition poll_send {S} (try_send : Transmit -> S -> result unit string * S)
    (buf : bytes) (target : SocketAddr) (s : S) : poll (result usize string) * S :=
  let '(r, s') := try_send (send_transmit buf target) s in
  (Ready match r with Ok _ => Ok (len buf) | Err e => Err e end, s').

(** ** [TokioUdpSocket::poll_recv] *)

(** One pass of its loop: readiness, then the receive call, which fills [res]
    entries of the metadata. *)
Inductive RecvAttempt :=
| NotReady
| ReadyFailed (e : string)
| RecvFailed
| Received (res : usize) (metas : list QuinnRecvMeta).

(** [for (i, qmeta) in quinn_meta.iter().enumerate().take(res)
       { if i < meta.len() { meta[i] = .. } }] *)
Definition copy_metas (res : usize) (quinn_meta : list QuinnRecvMeta) (meta : list RecvMeta) :
    list RecvMeta :=
  let new := RecvMeta_from <$> take (length meta) (ztake res quinn_meta) in
  new ++ drop (length new) meta.

(** [None]: the attempts ran out while the loop was still trying. *)
Fixpoint tokio_poll_recv (attempts : list RecvAttempt) (meta : list RecvMeta) :
    option (poll (result usize string) * list RecvMeta) :=
  match attempts with
  | [] => None
  | NotReady :: _ => Some (Pending, meta)
  | ReadyFailed e :: _ => Some (Ready (Err e), meta)
  | RecvFailed :: attempts' => tokio_poll_recv attempts' meta
  | Received res quinn_meta :: _ => Some (Ready (Ok res), copy_metas res quinn_meta meta)
  end.

(** ** What a socket can do *)

(** [may_fragment], [max_transmit_segments], [max_receive_segments]. *)
Record SocketCaps := {
  sc_may_fragment : bool;
  sc_max_transmit_segments : usize;
  sc_max_receive_segments : usize
}.

(** The trait's supplied methods. *)
Definition default_caps : SocketCaps :=
  {| sc_may_fragment := true; sc_max_transmit_segments := 1; sc_max_receive_segments := 1 |}.

(** [UdpSocketState], [quinn_udp]'s view of a socket. *)
Record UdpSocketState := {
  uss_may_fragment : bool;
  uss_max_gso_segments : usize;
  uss_gro_segments : usize
}.

Definition tokio_caps (inner : UdpSocketState) : SocketCaps :=
  {| sc_may_fragment := uss_may_fragment inner; sc_max_transmit_segments := uss_max_gso_segments inner;
     sc_max_receive_segments := uss_gro_segments inner |}.

(** [TokioUdpSocket::new]: either call may fail. *)
Definition TokioUdpSocket_new (state : result UdpSocketState string) (from_std : result unit string) :
    result UdpSocketState string :=
  match state with
  | Err e => Err e
  | Ok inner => match from_std with Ok _ => Ok inner | Err e => Err e end
  end.

(** [TokioUdpSocket::try_send]: [try_io] sends only when the socket is
    writable. *)
Definition tokio_try_send (writable : bool) (send : Transmit -> result unit string) (transmit : Transmit) :
    result unit string :=
  if writable then send transmit else Err "would block"%string.

(** ** [UdpPollHelper] *)

Section poller.
Context {Fut : Type} (make_fut : unit -> Fut) (poll_fut : Fut -> poll (result unit string) * Fut).

(** [fut: Option<Fut>] *)
Definition UdpPollHelper_new : option Fut := None.

Definition poll_writable (fut : option Fut) : poll (result unit string) * option Fut :=
  let f := match fut with None => make_fut () | Some f => f end in
  let '(r, f') := poll_fut f in
  (r, match r with Ready _ => None | Pending => Some f' end).

(** A completed future is never polled again: each time a result is returned
    the next call starts a new one. *)
Lemma poll_writable_fresh fut r fut' :
  poll_writable fut = (Ready r, fut') ->
  fut' = None /\ poll_writable fut' = poll_writable UdpPollHelper_new.
Proof.
  unfold poll_writable. destruct (poll_fut _) as [[]]; intros; simplify_eq. done.
Qed.
End poller.
