(* ===== verification/Streams.v ===== *)
(** * Stream adapters (wind-core/src/io.rs, wind-core/src/outbound.rs,
      wind-tuic/src/inbound.rs)

    A QUIC stream is two halves; [QuinnCompat] and [QuicBidiStream] present
    them as one byte stream, [TokioTcpCompat] wraps a TCP stream.  The halves
    themselves belong to quinn and tokio, so they are parameters. *)

From stdpp Require Import base list strings.
From S2P Require Import Prelude CoreUdp.

(** [AsyncRead] and [AsyncWrite] on a stream of type [S].  [poll_read] is
    given the room left in the buffer and yields the bytes read. *)
Class AsyncRead (S : Type) := {
  poll_read : usize -> S -> poll (result bytes string) * S
}.
Class AsyncWrite (S : Type) := {
  poll_write : bytes -> S -> poll (result usize string) * S;
  poll_flush : S -> poll (result unit string) * S;
  poll_shutdown : S -> poll (result unit string) * S
}.

(** [Poll::map_err] *)
Definition poll_map_err {A} (f : string -> string) (p : poll (result A string)) : poll (result A string) :=
  match p with Ready r => Ready (result_map_err f r) | Pending => Pending end.

(** Run a poll on one half. *)
Definition on_fst {S R A} (m : S -> A * S) (s : S * R) : A * (S * R) :=
  let '(a, s') := m s.1 in (a, (s', s.2)).
Definition on_snd {S R A} (m : R -> A * R) (s : S * R) : A * (S * R) :=
  let '(a, r') := m s.2 in (a, (s.1, r')).

Section halves.
Context {SendStream RecvStream : Type} {W : AsyncWrite SendStream} {R : AsyncRead RecvStream}.
(** [io::Error::other], [io::Error::new(ErrorKind::Other, e)] *)
Context (other : string -> string).

(** ** [QuinnCompat] *)
Definition QuinnCompat : Type := SendStream * RecvStream.
Definition QuinnCompat_new (send_stream : SendStream) (recv_stream : RecvStream) : QuinnCompat :=
  (send_stream, recv_stream).
Definition into_inner (c : QuinnCompat) : SendStream * RecvStream := (c.1, c.2).

Definition quinn_compat_read : AsyncRead QuinnCompat := {|
  poll_read n := on_snd (poll_read n)
|}.
Definition quinn_compat_write : AsyncWrite QuinnCompat := {|
  poll_write buf s := let '(r, s') := on_fst (poll_write buf) s in (poll_map_err other r, s');
  poll_flush := on_fst poll_flush;
  poll_shutdown := on_fst poll_shutdown
|}.

(** ** [QuicBidiStream]: every error of the writing half is wrapped *)
Definition quic_bidi_read : AsyncRead (SendStream * RecvStream) := {|
  poll_read n := on_snd (poll_read n)
|}.
Definition quic_bidi_write : AsyncWrite (SendStream * RecvStream) := {|
  poll_write buf s := let '(r, s') := on_fst (poll_write buf) s in (poll_map_err other r, s');
  poll_flush s := let '(r, s') := on_fst poll_flush s in (poll_map_err other r, s');
  poll_shutdown s := let '(r, s') := on_fst poll_shutdown s in (poll_map_err other r, s')
|}.
End halves.

(** ** [TokioTcpCompat] *)
Section wrapper.
Context {TcpStream : Type} {R : AsyncRead TcpStream} {W : AsyncWrite TcpStream}.

Record TokioTcpCompat := { inner : TcpStream }.

Definition via_inner {A} (m : TcpStream -> A * TcpStream) (s : TokioTcpCompat) : A * TokioTcpCompat :=
  let '(a, t) := m (inner s) in (a, {| inner := t |}).

Definition tokio_tcp_read : AsyncRead TokioTcpCompat := {|
  poll_read n := via_inner (poll_read n)
|}.
Definition tokio_tcp_write : AsyncWrite TokioTcpCompat := {|
  poll_write buf := via_inner (poll_write buf);
  poll_flush := via_inner poll_flush;
  poll_shutdown := via_inner poll_shutdown
|}.
End wrapper.

(** The two directions of an adapter do not touch each other: a read and an
    operation on the writing half give the same answers and the same stream in
    either order. *)
Lemma halves_commute {S R A C} (w : S -> A * S) (r : R -> C * R) (s : S * R) :
  (let '(a, s1) := on_fst w s in let '(c, s2) := on_snd r s1 in (a, c, s2)) =
  (let '(c, s1) := on_snd r s in let '(a, s2) := on_fst w s1 in (a, c, s2)).
Proof.
  destruct s as [x y]. unfold on_fst, on_snd. cbn. destruct (w x) as [a x'] eqn:Hw, (r y) as [c y'] eqn:Hr.
  cbn. by rewrite ?Hw, ?Hr.
Qed.

(** Mapping the error changes no readiness, no success and no stream. *)
Lemma poll_map_err_ok {A} f (p : poll (result A string)) a :
  poll_map_err f p = Ready (Ok a) <-> p = Ready (Ok a).
Proof. destruct p as [[]|]; cbn; naive_solver. Qed.
