(* ===== verification/SocksUdp.v ===== *)
(** * The SOCKS5 side of UDP (wind-socks/src/udp.rs, lib.rs)

    [Socks5UdpSocket] strips the SOCKS5 header of what the local application
    sends and adds one to what it receives.  [String::from_utf8_lossy] is
    modelled, the [fast_socks5] encoder is a parameter. *)

From stdpp Require Import base list strings.
From S2P Require Import Prelude Types CoreUdp.

(** ** [String::from_utf8_lossy]

    Each maximal prefix of an ill-formed sequence becomes U+FFFD. *)
Definition REPLACEMENT : str := [239; 191; 189].

Fixpoint utf8_lossy (s : bytes) : str :=
  match s with
  | [] => []
  | b1 :: r1 =>
    if in_range 0 127 b1 then b1 :: utf8_lossy r1
    else if in_range 194 223 b1 then
      match r1 with
      | b2 :: r2 => if utf8_cont b2 then b1 :: b2 :: utf8_lossy r2 else REPLACEMENT ++ utf8_lossy r1
      | [] => REPLACEMENT
      end
    else if in_range 224 239 b1 then
      match r1 with
      | b2 :: r2 =>
        if utf8_second3 b1 b2 then
          match r2 with
          | b3 :: r3 =>
            if utf8_cont b3 then b1 :: b2 :: b3 :: utf8_lossy r3 else REPLACEMENT ++ utf8_lossy r2
          | [] => REPLACEMENT
          end
        else REPLACEMENT ++ utf8_lossy r1
      | [] => REPLACEMENT
      end
    else if in_range 240 244 b1 then
      match r1 with
      | b2 :: r2 =>
        if utf8_second4 b1 b2 then
          match r2 with
          | b3 :: r3 =>
            if utf8_cont b3 then
              match r3 with
              | b4 :: r4 =>
                if utf8_cont b4 then b1 :: b2 :: b3 :: b4 :: utf8_lossy r4
                else REPLACEMENT ++ utf8_lossy r3
              | [] => REPLACEMENT
              end
            else REPLACEMENT ++ utf8_lossy r2
          | [] => REPLACEMENT
          end
        else REPLACEMENT ++ utf8_lossy r1
      | [] => REPLACEMENT
      end
    else REPLACEMENT ++ utf8_lossy r1
  end.

(** ** Addresses *)

(** [fast_socks5::util::target_addr::TargetAddr] *)
Inductive SocksTargetAddr :=
| Socks_Ip (addr : SocketAddr)
| Socks_Domain (domain : str) (port : u16).
#[export] Instance SocksTargetAddr_eq_dec : EqDecision SocksTargetAddr.
Proof. solve_decision. Defined.

Definition convert_target_addr (socks_addr : SocksTargetAddr) : TargetAddr :=
  match socks_addr with
  | Socks_Ip (SocketAddr_V4 ip port) => TargetAddr_IPv4 ip port
  | Socks_Ip (SocketAddr_V6 ip port _ _) => TargetAddr_IPv6 ip port
  | Socks_Domain domain port => TargetAddr_Domain domain port
  end.

(** wind-socks/src/lib.rs *)
Definition convert_addr (addr : SocksTargetAddr) : TargetAddr :=
  match addr with
  | Socks_Domain domain port => TargetAddr_Domain domain port
  | Socks_Ip socket_addr =>
    match SocketAddr_ip socket_addr with
    | IpAddr_V4 ipv4 => TargetAddr_IPv4 ipv4 (SocketAddr_port socket_addr)
    | IpAddr_V6 ipv6 => TargetAddr_IPv6 ipv6 (SocketAddr_port socket_addr)
    end
  end.

(** ** [parse_udp_request_sync] *)

Definition parsed : Type := u8 * SocksTargetAddr * bytes.
Abbreviation parse_result := (exec (result parsed string)) (only parsing).

Definition parse_err (msg : string) : parse_result := Returns (Err msg).

(** [u16::from_be_bytes([data[i], data[i + 1]])] *)
Definition be_at (i : Z) (data : bytes) : exec u16 :=
  exec_bind (index i data) (fun h => exec_bind (index (i + 1) data) (fun l => Returns (of_be h l))).

Definition parse_target (atyp : u8) (data : bytes) : exec (result (SocksTargetAddr * usize) string) :=
  let offset := 4 in
  if atyp =? 1 then
    if len data <? offset + 6
    then Returns (Err "Incomplete IPv4 address in SOCKS5 UDP header"%string)
    else
      exec_bind (index offset data) (fun a =>
      exec_bind (index (offset + 1) data) (fun b =>
      exec_bind (index (offset + 2) data) (fun c =>
      exec_bind (index (offset + 3) data) (fun d =>
      exec_bind (be_at (offset + 4) data) (fun port =>
      Returns (Ok (Socks_Ip (SocketAddr_V4 [a; b; c; d] port), offset + 6)))))))
  else if atyp =? 3 then
    if len data <? offset + 1
    then Returns (Err "Incomplete domain length in SOCKS5 UDP header"%string)
    else
      exec_bind (index offset data) (fun domain_len =>
      let offset := offset + 1 in
      if len data <? offset + domain_len + 2
      then Returns (Err "Incomplete domain name in SOCKS5 UDP header"%string)
      else
        exec_bind (slice offset (offset + domain_len) data) (fun raw =>
        let domain := utf8_lossy raw in
        let offset := offset + domain_len in
        exec_bind (be_at offset data) (fun port =>
        Returns (Ok (Socks_Domain domain port, offset + 2)))))
  else if atyp =? 4 then
    if len data <? offset + 18
    then Returns (Err "Incomplete IPv6 address in SOCKS5 UDP header"%string)
    else
      exec_bind (slice offset (offset + 16) data) (fun ip =>
      exec_bind (be_at (offset + 16) data) (fun port =>
      Returns (Ok (Socks_Ip (SocketAddr_V6 ip port 0 0), offset + 18))))
  else Returns (Err "Unsupported address type"%string).

Definition parse_udp_request_sync (data : bytes) : parse_result :=
  if len data <? 4 then parse_err "Packet too short for SOCKS5 UDP header"
  else
    exec_bind (index 0 data) (fun rsv0 =>
    exec_bind (index 1 data) (fun rsv1 =>
    if negb (rsv0 =? 0) || negb (rsv1 =? 0)
    then parse_err "Invalid reserved bytes in SOCKS5 UDP header"
    else
      exec_bind (index 2 data) (fun frag =>
      exec_bind (index 3 data) (fun atyp =>
      exec_bind (parse_target atyp data) (fun r =>
      match r with
      | Err e => parse_err e
      | Ok (target_addr, offset) =>
        exec_bind (slice offset (len data) data) (fun payload =>
        Returns (Ok (frag, target_addr, payload)))
      end))))).

(** ** [Socks5UdpSocket] *)

(** The stored client address, and what was handed to the socket. *)
Record Socks5UdpSocket := {
  s5_source_addr : SocketAddr;
  s5_sent : list Transmit
}.

(** [UdpSocketState::new] or [from_std] may fail. *)
Definition Socks5UdpSocket_new (state : result UdpSocketState string) (from_std : result unit string) :
    result Socks5UdpSocket string :=
  match state with
  | Err e => Err e
  | Ok _ =>
    match from_std with
    | Err e => Err e
    | Ok _ => Ok {| s5_source_addr := SocketAddr_V4 Ipv4Addr_UNSPECIFIED 0; s5_sent := [] |}
    end
  end.

(** [may_fragment], [max_transmit_segments], [max_receive_segments] *)
Definition socks_caps (inner : UdpSocketState) : SocketCaps :=
  {| sc_may_fragment := uss_may_fragment inner; sc_max_transmit_segments := uss_max_gso_segments inner;
     sc_max_receive_segments := uss_gro_segments inner |}.

Section send.
(** [fast_socks5::new_udp_header], and whether the socket takes a datagram. *)
Context (new_udp_header : SocketAddr -> option bytes) (socket_send : Transmit -> bool).

Definition try_send (transmit : Transmit) (s : Socks5UdpSocket) :
    result unit string * Socks5UdpSocket :=
  let socks_target := s5_source_addr s in
  let out :=
    match new_udp_header socks_target with
    | Some header =>
      {| tx_destination := socks_target; tx_ecn := tx_ecn transmit;
         tx_contents := header ++ tx_contents transmit;
         tx_segment_size := tx_segment_size transmit; tx_src_ip := tx_src_ip transmit |}
    | None => transmit
    end in
  if socket_send out
  then (Ok (), {| s5_source_addr := s5_source_addr s; s5_sent := s5_sent s ++ [out] |})
  else (Err "send"%string, s).
End send.

(** ** [poll_recv] *)

(** The caller's buffers and metadata, the client address and the number of
    packets produced so far. *)
Record RecvState := {
  rv_source : SocketAddr;
  rv_bufs : list bytes;
  rv_meta : list RecvMeta;
  rv_processed : nat
}.

(** [bufs[k][..n].copy_from_slice(&src[..n]); meta[k] = m; k += 1] *)
Definition rv_put (src : bytes) (m : RecvMeta) (s : RecvState) : exec RecvState :=
  match rv_bufs s !! rv_processed s, rv_meta s !! rv_processed s with
  | Some buf, Some _ =>
    let n := Z.min (len src) (len buf) in
    Returns {| rv_source := rv_source s;
               rv_bufs := <[rv_processed s := ztake n src ++ zdrop n buf]> (rv_bufs s);
               rv_meta := <[rv_processed s := rm_set_len n m]> (rv_meta s);
               rv_processed := S (rv_processed s) |}
  | _, _ => Panics
  end.

(** One received buffer with its metadata. *)
Definition recv_one (temp_buf : bytes) (temp_meta : QuinnRecvMeta) (s : RecvState) : exec RecvState :=
  if 0 <? qm_len temp_meta then
    exec_bind (slice_to (qm_len temp_meta) temp_buf) (fun packet_data =>
    let s := {| rv_source := qm_addr temp_meta; rv_bufs := rv_bufs s; rv_meta := rv_meta s;
                rv_processed := rv_processed s |} in
    exec_bind (parse_udp_request_sync packet_data) (fun r =>
    match r with
    | Ok (_, target_addr, payload) =>
      rv_put payload (rm_set_destination (Some (convert_target_addr target_addr))
                        (RecvMeta_from temp_meta)) s
    | Err _ => rv_put packet_data (RecvMeta_from temp_meta) s
    end))
  else Returns s.

(** [for i in 0..res] *)
Fixpoint recv_batch (batch : list (bytes * QuinnRecvMeta)) (s : RecvState) : exec RecvState :=
  match batch with
  | [] => Returns s
  | (temp_buf, temp_meta) :: batch' =>
    exec_bind (recv_one temp_buf temp_meta s) (fun s' => recv_batch batch' s')
  end.

(** The loop around readiness and the receive call, as for the tokio
    socket. *)
Inductive SocksAttempt :=
| Socks_NotReady
| Socks_ReadyFailed (e : string)
| Socks_RecvFailed
| Socks_Received (batch : list (bytes * QuinnRecvMeta)).

Fixpoint socks_poll_recv (attempts : list SocksAttempt) (s : RecvState) :
    option (exec (poll (result usize string) * RecvState)) :=
  match attempts with
  | [] => None
  | Socks_NotReady :: _ => Some (Returns (Pending, s))
  | Socks_ReadyFailed e :: _ => Some (Returns (Ready (Err e), s))
  | Socks_RecvFailed :: attempts' => socks_poll_recv attempts' s
  | Socks_Received batch :: _ =>
    Some (exec_bind (recv_batch batch
            {| rv_source := rv_source s; rv_bufs := rv_bufs s; rv_meta := rv_meta s;
               rv_processed := 0 |})
           (fun s' => Returns (Ready (Ok (Z.of_nat (rv_processed s'))), s')))
  end.
