(* ===== verification/SocksInbound.v ===== *)
(** * The SOCKS5 server (wind-socks/src/inbound.rs, ext.rs, lib.rs)

    Accepting a client, its handshake and command, TCP connections and UDP
    associations.  The protocol steps of [fast_socks5] and the socket calls
    are the environment of a session; what the server does with their answers
    is the model.  A session's visible actions are recorded in order; streams
    and sockets go to an [InboundCallback], any one: the theorems hold against
    the interface. *)

From stdpp Require Import base list strings.
From S2P Require Import Prelude Types CoreUdp SocksUdp Codec Quinn Io Callback.

Inductive AuthMode :=
| AuthMode_NoAuth
| AuthMode_Password (username password : str).

Record SocksInboundOpt := {
  so_listen_addr : SocketAddr;
  so_public_addr : option IpAddr;
  so_auth : AuthMode;
  so_skip_auth : bool;
  so_allow_udp : bool
}.

(** wind-socks/src/lib.rs; [SocksServerError::EOF] is singled out by
    [run_udp_proxy]. *)
Inductive SocksError :=
| Error_BindSocket (addr : SocketAddr)
| Error_Io
| Error_Socks (eof : bool)
| Error_SocksReply
| Error_Callback.

(** [fast_socks5::Socks5Command] *)
Inductive Socks5Command := TCPConnect | TCPBind | UDPAssociate.

Inductive SocksAction :=
| ReplySuccess (addr : SocketAddr)
| ReplyError
| HandleTcp (target : TargetAddr)
| HandleUdp.

(** ** [udp_bind_random_port] *)

(** Which of the socket calls succeed; a socket is its local address. *)
Record SocketEnv := {
  sv_new : bool -> bool;
  sv_set_only_v6 : bool;
  sv_bind : SocketAddr -> option u16;
  sv_set_nonblocking : bool
}.

Definition V4_UNSPEC : SocketAddr := SocketAddr_V4 Ipv4Addr_UNSPECIFIED 0.
Definition V6_UNSPEC : SocketAddr := SocketAddr_V6 Ipv6Addr_UNSPECIFIED 0 0 0.

Definition is_v6 (a : SocketAddr) : bool :=
  match a with SocketAddr_V6 _ _ _ _ => true | _ => false end.

(** [Socket::new(domain)] then [bind]: the bound address has the kernel's
    port. *)
Definition bind_at (env : SocketEnv) (a : SocketAddr) : option SocketAddr :=
  if sv_new env (is_v6 a)
  then (fun p => SocketAddr_new (SocketAddr_ip a) p) <$> sv_bind env a
  else None.

Definition udp_bind_random_port (env : SocketEnv) (addr : option IpAddr) : option SocketAddr :=
  match addr with
  | Some ip =>
    let sock_addr := SocketAddr_new ip 0 in
    match bind_at env sock_addr with
    | Some s => if sv_set_nonblocking env then Some s else None
    | None => None
    end
  | None =>
    let v6 := if sv_new env true && sv_set_only_v6 env then bind_at env V6_UNSPEC else None in
    match match v6 with Some s => Some s | None => bind_at env V4_UNSPEC end with
    | Some s => if sv_set_nonblocking env then Some s else None
    | None => None
    end
  end.

(** ** A session *)

(** The client, as the protocol library reports it. *)
Record SessionEnv := {
  (** [accept_no_auth] / [accept_password_auth]: the handshake, and the
      credentials presented *)
  ss_handshake : bool;
  ss_credentials : str * str;
  ss_command : option (Socks5Command * SocksTargetAddr);
  ss_reply_success : bool;
  ss_reply_error : bool;
  ss_sockets : SocketEnv;
  (** [peer_sock.local_addr()] *)
  ss_local_addr : bool;
  (** [Socks5UdpSocket::new] *)
  ss_virtual_socket : bool
}.

(** What a session waits for once its command is accepted: the callback's TCP
    future; or, in [try_join!(udp_fut, tcp_fut)], the callback's UDP future
    (unless it has completed) and the end of the controlling stream. *)
Inductive Awaiting {S : Type} {CB : InboundCallback S} :=
| Await_Tcp (f : TcpFuture)
| Await_Udp (f : option UdpFuture).

Inductive SessionEvent :=
| Session_Io (ev : IoEvent)
| Session_Cancelled
| Session_ControlEnded (eof : bool).

Section session.
Context {S : Type} {CB : InboundCallback S}.
Context (opts : SocksInboundOpt) (env : SessionEnv).

(** A session runs on the list of its actions and the callback's state. *)
Local Abbreviation SM := (M (list SocksAction * S) SocksError).

Definition act (a : SocksAction) : SM unit := m_modify (fun s => (s.1 ++ [a], s.2)).

Definition or_err (ok : bool) (e : SocksError) : SM unit := m_ensure ok e.

(** [cb.method(..).await.context(CallbackSnafu)?] *)
Definition call {A} (m : M S Report A) : SM A :=
  fun s => match m s.2 with
           | Returns (r, s') => Returns (result_map_err (fun _ => Error_Callback) r, (s.1, s'))
           | Panics => Panics
           end.

(** The reply is recorded when it is attempted. *)
Definition reply_success (addr : SocketAddr) : SM unit :=
  act (ReplySuccess addr) ;;!
  or_err (ss_reply_success env) (Error_Socks false).

(** [try_notify!]: an error is reported to the client, then returned; a
    failure to report it is only logged. *)
Definition try_notify {A} (o : option A) : SM A :=
  match o with
  | Some a => m_ret a
  | None => act ReplyError ;;! m_throw (Error_Socks false)
  end.

(** [try_join!]'s first error ends the session; it is only logged. *)
Definition logged {A} (m : SM (option A)) : SM (option A) :=
  m_match m (fun r => m_ret (match r with Ok o => o | Err _ => None end)).

Definition run_udp_proxy (peer_bind_ip : option IpAddr) (reply_ip : IpAddr) : SM (option Awaiting) :=
  let! peer_sock := try_notify (udp_bind_random_port (ss_sockets env) peer_bind_ip) in
  let! peer_addr := try_notify (if ss_local_addr env then Some peer_sock else None) in
  let reply_port := SocketAddr_port peer_addr in
  reply_success (SocketAddr_new reply_ip reply_port) ;;!
  logged (
    or_err (ss_virtual_socket env) Error_Io ;;!
    act HandleUdp ;;!
    let! f := call handle_udpsocket in
    m_ret (Some (Await_Udp (Some f)))).

(** Up to the point where the session waits for its streams. *)
Definition handle_income : SM (option Awaiting) :=
  match so_auth opts with
  | AuthMode_NoAuth => or_err (ss_handshake env) (Error_Socks false)
  | AuthMode_Password username password =>
    or_err (ss_handshake env &&
            bool_decide ((ss_credentials env).1 = username) &&
            bool_decide ((ss_credentials env).2 = password)) (Error_Socks false)
  end ;;!
  match ss_command env with
  | None => m_throw (Error_Socks false)
  | Some (cmd, target_addr) =>
    match cmd with
    | TCPConnect =>
      reply_success (SocketAddr_V4 Ipv4Addr_LOCALHOST 0) ;;!
      act (HandleTcp (convert_target_addr target_addr)) ;;!
      let! f := call (handle_tcpstream (convert_target_addr target_addr)) in
      m_ret (Some (Await_Tcp f))
    | UDPAssociate =>
      if so_allow_udp opts
      then run_udp_proxy None (IpAddr_V4 Ipv4Addr_LOCALHOST)
      else
        act ReplyError ;;!
        or_err (ss_reply_error env) (Error_Socks false) ;;!
        m_throw Error_SocksReply
    | TCPBind =>
      act ReplyError ;;!
      or_err (ss_reply_error env) (Error_Socks false) ;;!
      m_throw Error_SocksReply
    end
  end.

(** The rest of it.  The controlling stream always ends in an error for
    [try_join!], which drops the UDP future, completed or not; an event for
    something the session does not wait for changes nothing. *)
Definition session_step (ev : SessionEvent) (p : Awaiting) : SM (option Awaiting) :=
  match p, ev with
  | Await_Tcp f, Session_Io ev =>
    let! o := call (poll_tcpstream ev f) in
    m_ret (Await_Tcp <$> o)
  | Await_Udp (Some f), Session_Cancelled =>
    logged (call (cancel_udpsocket f) ;;! m_ret (Some (Await_Udp None)))
  | Await_Udp _, Session_ControlEnded _ => m_ret None
  | _, _ => m_ret (Some p)
  end.
End session.

(** ** [listen] *)

(** The body of [select!] runs to its end before the next round: while a
    session is served neither the cancellation nor another client is seen. *)
Inductive ListenState {S : Type} {CB : InboundCallback S} :=
| Listening
| Handshaking
| Serving (p : Awaiting)
| Listened (bound : bool).

Inductive SocksListenEvent :=
| Socks_Cancelled
| Socks_AcceptFailed
| Socks_Accepted
| Socks_Command (env : SessionEnv)
| Socks_Session (ev : SessionEvent).

(** The listener remembers what each session did up to its wait. *)
Record Listener {S : Type} {CB : InboundCallback S} := {
  ls_state : ListenState;
  ls_log : list (SessionEnv * list SocksAction)
}.

Section listen.
Context {S : Type} {CB : InboundCallback S} (opts : SocksInboundOpt).

Definition socks_listen (bind_ok : bool) : Listener :=
  {| ls_state := if bind_ok then Listening else Listened false; ls_log := [] |}.

Definition ls_set_state (x : ListenState) (l : Listener) : Listener :=
  {| ls_state := x; ls_log := ls_log l |}.

(** After [handle_income]: errors are logged. *)
Definition after_session (r : result (option Awaiting) SocksError) : ListenState :=
  match r with
  | Ok (Some p) => Serving p
  | Ok None | Err _ => Listening
  end.

Definition socks_listen_step (ev : SocksListenEvent) (l : Listener) (s : S) : exec (Listener * S) :=
  match ls_state l, ev with
  | Listening, Socks_Cancelled => Returns (ls_set_state (Listened true) l, s)
  | Listening, Socks_Accepted => Returns (ls_set_state Handshaking l, s)
  | Handshaking, Socks_Command env =>
    exec_bind (handle_income opts env ([], s)) (fun '(r, (acts, s)) =>
    Returns ({| ls_state := after_session r; ls_log := ls_log l ++ [(env, acts)] |}, s))
  | Serving p, Socks_Session ev =>
    exec_bind (session_step ev p ([], s)) (fun '(r, (_, s)) =>
    Returns (ls_set_state (after_session r) l, s))
  | _, _ => Returns (l, s)
  end.

Fixpoint socks_listen_run (evs : list SocksListenEvent) (l : Listener) (s : S) :
    exec (Listener * S) :=
  match evs with
  | [] => Returns (l, s)
  | ev :: evs' =>
    exec_bind (socks_listen_step ev l s) (fun '(l, s) => socks_listen_run evs' l s)
  end.
End listen.

(** ** Access control *)

(** What a session may do under [opts]. *)
Definition authorised (opts : SocksInboundOpt) (env : SessionEnv) : Prop :=
  match so_auth opts with
  | AuthMode_NoAuth => True
  | AuthMode_Password username password => ss_credentials env = (username, password)
  end.

Definition permitted (opts : SocksInboundOpt) (env : SessionEnv) (a : SocksAction) : Prop :=
  match a with
  | ReplyError => True
  | ReplySuccess _ => authorised opts env
  | HandleTcp t => authorised opts env /\
      exists addr, ss_command env = Some (TCPConnect, addr) /\ t = convert_target_addr addr
  | HandleUdp => authorised opts env /\ so_allow_udp opts = true /\
      exists addr, ss_command env = Some (UDPAssociate, addr)
  end.

(** The handshake is one check, and passing it is being authorised. *)
Definition gate (opts : SocksInboundOpt) (env : SessionEnv) : bool :=
  match so_auth opts with
  | AuthMode_NoAuth => ss_handshake env
  | AuthMode_Password username password =>
    ss_handshake env && bool_decide ((ss_credentials env).1 = username) &&
    bool_decide ((ss_credentials env).2 = password)
  end.

Lemma gate_authorised opts env : gate opts env = true -> authorised opts env.
Proof.
  unfold gate, authorised. destruct (so_auth opts); [done|].
  destruct (ss_credentials env) as [u p]; cbn.
  intros [[_ ->%bool_decide_eq_true]%andb_true_iff ->%bool_decide_eq_true]%andb_true_iff. done.
Qed.

Definition no_auth (opts : SocksInboundOpt) : SocksInboundOpt :=
  {| so_listen_addr := so_listen_addr opts; so_public_addr := so_public_addr opts;
     so_auth := AuthMode_NoAuth; so_skip_auth := so_skip_auth opts;
     so_allow_udp := so_allow_udp opts |}.

Section access.
Context {S : Type} {CB : InboundCallback S}.

(** Behind the gate a session does what it would do without authentication,
    a callback's state is only touched by the callback. *)
Lemma handle_income_gate opts env s :
  handle_income opts env s =
  if gate opts env
  then handle_income (no_auth opts) {| ss_handshake := true; ss_credentials := ss_credentials env;
         ss_command := ss_command env; ss_reply_success := ss_reply_success env;
         ss_reply_error := ss_reply_error env; ss_sockets := ss_sockets env;
         ss_local_addr := ss_local_addr env; ss_virtual_socket := ss_virtual_socket env |} s
  else Returns (Err (Error_Socks false), s).
Proof.
  unfold handle_income, or_err, gate. cbn [so_auth so_allow_udp no_auth].
  destruct (so_auth opts); rewrite !run_ensure; [by destruct (ss_handshake env)|].
  destruct (ss_handshake env); [|done]. cbn [andb]. by destruct (_ && _).
Qed.

(** The whole of it, in the two cases that reach the callback and otherwise. *)
Lemma call_actions {A} (m : M S Report A) l s r l' s' :
  call m (l, s) = Returns (r, (l', s')) -> l' = l.
Proof. unfold call. cbn. destruct (m s) as [[? ?]|]; [|done]. by intros [= _ <- _]. Qed.

Lemma handle_income_actions opts env s r acts s' :
  handle_income opts env ([], s) = Returns (r, (acts, s')) ->
  Forall (permitted opts env) acts /\
  forall a, ReplySuccess a ∈ acts -> SocketAddr_ip a = IpAddr_V4 Ipv4Addr_LOCALHOST.
Proof.
  rewrite handle_income_gate. destruct (gate opts env) eqn:Hg.
  2: { intros [= _ <- _]. split; [done|]. by intros a Ha%elem_of_nil. }
  apply gate_authorised in Hg.
  unfold handle_income, run_udp_proxy, logged, reply_success, try_notify, or_err, act.
  cbn [so_auth so_allow_udp no_auth ss_handshake ss_credentials ss_command ss_reply_success ss_reply_error
       ss_sockets ss_local_addr ss_virtual_socket].
  intros H. m_unfold; m_unfold.
  repeat (case_match; simplify_eq/=;
    repeat match goal with H : call _ (_, _) = Returns (_, _) |- _ => apply call_actions in H end;
    simplify_eq/=);
    (split;
     [repeat (apply Forall_cons_2; [cbn [permitted]; by eauto 6|]); by apply Forall_nil_2
     |intros ? Ha; rewrite ?elem_of_cons, ?elem_of_nil in Ha; naive_solver]).
Qed.

Local Ltac map_err :=
  repeat match goal with
         | H : result_map_err _ ?r = _ |- _ => destruct r; cbn in H; simplify_eq
         end.

(** A session reaches the callback's state by one call at most. *)
Lemma handle_income_state opts env s r acts s' :
  handle_income opts env ([], s) = Returns (r, (acts, s')) ->
  (s' = s /\ (r = Ok None \/ exists e, r = Err e)) \/
  (exists t rr, handle_tcpstream t s = Returns (rr, s') /\
     r = match rr with Ok f => Ok (Some (Await_Tcp f)) | Err _ => Err Error_Callback end /\
     HandleTcp t ∈ acts) \/
  (exists rr, handle_udpsocket s = Returns (rr, s') /\
     r = Ok (match rr with Ok f => Some (Await_Udp (Some f)) | Err _ => None end)).
Proof.
  rewrite handle_income_gate. destruct (gate opts env); [|intros [= <- _ <-]; left; eauto].
  unfold handle_income, run_udp_proxy, logged, reply_success, try_notify, or_err, act, call.
  cbn [so_auth so_allow_udp no_auth ss_handshake ss_credentials ss_command ss_reply_success ss_reply_error
       ss_sockets ss_local_addr ss_virtual_socket].
  intros H. m_unfold; m_unfold.
  repeat (case_match; simplify_eq/=); map_err; first
    [ by left; eauto
    | by right; left; do 2 eexists; (split_and!; [eassumption|done|by rewrite !elem_of_cons; eauto])
    | by right; right; eexists; (split; [eassumption|done]) ].
Qed.

Lemma session_step_state ev p s r acts s' :
  session_step ev p ([], s) = Returns (r, (acts, s')) ->
  (s' = s /\ (r = Ok None \/ r = Ok (Some p))) \/
  (exists f ev rr, p = Await_Tcp f /\ poll_tcpstream ev f s = Returns (rr, s') /\
     r = match rr with Ok o => Ok (Await_Tcp <$> o) | Err _ => Err Error_Callback end) \/
  (exists f rr, p = Await_Udp (Some f) /\ ev = Session_Cancelled /\
     cancel_udpsocket f s = Returns (rr, s') /\
     r = Ok (match rr with Ok _ => Some (Await_Udp None) | Err _ => None end)).
Proof.
  unfold session_step, logged, call. destruct p as [f|[f|]], ev; intros H; m_unfold; m_unfold.
  all: repeat (case_match; simplify_eq/=); simplify_eq; map_err; first
    [ by left; eauto
    | by right; left; do 3 eexists; (split_and!; [done|eassumption|done])
    | by right; right; do 2 eexists; (split_and!; [done|done|eassumption|done]) ].
Qed.

Lemma socks_listen_step_log opts ev l s l' s' :
  socks_listen_step opts ev l s = Returns (l', s') ->
  ls_log l' = ls_log l \/ exists env acts, ls_log l' = ls_log l ++ [(env, acts)] /\
    Forall (permitted opts env) acts.
Proof.
  unfold socks_listen_step. destruct (ls_state l) eqn:Hl; destruct ev; intros H; simplify_eq; auto.
  - destruct (handle_income _ _ _) as [[r [acts s1]]|] eqn:Hi; simplify_eq/=.
    apply handle_income_actions in Hi as [? _]. right. eauto.
  - destruct (session_step _ _ _) as [[r [acts s1]]|]; simplify_eq/=. auto.
Qed.

(** C28: SOCKS5 access control.  Whatever clients do and whatever the callback
    is, in every run of the listener a session connects or associates on behalf
    of a client only if the client passed the configured authentication with
    exactly the configured user name and password; it connects only to the
    address the client named, and associates only if UDP is allowed; a client
    that fails is sent no success reply. *)
Theorem socks_access_control opts bind_ok evs s l' s' :
  socks_listen_run opts evs (socks_listen bind_ok) s = Returns (l', s') ->
  Forall (fun e => Forall (permitted opts e.1) e.2) (ls_log l').
Proof.
  assert (Forall (fun e => Forall (permitted opts e.1) e.2) (ls_log (socks_listen (CB:=CB) bind_ok))) as H0
    by constructor.
  revert H0. generalize (socks_listen (CB:=CB) bind_ok) as l. revert s.
  induction evs as [|ev evs IH]; intros s l Hl Hr; cbn in Hr; [by simplify_eq|].
  destruct (socks_listen_step opts ev l s) as [[l1 s1]|] eqn:Hs; [|done]. cbn in Hr.
  eapply IH; [|exact Hr].
  destruct (socks_listen_step_log _ _ _ _ _ _ Hs) as [->|(env&acts&->&?)]; [done|].
  apply Forall_app. split; [done|]. by constructor.
Qed.

(** The configured public address plays no role: whatever the options
    say of the public address and of skipping authentication, a session does
    the same, and every success reply names 127.0.0.1. *)
Lemma public_addr_and_skip_auth_ignored opts env public skip s r acts s' :
  handle_income opts env ([], s) = Returns (r, (acts, s')) ->
  handle_income {| so_listen_addr := so_listen_addr opts; so_public_addr := public;
      so_auth := so_auth opts; so_skip_auth := skip; so_allow_udp := so_allow_udp opts |} env ([], s)
    = Returns (r, (acts, s')) /\
  forall a, ReplySuccess a ∈ acts -> SocketAddr_ip a = IpAddr_V4 Ipv4Addr_LOCALHOST.
Proof. intros H. split; [done|]. apply (handle_income_actions _ _ _ _ _ _ H). Qed.
End access.

(** ** Witnesses *)

(** A callback that accepts everything and counts its calls. *)
#[local] Instance counting : InboundCallback nat := {|
  TcpFuture := TargetAddr;
  UdpFuture := nat;
  handle_tcpstream t := fun n => Returns (Ok t, S n);
  poll_tcpstream _ _ := m_ret None;
  handle_udpsocket := fun n => Returns (Ok n, S n);
  cancel_udpsocket _ := m_ret ()
|}.

Definition demo_sockets : SocketEnv :=
  {| sv_new v6 := negb v6; sv_set_only_v6 := true; sv_bind _ := Some 40000; sv_set_nonblocking := true |}.

Definition demo_opts : SocksInboundOpt :=
  {| so_listen_addr := SocketAddr_V4 [127; 0; 0; 1] 6666; so_public_addr := Some (IpAddr_V4 [1; 2; 3; 4]);
     so_auth := AuthMode_Password [117] [112]; so_skip_auth := false; so_allow_udp := true |}.

Definition demo_client_session : SessionEnv :=
  {| ss_handshake := true; ss_credentials := ([117], [112]);
     ss_command := Some (UDPAssociate, Socks_Ip (SocketAddr_V4 [0; 0; 0; 0] 0));
     ss_reply_success := true; ss_reply_error := true; ss_sockets := demo_sockets;
     ss_local_addr := true; ss_virtual_socket := true |}.

Lemma socks_access_control_witness :
  Forall (fun e => Forall (permitted demo_opts e.1) e.2)
    [(demo_client_session, [ReplySuccess (SocketAddr_V4 [127; 0; 0; 1] 40000); HandleUdp])].
Proof.
  apply (socks_access_control demo_opts true
    [Socks_Accepted; Socks_Command demo_client_session; Socks_Session (Session_ControlEnded true); Socks_Cancelled] 0%nat
    {| ls_state := Listened true;
       ls_log := [(demo_client_session, [ReplySuccess (SocketAddr_V4 [127; 0; 0; 1] 40000); HandleUdp])] |} 1%nat).
  reflexivity.
Defined.
