(* ===== verification/Tasks.v ===== *)
(** * Background tasks (wind-tuic/src/task.rs)

    [spawn_handler] forwards what a connection accepts to a bounded channel,
    [handle_incoming] spawns one for datagrams and one for each kind of
    stream.  A handler is a step function over what [select!] yields. *)

From stdpp Require Import base list.
From S2P Require Import Prelude.

Definition SPSC_BUFFER_SIZE : usize := 16.

Section handler.
Context {T : Type}.

(** [accept_fn] completed, with whether the item was sent within the second
    that [send_timeout] allows; or the token was cancelled. *)
Inductive HandlerEvent :=
| Accept_Ok (item : T) (sent : bool)
| Accept_Err
| Handler_Cancelled.

Record Handler := { hd_running : bool; hd_forwarded : list T }.

Definition handler_new : Handler := {| hd_running := true; hd_forwarded := [] |}.

(** Both errors end in [unimplemented!]. *)
Definition handler_step (h : Handler) (ev : HandlerEvent) : exec Handler :=
  if hd_running h then
    match ev with
    | Accept_Err => Panics
    | Accept_Ok item sent =>
      if sent then Returns {| hd_running := true; hd_forwarded := hd_forwarded h ++ [item] |}
      else Panics
    | Handler_Cancelled => Returns {| hd_running := false; hd_forwarded := hd_forwarded h |}
    end
  else Returns h.

Fixpoint handler_run (h : Handler) (evs : list HandlerEvent) : exec Handler :=
  match evs with
  | [] => Returns h
  | ev :: evs' => exec_bind (handler_step h ev) (fun h' => handler_run h' evs')
  end.

(** What is accepted before the cancellation. *)
Fixpoint until_cancelled (evs : list HandlerEvent) : list HandlerEvent :=
  match evs with
  | [] => []
  | Handler_Cancelled :: _ => []
  | ev :: evs' => ev :: until_cancelled evs'
  end.

Definition accepted_item (ev : HandlerEvent) : option T :=
  match ev with Accept_Ok item true => Some item | _ => None end.

Lemma handler_run_stopped h evs : hd_running h = false -> handler_run h evs = Returns h.
Proof.
  intros Hs. induction evs as [|ev evs IH]; [done|]. cbn. unfold handler_step. by rewrite Hs.
Qed.

Lemma handler_run_spec h evs : hd_running h = true ->
  (Forall (fun ev => is_Some (accepted_item ev)) (until_cancelled evs) ->
   exists h', handler_run h evs = Returns h' /\
     hd_forwarded h' = hd_forwarded h ++ omap accepted_item (until_cancelled evs)) /\
  (~ Forall (fun ev => is_Some (accepted_item ev)) (until_cancelled evs) ->
   handler_run h evs = Panics).
Proof.
  revert h; induction evs as [|ev evs IH]; intros h Hr; cbn.
  { split; [|by intros []; constructor]. intros _. exists h. by rewrite app_nil_r. }
  unfold handler_step. rewrite Hr. destruct ev as [item [|]| |]; cbn.
  - destruct (IH {| hd_running := true; hd_forwarded := hd_forwarded h ++ [item] |} eq_refl) as [I1 I2].
    cbn in I1. split.
    + intros [_ Hf]%Forall_cons. destruct (I1 Hf) as (h'&->&Hh). exists h'. by rewrite Hh, <-app_assoc.
    + intros Hf. apply I2. intros Hf'. apply Hf. constructor; [by eexists|done].
  - split; [|done]. intros [[? [=]] _]%Forall_cons.
  - split; [|done]. intros [[? [=]] _]%Forall_cons.
  - rewrite handler_run_stopped by done. split; [|by intros []; constructor].
    intros _. eexists. split; [done|]. by rewrite app_nil_r.
Qed.

(** C31: forwarding is lossless until it breaks.  A handler delivers, in
    order and without loss, everything the connection yields before the
    cancellation, provided accepting never fails and the consumer keeps up;
    the first connection error or stalled consumer before the cancellation
    makes the task panic. *)
Theorem handler_forwards evs :
  (Forall (fun ev => is_Some (accepted_item ev)) (until_cancelled evs) ->
   exists h', handler_run handler_new evs = Returns h' /\
     hd_forwarded h' = omap accepted_item (until_cancelled evs)) /\
  (~ Forall (fun ev => is_Some (accepted_item ev)) (until_cancelled evs) ->
   handler_run handler_new evs = Panics).
Proof. by apply (handler_run_spec handler_new). Qed.
End handler.

(** [handle_incoming]: three handlers with one cancellation token. *)
Record IncomingHandlers (D Bi Uni : Type) := {
  ih_datagram : Handler (T:=D);
  ih_bi : Handler (T:=Bi);
  ih_uni : Handler (T:=Uni)
}.
Arguments ih_datagram {D Bi Uni} _.
Arguments ih_bi {D Bi Uni} _.
Arguments ih_uni {D Bi Uni} _.

Definition handle_incoming {D Bi Uni} : IncomingHandlers D Bi Uni :=
  {| ih_datagram := handler_new; ih_bi := handler_new; ih_uni := handler_new |}.

Lemma handler_forwards_witness :
  exists h', handler_run handler_new [Accept_Ok 1 true; Accept_Ok 2 true; Handler_Cancelled; Accept_Err]
    = Returns h' /\ hd_forwarded h' = [1; 2].
Proof.
  apply (proj1 (handler_forwards [Accept_Ok 1 true; Accept_Ok 2 true; Handler_Cancelled; Accept_Err])).
  repeat constructor; by eexists.
Defined.
