(* ===== verification/Reassembly.v ===== *)
(** * Fragment reassembly (wind-tuic/src/proto/udp_stream.rs)

    [FragmentReassemblyBuffer] maps [(assoc_id, pkt_id)] to shared metadata
    ([Arc<FragmentMetadata>]) whose inner cache collects the payloads.  The
    [Arc]s are pointers into a store, so that the entry held by the map and
    the one held by a running [add_fragment] are the same object. *)

From stdpp Require Import base list gmap.
From S2P Require Import Prelude Types Moka.

Definition MAX_FRAGMENTS : u8 := 255.
Definition FRAGMENT_TIMEOUT_MS : u64 := 30000.

Record FragmentInfo := {
  fi_assoc_id : u16;
  fi_pkt_id : u16;
  fi_frag_total : u8;
  fi_frag_id : u8;
  fi_source : option TargetAddr;
  fi_target : TargetAddr
}.

Section reassembly.
Context {MO : MokaOps}.

Record FragmentMetadata := {
  fm_frag_total : u8;
  fm_fragments : Cache Z bytes;
  fm_last_updated : u64;
  fm_source : option TargetAddr;
  fm_target : TargetAddr
}.

(** Pointers of [Arc<FragmentMetadata>] into [frb_store]; [frb_next] is
    unused so far. *)
Record FragmentReassemblyBuffer := {
  frb_fragments : Cache (Z * Z) nat;
  frb_store : gmap nat FragmentMetadata;
  frb_next : nat
}.

Definition FragmentReassemblyBuffer_new : FragmentReassemblyBuffer :=
  {| frb_fragments := cache_new 1000; frb_store := ∅; frb_next := 0 |}.

(** Interior mutability of the metadata behind pointer [p]. *)
Definition fm_set_target (t : TargetAddr) (m : FragmentMetadata) : FragmentMetadata :=
  {| fm_frag_total := fm_frag_total m; fm_fragments := fm_fragments m;
     fm_last_updated := fm_last_updated m; fm_source := fm_source m; fm_target := t |}.
Definition fm_set_last_updated (t : u64) (m : FragmentMetadata) : FragmentMetadata :=
  {| fm_frag_total := fm_frag_total m; fm_fragments := fm_fragments m;
     fm_last_updated := t; fm_source := fm_source m; fm_target := fm_target m |}.
Definition fm_set_fragments (c : Cache Z bytes) (m : FragmentMetadata) : FragmentMetadata :=
  {| fm_frag_total := fm_frag_total m; fm_fragments := c;
     fm_last_updated := fm_last_updated m; fm_source := fm_source m; fm_target := fm_target m |}.

Definition store_update (p : nat) (f : FragmentMetadata -> FragmentMetadata)
    (b : FragmentReassemblyBuffer) : FragmentReassemblyBuffer :=
  {| frb_fragments := frb_fragments b; frb_store := alter f p (frb_store b);
     frb_next := frb_next b |}.

(** [for i in 0..frag_total { total_size += meta.fragments.get(&i)?.len() }] *)
Fixpoint total_size_loop (n : nat) (i : Z) (total_size : usize) (c : Cache Z bytes) :
    option usize * Cache Z bytes :=
  match n with
  | O => (Some total_size, c)
  | S n' =>
    match cache_get i c with
    | (Some fragment, c') => total_size_loop n' (i + 1) (total_size + len fragment) c'
    | (None, c') => (None, c')
    end
  end.

(** [for i in 0..frag_total { buffer.put_slice(&meta.fragments.get(&i)?) }] *)
Fixpoint combine_loop (n : nat) (i : Z) (buffer : bytes) (c : Cache Z bytes) :
    option bytes * Cache Z bytes :=
  match n with
  | O => (Some buffer, c)
  | S n' =>
    match cache_get i c with
    | (Some fragment, c') => combine_loop n' (i + 1) (buffer ++ fragment) c'
    | (None, c') => (None, c')
    end
  end.

Definition reassemble_packet (key : Z * Z) (b : FragmentReassemblyBuffer) :
    option UdpPacket * FragmentReassemblyBuffer :=
  let '(o, c) := cache_remove key (frb_fragments b) in
  let b := {| frb_fragments := c; frb_store := frb_store b; frb_next := frb_next b |} in
  match o ≫= (fun p => (p,.) <$> frb_store b !! p) with
  | Some (p, meta) =>
    let n := Z.to_nat (fm_frag_total meta) in
    let '(total_size, c1) := total_size_loop n 0 0 (fm_fragments meta) in
    let b1 := store_update p (fm_set_fragments c1) b in
    match total_size with
    | None => (None, b1)
    | Some _ =>
      let '(buffer, c2) := combine_loop n 0 [] c1 in
      let b2 := store_update p (fm_set_fragments c2) b1 in
      match buffer with
      | None => (None, b2)
      | Some buffer =>
        (Some {| pkt_source := fm_source meta; pkt_target := fm_target meta;
                 pkt_payload := buffer |}, b2)
      end
    end
  | None => (None, b)
  end.

(** [matches!(target, TargetAddr::IPv4(ip, 0) if ip.is_unspecified())] *)
Definition is_placeholder_addr (target : TargetAddr) : bool :=
  match target with
  | TargetAddr_IPv4 ip port => (port =? 0) && is_unspecified ip
  | _ => false
  end.

(** [self.fragments.entry(key).or_insert_with(..).await]: the pointer found
    or created.  [now] is [init_time().elapsed().as_secs()]; the reading
    stored here is overwritten by [store_fragment] before anything else can
    look at it, so one reading per call is enough. *)
Definition get_or_create (now : u64) (info : FragmentInfo) (b : FragmentReassemblyBuffer) :
    nat * FragmentReassemblyBuffer :=
  let key := (fi_assoc_id info, fi_pkt_id info) in
  let fresh := frb_next b in
  let '(p, c) := cache_or_insert key fresh (frb_fragments b) in
  if decide (p = fresh)
  then (p, {| frb_fragments := c;
              frb_store := <[fresh := {| fm_frag_total := fi_frag_total info;
                                         fm_fragments := cache_new (fi_frag_total info);
                                         fm_last_updated := now;
                                         fm_source := fi_source info;
                                         fm_target := fi_target info |}]> (frb_store b);
              frb_next := S fresh |})
  else (p, {| frb_fragments := c; frb_store := frb_store b; frb_next := frb_next b |}).

(** The updates of [add_fragment] through the pointer: target, timestamp,
    payload, pending tasks. *)
Definition store_fragment (now : u64) (info : FragmentInfo) (payload : bytes) (p : nat)
    (b : FragmentReassemblyBuffer) : FragmentReassemblyBuffer :=
  let b := if (fi_frag_id info =? 0) && negb (is_placeholder_addr (fi_target info))
           then store_update p (fm_set_target (fi_target info)) b else b in
  let b := store_update p (fm_set_last_updated now) b in
  let b := store_update p (fun m =>
             fm_set_fragments (cache_insert (fi_frag_id info) payload (fm_fragments m)) m) b in
  store_update p (fun m => fm_set_fragments (cache_run_pending_tasks (fm_fragments m)) m) b.

Definition add_fragment (now : u64) (info : FragmentInfo) (payload : bytes)
    (b : FragmentReassemblyBuffer) : option UdpPacket * FragmentReassemblyBuffer :=
  let '(p, b) := get_or_create now info b in
  let b := store_fragment now info payload p b in
  match frb_store b !! p with
  | Some meta =>
    if cache_entry_count (fm_fragments meta) =? fm_frag_total meta
    then reassemble_packet (fi_assoc_id info, fi_pkt_id info) b
    else (None, b)
  | None => (None, b)
  end.

(** [now_ms] is [init_time().elapsed()]; the [Result] of
    [invalidate_entries_if] is discarded. *)
Definition expired (now_ms : u64) (m : FragmentMetadata) : bool :=
  FRAGMENT_TIMEOUT_MS <=? now_ms - fm_last_updated m * 1000.

Definition cleanup_expired (now_ms : u64) (b : FragmentReassemblyBuffer) :
    FragmentReassemblyBuffer :=
  let f (_ : Z * Z) p :=
    match frb_store b !! p with Some m => expired now_ms m | None => false end in
  {| frb_fragments := (cache_invalidate_entries_if f (frb_fragments b)).2;
     frb_store := frb_store b; frb_next := frb_next b |}.
End reassembly.

Arguments FragmentMetadata : clear implicits.
Arguments FragmentMetadata {MO}.
Arguments FragmentReassemblyBuffer : clear implicits.
Arguments FragmentReassemblyBuffer {MO}.
