(* ===== verification/ReassemblySpec.v ===== *)
(** * What reassembly promises

    The abstract reassembly table, a finite map from packet keys to partial
    packets with no cache, pointers or clock, and the refinement theorem: on
    well-formed inputs and within the outer cache's capacity
    [add_fragment] implements it. *)

From stdpp Require Import base list gmap list_numbers.
From S2P Require Import Prelude Types Moka Reassembly.

Record PartialPacket := {
  pp_total : u8;
  pp_frags : gmap Z bytes;
  pp_source : option TargetAddr;
  pp_target : TargetAddr
}.

Definition Table : Type := gmap (Z * Z) PartialPacket.

(** All fragments, in [frag_id] order (SPEC.md section 7.4). *)
Definition pp_payloads (m : PartialPacket) : option (list bytes) :=
  mapM (fun i => pp_frags m !! i) (seqZ 0 (pp_total m)).

Definition pp_assemble (m : PartialPacket) : option UdpPacket :=
  (fun l => {| pkt_source := pp_source m; pkt_target := pp_target m; pkt_payload := concat l |})
  <$> pp_payloads m.

Definition fi_key (info : FragmentInfo) : Z * Z := (fi_assoc_id info, fi_pkt_id info).

Definition pp_new (info : FragmentInfo) : PartialPacket :=
  {| pp_total := fi_frag_total info; pp_frags := ∅;
     pp_source := fi_source info; pp_target := fi_target info |}.

Definition pp_add (info : FragmentInfo) (payload : bytes) (m : PartialPacket) : PartialPacket :=
  {| pp_total := pp_total m;
     pp_frags := <[fi_frag_id info := payload]> (pp_frags m);
     pp_source := pp_source m;
     pp_target := if (fi_frag_id info =? 0) && negb (is_placeholder_addr (fi_target info))
                  then fi_target info else pp_target m |}.

(** Receiving a fragment: complete packets leave the table. *)
Definition spec_add (info : FragmentInfo) (payload : bytes) (s : gmap (Z * Z) PartialPacket) :
    option UdpPacket * gmap (Z * Z) PartialPacket :=
  let key := fi_key info in
  let m := pp_add info payload (default (pp_new info) (s !! key)) in
  if decide (Z.of_nat (size (pp_frags m)) = pp_total m)
  then (pp_assemble m, delete key s)
  else (None, <[key := m]> s).

Lemma spec_add_dom info payload s : dom (spec_add info payload s).2 ⊆ {[fi_key info]} ∪ dom s.
Proof.
  unfold spec_add. case_decide; cbn [snd]; [rewrite dom_delete_L|rewrite dom_insert_L]; set_solver.
Qed.


Section refinement.
Context {MO : MokaOps} {ML : MokaLaws MO}.

Definition pp_of (m : FragmentMetadata) : PartialPacket :=
  {| pp_total := fm_frag_total m; pp_frags := contents (fm_fragments m);
     pp_source := fm_source m; pp_target := fm_target m |}.

(** Metadata still waiting for fragments. *)
Definition meta_wf (m : FragmentMetadata) : Prop :=
  capacity (fm_fragments m) = fm_frag_total m /\
  Z.of_nat (size (contents (fm_fragments m))) < fm_frag_total m.

Record frb_wf (b : FragmentReassemblyBuffer) : Prop := {
  wf_ptr k p : contents (frb_fragments b) !! k = Some p ->
    exists m, frb_store b !! p = Some m /\ (p < frb_next b)%nat /\ meta_wf m;
  wf_inj k1 k2 p : contents (frb_fragments b) !! k1 = Some p ->
    contents (frb_fragments b) !! k2 = Some p -> k1 = k2;
  wf_cap : capacity (frb_fragments b) = 1000;
  wf_closures : closures_enabled (frb_fragments b) = false
}.

(** The table a buffer represents. *)
Definition frb_abs (b : FragmentReassemblyBuffer) : gmap (Z * Z) PartialPacket :=
  omap (fun p => pp_of <$> frb_store b !! p) (contents (frb_fragments b)).

Lemma frb_abs_lookup b k :
  frb_abs b !! k = contents (frb_fragments b) !! k ≫= fun p => pp_of <$> frb_store b !! p.
Proof. apply lookup_omap. Qed.

Lemma alter_some (f : FragmentMetadata -> FragmentMetadata) (s : gmap nat FragmentMetadata) p m :
  s !! p = Some m -> alter f p s = <[p := f m]> s.
Proof.
  intros Hp. apply map_eq; intros q. rewrite lookup_alter, lookup_insert.
  case_decide as Hpq; [|done]. subst q. by rewrite Hp.
Qed.

(** ** The two loops of [reassemble_packet] *)

Lemma total_size_loop_spec n i acc c :
  let r := total_size_loop n i acc c in
  contents r.2 = contents c /\ same_config c r.2 /\
  (is_Some r.1 <-> is_Some (mapM (fun j => contents c !! j) (seqZ i (Z.of_nat n)))).
Proof.
  revert i acc c; induction n as [|n IH]; intros i acc c; cbn [total_size_loop].
  - cbn. split_and!; [done..|]. split; eauto.
  - rewrite Nat2Z.inj_succ, seqZ_cons, Z.pred_succ by lia. cbn [mapM].
    pose proof (get_value i c) as Hv. pose proof (get_contents i c) as Hc.
    pose proof (get_config i c) as Hf. destruct (cache_get i c) as [o c']; cbn in *.
    rewrite <-Hv. destruct o as [d|]; cbn.
    + specialize (IH (i + 1) (acc + len d) c') as (IH1&IH2&IH3). rewrite Hc in IH1, IH3.
      split_and!; [done| |].
      * destruct Hf, IH2. split; congruence.
      * rewrite IH3. change (Z.succ i) with (i + 1). destruct (mapM _ _); cbn; [|done].
        split; eauto.
    + split_and!; [done..|]. split; intros [? [=]].
Qed.

Lemma combine_loop_spec n i buf c :
  let r := combine_loop n i buf c in
  contents r.2 = contents c /\ same_config c r.2 /\
  r.1 = (fun l => buf ++ concat l) <$> mapM (fun j => contents c !! j) (seqZ i (Z.of_nat n)).
Proof.
  revert i buf c; induction n as [|n IH]; intros i buf c; cbn [combine_loop].
  - split_and!; [done..|]. change (seqZ i (Z.of_nat 0)) with (@nil Z).
    cbn. by rewrite app_nil_r.
  - rewrite Nat2Z.inj_succ, seqZ_cons, Z.pred_succ by lia. cbn [mapM].
    pose proof (get_value i c) as Hv. pose proof (get_contents i c) as Hc.
    pose proof (get_config i c) as Hf. destruct (cache_get i c) as [o c']; cbn in *.
    rewrite <-Hv. destruct o as [d|]; cbn; [|done].
    specialize (IH (i + 1) (buf ++ d) c') as (IH1&IH2&IH3). rewrite Hc in IH1, IH3.
    split_and!; [done| |].
    + destruct Hf, IH2. split; congruence.
    + rewrite IH3. change (Z.succ i) with (i + 1). destruct (mapM _ _); cbn; [|done].
      by rewrite app_assoc.
Qed.

(** Both loops succeed exactly when every fragment is there, and the packet
    is the assembled one; only the store and the removed entry change. *)
Lemma reassemble_packet_spec key b p m :
  contents (frb_fragments b) !! key = Some p -> frb_store b !! p = Some m ->
  0 <= fm_frag_total m ->
  let r := reassemble_packet key b in
  r.1 = pp_assemble (pp_of m) /\
  frb_fragments r.2 = (cache_remove key (frb_fragments b)).2 /\
  frb_next r.2 = frb_next b /\
  forall q, q <> p -> frb_store r.2 !! q = frb_store b !! q.
Proof.
  intros Hk Hp Hm. cbv zeta. unfold reassemble_packet.
  pose proof (remove_value key (frb_fragments b)) as Hr. rewrite Hk in Hr.
  destruct (cache_remove key (frb_fragments b)) as [o c]. cbn in Hr; subst o. cbn. rewrite Hp. cbn.
  pose proof (total_size_loop_spec (Z.to_nat (fm_frag_total m)) 0 0 (fm_fragments m)) as Ht.
  destruct (total_size_loop _ _ _ _) as [o1 c1]. cbn in Ht. destruct Ht as (Hc1&_&Ht).
  pose proof (combine_loop_spec (Z.to_nat (fm_frag_total m)) 0 [] c1) as Hb.
  destruct (combine_loop _ _ _ _) as [o2 c2]. cbn in Hb. destruct Hb as (_&_&Hb).
  rewrite Hc1 in Hb. rewrite Z2Nat.id in Ht, Hb by done.
  unfold pp_assemble, pp_payloads; cbn.
  destruct (mapM _ _) as [l|]; cbn in *.
  - destruct o1 as [t|]; [|by destruct (proj2 Ht (mk_is_Some _ _ eq_refl))]. subst o2. cbn.
    split_and!; [done..|]. intros q Hq. by rewrite !lookup_alter_ne by congruence.
  - destruct o1 as [t|]; [by destruct (proj1 Ht (mk_is_Some _ _ eq_refl))|]. cbn.
    split_and!; [done..|]. intros q Hq. by rewrite lookup_alter_ne by congruence.
Qed.

(** ** [get_or_create] *)

Lemma pp_of_new now info :
  pp_of {| fm_frag_total := fi_frag_total info; fm_fragments := cache_new (fi_frag_total info);
           fm_last_updated := now; fm_source := fi_source info; fm_target := fi_target info |}
  = pp_new info.
Proof. unfold pp_of, pp_new; cbn. by rewrite contents_new. Qed.

Lemma get_or_create_spec now info b :
  frb_wf b -> cache_room (fi_key info) (frb_fragments b) -> 1 <= fi_frag_total info ->
  exists p m0,
    (get_or_create now info b).1 = p /\
    let b1 := (get_or_create now info b).2 in
    frb_wf b1 /\ contents (frb_fragments b1) !! fi_key info = Some p /\
    frb_store b1 !! p = Some m0 /\
    pp_of m0 = default (pp_new info) (frb_abs b !! fi_key info) /\
    frb_abs b1 = <[fi_key info := pp_of m0]> (frb_abs b).
Proof.
  intros [Hptr Hinj Hcap Hclo] Hroom Htot. unfold get_or_create. fold (fi_key info).
  set (key := fi_key info) in *. set (c0 := frb_fragments b) in *.
  pose proof (or_insert_config key (frb_next b) c0) as [Hc1 Hc2].
  destruct (contents c0 !! key) as [p|] eqn:Hk.
  - destruct (or_insert_some key (frb_next b) p c0 Hk) as [Hv Hc].
    destruct (cache_or_insert key (frb_next b) c0) as [p' c]. cbn in *; subst p'.
    destruct (Hptr _ _ Hk) as (m&Hm&Hlt&Hwf).
    rewrite decide_False by lia. cbn. exists p, m.
    rewrite frb_abs_lookup. fold c0. rewrite Hk. cbn. rewrite Hm. cbn. rewrite Hc.
    split_and!; [done| |done..|].
    + split; cbn; rewrite ?Hc; [apply Hptr|apply Hinj|congruence|congruence].
    + assert (frb_abs b !! key = Some (pp_of m)) as Hab.
      { rewrite frb_abs_lookup. fold c0. rewrite Hk. cbn. by rewrite Hm. }
      rewrite insert_id by done. unfold frb_abs; cbn. by rewrite Hc.
  - pose proof (or_insert_none key (frb_next b) c0 Hk) as Hv.
    pose proof (or_insert_room key (frb_next b) c0 Hk Hroom) as Hc.
    destruct (cache_or_insert key (frb_next b) c0) as [p' c]. cbn in *; subst p'.
    rewrite decide_True by done. cbn.
    eexists _, _. rewrite Hc, !lookup_insert_eq. split_and!; [done| |done..| |].
    + split; cbn; rewrite ?Hc.
      * intros k p. rewrite lookup_insert. case_decide; intros Hp.
        -- simplify_eq. rewrite lookup_insert_eq. eexists. split_and!; [done|lia|].
           split; cbn; [by rewrite capacity_new|]. rewrite contents_new, map_size_empty. lia.
        -- destruct (Hptr k p Hp) as (m&?&?&?). exists m.
           rewrite lookup_insert_ne by lia. split_and!; [done|lia|done].
      * intros k1 k2 p. rewrite !lookup_insert.
        repeat case_decide; intros Hp1 Hp2; simplify_eq; [done|..|by eapply Hinj].
        -- destruct (Hptr k2 _ Hp2) as (?&_&?&_). lia.
        -- destruct (Hptr k1 _ Hp1) as (?&_&?&_). lia.
      * congruence.
      * congruence.
    + rewrite frb_abs_lookup. fold c0. rewrite Hk. apply pp_of_new.
    + apply map_eq; intros k. rewrite lookup_insert, !frb_abs_lookup. cbn. rewrite Hc.
      fold c0. case_decide as Hkk.
      * subst k. rewrite lookup_insert_eq. cbn. by rewrite lookup_insert_eq.
      * rewrite lookup_insert_ne by done. destruct (contents c0 !! k) as [p|] eqn:Hp; [|done]. cbn.
        destruct (Hptr k p Hp) as (?&_&?&_). by rewrite lookup_insert_ne by lia.
Qed.

(** ** [store_fragment] *)

Definition meta_add (now : u64) (info : FragmentInfo) (payload : bytes) (m : FragmentMetadata) :
    FragmentMetadata :=
  {| fm_frag_total := fm_frag_total m;
     fm_fragments := cache_run_pending_tasks (cache_insert (fi_frag_id info) payload (fm_fragments m));
     fm_last_updated := now; fm_source := fm_source m;
     fm_target := if (fi_frag_id info =? 0) && negb (is_placeholder_addr (fi_target info))
                  then fi_target info else fm_target m |}.

Lemma store_fragment_eq now info payload p b m : frb_store b !! p = Some m ->
  store_fragment now info payload p b =
  {| frb_fragments := frb_fragments b;
     frb_store := <[p := meta_add now info payload m]> (frb_store b); frb_next := frb_next b |}.
Proof.
  intros Hp. unfold store_fragment, store_update, meta_add.
  destruct ((fi_frag_id info =? 0) && _); cbn;
    by rewrite !alter_alter_eq, (alter_some _ _ p m Hp).
Qed.

Lemma meta_add_spec now info payload m : meta_wf m ->
  let m' := meta_add now info payload m in
  pp_of m' = pp_add info payload (pp_of m) /\
  capacity (fm_fragments m') = fm_frag_total m' /\
  cache_entry_count (fm_fragments m') = Z.of_nat (size (pp_frags (pp_of m'))) /\
  Z.of_nat (size (pp_frags (pp_of m'))) <= fm_frag_total m'.
Proof.
  intros [Hcap Hsz]. cbv zeta.
  set (c := fm_fragments m) in *.
  assert (contents (cache_insert (fi_frag_id info) payload c)
          = <[fi_frag_id info := payload]> (contents c)) as Hc.
  { apply insert_room. right. by rewrite Hcap. }
  assert (Z.of_nat (size (<[fi_frag_id info := payload]> (contents c))) <= fm_frag_total m) as Hle.
  { rewrite map_size_insert. case_match; unfold id; lia. }
  pose proof (insert_config (fi_frag_id info) payload c) as [? _].
  pose proof (pending_config (cache_insert (fi_frag_id info) payload c)) as [? _].
  unfold meta_add, pp_of, pp_add; cbn. fold c.
  rewrite pending_count, pending_contents, Hc by (rewrite Hc; congruence || lia).
  split_and!; [done|congruence|done|done].
Qed.

(** Writing through the pointer of [key] changes that entry only. *)
Lemma frb_abs_store key p m b :
  frb_wf b -> contents (frb_fragments b) !! key = Some p ->
  frb_abs {| frb_fragments := frb_fragments b; frb_store := <[p := m]> (frb_store b);
             frb_next := frb_next b |} = <[key := pp_of m]> (frb_abs b).
Proof.
  intros Hwf Hk. apply map_eq; intros k. rewrite lookup_insert, !frb_abs_lookup. cbn.
  case_decide as Hkk.
  - subst k. rewrite Hk. cbn. by rewrite lookup_insert_eq.
  - destruct (contents (frb_fragments b) !! k) as [q|] eqn:Hq; [|done]. cbn.
    rewrite lookup_insert_ne; [done|]. intros <-. by apply Hkk, (wf_inj b Hwf key k p).
Qed.

Lemma frb_wf_store key p m b :
  frb_wf b -> contents (frb_fragments b) !! key = Some p -> meta_wf m ->
  frb_wf {| frb_fragments := frb_fragments b; frb_store := <[p := m]> (frb_store b);
            frb_next := frb_next b |}.
Proof.
  intros [Hptr Hinj Hcap Hclo] Hk Hm. split; [|done..]. cbn. intros k q Hq.
  destruct (Hptr k q Hq) as (m'&?&?&?). rewrite lookup_insert.
  case_decide; [subst; by exists m|by exists m'].
Qed.

(** Removing [key] and touching only its own metadata. *)
Lemma frb_remove_spec key p b b' :
  frb_wf b -> contents (frb_fragments b) !! key = Some p ->
  frb_fragments b' = (cache_remove key (frb_fragments b)).2 -> frb_next b' = frb_next b ->
  (forall q, q <> p -> frb_store b' !! q = frb_store b !! q) ->
  frb_wf b' /\ frb_abs b' = delete key (frb_abs b).
Proof.
  intros [Hptr Hinj Hcap Hclo] Hk Hf Hn Hst.
  assert (contents (frb_fragments b') = delete key (contents (frb_fragments b))) as Hc
    by (by rewrite Hf, remove_contents).
  assert (forall k q, contents (frb_fragments b') !! k = Some q ->
            contents (frb_fragments b) !! k = Some q /\ q <> p /\ k <> key) as Hsub.
  { intros k q. rewrite Hc, lookup_delete. case_decide; [done|]. intros Hq.
    split_and!; [done| |congruence]. intros ->. eauto. }
  split.
  - pose proof (remove_config key (frb_fragments b)) as [? ?].
    split; [| |rewrite Hf; congruence..].
    + intros k q [Hq [Hqp _]]%Hsub. rewrite Hst, Hn by done. eauto.
    + intros k1 k2 q [H1 _]%Hsub [H2 _]%Hsub. eauto.
  - apply map_eq; intros k. rewrite lookup_delete, !frb_abs_lookup.
    case_decide as Hkk; [subst; by rewrite Hc, lookup_delete_eq|].
    rewrite Hc, lookup_delete_ne by done.
    destruct (contents (frb_fragments b) !! k) as [q|] eqn:Hq; [|done]. cbn.
    rewrite Hst; [done|]. intros ->. by apply Hkk, (Hinj key k p).
Qed.

(** [add_fragment] implements [spec_add] and keeps the buffer well formed. *)
Lemma add_fragment_refines now info payload b :
  frb_wf b -> cache_room (fi_key info) (frb_fragments b) -> 1 <= fi_frag_total info ->
  let r := add_fragment now info payload b in
  frb_wf r.2 /\ r.1 = (spec_add info payload (frb_abs b)).1 /\
  frb_abs r.2 = (spec_add info payload (frb_abs b)).2.
Proof.
  intros Hwf Hroom Htot. cbv zeta.
  destruct (get_or_create_spec now info b Hwf Hroom Htot)
    as (p&m0&Hp&Hwf1&Hk&Hm0&Hpp&Habs).
  unfold add_fragment. destruct (get_or_create now info b) as [p' b1].
  cbn [fst snd] in *. subst p'.
  rewrite (store_fragment_eq _ _ _ _ _ m0) by done. cbn [frb_store]. rewrite lookup_insert_eq.
  destruct (wf_ptr b1 Hwf1 _ _ Hk) as (m0'&Hm0'&_&Hmwf). simplify_eq.
  destruct (meta_add_spec now info payload m0 Hmwf) as (Hadd&Hcap&Hcount&Hle).
  unfold spec_add. rewrite <-Hpp. rewrite <-Hadd, Hcount in *.
  set (m := meta_add now info payload m0) in *.
  change (pp_total (pp_of m)) with (fm_frag_total m). fold (fi_key info).
  destruct (Z.eqb_spec (Z.of_nat (size (pp_frags (pp_of m)))) (fm_frag_total m)) as [Heq|Hne].
  - rewrite decide_True by done. cbn [fst snd].
    pose proof (frb_abs_store (fi_key info) p m b1 Hwf1 Hk) as Hab.
    set (b2 := {| frb_fragments := frb_fragments b1; frb_store := <[p:=m]> (frb_store b1);
                  frb_next := frb_next b1 |}) in *.
    destruct (reassemble_packet_spec (fi_key info) b2 p m) as (Hr1&Hr2&Hr3&Hr4);
      [done|apply lookup_insert_eq|rewrite <-Heq; lia|].
    destruct (frb_remove_spec (fi_key info) p b1 (reassemble_packet (fi_key info) b2).2)
      as [? Hdel]; [done..| |].
    { intros q Hq. rewrite Hr4 by done. cbn. by rewrite lookup_insert_ne. }
    split_and!; [done..|]. by rewrite Hdel, Habs, delete_insert_eq.
  - rewrite decide_False by done. cbn [fst snd]. split_and!; [|done|].
    + apply (frb_wf_store (fi_key info)); [done..|]. split; [done|].
      change (Z.of_nat (size (pp_frags (pp_of m))) < fm_frag_total m). lia.
    + rewrite (frb_abs_store (fi_key info)) by done. by rewrite Habs, insert_insert_eq.
Qed.

Lemma frb_new_wf : frb_wf FragmentReassemblyBuffer_new.
Proof.
  split; cbn.
  - intros k p. by rewrite contents_new, lookup_empty.
  - intros k1 k2 p. by rewrite contents_new, lookup_empty.
  - apply capacity_new.
  - apply closures_new.
Qed.

Lemma frb_new_abs : frb_abs FragmentReassemblyBuffer_new = ∅.
Proof. unfold frb_abs; cbn. by rewrite contents_new, omap_empty. Qed.
End refinement.
