(* ===== verification/Delivery.v ===== *)
(** * Delivery: in any order, with duplicates, among other packets

    From the table of ReassemblySpec.v to sequences of fragments: a packet's
    fragments may arrive in any order, repeated, and interleaved with those of
    other packets; the packet comes out once, when its last fragment arrives,
    with its payload in order and the address its first fragment carried. *)

From stdpp Require Import base list gmap list_numbers.
From S2P Require Import Prelude Types Moka Reassembly ReassemblySpec.

(** ** Keys do not interact *)

(** [spec_add] seen from the entry of its own key. *)
Definition local_add (info : FragmentInfo) (payload : bytes) (o : option PartialPacket) :
    option UdpPacket * option PartialPacket :=
  let m := pp_add info payload (default (pp_new info) o) in
  if decide (Z.of_nat (size (pp_frags m)) = pp_total m) then (pp_assemble m, None) else (None, Some m).

Lemma spec_add_output info payload s :
  (spec_add info payload s).1 = (local_add info payload (s !! fi_key info)).1.
Proof. unfold spec_add, local_add. by case_decide. Qed.

Lemma spec_add_own info payload s :
  (spec_add info payload s).2 !! fi_key info = (local_add info payload (s !! fi_key info)).2.
Proof.
  unfold spec_add, local_add. case_decide; cbn [snd]; [apply lookup_delete_eq|apply lookup_insert_eq].
Qed.

Lemma spec_add_other info payload s k :
  k <> fi_key info -> (spec_add info payload s).2 !! k = s !! k.
Proof.
  intros Hk. unfold spec_add. case_decide; cbn [snd];
    [by apply lookup_delete_ne|by apply lookup_insert_ne].
Qed.

(** A received fragment. *)
Definition Frag : Type := FragmentInfo * bytes.
Definition frag_key (f : Frag) : Z * Z := fi_key f.1.

(** Receiving a sequence; each output is tagged with the key it answers. *)
Fixpoint spec_run (fs : list (FragmentInfo * bytes)) (s : gmap (Z * Z) PartialPacket) :
    list (Z * Z * option UdpPacket) * gmap (Z * Z) PartialPacket :=
  match fs with
  | [] => ([], s)
  | (info, payload) :: fs' =>
    let '(o, s1) := spec_add info payload s in
    let '(os, s2) := spec_run fs' s1 in
    ((fi_key info, o) :: os, s2)
  end.

Fixpoint local_run (fs : list (FragmentInfo * bytes)) (o : option PartialPacket) :
    list (option UdpPacket) * option PartialPacket :=
  match fs with
  | [] => ([], o)
  | (info, payload) :: fs' =>
    let '(r, o1) := local_add info payload o in
    let '(rs, o2) := local_run fs' o1 in
    (r :: rs, o2)
  end.

(** The outputs and the entry of a key depend on its own fragments only. *)
Lemma spec_run_local k fs s :
  let mine := filter (fun f => frag_key f = k) fs in
  snd <$> filter (fun o => o.1 = k) (spec_run fs s).1 = (local_run mine (s !! k)).1 /\
  (spec_run fs s).2 !! k = (local_run mine (s !! k)).2.
Proof.
  cbv zeta. revert s; induction fs as [|[info payload] fs IH]; intros s; [done|].
  cbn [spec_run]. destruct (spec_add info payload s) as [o s1] eqn:Ha.
  specialize (IH s1). destruct (spec_run fs s1) as [os s2]. cbn [fst snd] in *.
  rewrite !filter_cons. unfold frag_key; cbn [fst snd]. case_decide as Hk.
  - subst k. cbn [local_run].
    pose proof (spec_add_output info payload s) as Ho.
    pose proof (spec_add_own info payload s) as Hs. rewrite Ha in Ho, Hs; cbn [fst snd] in Ho, Hs.
    destruct (local_add info payload (s !! fi_key info)) as [r o1]. cbn [fst snd] in Ho, Hs. subst.
    unfold frag_key in IH. destruct (local_run _ _) as [rs o2].
    destruct IH as [IH1 IH2]. cbn [fst snd] in *. rewrite fmap_cons. cbn. by rewrite IH1.
  - pose proof (spec_add_other info payload s k) as Hs. rewrite Ha in Hs; cbn [snd] in Hs.
    rewrite Hs in IH by congruence. done.
Qed.

(** When all fragments have the same key there is nothing else. *)
Lemma spec_run_single k fs s : Forall (fun f => frag_key f = k) fs ->
  snd <$> (spec_run fs s).1 = (local_run fs (s !! k)).1.
Proof.
  intros Hk. revert s; induction Hk as [|[info payload] fs Hf Hfs IH]; intros s; [done|].
  cbn [spec_run local_run]. unfold frag_key in Hf; cbn [fst] in Hf; subst k.
  pose proof (spec_add_output info payload s) as Ho. pose proof (spec_add_own info payload s) as Hs.
  destruct (spec_add info payload s) as [o s1].
  destruct (local_add info payload (s !! fi_key info)) as [r o1]. cbn [fst snd] in Ho, Hs. subst.
  specialize (IH s1). destruct (spec_run fs s1) as [os s2].
  destruct (local_run fs _) as [rs o2]. cbn in *. by rewrite IH.
Qed.

(** ** One packet *)

(** The address of a fragment other than the first, as the receiver fills it
    in. *)
Definition placeholder : TargetAddr := TargetAddr_IPv4 Ipv4Addr_UNSPECIFIED 0.

Lemma is_placeholder_eq t : is_placeholder_addr t = true -> t = placeholder.
Proof.
  destruct t as [|ip p|]; cbn; [done| |done]. intros [?%Z.eqb_eq Hip]%andb_true_iff. subst.
  unfold is_unspecified in Hip. by apply bool_decide_eq_true in Hip as ->.
Qed.

Section packet.
(** The fragments of one packet: [n] of them, fragment [i] carrying [ps i],
    for target [t]. *)
Context (assoc pkt : u16) (n : Z) (t : TargetAddr) (ps : Z -> bytes).

Definition frag_info (i : Z) : FragmentInfo :=
  {| fi_assoc_id := assoc; fi_pkt_id := pkt; fi_frag_total := n; fi_frag_id := i;
     fi_source := None; fi_target := if i =? 0 then t else placeholder |}.

Definition frag (i : Z) : FragmentInfo * bytes := (frag_info i, ps i).

Definition in_packet (i : Z) : Prop := 0 <= i < n.

(** The whole packet. *)
Definition whole : UdpPacket :=
  {| pkt_source := None; pkt_target := t; pkt_payload := concat (ps <$> seqZ 0 n) |}.

(** The entry after fragments [l] (no completion yet). *)
Definition collected (l : list Z) : gmap Z bytes := set_to_map (fun i => (i, ps i)) (list_to_set l : gset Z).

Lemma collected_lookup l i : collected l !! i = if decide (i ∈ l) then Some (ps i) else None.
Proof.
  apply option_eq; intros d. unfold collected.
  rewrite lookup_set_to_map by naive_solver.
  split.
  - intros (j&Hj&[= -> <-]). rewrite elem_of_list_to_set in Hj. by rewrite decide_True.
  - case_decide; [|done]. intros [= <-]. exists i. by rewrite elem_of_list_to_set.
Qed.

Definition entry_target (l : list Z) : TargetAddr :=
  if decide (0 ∈ l) then t else placeholder.

Definition entry (l : list Z) : option PartialPacket :=
  match l with
  | [] => None
  | _ => Some {| pp_total := n; pp_frags := collected l; pp_source := None;
                 pp_target := entry_target l |}
  end.

(** Adding fragment [i] to the entry, whatever came before. *)
Lemma pp_add_entry l i :
  pp_add (frag_info i) (ps i) (default (pp_new (frag_info i)) (entry l)) =
  {| pp_total := n; pp_frags := collected (i :: l); pp_source := None;
     pp_target := entry_target (i :: l) |}.
Proof.
  assert (forall l, <[i := ps i]> (collected l) = collected (i :: l)) as Hins.
  { intros l'. apply map_eq; intros j. rewrite lookup_insert, !collected_lookup.
    destruct (decide (i = j)) as [->|Hij].
    - by rewrite (decide_True (P := j ∈ j :: l')) by left.
    - destruct (decide (j ∈ l')); [by rewrite decide_True by (by right)|].
      rewrite decide_False; [done|]. intros [?|?]%elem_of_cons; congruence. }
  assert (forall l t0, t0 = entry_target l \/ (l = [] /\ t0 = fi_target (frag_info i)) ->
    (if (i =? 0) && negb (is_placeholder_addr (fi_target (frag_info i)))
     then fi_target (frag_info i) else t0) = entry_target (i :: l)) as Htgt.
  { intros l' t0 H0. unfold entry_target. cbn [frag_info fi_target] in *.
    destruct (Z.eqb_spec i 0) as [->|Hi]; cbn [andb].
    - rewrite (decide_True (P := 0 ∈ 0 :: l')) by left.
      destruct (is_placeholder_addr t) eqn:Hp; cbn [negb]; [|done].
      apply is_placeholder_eq in Hp. unfold entry_target in H0.
      destruct H0 as [->|[_ ->]]; [|done]. by case_decide.
    - destruct H0 as [->|[-> ->]]; unfold entry_target.
      + destruct (decide (0 ∈ l')); [by rewrite decide_True by (by right)|].
        rewrite decide_False; [done|]. intros [?|?]%elem_of_cons; congruence.
      + rewrite decide_False; [done|]. intros [?|?%elem_of_nil]%elem_of_cons; congruence. }
  unfold pp_add. destruct l as [|j l]; cbn [entry default frag_info fi_frag_id fi_source pp_new
    pp_total pp_frags pp_source pp_target fi_frag_total id].
  - f_equal; [|apply Htgt; by right]. rewrite <-Hins. f_equal.
  - f_equal; [apply Hins|]. apply Htgt. by left.
Qed.

Lemma collected_size l : size (collected l) = size (list_to_set l : gset Z).
Proof.
  rewrite <-size_dom. f_equal. apply set_eq; intros i.
  rewrite elem_of_dom, collected_lookup, elem_of_list_to_set.
  case_decide; split; intros Hi; eauto; [by destruct Hi|done].
Qed.

Definition all_ids : gset Z := list_to_set (seqZ 0 n).

Lemma elem_of_all_ids i : i ∈ all_ids <-> in_packet i.
Proof. unfold all_ids, in_packet. rewrite elem_of_list_to_set, elem_of_seqZ. lia. Qed.

Lemma size_all_ids : 0 <= n -> Z.of_nat (size all_ids) = n.
Proof.
  intros Hn. unfold all_ids. rewrite size_list_to_set by apply NoDup_seqZ.
  rewrite length_seqZ. lia.
Qed.

(** A missing fragment keeps the count below the total. *)
Lemma collected_missing l last :
  (forall i, i ∈ l -> in_packet i) -> in_packet last -> last ∉ l ->
  Z.of_nat (size (collected l)) < n.
Proof.
  intros Hl Hlast Hni. assert (0 <= n) by (unfold in_packet in Hlast; lia).
  rewrite collected_size, <-(size_all_ids) by done.
  apply inj_lt, subset_size. split.
  - intros i. rewrite elem_of_list_to_set, elem_of_all_ids. apply Hl.
  - intros Hsub. apply Hni, (elem_of_list_to_set (C:=gset Z)), Hsub. by apply elem_of_all_ids.
Qed.

Lemma collected_complete l :
  0 <= n -> (forall i, in_packet i <-> i ∈ l) -> Z.of_nat (size (collected l)) = n.
Proof.
  intros Hn Hl. rewrite collected_size, <-size_all_ids at 1 by done. do 2 f_equal.
  apply set_eq; intros i. by rewrite elem_of_list_to_set, elem_of_all_ids.
Qed.

Lemma payloads_complete l : (forall i, in_packet i <-> i ∈ l) ->
  mapM (fun i => collected l !! i) (seqZ 0 n) = Some (ps <$> seqZ 0 n).
Proof.
  intros Hl. apply mapM_Some, Forall2_fmap_r, Forall_Forall2_diag, Forall_forall.
  intros i Hi. rewrite collected_lookup, decide_True; [done|].
  apply Hl. apply elem_of_seqZ in Hi. unfold in_packet. lia.
Qed.

Lemma local_add_more l i last :
  (forall j, j ∈ i :: l -> in_packet j) -> in_packet last -> last ∉ i :: l ->
  local_add (frag_info i) (ps i) (entry l) = (None, entry (i :: l)).
Proof.
  intros Hl Hlast Hni. unfold local_add. rewrite pp_add_entry. cbn [pp_frags pp_total].
  rewrite decide_False; [done|]. pose proof (collected_missing (i :: l) last Hl Hlast Hni). lia.
Qed.

Lemma local_add_last l i :
  0 <= n -> (forall j, in_packet j <-> j ∈ i :: l) -> in_packet 0 ->
  local_add (frag_info i) (ps i) (entry l) = (Some whole, None).
Proof.
  intros Hn Hl H0. unfold local_add. rewrite pp_add_entry. cbn [pp_frags pp_total].
  rewrite decide_True by (by apply collected_complete).
  unfold pp_assemble, pp_payloads; cbn [pp_frags pp_total pp_source pp_target].
  rewrite payloads_complete by done. cbn. unfold whole, entry_target.
  by rewrite decide_True by (by apply Hl).
Qed.

Lemma local_run_more pre l last :
  (forall j, j ∈ pre ++ l -> in_packet j) -> in_packet last -> last ∉ pre ++ l ->
  local_run (frag <$> pre) (entry l) = (replicate (length pre) None, entry (reverse pre ++ l)).
Proof.
  revert l; induction pre as [|i pre IH]; intros l Hl Hlast Hni; [done|].
  cbn [fmap list_fmap local_run frag]. rewrite (local_add_more l i last); [| |done|].
  - rewrite (IH (i :: l)); [|intros j Hj; apply Hl; set_solver|done|set_solver].
    cbn [length replicate]. by rewrite reverse_cons, <-app_assoc.
  - intros j Hj. apply Hl. set_solver.
  - set_solver.
Qed.

Lemma local_run_snoc fs f o :
  local_run (fs ++ [f]) o =
  let '(rs, o1) := local_run fs o in
  let '(r, o2) := local_add f.1 f.2 o1 in (rs ++ [r], o2).
Proof.
  revert o; induction fs as [|[info payload] fs IH]; intros o; cbn.
  - destruct f as [info payload]; cbn. by destruct (local_add info payload o).
  - destruct (local_add info payload o) as [r o1]. rewrite IH.
    destruct (local_run fs o1) as [rs o2]. by destruct (local_add f.1 f.2 o2).
Qed.

(** Every fragment but the last to arrive is silent; that one delivers. *)
Lemma packet_delivery pre last :
  (forall j, in_packet j <-> j ∈ pre \/ j = last) -> last ∉ pre -> in_packet 0 ->
  local_run (frag <$> pre ++ [last]) None =
  (replicate (length pre) None ++ [Some whole], None).
Proof.
  intros Hall Hni H0. rewrite fmap_app. cbn [fmap list_fmap]. rewrite local_run_snoc.
  change None with (entry []) at 1.
  rewrite (local_run_more pre [] last); rewrite ?app_nil_r;
    [|intros j Hj; apply Hall; by left|apply Hall; by right|done].
  cbn [frag fst snd]. rewrite local_add_last; [done| | |done].
  - unfold in_packet in H0. lia.
  - intros j. rewrite Hall, elem_of_cons, elem_of_reverse. tauto.
Qed.

Lemma local_run_app fs gs o :
  (local_run (fs ++ gs) o).1 = (local_run fs o).1 ++ (local_run gs (local_run fs o).2).1.
Proof.
  revert o; induction fs as [|[info payload] fs IH]; intros o; [done|]. cbn [app local_run].
  destruct (local_add info payload o) as [r o1]. specialize (IH o1).
  destruct (local_run (fs ++ gs) o1), (local_run fs o1). cbn in *. by rewrite IH.
Qed.

(** The shortest prefix that has every fragment ends in a new one. *)
Lemma covering_prefix l : (forall j, in_packet j -> j ∈ l) -> in_packet 0 ->
  exists pre last rest, l = pre ++ last :: rest /\ last ∉ pre /\
    forall j, in_packet j -> j ∈ pre \/ j = last.
Proof.
  intros Hl H0. induction l as [|x l IH] using rev_ind; [by apply Hl, elem_of_nil in H0|].
  destruct (decide (Forall (fun j => j ∈ l) (seqZ 0 n))) as [Hc|Hc].
  - destruct IH as (pre&last&rest&->&?&?).
    { intros j Hj. rewrite Forall_forall in Hc. apply Hc, elem_of_seqZ. unfold in_packet in Hj. lia. }
    exists pre, last, (rest ++ [x]). by rewrite <-app_assoc.
  - exists l, x, []. split; [done|].
    assert (forall j, in_packet j -> j ∈ l \/ j = x) as Hcov
      by (intros j Hj%Hl; rewrite elem_of_app, list_elem_of_singleton in Hj; done).
    split; [|done]. intros Hx. apply Hc, Forall_forall. intros j Hj%elem_of_seqZ.
    destruct (Hcov j) as [?| ->]; [unfold in_packet; lia|done..].
Qed.

Definition copies (j : Z) (l : list Z) : nat := length (filter (eq j) l).

(** Fragments of one packet in any order, with losses and repetitions: nothing
    but the packet comes out; it comes out if and only if every fragment
    arrived, and never more often than the fragment that arrived least. *)
Lemma packet_deliveries l : in_packet 0 -> (forall j, j ∈ l -> in_packet j) ->
  exists k, omap id (local_run (frag <$> l) None).1 = replicate k whole /\
    ((0 < k)%nat <-> forall j, in_packet j -> j ∈ l) /\
    (forall j, in_packet j -> (k <= copies j l)%nat).
Proof.
  intros H0. induction l as [l IH] using list_len_ind. intros Hl.
  destruct (decide (Forall (fun j => j ∈ l) (seqZ 0 n))) as [Hc|Hc].
  - assert (forall j, in_packet j -> j ∈ l) as Hcov.
    { intros j Hj. rewrite Forall_forall in Hc. apply Hc, elem_of_seqZ. unfold in_packet in Hj. lia. }
    destruct (covering_prefix l Hcov H0) as (pre&last&rest&->&Hlast&Hpre).
    destruct (IH rest) as (k&Hk&_&Hle); [rewrite length_app; cbn; lia|set_solver|].
    exists (S k). split_and!.
    + replace (pre ++ last :: rest) with ((pre ++ [last]) ++ rest) by (by rewrite <-app_assoc).
      rewrite fmap_app, local_run_app, packet_delivery; [|..|done|done].
      * cbn [fst snd]. by rewrite !omap_app, Hk, omap_none.
      * intros j. split; [apply Hpre|]. intros [?| ->]; apply Hl; set_solver.
    + split; [intros _|lia]. done.
    + intros j Hj. specialize (Hle j Hj). unfold copies in *. rewrite filter_app, length_app, filter_cons.
      destruct (Hpre j Hj) as [Hin| ->].
      * assert (j ∈ filter (eq j) pre) as Hf by (by apply list_elem_of_filter).
        apply list_elem_of_lookup_1 in Hf as [i Hi%lookup_lt_Some]. case_decide; cbn; lia.
      * rewrite decide_True by done. cbn. lia.
  - apply not_Forall_Exists in Hc; [|apply _]. apply Exists_exists in Hc as (last&Hlast%elem_of_seqZ&Hni).
    assert (in_packet last) by (unfold in_packet; lia).
    exists 0%nat. split_and!; [|split; [lia|]|lia].
    + change None with (entry []) at 1. rewrite (local_run_more l [] last); rewrite ?app_nil_r; try done.
      apply omap_none.
    + intros Hall. by destruct Hni; apply Hall.
Qed.
End packet.
