(* ===== verification/Buffer.v ===== *)
(** * The reassembly buffer over time

    Sequences of calls on one [FragmentReassemblyBuffer]: fragments and
    garbage collections, in any order.  [buffer_refines] lifts the refinement
    of ReassemblySpec.v to runs, and [buffer_delivers] is what users of the
    buffer rely on. *)

From stdpp Require Import base list gmap list_numbers.
From S2P Require Import Prelude Types Moka Reassembly ReassemblySpec Delivery.

Inductive BufEvent :=
| BufFrag (now : u64) (info : FragmentInfo) (payload : bytes)
| BufGc (now_ms : u64).

(** The fragments among the events. *)
Definition buf_frags (evs : list BufEvent) : list (FragmentInfo * bytes) :=
  omap (fun ev => match ev with BufFrag _ info p => Some (info, p) | BufGc _ => None end) evs.

Definition buf_keys (evs : list BufEvent) : gset (Z * Z) :=
  list_to_set (frag_key <$> buf_frags evs).

(** Totals announced by a fragment are at least 1, and no more packets are
    under way than the cache holds. *)
Definition buf_ok (evs : list BufEvent) : Prop :=
  Forall (fun f => 1 <= fi_frag_total f.1) (buf_frags evs) /\ (size (buf_keys evs) <= 1000)%nat.

#[export] Instance buf_ok_dec evs : Decision (buf_ok evs).
Proof. unfold buf_ok; apply _. Defined.

Section run.
Context {MO : MokaOps}.

Fixpoint buf_run (evs : list BufEvent) (b : FragmentReassemblyBuffer) :
    list (Z * Z * option UdpPacket) * FragmentReassemblyBuffer :=
  match evs with
  | [] => ([], b)
  | BufFrag now info payload :: evs' =>
    let '(o, b1) := add_fragment now info payload b in
    let '(os, b2) := buf_run evs' b1 in
    ((fi_key info, o) :: os, b2)
  | BufGc now_ms :: evs' => buf_run evs' (cleanup_expired now_ms b)
  end.
End run.

Section laws.
Context {MO : MokaOps} {ML : MokaLaws MO}.

Lemma frb_abs_dom b : frb_wf b -> dom (frb_abs b) = dom (contents (frb_fragments b)).
Proof.
  intros Hwf. apply set_eq; intros k. rewrite !elem_of_dom, frb_abs_lookup.
  destruct (contents (frb_fragments b) !! k) as [p|] eqn:Hp; cbn; [|done].
  destruct (wf_ptr b Hwf k p Hp) as (m&->&_). split; eauto.
Qed.

Lemma frb_room (b : FragmentReassemblyBuffer) (key : Z * Z) (K : gset (Z * Z)) :
  frb_wf b -> dom (frb_abs b) ⊆ K -> key ∈ K -> (size K <= 1000)%nat ->
  cache_room key (frb_fragments b).
Proof.
  intros Hwf Hsub Hkey HK. rewrite frb_abs_dom in Hsub by done.
  destruct (contents (frb_fragments b) !! key) as [p|] eqn:Hp; [left; by rewrite Hp|right].
  rewrite (wf_cap b Hwf), <-size_dom.
  enough (size (dom (contents (frb_fragments b))) < size K)%nat by lia.
  apply subset_size. split; [done|]. intros Hsup.
  by apply Hsup, elem_of_dom in Hkey as [? ?]; simplify_eq.
Qed.

Lemma frb_room_now (b : FragmentReassemblyBuffer) (key : Z * Z) :
  frb_wf b -> (size ({[key]} ∪ dom (frb_abs b)) <= 1000)%nat -> cache_room key (frb_fragments b).
Proof. intros Hwf Hsz. eapply (frb_room b key ({[key]} ∪ dom (frb_abs b))); set_solver. Qed.

(** The closure passed to [invalidate_entries_if] is refused. *)
Lemma cleanup_expired_noop now_ms b :
  frb_wf b -> frb_wf (cleanup_expired now_ms b) /\ frb_abs (cleanup_expired now_ms b) = frb_abs b.
Proof.
  intros [Hptr Hinj Hcap Hclo]. unfold cleanup_expired.
  set (f := fun (_ : Z * Z) (p : nat) => _).
  destruct (invalidate_disabled f (frb_fragments b) Hclo) as [_ Hc].
  destruct (invalidate_config f (frb_fragments b)) as [Hcap' Hclo'].
  split; [|unfold frb_abs; cbn; by rewrite Hc].
  split; cbn; rewrite ?Hc, ?Hcap', ?Hclo'; done.
Qed.

Lemma buf_run_refines (evs : list BufEvent) (b : FragmentReassemblyBuffer) (K : gset (Z * Z)) :
  frb_wf b -> dom (frb_abs b) ⊆ K -> buf_keys evs ⊆ K -> (size K <= 1000)%nat ->
  Forall (fun f => 1 <= fi_frag_total f.1) (buf_frags evs) ->
  let r := buf_run evs b in
  frb_wf r.2 /\ r.1 = (spec_run (buf_frags evs) (frb_abs b)).1 /\
  frb_abs r.2 = (spec_run (buf_frags evs) (frb_abs b)).2.
Proof.
  cbv zeta. revert b; induction evs as [|[now info payload|now_ms] evs IH];
    intros b Hwf Hdom HK Hsz Htot; [done| |].
  - unfold buf_keys in HK.
    cbn [buf_run buf_frags omap list_omap spec_run fmap list_fmap list_to_set] in *.
    apply Forall_cons in Htot as [Ht Htot].
    destruct (add_fragment_refines now info payload b) as (Hwf1&Ho&Habs); [done| |done|].
    { apply (frb_room b _ K); [done..|set_solver|done]. }
    pose proof (spec_add_dom info payload (frb_abs b)) as Hd.
    destruct (add_fragment now info payload b) as [o b1].
    destruct (spec_add info payload (frb_abs b)) as [o' s1]. cbn [fst snd] in *. subst o' s1.
    destruct (IH b1) as (?&H1&H2); [done|set_solver|set_solver|done|done|].
    fold (buf_frags evs). rewrite (surjective_pairing (buf_run evs b1)).
    rewrite (surjective_pairing (spec_run (buf_frags evs) (frb_abs b1))).
    cbn [fst snd]. by rewrite H1, H2.
  - destruct (cleanup_expired_noop now_ms b Hwf) as [Hwf1 Habs].
    cbn [buf_run]. change (buf_frags (BufGc now_ms :: evs)) with (buf_frags evs) in *.
    rewrite <-Habs. apply IH; [done|by rewrite Habs|done..].
Qed.

(** C9: refinement.  From an empty buffer, any run of fragments and garbage
    collections within the cache's capacity answers every fragment as the
    abstract table does and ends in a well-formed buffer that represents the
    table. *)
Theorem buffer_refines evs :
  buf_ok evs ->
  let r := buf_run evs FragmentReassemblyBuffer_new in
  frb_wf r.2 /\ r.1 = (spec_run (buf_frags evs) ∅).1 /\
  frb_abs r.2 = (spec_run (buf_frags evs) ∅).2.
Proof.
  intros [Htot Hsz]. rewrite <-frb_new_abs.
  apply (buf_run_refines evs _ (buf_keys evs)); [apply frb_new_wf| |done..].
  rewrite frb_new_abs, dom_empty_L. set_solver.
Qed.

(** C10: delivery.  In a run over at most 1000 packets, the capacity of the
    buffer, whose fragments announce positive totals, the fragments of a packet
    may arrive in any order, duplicated, mixed with those of other packets and
    with garbage collections: all but the last new one are answered with nothing, that one
    with the whole packet, payload in order and target from fragment 0, and
    the packet's entry is gone. *)
Theorem buffer_delivers evs assoc pkt n t ps pre last :
  buf_ok evs ->
  filter (fun f => frag_key f = (assoc, pkt)) (buf_frags evs)
    = frag assoc pkt n t ps <$> pre ++ [last] ->
  0 < n -> (forall i, 0 <= i < n <-> i ∈ pre \/ i = last) -> last ∉ pre ->
  let r := buf_run evs FragmentReassemblyBuffer_new in
  snd <$> filter (fun o => o.1 = (assoc, pkt)) r.1
    = replicate (length pre) None ++ [Some (whole n t ps)] /\
  frb_abs r.2 !! (assoc, pkt) = None.
Proof.
  intros [Htot Hsz] Hmine Hn Hall Hlast. cbv zeta.
  destruct (buf_run_refines evs FragmentReassemblyBuffer_new (buf_keys evs))
    as (_&->&->); [apply frb_new_wf| |done..|].
  { rewrite frb_new_abs, dom_empty_L. set_solver. }
  rewrite frb_new_abs.
  destruct (spec_run_local (assoc, pkt) (buf_frags evs) ∅) as [-> ->].
  rewrite Hmine, lookup_empty, packet_delivery; [done..|]. unfold in_packet. lia.
Qed.

(** Garbage collection frees nothing.  [cleanup_expired] leaves every
    partial packet in place however old it is, because the cache [new] builds
    refuses invalidation closures. *)
Lemma cleanup_keeps_expired now_ms b k p m :
  frb_wf b -> contents (frb_fragments b) !! k = Some p -> frb_store b !! p = Some m ->
  expired now_ms m = true ->
  frb_abs (cleanup_expired now_ms b) !! k = Some (pp_of m).
Proof.
  intros Hwf Hk Hp _. destruct (cleanup_expired_noop now_ms b Hwf) as [_ ->].
  rewrite frb_abs_lookup, Hk. cbn. by rewrite Hp.
Qed.

(** A map with [n] entries, one of them outside [0..n), misses an index. *)
Lemma payloads_out_of_range (m : gmap Z bytes) n i d :
  Z.of_nat (size m) = n -> m !! i = Some d -> ~ (0 <= i < n) ->
  mapM (fun j => m !! j) (seqZ 0 n) = None.
Proof.
  intros Hsz Hi Hout. destruct (mapM _ _) as [l|] eqn:Hm; [exfalso|done].
  apply mapM_Some in Hm.
  assert (list_to_set (i :: seqZ 0 n) ⊆ dom m) as Hsub.
  { intros j Hj. apply elem_of_list_to_set, elem_of_cons in Hj as [->|Hj].
    - by apply elem_of_dom; eauto.
    - apply list_elem_of_lookup in Hj as [k Hk].
      destruct (Forall2_lookup_l _ _ _ _ _ Hm Hk) as (x&_&Hx). apply elem_of_dom; eauto. }
  apply subseteq_size in Hsub. rewrite size_dom, size_list_to_set in Hsub.
  - cbn in Hsub. rewrite length_seqZ in Hsub. lia.
  - constructor; [|apply NoDup_seqZ]. rewrite elem_of_seqZ. lia.
Qed.

(** An unchecked fragment id destroys a packet.  When a packet lacks one
    fragment, a fragment whose id is out of range completes the count: nothing
    is delivered, and the partial packet is dropped with all it had. *)
Lemma out_of_range_fragment now info payload b m :
  frb_wf b -> frb_abs b !! fi_key info = Some m -> 1 <= fi_frag_total info ->
  Z.of_nat (size (pp_frags m)) = pp_total m - 1 ->
  ~ (0 <= fi_frag_id info < pp_total m) -> pp_frags m !! fi_frag_id info = None ->
  let r := add_fragment now info payload b in
  r.1 = None /\ frb_abs r.2 = delete (fi_key info) (frb_abs b).
Proof.
  intros Hwf Hm Htot Hsz Hout Hnew. cbv zeta.
  destruct (add_fragment_refines now info payload b) as (_&->&->); [done| |done|].
  { left. apply elem_of_dom. rewrite <-frb_abs_dom by done. apply elem_of_dom. eauto. }
  unfold spec_add. rewrite Hm. cbn [default id pp_add pp_frags pp_total].
  assert (Z.of_nat (size (<[fi_frag_id info := payload]> (pp_frags m))) = pp_total m) as Heq.
  { rewrite map_size_insert_None by done. lia. }
  rewrite decide_True by done. split; [|done]. cbn [fst].
  unfold pp_assemble, pp_payloads, pp_add; cbn [pp_frags pp_total].
  by erewrite payloads_out_of_range by (done || apply lookup_insert_eq).
Qed.
End laws.

(** ** Concrete runs *)

Definition demo_target : TargetAddr := TargetAddr_Domain [119; 46; 105; 111] 53.
Definition demo_chunk (base i : Z) : bytes := [base + i; base + i].
Definition demo_frag (pkt base i : Z) : BufEvent :=
  BufFrag 1 (frag_info 7 pkt 3 demo_target i) (demo_chunk base i).

(** Packet 2 with a duplicate and out of order, among fragments of packet 9
    and collections. *)
Definition demo_events : list BufEvent :=
  [demo_frag 2 10 2; demo_frag 9 50 0; demo_frag 2 10 2; BufGc 90000; demo_frag 2 10 0;
   demo_frag 9 50 1; demo_frag 2 10 1; BufGc 95000].

Lemma demo_events_ok : buf_ok demo_events.
Proof. by_compute. Qed.

Lemma buffer_refines_witness :
  (buf_run (MO:=bounded_map) demo_events FragmentReassemblyBuffer_new).1
  = (spec_run (buf_frags demo_events) ∅).1.
Proof. apply (buffer_refines (ML:=bounded_map_laws) demo_events demo_events_ok). Defined.

Lemma buffer_delivers_witness :
  snd <$> filter (fun o => o.1 = (7, 2))
    (buf_run (MO:=bounded_map) demo_events FragmentReassemblyBuffer_new).1
  = [None; None; None;
     Some {| pkt_source := None; pkt_target := demo_target;
             pkt_payload := [10; 10; 11; 11; 12; 12] |}].
Proof.
  apply (buffer_delivers (ML:=bounded_map_laws) demo_events 7 2 3 demo_target (demo_chunk 10)
           [2; 2; 0] 1 demo_events_ok).
  - vm_compute; reflexivity.
  - lia.
  - intros i. rewrite !elem_of_cons, elem_of_nil. lia.
  - by_compute.
Defined.

(** A buffer with two fragments of three. *)
Definition demo_partial : FragmentReassemblyBuffer (MO:=bounded_map) :=
  (buf_run (MO:=bounded_map) [demo_frag 2 10 2; demo_frag 2 10 0] FragmentReassemblyBuffer_new).2.

Lemma demo_partial_wf : frb_wf demo_partial.
Proof.
  apply (buf_run_refines (ML:=bounded_map_laws) _ _ {[ (7, 2) ]});
    [apply (frb_new_wf (ML:=bounded_map_laws))|by_compute|by_compute|by_compute|by_compute].
Qed.

Lemma cleanup_keeps_expired_witness :
  (pp_frags <$> frb_abs (MO:=bounded_map) (cleanup_expired 100000 demo_partial) !! (7, 2))
  = Some {[2 := [12; 12]; 0 := [10; 10]]}.
Proof.
  erewrite (cleanup_keeps_expired (ML:=bounded_map_laws) 100000 demo_partial (7, 2) 0%nat _
              demo_partial_wf); cycle 1; vm_compute; reflexivity.
Defined.

Lemma out_of_range_fragment_witness :
  (add_fragment (MO:=bounded_map) 2 (frag_info 7 2 3 demo_target 200) [0] demo_partial).1 = None /\
  frb_abs (MO:=bounded_map) (add_fragment 2 (frag_info 7 2 3 demo_target 200) [0] demo_partial).2
  = delete (7, 2) (frb_abs (MO:=bounded_map) demo_partial).
Proof.
  refine (out_of_range_fragment (ML:=bounded_map_laws) 2 (frag_info 7 2 3 demo_target 200) [0]
    demo_partial _ demo_partial_wf _ _ _ _ _).
  - vm_compute; reflexivity.
  - vm_compute; discriminate.
  - vm_compute; reflexivity.
  - vm_compute; intros [_ ?]; discriminate.
  - vm_compute; reflexivity.
Defined.

(** Packets mix after a late duplicate.  Once a packet is delivered, a
    duplicate of one of its fragments starts a new entry that collections do
    not remove; when the 16-bit packet id comes round again, the next packet
    is delivered with the old fragment in it. *)
Lemma stale_fragment_mixes_packets :
  (buf_run (MO:=bounded_map)
     [demo_frag 2 10 0; demo_frag 2 10 1; demo_frag 2 10 2;
      demo_frag 2 10 1; BufGc 1000000;
      demo_frag 2 70 0; demo_frag 2 70 2] FragmentReassemblyBuffer_new).1
  = [((7, 2), None); ((7, 2), None);
     ((7, 2), Some {| pkt_source := None; pkt_target := demo_target;
                      pkt_payload := [10; 10; 11; 11; 12; 12] |});
     ((7, 2), None); ((7, 2), None);
     ((7, 2), Some {| pkt_source := None; pkt_target := demo_target;
                      pkt_payload := [70; 70; 11; 11; 72; 72] |})].
Proof. vm_compute. reflexivity. Qed.
