(* ===== verification/UdpStream.v ===== *)
(** * UDP associations (wind-tuic/src/proto/udp_stream.rs)

    [UdpStream]: sending a packet in one datagram or in fragments, feeding
    received fragments to the reassembly buffer, handing complete packets to
    the association's channel.  The QUIC connection is shared by all streams,
    so the operations that send run on the pair of the stream and the
    connection's history. *)

From stdpp Require Import base list gmap strings list_numbers.
From S2P Require Import Prelude BytesCrate Types Codec Header Cmd Addr Quinn Io.
From S2P Require Import Proto Moka Reassembly.

Section udp_stream.
Context {B : BytesOps} {U : UuidOps} {Q : QuinnOps} {MO : MokaOps}.
(** Whether arithmetic overflow panics ([debug_assertions]). *)
Context (overflow_checks : bool).

Record UdpStream := {
  us_assoc_id : u16;
  (** [receive_tx]: packets in the channel, after them the one a sender is
      waiting to send, and whether the receiver is still there *)
  us_receive : list UdpPacket;
  us_receive_open : bool;
  us_next_pkt_id : u16;
  us_fragment_buffer : FragmentReassemblyBuffer
}.

Definition UdpStream_new (assoc_id : u16) : UdpStream :=
  {| us_assoc_id := assoc_id; us_receive := []; us_receive_open := true; us_next_pkt_id := 0;
     us_fragment_buffer := FragmentReassemblyBuffer_new |}.

Definition us_set_next_pkt_id (n : u16) (s : UdpStream) : UdpStream :=
  {| us_assoc_id := us_assoc_id s; us_receive := us_receive s;
     us_receive_open := us_receive_open s; us_next_pkt_id := n;
     us_fragment_buffer := us_fragment_buffer s |}.
Definition us_set_buffer (b : FragmentReassemblyBuffer) (s : UdpStream) : UdpStream :=
  {| us_assoc_id := us_assoc_id s; us_receive := us_receive s;
     us_receive_open := us_receive_open s; us_next_pkt_id := us_next_pkt_id s;
     us_fragment_buffer := b |}.
Definition us_push (p : UdpPacket) (s : UdpStream) : UdpStream :=
  {| us_assoc_id := us_assoc_id s; us_receive := us_receive s ++ [p];
     us_receive_open := us_receive_open s; us_next_pkt_id := us_next_pkt_id s;
     us_fragment_buffer := us_fragment_buffer s |}.

Definition us_set_receive (q : list UdpPacket) (s : UdpStream) : UdpStream :=
  {| us_assoc_id := us_assoc_id s; us_receive := q;
     us_receive_open := us_receive_open s; us_next_pkt_id := us_next_pkt_id s;
     us_fragment_buffer := us_fragment_buffer s |}.
(** The receiving end is dropped, and what it had not taken. *)
Definition us_close_receive (s : UdpStream) : UdpStream :=
  {| us_assoc_id := us_assoc_id s; us_receive := [];
     us_receive_open := false; us_next_pkt_id := us_next_pkt_id s;
     us_fragment_buffer := us_fragment_buffer s |}.

(** A connection operation, from a stream. *)
Definition on_conn {A} (m : M QHist Report A) : M (UdpStream * QHist) Report A :=
  fun st => match m st.2 with
            | Returns (r, h) => Returns (r, (st.1, h))
            | Panics => Panics
            end.

(** [self.next_pkt_id.load(..)] and [self.next_pkt_id.fetch_add(1, ..)] *)
Definition next_pkt_id_load : M (UdpStream * QHist) Report u16 :=
  fun st => Returns (Ok (us_next_pkt_id st.1), st).
Definition next_pkt_id_fetch_add : M (UdpStream * QHist) Report u16 :=
  fun st => Returns (Ok (us_next_pkt_id st.1),
                     (us_set_next_pkt_id (as_u16 (us_next_pkt_id st.1 + 1)) st.1, st.2)).

(** [self.connection.max_datagram_size().unwrap_or(1200)] *)
Definition max_datagram_or_default : M (UdpStream * QHist) Report usize :=
  let! o := on_conn max_datagram_size in m_ret (default 1200 o).

(** The address arm of both size computations. *)
Definition target_addr_size (target : TargetAddr) : usize :=
  match target with
  | TargetAddr_IPv4 _ _ => 1 + 4 + 2
  | TargetAddr_IPv6 _ _ => 1 + 16 + 2
  | TargetAddr_Domain domain _ => 1 + 1 + len domain + 2
  end.

(** The loop [for frag_id in 0..fragment_count], from [frag_id] with [n]
    rounds left. *)
Fixpoint send_fragments (packet : UdpPacket) (assoc_id pkt_id : u16) (frag_total : u8)
    (first_frag_max_payload subsequent_frag_max_payload : usize)
    (n : nat) (frag_id offset : usize) : M (UdpStream * QHist) Report unit :=
  match n with
  | O => m_ret ()
  | S n' =>
    let max_frag_payload :=
      if frag_id =? 0 then first_frag_max_payload else subsequent_frag_max_payload in
    let! remaining := m_lift (usize_sub overflow_checks (len (pkt_payload packet)) offset) in
    let fragment_size := Z.min remaining max_frag_payload in
    let end_ := offset + fragment_size in
    let! fragment_payload := m_lift (bytes_slice offset end_ (pkt_payload packet)) in
    let! buf := on_conn (encode_into (HeaderCodec_encode (Header_new CmdType_Packet)) []) in
    let! buf := on_conn (encode_into (CmdCodec_encode CmdType_Packet
                  (Command_Packet assoc_id pkt_id frag_total (as_u8 frag_id)
                     (as_u16 (len fragment_payload)))) buf) in
    let! buf :=
      if frag_id =? 0
      then on_conn (encode_into (AddressCodec_encode
             (Address_from_TargetAddr (pkt_target packet))) buf)
      else on_conn (encode_into (AddressCodec_encode Address_None) buf) in
    let combined_payload := buf ++ fragment_payload in
    m_from (fun _ => Report_Msg "Failed to send fragment") (on_conn (send_datagram combined_payload)) ;;!
    send_fragments packet assoc_id pkt_id frag_total
      first_frag_max_payload subsequent_frag_max_payload n' (frag_id + 1) end_
  end.

Definition send_fragmented_packet (packet : UdpPacket) : M (UdpStream * QHist) Report unit :=
  let payload_len := len (pkt_payload packet) in
  let first_frag_addr_size := target_addr_size (pkt_target packet) in
  let subsequent_frag_addr_size := 1 in
  let! max_datagram_size := max_datagram_or_default in
  let first_frag_header_overhead := 10 + first_frag_addr_size in
  let subsequent_frag_header_overhead := 10 + subsequent_frag_addr_size in
  let first_frag_max_payload := saturating_sub max_datagram_size first_frag_header_overhead in
  let subsequent_frag_max_payload :=
    saturating_sub max_datagram_size subsequent_frag_header_overhead in
  let! fragment_count :=
    if payload_len <=? first_frag_max_payload then m_ret 1
    else
      let remaining_payload := payload_len - first_frag_max_payload in
      let! q := m_lift (usize_div_ceil remaining_payload subsequent_frag_max_payload) in
      m_ret (1 + q) in
  if MAX_FRAGMENTS <? fragment_count
  then m_throw (Report_Msg
         "Packet too large for fragmentation, exceeds maximum fragment count")
  else
    let! pkt_id := next_pkt_id_fetch_add in
    let frag_total := as_u8 fragment_count in
    let! st := m_get in
    send_fragments packet (us_assoc_id st.1) pkt_id frag_total
      first_frag_max_payload subsequent_frag_max_payload (Z.to_nat fragment_count) 0 0.

Definition send_packet (packet : UdpPacket) : M (UdpStream * QHist) Report unit :=
  let payload_len := len (pkt_payload packet) in
  match pkt_target packet with
  | TargetAddr_Domain domain _ =>
    if 255 <? len domain then m_throw (Report_Msg "Domain name too long") else m_ret ()
  | _ => m_ret ()
  end ;;!
  let addr_size := target_addr_size (pkt_target packet) in
  let header_overhead := 10 + addr_size in
  let! mds := max_datagram_or_default in
  let! limit := m_lift (usize_sub overflow_checks mds header_overhead) in
  if payload_len <=? limit
  then
    let! pkt_id := next_pkt_id_load in
    let! st := m_get in
    on_conn (send_udp (us_assoc_id st.1) pkt_id (pkt_target packet) (pkt_payload packet) true) ;;!
    next_pkt_id_fetch_add ;;!
    m_ret ()
  else send_fragmented_packet packet.

Definition process_fragment (now : u64) (assoc_id pkt_id : u16) (frag_total frag_id : u8)
    (payload : bytes) (source : option TargetAddr) (target : TargetAddr) (s : UdpStream) :
    option UdpPacket * UdpStream :=
  let '(o, b) := add_fragment now
    {| fi_assoc_id := assoc_id; fi_pkt_id := pkt_id; fi_frag_total := frag_total;
       fi_frag_id := frag_id; fi_source := source; fi_target := target |}
    payload (us_fragment_buffer s) in
  (o, us_set_buffer b s).

(** Fails when every receiver of the channel is gone. *)
Definition receive_packet (packet : UdpPacket) (s : UdpStream) : result unit Report * UdpStream :=
  if us_receive_open s then (Ok (), us_push packet s)
  else (Err (Report_Msg "Failed to send packet to receive channel"), s).

Definition collect_garbage (now_ms : u64) (s : UdpStream) : UdpStream :=
  us_set_buffer (cleanup_expired now_ms (us_fragment_buffer s)) s.

Definition close : M (UdpStream * QHist) Report unit :=
  let! st := m_get in on_conn (drop_udp (us_assoc_id st.1)).
End udp_stream.

Arguments UdpStream : clear implicits.
Arguments UdpStream {MO}.
