(* ===== verification/Fragmentation.v ===== *)
(** * What fragmentation sends

    The datagrams of a fragmented packet as a function of the packet and the
    datagram size (SPEC.md sections 7.4, 8.4 and 8.6), and the proof that the
    loop of [send_fragmented_packet] sends exactly these: the payload is cut
    without loss or overlap, no datagram exceeds the transport's limit and the
    ids run from 0 to [frag_total - 1]. *)

From stdpp Require Import base list gmap strings list_numbers.
From S2P Require Import Prelude BytesCrate Types Codec Header Cmd Addr Quinn Io.
From S2P Require Import Proto Moka Reassembly UdpStream.

(** ** Cutting a payload *)
Section cut.
Context (payload : bytes) (first sub : Z).

Definition frag_count : Z :=
  if len payload <=? first then 1 else 1 + div_ceil (len payload - first) sub.

Definition frag_off (i : Z) : Z := if i =? 0 then 0 else first + (i - 1) * sub.

Definition chunk (i : Z) : bytes :=
  ztake (frag_off (i + 1) - frag_off i) (zdrop (frag_off i) payload).

Hypothesis Hfirst : 0 <= first.
Hypothesis Hsub : 0 <= sub.

Lemma frag_off_step i : 0 <= i -> frag_off (i + 1) - frag_off i = if i =? 0 then first else sub.
Proof.
  intros Hi. unfold frag_off. destruct (Z.eqb_spec (i + 1) 0); [lia|].
  destruct (Z.eqb_spec i 0); lia.
Qed.

Lemma frag_off_mono i j : 0 <= i <= j -> frag_off i <= frag_off j.
Proof.
  intros Hij. unfold frag_off. destruct (Z.eqb_spec i 0), (Z.eqb_spec j 0); nia.
Qed.

Lemma frag_off_nonneg i : 0 <= i -> 0 <= frag_off i.
Proof. intros Hi. pose proof (frag_off_mono 0 i). unfold frag_off in *; cbn in *. lia. Qed.

Lemma ztake_step (a b : Z) (l : bytes) : 0 <= a <= b ->
  ztake a l ++ ztake (b - a) (zdrop a l) = ztake b l.
Proof.
  intros Hab. unfold ztake, zdrop. rewrite take_take_drop. f_equal. lia.
Qed.

(** The first [k] chunks are the payload up to offset [k]. *)
Lemma chunks_concat k : concat (chunk <$> seqZ 0 (Z.of_nat k)) = ztake (frag_off (Z.of_nat k)) payload.
Proof.
  induction k as [|k IH]; [done|].
  rewrite Nat2Z.inj_succ, <-Z.add_1_r, seqZ_app, Z.add_0_l by lia.
  rewrite fmap_app, concat_app, IH. change (seqZ (Z.of_nat k) 1) with [Z.of_nat k].
  cbn [fmap list_fmap concat]. rewrite app_nil_r. unfold chunk.
  apply ztake_step. split; [apply frag_off_nonneg; lia|apply frag_off_mono; lia].
Qed.

Lemma div_ceil_bounds a b : 0 < b -> 0 < a ->
  1 <= div_ceil a b /\ (div_ceil a b - 1) * b < a <= div_ceil a b * b.
Proof.
  intros Hb Ha. unfold div_ceil. set (q := (a + (b - 1)) / b).
  pose proof (Z.div_mod (a + (b - 1)) b ltac:(lia)) as Hd. fold q in Hd.
  pose proof (Z.mod_pos_bound (a + (b - 1)) b Hb). nia.
Qed.

(** The chosen count is the right one: the last chunk starts inside the
    payload and the chunks cover it. *)
Lemma frag_count_spec : (len payload <= first \/ 0 < sub) ->
  1 <= frag_count /\ len payload <= frag_off frag_count /\
  (1 < frag_count -> frag_off (frag_count - 1) < len payload).
Proof.
  intros Hok. unfold frag_count. destruct (Z.leb_spec (len payload) first) as [Hle|Hgt].
  - split_and!; [lia| |lia]. unfold frag_off; cbn. lia.
  - destruct (div_ceil_bounds (len payload - first) sub) as (?&?&?); [lia..|].
    unfold frag_off. destruct (Z.eqb_spec (1 + div_ceil (len payload - first) sub) 0); [lia|].
    split_and!; [lia|lia|]. intros _.
    destruct (Z.eqb_spec (1 + div_ceil (len payload - first) sub - 1) 0); [lia|]. lia.
Qed.

Lemma frag_off_inside i : (len payload <= first \/ 0 < sub) ->
  0 <= i < frag_count -> frag_off i <= len payload.
Proof.
  intros Hok Hi. destruct (frag_count_spec Hok) as (_&_&Hlast).
  destruct (Z.eq_dec i 0) as [->|Hne]; [apply len_nonneg|].
  pose proof (frag_off_mono i (frag_count - 1)). lia.
Qed.

Lemma chunks_cover : (len payload <= first \/ 0 < sub) ->
  concat (chunk <$> seqZ 0 frag_count) = payload.
Proof.
  intros Hok. destruct (frag_count_spec Hok) as (?&?&_).
  rewrite <-(Z2Nat.id frag_count), chunks_concat, Z2Nat.id by lia. by apply ztake_all.
Qed.

Lemma chunk_len i : 0 <= i -> len (chunk i) <= if i =? 0 then first else sub.
Proof.
  intros Hi. rewrite <-frag_off_step by done. unfold chunk.
  pose proof (frag_off_mono i (i + 1)). unfold len, ztake. rewrite length_take. lia.
Qed.
End cut.

(** ** The datagrams *)

Section datagrams.
Context {U : UuidOps}.
Context (packet : UdpPacket) (assoc_id pkt_id : u16) (mds : usize).

Definition first_max : Z := saturating_sub mds (10 + target_addr_size (pkt_target packet)).
Definition sub_max : Z := saturating_sub mds 11.
Definition packet_frag_count : Z := frag_count (pkt_payload packet) first_max sub_max.
Definition packet_off (i : Z) : Z := frag_off first_max sub_max i.
Definition packet_chunk (i : Z) : bytes := chunk (pkt_payload packet) first_max sub_max i.

(** Only the first fragment names the target. *)
Definition frag_address (i : Z) : Address :=
  if i =? 0 then Address_from_TargetAddr (pkt_target packet) else Address_None.

Definition frag_command (i : Z) : Command :=
  Command_Packet assoc_id pkt_id packet_frag_count i (as_u16 (len (packet_chunk i))).

Definition frag_datagram (i : Z) : bytes :=
  message_wire (frag_command i) (Some (frag_address i)) ++ packet_chunk i.

Definition packet_datagrams : list bytes := frag_datagram <$> seqZ 0 packet_frag_count.
End datagrams.

(** Send one datagram after the other until one is refused. *)
Fixpoint send_all {Q : QuinnOps} (ds : list bytes) (h : QHist) : bool * list (QuicCall * bool) :=
  match ds with
  | [] => (true, h)
  | d :: ds' =>
    if q_send_datagram h d then send_all ds' (h ++ [(SendDatagram d, true)])
    else (false, h ++ [(SendDatagram d, false)])
  end.

Section laws.
Context {B : BytesOps} {BL : BytesLaws B} {U : UuidOps} {UL : UuidLaws U} {Q : QuinnOps}
        {MO : MokaOps}.

Lemma on_conn_encode {A C wf wire enc dec} (F : @FrameCodec A wf wire enc dec) a buf
    (k : bytes -> M (UdpStream * QHist) Report C) st :
  wf a -> m_bind (on_conn (encode_into (enc a) buf)) k st = k (buf ++ wire a) st.
Proof.
  intros Hwf. unfold m_bind, on_conn, encode_into, m_local, m_from, m_bind, m_ret.
  rewrite (fc_encode a buf Hwf). cbn. by destruct st.
Qed.

Definition fragment_error : Report := Report_Msg "Failed to send fragment".

Definition send_result (r : bool) : result unit Report := if r then Ok () else Err fragment_error.

(** Well-formed inputs of the fragmented path. *)
Record frag_wf (packet : UdpPacket) (assoc_id pkt_id : u16) (mds : usize) : Prop := {
  fw_target : TargetAddr_ok (pkt_target packet);
  fw_fits : target_fits (pkt_target packet);
  fw_assoc : is_u16 assoc_id;
  fw_pkt : is_u16 pkt_id;
  fw_room : len (pkt_payload packet) <= first_max packet mds \/ 0 < sub_max mds;
  fw_count : packet_frag_count packet mds <= MAX_FRAGMENTS
}.

Lemma saturating_nonneg a b : 0 <= saturating_sub a b.
Proof. unfold saturating_sub. lia. Qed.

Lemma frag_count_pos packet a p mds : frag_wf packet a p mds -> 1 <= packet_frag_count packet mds <= 255.
Proof.
  intros Hwf. destruct Hwf as [_ _ _ _ Hroom Hcount].
  apply frag_count_spec in Hroom as (?&_); [|apply saturating_nonneg..].
  unfold packet_frag_count, MAX_FRAGMENTS in *. lia.
Qed.

Lemma as_u16_u16 z : is_u16 (as_u16 z).
Proof. unfold is_u16, as_u16. apply Z.mod_pos_bound. lia. Qed.
Lemma as_u8_small z : 0 <= z <= 255 -> as_u8 z = z.
Proof. intros. unfold as_u8. apply Z.mod_small. lia. Qed.

Lemma frag_command_wf packet a p mds i : frag_wf packet a p mds ->
  0 <= i < packet_frag_count packet mds -> command_wf CmdType_Packet (frag_command packet a p mds i).
Proof.
  intros Hwf Hi. pose proof (frag_count_pos _ _ _ _ Hwf). destruct Hwf.
  split; [done|]. split_and!; auto using as_u16_u16; unfold is_u8; lia.
Qed.

Lemma frag_address_wf packet a p mds i : frag_wf packet a p mds -> address_wf (frag_address packet i).
Proof.
  intros [? ? ? ? ? ?]. unfold frag_address. case_match; [by apply address_from_target_wf|done].
Qed.

(** Offsets of rounds that run. *)
Lemma packet_off_bounds packet a p mds i : frag_wf packet a p mds ->
  0 <= i < packet_frag_count packet mds ->
  0 <= packet_off packet mds i <= len (pkt_payload packet) /\
  packet_off packet mds i <= packet_off packet mds (i + 1) /\
  packet_off packet mds (i + 1) - packet_off packet mds i
  = (if i =? 0 then first_max packet mds else sub_max mds).
Proof.
  intros [_ _ _ _ Hroom _] Hi. unfold packet_off.
  pose proof (saturating_nonneg mds (10 + target_addr_size (pkt_target packet))) as H1.
  pose proof (saturating_nonneg mds 11) as H2.
  split_and!.
  - apply frag_off_nonneg; [done..|lia].
  - by apply frag_off_inside.
  - apply frag_off_mono; [done..|lia].
  - apply frag_off_step; lia.
Qed.

Lemma packet_slice packet a p mds i : frag_wf packet a p mds ->
  0 <= i < packet_frag_count packet mds ->
  let off := packet_off packet mds i in
  let size := Z.min (len (pkt_payload packet) - off) (packet_off packet mds (i + 1) - off) in
  bytes_slice off (off + size) (pkt_payload packet) = Returns (packet_chunk packet mds i).
Proof.
  intros Hwf Hi. destruct (packet_off_bounds _ _ _ _ _ Hwf Hi) as (?&?&_). cbv zeta.
  rewrite bytes_slice_le by lia. f_equal.
  change (packet_chunk packet mds i) with
    (ztake (packet_off packet mds (i + 1) - packet_off packet mds i)
       (zdrop (packet_off packet mds i) (pkt_payload packet))).
  pose proof (len_zdrop (packet_off packet mds i) (pkt_payload packet)) as Hl.
  set (l := zdrop _ _) in *. set (d := packet_off packet mds (i + 1) - _).
  destruct (Z.le_gt_cases d (len (pkt_payload packet) - packet_off packet mds i)).
  - f_equal. lia.
  - rewrite !ztake_all by lia. done.
Qed.

(** One round of the loop. *)
Lemma send_fragments_step checks packet a p mds n i st :
  frag_wf packet a p mds -> 0 <= i < packet_frag_count packet mds ->
  send_fragments checks packet a p (packet_frag_count packet mds) (first_max packet mds)
    (sub_max mds) (S n) i (packet_off packet mds i) st =
  (m_from (fun _ => fragment_error) (on_conn (send_datagram (frag_datagram packet a p mds i))) ;;!
   send_fragments checks packet a p (packet_frag_count packet mds) (first_max packet mds)
    (sub_max mds) n (i + 1) (Z.min (packet_off packet mds (i + 1)) (len (pkt_payload packet)))) st.
Proof.
  intros Hwf Hi. pose proof (frag_count_pos _ _ _ _ Hwf) as Hc.
  destruct (packet_off_bounds _ _ _ _ _ Hwf Hi) as (Hin&Hle&Hstep).
  cbn [send_fragments]. rewrite <-Hstep.
  rewrite (run_lift _ _ _ (len (pkt_payload packet) - packet_off packet mds i)).
  2: { unfold usize_sub. by rewrite (proj2 (Z.leb_le _ _)) by lia. }
  erewrite run_lift by (by eapply packet_slice). cbv zeta.
  rewrite (on_conn_encode header_codec) by done.
  rewrite (as_u8_small i) by lia.
  rewrite (on_conn_encode (cmd_codec CmdType_Packet)) by (by apply frag_command_wf).
  fold (frag_command packet a p mds i).
  assert (forall (k : bytes -> M (UdpStream * QHist) Report unit) buf,
    m_bind (if i =? 0
      then on_conn (encode_into (AddressCodec_encode (Address_from_TargetAddr (pkt_target packet))) buf)
      else on_conn (encode_into (AddressCodec_encode Address_None) buf)) k st
    = k (buf ++ address_wire (frag_address packet i)) st) as Haddr.
  { intros k buf. pose proof (frag_address_wf _ _ _ _ i Hwf) as Ha. unfold frag_address in *.
    destruct (i =? 0); by rewrite (on_conn_encode addr_codec). }
  rewrite Haddr. cbv zeta.
  replace (Z.min (packet_off packet mds (i + 1)) (len (pkt_payload packet)))
    with (packet_off packet mds i + Z.min (len (pkt_payload packet) - packet_off packet mds i)
            (packet_off packet mds (i + 1) - packet_off packet mds i)) by lia.
  unfold frag_datagram, message_wire. cbn [frag_command CmdType_from_Command app].
  by rewrite <-!app_assoc.
Qed.

(** The loop sends the datagrams in order until one is refused. *)
Lemma send_fragments_run checks packet a p mds n i s h :
  frag_wf packet a p mds -> 0 <= i -> i + Z.of_nat n = packet_frag_count packet mds ->
  send_fragments checks packet a p (packet_frag_count packet mds) (first_max packet mds)
    (sub_max mds) n i (Z.min (packet_off packet mds i) (len (pkt_payload packet))) (s, h) =
  let '(r, h') := send_all (frag_datagram packet a p mds <$> seqZ i (Z.of_nat n)) h in
  Returns (send_result r, (s, h')).
Proof.
  intros Hwf. revert i h; induction n as [|n IH]; intros i h Hi Hn; [done|].
  destruct (packet_off_bounds _ _ _ _ i Hwf) as (Hin&_); [lia|].
  rewrite Z.min_l by lia. rewrite send_fragments_step by (done || lia).
  rewrite Nat2Z.inj_succ, seqZ_cons, Z.pred_succ by lia. cbn [fmap list_fmap send_all].
  unfold m_bind at 1, m_from, on_conn, send_datagram, q_call, guard_unit. cbn [fst snd].
  destruct (q_send_datagram h _); [|done]. cbn. rewrite <-Z.add_1_r.
  apply IH; lia.
Qed.

(** ** [send_fragmented_packet] *)

Lemma target_addr_size_eq t : target_addr_size t = address_size (Address_from_TargetAddr t).
Proof. by destruct t. Qed.

Lemma send_fragmented_run checks packet s h :
  let mds := default 1200 (q_max_datagram_size h) in
  frag_wf packet (us_assoc_id s) (us_next_pkt_id s) mds ->
  send_fragmented_packet checks packet (s, h) =
  let '(r, h') := send_all (packet_datagrams packet (us_assoc_id s) (us_next_pkt_id s) mds) h in
  Returns (send_result r, (us_set_next_pkt_id (as_u16 (us_next_pkt_id s + 1)) s, h')).
Proof.
  intros mds Hwf. pose proof (frag_count_pos _ _ _ _ Hwf) as Hc.
  unfold send_fragmented_packet. cbv zeta. rewrite (run_bind_ok _ _ _ mds (s, h)) by done.
  fold (first_max packet mds). change (saturating_sub mds (10 + 1)) with (sub_max mds).
  rewrite (run_bind_ok _ _ _ (packet_frag_count packet mds) (s, h)).
  2: { unfold packet_frag_count, frag_count.
       destruct (Z.leb_spec (len (pkt_payload packet)) (first_max packet mds)); [done|].
       destruct Hwf as [_ _ _ _ [?|Hsub] _]; [lia|]. unfold usize_div_ceil.
       rewrite (proj2 (Z.eqb_neq _ 0)) by lia. done. }
  rewrite run_if, (proj2 (Z.ltb_ge _ _)) by (destruct Hwf; lia).
  rewrite (run_bind_ok _ _ _ (us_next_pkt_id s)
    (us_set_next_pkt_id (as_u16 (us_next_pkt_id s + 1)) s, h)) by done.
  rewrite run_get. cbn [fst us_assoc_id us_set_next_pkt_id]. rewrite as_u8_small by lia.
  set (s' := us_set_next_pkt_id _ s).
  pose proof (send_fragments_run checks packet (us_assoc_id s) (us_next_pkt_id s) mds
    (Z.to_nat (packet_frag_count packet mds)) 0 s' h Hwf ltac:(lia) ltac:(lia)) as Hr.
  pose proof (len_nonneg (pkt_payload packet)).
  replace (Z.min (packet_off packet mds 0) _) with 0 in Hr by (unfold packet_off, frag_off; cbn; lia).
  rewrite Hr, Z2Nat.id by lia. done.
Qed.

(** A datagram's length, exactly. *)
Lemma frag_datagram_len packet a p mds i :
  frag_wf packet a p mds -> 0 <= i < packet_frag_count packet mds ->
  len (frag_datagram packet a p mds i) =
  10 + address_size (frag_address packet i) + len (packet_chunk packet mds i).
Proof.
  intros Hwf Hi. unfold frag_datagram, message_wire.
  rewrite !len_app, (command_wire_len CmdType_Packet), address_wire_len
    by (eauto using frag_address_wf, frag_command_wf).
  change (len (header_wire _)) with 2. cbn. lia.
Qed.

Lemma packet_chunk_len packet mds i : 0 <= i ->
  len (packet_chunk packet mds i) <= if i =? 0 then first_max packet mds else sub_max mds.
Proof. intros Hi. apply chunk_len; [apply saturating_nonneg..|done]. Qed.

Lemma frag_datagram_fits packet a p mds i :
  frag_wf packet a p mds -> 0 <= i < packet_frag_count packet mds ->
  10 + target_addr_size (pkt_target packet) <= mds ->
  len (frag_datagram packet a p mds i) <= mds.
Proof.
  intros Hwf Hi Hmds. rewrite frag_datagram_len by done.
  pose proof (packet_chunk_len packet mds i ltac:(lia)) as Hl.
  assert (1 <= target_addr_size (pkt_target packet)).
  { destruct (pkt_target packet) as [d ?|?|?]; cbn; try lia. pose proof (len_nonneg d); lia. }
  unfold first_max, sub_max, saturating_sub, frag_address in *.
  destruct (i =? 0); [rewrite <-target_addr_size_eq|cbn]; lia.
Qed.

(** The payload size a fragment announces is its real one. *)
Lemma frag_size_exact packet a p mds i :
  frag_wf packet a p mds -> 0 <= i < packet_frag_count packet mds -> mds <= 65535 + 11 ->
  as_u16 (len (packet_chunk packet mds i)) = len (packet_chunk packet mds i).
Proof.
  intros Hwf Hi Hmds. pose proof (packet_chunk_len packet mds i ltac:(lia)) as Hl.
  pose proof (len_nonneg (packet_chunk packet mds i)).
  assert (1 <= target_addr_size (pkt_target packet)).
  { destruct (pkt_target packet) as [d ?|?|?]; cbn; try lia. pose proof (len_nonneg d); lia. }
  unfold as_u16. rewrite Z.mod_small; [done|].
  unfold first_max, sub_max, saturating_sub in Hl. destruct (i =? 0); lia.
Qed.

(** ** The transport's answers *)

Definition accepted (d : bytes) : QuicCall * bool := (SendDatagram d, true).

Lemma send_all_ok ds h h' : send_all ds h = (true, h') -> h' = h ++ (accepted <$> ds).
Proof.
  revert h; induction ds as [|d ds IH]; intros h; cbn.
  - intros [= <-]. by rewrite app_nil_r.
  - destruct (q_send_datagram h d); [|done]. intros ->%IH. by rewrite <-app_assoc.
Qed.

Lemma send_all_fail ds h h' : send_all ds h = (false, h') ->
  exists pre d post, ds = pre ++ d :: post /\ q_send_datagram (h ++ (accepted <$> pre)) d = false /\
    h' = h ++ (accepted <$> pre) ++ [(SendDatagram d, false)].
Proof.
  revert h; induction ds as [|d ds IH]; intros h; cbn; [done|].
  destruct (q_send_datagram h d) eqn:Hq.
  - intros (pre&d'&post&->&Hd&->)%IH. exists (d :: pre), d', post.
    rewrite <-!app_assoc in *. done.
  - intros [= <-]. exists [], d, ds. by rewrite app_nil_r.
Qed.

Lemma sent_accepted ds : sent_datagrams (accepted <$> ds) = ds.
Proof. induction ds as [|d ds IH]; [done|]. cbn. unfold sent_datagrams in IH. by rewrite IH. Qed.

(** ** Theorems *)

(** The datagrams of a packet, from its chunks. *)
Lemma packet_datagrams_imap packet a p mds :
  frag_wf packet a p mds -> mds <= 65535 + 11 ->
  packet_datagrams packet a p mds =
  imap (fun i c =>
    message_wire (Command_Packet a p (packet_frag_count packet mds) (Z.of_nat i) (len c))
      (Some (if (i =? 0)%nat then Address_from_TargetAddr (pkt_target packet) else Address_None)) ++ c)
    (packet_chunk packet mds <$> seqZ 0 (packet_frag_count packet mds)).
Proof.
  intros Hwf Hmds. apply list_eq. intros i. unfold packet_datagrams.
  rewrite list_lookup_imap, !list_lookup_fmap.
  destruct (decide (Z.of_nat i < packet_frag_count packet mds)).
  - rewrite lookup_seqZ_lt by lia. cbn. f_equal. unfold frag_datagram, frag_command, frag_address.
    rewrite (frag_size_exact packet a p) by (done || lia).
    by destruct i.
  - by rewrite lookup_seqZ_ge by lia.
Qed.

(** C15: a fragmented packet that was sent is cut faithfully.  The datagrams
    the call adds to the connection are between 1 and 255, they carry chunks
    that concatenate to the packet's payload, each numbered by its position
    and announcing its own size, only the first naming the target, and none
    exceeds the transport's datagram limit. *)
Theorem fragments_cut_payload checks packet s h s' h' :
  let mds := default 1200 (q_max_datagram_size h) in
  frag_wf packet (us_assoc_id s) (us_next_pkt_id s) mds ->
  10 + target_addr_size (pkt_target packet) <= mds <= 65535 + 11 ->
  send_fragmented_packet checks packet (s, h) = Returns (Ok (), (s', h')) ->
  exists chunks ds,
    h' = h ++ (accepted <$> ds) /\
    ds = imap (fun i c =>
           message_wire (Command_Packet (us_assoc_id s) (us_next_pkt_id s) (len chunks) (Z.of_nat i) (len c))
             (Some (if (i =? 0)%nat then Address_from_TargetAddr (pkt_target packet)
                    else Address_None)) ++ c) chunks /\
    concat chunks = pkt_payload packet /\
    1 <= len chunks <= 255 /\
    Forall (fun d => len d <= mds) ds.
Proof.
  intros mds Hwf [Hlo Hhi]. rewrite send_fragmented_run by done. fold mds.
  destruct (send_all _ h) as [[] k] eqn:Hs; intros [= <- <-]. apply send_all_ok in Hs as ->.
  pose proof (frag_count_pos _ _ _ _ Hwf) as Hc.
  eexists (packet_chunk packet mds <$> seqZ 0 (packet_frag_count packet mds)), _.
  assert (len (packet_chunk packet mds <$> seqZ 0 (packet_frag_count packet mds))
          = packet_frag_count packet mds) as ->.
  { unfold len. rewrite length_fmap, length_seqZ. lia. }
  split_and!; [done|by apply packet_datagrams_imap| |lia..|].
  - destruct Hwf. by apply chunks_cover; [apply saturating_nonneg..|].
  - apply Forall_fmap, Forall_forall. intros i Hi%elem_of_seqZ. by apply frag_datagram_fits; [|lia|].
Qed.

(** The largest payload that 255 fragments carry. *)
Lemma frag_count_limit packet mds : 0 < sub_max mds ->
  packet_frag_count packet mds <= 255 <->
  len (pkt_payload packet) <= first_max packet mds + 254 * sub_max mds.
Proof.
  intros Hs. unfold packet_frag_count, frag_count.
  pose proof (saturating_nonneg mds (10 + target_addr_size (pkt_target packet))) as Hf.
  fold (first_max packet mds) in Hf.
  destruct (Z.leb_spec (len (pkt_payload packet)) (first_max packet mds)); [nia|].
  destruct (div_ceil_bounds (len (pkt_payload packet) - first_max packet mds) (sub_max mds))
    as (?&?&?); [lia..|]. nia.
Qed.

Definition too_large : Report :=
  Report_Msg "Packet too large for fragmentation, exceeds maximum fragment count".

Lemma send_fragmented_too_large checks packet s h :
  let mds := default 1200 (q_max_datagram_size h) in
  0 < sub_max mds -> MAX_FRAGMENTS < packet_frag_count packet mds ->
  send_fragmented_packet checks packet (s, h) = Returns (Err too_large, (s, h)).
Proof.
  intros mds Hs Hbig.
  unfold send_fragmented_packet. cbv zeta. rewrite (run_bind_ok _ _ _ mds (s, h)) by done.
  fold (first_max packet mds). change (saturating_sub mds (10 + 1)) with (sub_max mds).
  rewrite (run_bind_ok _ _ _ (packet_frag_count packet mds) (s, h)).
  2: { unfold packet_frag_count, frag_count.
       destruct (Z.leb_spec (len (pkt_payload packet)) (first_max packet mds)); [done|].
       unfold usize_div_ceil. by rewrite (proj2 (Z.eqb_neq _ 0)) by lia. }
  by rewrite run_if, (proj2 (Z.ltb_lt _ _)).
Qed.

(** The two ways a packet within the fragment limit goes out. *)
Definition datagrams_outcome (ds : list bytes) (s' : UdpStream) (h : QHist)
    (r : exec (result unit Report * (UdpStream * QHist))) : Prop :=
  r = Returns (Ok (), (s', h ++ (accepted <$> ds))) \/
  (exists pre d post, ds = pre ++ d :: post /\
     q_send_datagram (h ++ (accepted <$> pre)) d = false /\
     r = Returns (Err fragment_error, (s', h ++ (accepted <$> pre) ++ [(SendDatagram d, false)]))).

Lemma send_fragmented_outcome checks packet s h :
  let mds := default 1200 (q_max_datagram_size h) in
  frag_wf packet (us_assoc_id s) (us_next_pkt_id s) mds ->
  datagrams_outcome (packet_datagrams packet (us_assoc_id s) (us_next_pkt_id s) mds)
    (us_set_next_pkt_id (as_u16 (us_next_pkt_id s + 1)) s) h (send_fragmented_packet checks packet (s, h)).
Proof.
  intros mds Hwf. rewrite send_fragmented_run by done. fold mds.
  destruct (send_all _ h) as [[] h'] eqn:Ha.
  - left. by rewrite (send_all_ok _ _ _ Ha).
  - right. apply send_all_fail in Ha as (pre&d&post&Hd&Hq&->). by exists pre, d, post.
Qed.

(** Within the size limit the fragmented path is well formed. *)
Lemma frag_wf_limit packet a p mds :
  is_u16 a -> is_u16 p -> TargetAddr_ok (pkt_target packet) -> target_fits (pkt_target packet) ->
  len (pkt_payload packet) <= first_max packet mds + 254 * sub_max mds -> frag_wf packet a p mds.
Proof.
  intros Ha Hp Ht Hf Hl. pose proof (saturating_nonneg mds 11) as Hs. fold (sub_max mds) in Hs.
  destruct (Z.eq_dec (sub_max mds) 0) as [E|E].
  - split; try done; [left; lia|]. unfold packet_frag_count, frag_count.
    by rewrite (proj2 (Z.leb_le _ _)) by lia.
  - split; try done; [right; lia|]. apply frag_count_limit; lia.
Qed.

(** C14: the fragmented path, in all cases, for a packet whose domain passed
    the length check of [send_packet].  A payload that does not fit the first
    fragment when the later ones have no room divides by zero and panics; one
    over [first + 254 * subsequent] bytes is refused with nothing sent and the
    packet id kept; any other packet goes out as exactly its datagrams, in
    order, up to the first one the transport refuses, with an error just when
    one is refused, and the packet id is used up either way. *)
Theorem send_fragmented_datagrams checks packet s h :
  let mds := default 1200 (q_max_datagram_size h) in
  let limit := first_max packet mds + 254 * sub_max mds in
  let ds := packet_datagrams packet (us_assoc_id s) (us_next_pkt_id s) mds in
  let s' := us_set_next_pkt_id (as_u16 (us_next_pkt_id s + 1)) s in
  is_u16 (us_assoc_id s) -> is_u16 (us_next_pkt_id s) ->
  TargetAddr_ok (pkt_target packet) -> target_fits (pkt_target packet) ->
  (limit < len (pkt_payload packet) -> sub_max mds = 0 ->
     send_fragmented_packet checks packet (s, h) = Panics) /\
  (limit < len (pkt_payload packet) -> 0 < sub_max mds ->
     send_fragmented_packet checks packet (s, h) = Returns (Err too_large, (s, h))) /\
  (len (pkt_payload packet) <= limit ->
     send_fragmented_packet checks packet (s, h) = Returns (Ok (), (s', h ++ (accepted <$> ds))) \/
     (exists pre d post, ds = pre ++ d :: post /\
        q_send_datagram (h ++ (accepted <$> pre)) d = false /\
        send_fragmented_packet checks packet (s, h) =
        Returns (Err fragment_error, (s', h ++ (accepted <$> pre) ++ [(SendDatagram d, false)])))).
Proof.
  intros mds limit ds s' Ha Hp Ht Hf. split_and!.
  - intros Hbig Hs. unfold send_fragmented_packet. cbv zeta.
    rewrite (run_bind_ok _ _ _ mds (s, h)) by done.
    fold (first_max packet mds). change (saturating_sub mds (10 + 1)) with (sub_max mds).
    rewrite (proj2 (Z.leb_gt _ _)) by lia. by rewrite Hs.
  - intros Hbig Hs. apply send_fragmented_too_large; [done|]. fold mds.
    unfold MAX_FRAGMENTS. pose proof (frag_count_limit packet mds Hs). lia.
  - intros Hok. by apply send_fragmented_outcome, frag_wf_limit.
Qed.


(** The one datagram of a packet that fits. *)
Definition single_datagram (packet : UdpPacket) (assoc_id pkt_id : u16) : bytes :=
  message_wire (Command_Packet assoc_id pkt_id 1 0 (as_u16 (len (pkt_payload packet))))
    (Some (Address_from_TargetAddr (pkt_target packet))) ++ pkt_payload packet.

Lemma send_udp_run assoc_id pkt_id packet h :
  is_u16 assoc_id -> is_u16 pkt_id ->
  TargetAddr_ok (pkt_target packet) -> target_fits (pkt_target packet) ->
  send_udp assoc_id pkt_id (pkt_target packet) (pkt_payload packet) true h =
  (send_datagram (single_datagram packet assoc_id pkt_id) ;;! m_ret ()) h.
Proof.
  intros Ha Hp Ht Hf. unfold send_udp.
  rewrite (encode_into_ok header_codec) by done.
  rewrite (encode_into_ok (cmd_codec CmdType_Packet))
    by (split; [done|split_and!; auto using as_u16_u16; unfold is_u8; lia]).
  rewrite (encode_into_ok addr_codec) by (by apply address_from_target_wf).
  unfold single_datagram, message_wire. cbn [app CmdType_from_Command]. by rewrite <-!app_assoc.
Qed.

Lemma single_datagram_len packet assoc_id pkt_id :
  is_u16 assoc_id -> is_u16 pkt_id ->
  TargetAddr_ok (pkt_target packet) -> target_fits (pkt_target packet) ->
  len (single_datagram packet assoc_id pkt_id)
  = 10 + target_addr_size (pkt_target packet) + len (pkt_payload packet).
Proof.
  intros Ha Hp Ht Hf. unfold single_datagram, message_wire.
  rewrite !len_app, (command_wire_len CmdType_Packet), address_wire_len, <-target_addr_size_eq
    by first [ by apply address_from_target_wf
             | split; [done|split_and!; auto using as_u16_u16; unfold is_u8; lia] ].
  change (len (header_wire _)) with 2. cbn [command_size]. lia.
Qed.

(** The arm of [send_packet] that does not fragment. *)
Definition send_whole (packet : UdpPacket) : M (UdpStream * QHist) Report unit :=
  let! pkt_id := next_pkt_id_load in
  let! st := m_get in
  on_conn (send_udp (us_assoc_id st.1) pkt_id (pkt_target packet) (pkt_payload packet) true) ;;!
  next_pkt_id_fetch_add ;;!
  m_ret ().

Definition send_whole_result (d : bytes) (s : UdpStream) (h : QHist) :
    result unit Report * (UdpStream * QHist) :=
  if q_send_datagram h d
  then (Ok (), (us_set_next_pkt_id (as_u16 (us_next_pkt_id s + 1)) s,
                h ++ [(SendDatagram d, true)]))
  else (Err (Report_Quinn "connection error"), (s, h ++ [(SendDatagram d, false)])).

Lemma send_whole_run packet s h :
  is_u16 (us_assoc_id s) -> is_u16 (us_next_pkt_id s) ->
  TargetAddr_ok (pkt_target packet) -> target_fits (pkt_target packet) ->
  send_whole packet (s, h) =
  Returns (send_whole_result (single_datagram packet (us_assoc_id s) (us_next_pkt_id s)) s h).
Proof.
  intros Ha Hp Ht Hf. unfold send_whole, next_pkt_id_load.
  unfold m_bind at 1 2. unfold m_get at 1. cbn [fst snd].
  unfold m_bind at 1, on_conn. cbn [fst snd]. rewrite send_udp_run by done.
  unfold send_whole_result, send_datagram, q_call, guard_unit, m_bind, m_ret.
  by destruct (q_send_datagram h _).
Qed.

(** [send_packet] up to the comparison with the limit. *)
Lemma send_packet_start checks packet s h :
  let mds := default 1200 (q_max_datagram_size h) in
  target_fits (pkt_target packet) ->
  send_packet checks packet (s, h) =
  (let! limit := m_lift (usize_sub checks mds (10 + target_addr_size (pkt_target packet))) in
   if len (pkt_payload packet) <=? limit then send_whole packet
   else send_fragmented_packet checks packet) (s, h).
Proof.
  intros mds Hf. unfold send_packet. cbv zeta. rewrite (run_bind_ok _ _ _ () (s, h)).
  2: { destruct (pkt_target packet) as [d p| |]; [|done..]. cbn in Hf.
       by rewrite (proj2 (Z.ltb_ge _ _)) by lia. }
  by rewrite (run_bind_ok _ _ _ mds (s, h)) by done.
Qed.

Lemma send_packet_long_domain checks packet s h : ~ target_fits (pkt_target packet) ->
  send_packet checks packet (s, h) = Returns (Err (Report_Msg "Domain name too long"), (s, h)).
Proof.
  intros Hf. unfold send_packet. destruct (pkt_target packet) as [dm p| |]; [|by destruct Hf..].
  cbn in Hf. by rewrite (proj2 (Z.ltb_lt _ _)) by lia.
Qed.

(** [send_packet] when the datagram limit leaves room for a header. *)
Lemma send_packet_eq checks packet s h :
  let mds := default 1200 (q_max_datagram_size h) in
  let size := 10 + target_addr_size (pkt_target packet) in
  size <= mds ->
  send_packet checks packet (s, h) =
  if decide (target_fits (pkt_target packet))
  then if size + len (pkt_payload packet) <=? mds then send_whole packet (s, h)
       else send_fragmented_packet checks packet (s, h)
  else Returns (Err (Report_Msg "Domain name too long"), (s, h)).
Proof.
  intros mds size Hle. destruct (decide _) as [Hf|Hf].
  - rewrite send_packet_start by done. fold mds size. unfold usize_sub.
    rewrite (proj2 (Z.leb_le _ _)) by done. erewrite run_lift by done. rewrite run_if.
    destruct (Z.leb_spec (len (pkt_payload packet)) (mds - size)),
      (Z.leb_spec (size + len (pkt_payload packet)) mds); (done || lia).
  - by apply send_packet_long_domain.
Qed.

(** A datagram limit below the header size.  The unchecked subtraction
    panics where overflow is checked; where it wraps, the limit becomes huge
    and the packet is handed to the transport in one datagram that exceeds
    the real limit. *)
Lemma send_packet_small_limit packet s h :
  let mds := default 1200 (q_max_datagram_size h) in
  let d := single_datagram packet (us_assoc_id s) (us_next_pkt_id s) in
  is_u16 (us_assoc_id s) -> is_u16 (us_next_pkt_id s) ->
  TargetAddr_ok (pkt_target packet) -> target_fits (pkt_target packet) ->
  0 <= mds < 10 + target_addr_size (pkt_target packet) ->
  len (pkt_payload packet) < 2 ^ 63 ->
  send_packet true packet (s, h) = Panics /\
  mds < len d /\
  send_packet false packet (s, h) = Returns (send_whole_result d s h).
Proof.
  intros mds d Ha Hp Ht Hf Hlt Hsz. pose proof (len_nonneg (pkt_payload packet)).
  assert (target_addr_size (pkt_target packet) <= 300) as Hts.
  { destruct (pkt_target packet); cbn in *; lia. }
  unfold d. rewrite single_datagram_len, !send_packet_start by done. fold mds.
  unfold usize_sub. rewrite (proj2 (Z.leb_gt _ _)) by lia.
  split_and!; [done|lia|]. erewrite run_lift by done.
  rewrite run_if, (proj2 (Z.leb_le _ _)); [by apply send_whole_run|].
  rewrite <-(Z.mod_add _ 1), Z.mod_small by lia. lia.
Qed.

Lemma target_addr_size_ge t : 4 <= target_addr_size t.
Proof. destruct t as [d p|ip p|ip p]; cbn; try lia. pose proof (len_nonneg d); lia. Qed.

(** Where a header fits, the later fragments have room too, and a packet that
    does not fit takes at least two. *)
Lemma fragmented_rooms packet mds : 10 + target_addr_size (pkt_target packet) <= mds ->
  first_max packet mds = mds - (10 + target_addr_size (pkt_target packet)) /\ 0 < sub_max mds.
Proof.
  intros Hle. pose proof (target_addr_size_ge (pkt_target packet)).
  unfold first_max, sub_max, saturating_sub. lia.
Qed.

Lemma frag_count_ge_2 packet mds :
  10 + target_addr_size (pkt_target packet) <= mds < 10 + target_addr_size (pkt_target packet) + len (pkt_payload packet) ->
  2 <= packet_frag_count packet mds.
Proof.
  intros [Hle Hbig]. destruct (fragmented_rooms packet mds Hle) as [Hf Hs].
  unfold packet_frag_count, frag_count. rewrite (proj2 (Z.leb_gt _ _)) by lia.
  destruct (div_ceil_bounds (len (pkt_payload packet) - first_max packet mds) (sub_max mds)); lia.
Qed.

(** C26: [send_packet], on every branch.  A domain over 255 bytes is refused
    with no effect, whatever the limit.  If the transport's limit is below the
    header, the unchecked subtraction panics where overflow is checked and
    otherwise wraps, and the packet is handed over in one datagram that exceeds
    the limit.  A packet that fits goes out as one datagram within the limit:
    if the transport takes it the packet id advances, if not an error is
    returned and it stays.  Any other packet is cut into at least two
    fragments: more than 255 are refused with no effect, otherwise they are
    sent in order up to the first refused one.  (A slice has less than 2^63
    bytes.) *)
Theorem send_packet_branches checks packet s h :
  let mds := default 1200 (q_max_datagram_size h) in
  let size := 10 + target_addr_size (pkt_target packet) in
  let d := single_datagram packet (us_assoc_id s) (us_next_pkt_id s) in
  let ds := packet_datagrams packet (us_assoc_id s) (us_next_pkt_id s) mds in
  let s' := us_set_next_pkt_id (as_u16 (us_next_pkt_id s + 1)) s in
  is_u16 (us_assoc_id s) -> is_u16 (us_next_pkt_id s) -> TargetAddr_ok (pkt_target packet) ->
  0 <= mds -> len (pkt_payload packet) < 2 ^ 63 ->
  (~ target_fits (pkt_target packet) ->
   send_packet checks packet (s, h) = Returns (Err (Report_Msg "Domain name too long"), (s, h))) /\
  (target_fits (pkt_target packet) -> mds < size ->
   if checks then send_packet checks packet (s, h) = Panics
   else mds < len d /\ send_packet checks packet (s, h) = Returns (send_whole_result d s h)) /\
  (target_fits (pkt_target packet) -> size + len (pkt_payload packet) <= mds ->
   len d <= mds /\ send_packet checks packet (s, h) = Returns (send_whole_result d s h)) /\
  (target_fits (pkt_target packet) -> size <= mds < size + len (pkt_payload packet) ->
   2 <= packet_frag_count packet mds /\
   if 255 <? packet_frag_count packet mds
   then send_packet checks packet (s, h) = Returns (Err too_large, (s, h))
   else len ds = packet_frag_count packet mds /\
        datagrams_outcome ds s' h (send_packet checks packet (s, h))).
Proof.
  intros mds size d ds s' Ha Hp Ht Hmds Hlen. split_and!.
  - apply send_packet_long_domain.
  - intros Hf Hlt. destruct (send_packet_small_limit packet s h) as (?&?&?); [done..|].
    by destruct checks.
  - intros Hf Hfit. rewrite send_packet_eq by (fold mds size; pose proof (len_nonneg (pkt_payload packet)); lia).
    fold mds size. rewrite decide_True by done. unfold d. rewrite single_datagram_len by done.
    fold size. rewrite (proj2 (Z.leb_le _ _)) by done. split; [done|by apply send_whole_run].
  - intros Hf Hbig. rewrite send_packet_eq by (fold mds size; lia).
    fold mds size. rewrite decide_True, (proj2 (Z.leb_gt _ _)) by (done || lia).
    destruct (fragmented_rooms packet mds (proj1 Hbig)) as (Hfm&Hsm).
    pose proof (frag_count_ge_2 packet mds Hbig) as Hge. split; [done|].
    destruct (Z.ltb_spec 255 (packet_frag_count packet mds)) as [Hc|Hc].
    + apply send_fragmented_too_large; [done|]. fold mds. unfold MAX_FRAGMENTS. lia.
    + split; [|apply send_fragmented_outcome; fold mds; split; auto].
      unfold ds, packet_datagrams, len. rewrite length_fmap, length_seqZ. lia.
Qed.
End laws.

(** ** Witnesses *)

Definition demo_mtu : QuinnOps := loopback (Some 25) toy_ekm.
(** 30 payload bytes over datagrams of 25: 8, then 14, then 8. *)
Definition demo_big : UdpPacket :=
  {| pkt_source := None; pkt_target := TargetAddr_IPv4 [10; 0; 0; 1] 53;
     pkt_payload := Z.of_nat <$> seq 0 30 |}.
Definition demo_stream : UdpStream (MO:=bounded_map) := UdpStream_new (MO:=bounded_map) 7.

Lemma demo_big_wf : frag_wf demo_big 7 0 25.
Proof. split; by_compute. Qed.

Lemma send_fragmented_datagrams_witness :
  send_fragmented_packet (B:=list_bytes) (U:=list_uuid) (Q:=demo_mtu) true demo_big (demo_stream, []) =
  Returns (Ok (), (us_set_next_pkt_id 1 demo_stream,
    accepted <$> packet_datagrams (U:=list_uuid) demo_big 7 0 25)).
Proof.
  destruct (proj2 (proj2 (send_fragmented_datagrams (BL:=list_bytes_laws) (UL:=list_uuid_laws) (Q:=demo_mtu)
    true demo_big demo_stream [] ltac:(by_compute) ltac:(by_compute) ltac:(by_compute) ltac:(by_compute)))
    ltac:(by_compute)) as [Hr|(?&?&?&_&Hq&_)].
  - exact Hr.
  - discriminate Hq.
Defined.

Lemma fragments_cut_payload_witness :
  exists s' h' chunks ds,
    send_fragmented_packet (B:=list_bytes) (U:=list_uuid) (Q:=demo_mtu) true demo_big
      (demo_stream, []) = Returns (Ok (), (s', h')) /\
    h' = accepted <$> ds /\ concat chunks = (Z.of_nat <$> seq 0 30) /\
    Forall (fun d => len d <= 25) ds.
Proof.
  eexists _, _.
  destruct (fragments_cut_payload (BL:=list_bytes_laws) (UL:=list_uuid_laws) (Q:=demo_mtu)
    true demo_big demo_stream [] _ _ demo_big_wf ltac:(by_compute) ltac:(vm_compute; reflexivity))
    as (chunks&ds&Hh&_&Hc&_&Hd).
  exists chunks, ds. split_and!; [vm_compute; reflexivity|exact Hh|exact Hc|exact Hd].
Defined.



Lemma send_packet_branches_witness :
  send_packet (B:=list_bytes) (U:=list_uuid) (Q:=loopback (Some 100) toy_ekm) true demo_big
    (demo_stream, []) =
  Returns (Ok (), (us_set_next_pkt_id 1 demo_stream,
                   [(SendDatagram (single_datagram (U:=list_uuid) demo_big 7 0), true)])).
Proof.
  refine (proj2 (proj1 (proj2 (proj2 (send_packet_branches (BL:=list_bytes_laws) (UL:=list_uuid_laws)
    (Q:=loopback (Some 100) toy_ekm) true demo_big demo_stream [] _ _ _ _ _))) _ _)); by_compute.
Defined.

Lemma send_packet_small_limit_witness :
  send_packet (B:=list_bytes) (U:=list_uuid) (Q:=loopback (Some 9) toy_ekm) true demo_big
    (demo_stream, []) = Panics.
Proof.
  apply (send_packet_small_limit (BL:=list_bytes_laws) (UL:=list_uuid_laws)
    (Q:=loopback (Some 9) toy_ekm) demo_big demo_stream []); by_compute.
Defined.
