(* ===== verification/Outbound.v ===== *)
(** * The TUIC client (wind-tuic/src/outbound.rs)

    [TuicOutbound]: establishing the connection, the poll loop (heartbeats,
    received datagrams), UDP associations.  The loop and the tasks are step
    functions over explicit events; the events and the answers of the
    transport are the environment. *)

From stdpp Require Import base list gmap strings list_numbers.
From S2P Require Import Prelude BytesCrate Types Codec Header Cmd Addr Quinn Io.
From S2P Require Import Proto Moka CoreUdp Reassembly UdpStream.

Record TuicOutboundOpts {U : UuidOps} := {
  oo_peer_addr : SocketAddr;
  oo_sni : str;
  oo_auth : Uuid * bytes;
  oo_zero_rtt_handshake : bool;
  (** durations in milliseconds *)
  oo_heartbeat : Z;
  oo_gc_interval : Z;
  oo_gc_lifetime : Z;
  oo_skip_cert_verify : bool;
  oo_alpn : list str
}.
Arguments TuicOutboundOpts : clear implicits.
Arguments TuicOutboundOpts {U}.

(** ** The target and the segments of a received local datagram *)

Definition SocketAddr_of_target (meta_addr : SocketAddr) (dest : TargetAddr) : SocketAddr :=
  match dest with
  | TargetAddr_IPv4 ip port => SocketAddr_V4 ip port
  | TargetAddr_IPv6 ip port => SocketAddr_V6 ip port 0 0
  | TargetAddr_Domain _ _ => meta_addr
  end.

Definition local_target (meta : RecvMeta) : TargetAddr :=
  let target_addr :=
    match rm_destination meta with
    | Some dest => SocketAddr_of_target (rm_addr meta) dest
    | None => rm_addr meta
    end in
  TargetAddr_from_SocketAddr target_addr.

(** [for segment_idx in 0..num_segments]: the payloads sent to the channel. *)
Fixpoint gro_loop (buf : bytes) (total_len stride : usize) (n : nat) (segment_idx : Z) :
    exec (list bytes) :=
  match n with
  | O => Returns []
  | S n' =>
    let segment_start := segment_idx * stride in
    let segment_end := Z.min (segment_start + stride) total_len in
    exec_bind (slice segment_start segment_end buf) (fun payload =>
    exec_bind (gro_loop buf total_len stride n' (segment_idx + 1)) (fun rest =>
    Returns (payload :: rest)))
  end.

(** [stride > 0 && total_len > stride] *)
Definition is_gro (meta : RecvMeta) : bool :=
  (0 <? rm_stride meta) && (rm_stride meta <? rm_len meta).

Definition local_payloads (buf : bytes) (meta : RecvMeta) : exec (list bytes) :=
  let total_len := rm_len meta in
  let stride := rm_stride meta in
  if is_gro meta
  then gro_loop buf total_len stride (Z.to_nat (div_ceil total_len stride)) 0
  else exec_bind (slice 0 total_len buf) (fun payload => Returns [payload]).

(** The packets queued for one [recv] from the local socket. *)
Definition local_packets (buf : bytes) (meta : RecvMeta) : exec (list UdpPacket) :=
  exec_bind (local_payloads buf meta) (fun ps =>
  Returns ((fun payload => {| pkt_source := None; pkt_target := local_target meta;
                              pkt_payload := payload |}) <$> ps)).

Section outbound.
Context {B : BytesOps} {U : UuidOps} {Q : QuinnOps} {MO : MokaOps}.
(** Whether arithmetic overflow panics, and whether a subscriber enables the
    [info!] lines, whose arguments are only evaluated then. *)
Context (overflow_checks log_info : bool).

Definition HEARTBEAT_MAX_FAILURES : usize := 3.

(** [Arc<UdpStream>]s are pointers into [to_streams]; the session cache maps
    association ids to them. *)
Record TuicOutbound := {
  to_connection : list (QuicCall * bool);
  to_udp_assoc_counter : u16;
  to_udp_session : Cache Z nat;
  to_streams : gmap nat UdpStream
}.

Definition to_set_connection (h : QHist) (st : TuicOutbound) : TuicOutbound :=
  {| to_connection := h; to_udp_assoc_counter := to_udp_assoc_counter st;
     to_udp_session := to_udp_session st; to_streams := to_streams st |}.
Definition to_set_session (c : Cache Z nat) (st : TuicOutbound) : TuicOutbound :=
  {| to_connection := to_connection st; to_udp_assoc_counter := to_udp_assoc_counter st;
     to_udp_session := c; to_streams := to_streams st |}.
Definition to_set_stream (p : nat) (s : UdpStream) (st : TuicOutbound) : TuicOutbound :=
  {| to_connection := to_connection st; to_udp_assoc_counter := to_udp_assoc_counter st;
     to_udp_session := to_udp_session st; to_streams := <[p := s]> (to_streams st) |}.

(** *** [TuicOutbound::new] *)

(** What the TLS and socket set-up answers; [ce_quic_config] is the
    [QuicClientConfig::try_from(..).unwrap()]. *)
Record ConnectEnv := {
  ce_tls_config : bool;
  ce_quic_config : bool;
  ce_bind : bool;
  ce_endpoint : bool;
  ce_connect : bool;
  ce_handshake : bool
}.

Definition check (ok : bool) (what : string) : M QHist Report unit :=
  m_ensure ok (Report_Msg what).

Definition TuicOutbound_new (env : ConnectEnv) (opts : TuicOutboundOpts) :
    M QHist Report TuicOutbound :=
  check (ce_tls_config env) "tls_config" ;;!
  (if ce_quic_config env then m_ret () else m_panic) ;;!
  check (ce_bind env) "Failed to bind socket" ;;!
  check (ce_endpoint env) "endpoint" ;;!
  check (ce_connect env) "Failed to connect" ;;!
  check (ce_handshake env) "connection" ;;!
  send_auth (oo_auth opts).1 (oo_auth opts).2 ;;!
  let! h := m_get in
  m_ret {| to_connection := h; to_udp_assoc_counter := 0;
           to_udp_session := cache_new 65535; to_streams := ∅ |}.

(** *** A received datagram, in [start_poll] *)

(** The payload of the [Command::Packet] arm, after decoding. *)
Definition deliver (now : u64) (assoc_id pkt_id : u16) (frag_total frag_id : u8)
    (payload : bytes) (target : TargetAddr) (st : TuicOutbound) : TuicOutbound :=
  let '(o, c) := cache_get assoc_id (to_udp_session st) in
  let st := to_set_session c st in
  match o ≫= (fun p => (p,.) <$> to_streams st !! p) with
  | Some (p, udp_stream) =>
    let '(complete_packet, udp_stream) :=
      if 1 <? frag_total
      then process_fragment now assoc_id pkt_id frag_total frag_id payload None target udp_stream
      else (Some {| pkt_source := None; pkt_target := target; pkt_payload := payload |}, udp_stream) in
    match complete_packet with
    | Some packet => to_set_stream p (receive_packet packet udp_stream).2 st
    | None => to_set_stream p udp_stream st
    end
  | None => st
  end.

Definition target_or_placeholder (addr : Address) : TargetAddr :=
  match address_to_target addr with
  | Ok t => t
  | Err _ => TargetAddr_IPv4 Ipv4Addr_UNSPECIFIED 0
  end.

(** [continue] on a decoding error leaves the state as it is; the log line
    prints [frag_id + 1] as a [u8]. *)
Definition on_datagram (now : u64) (data : bytes) (st : TuicOutbound) : exec TuicOutbound :=
  exec_bind (decode_header "datagram" data) (fun r =>
  match r with
  | (Err _, _) => Returns st
  | (Ok header, buf) =>
    exec_bind (decode_command (hdr_command header) "datagram" buf) (fun r =>
    match r with
    | (Err _, _) => Returns st
    | (Ok (Command_Packet assoc_id pkt_id frag_total frag_id size), buf) =>
      exec_bind (decode_address "UDP packet" buf) (fun r =>
      match r with
      | (Err _, _) => Returns st
      | (Ok addr, buf) =>
        exec_bind (copy_to_bytes size buf) (fun '(payload, _) =>
        exec_bind (if log_info then u8_add overflow_checks frag_id 1 else Returns 0) (fun _ =>
        Returns (deliver now assoc_id pkt_id frag_total frag_id payload
                   (target_or_placeholder addr) st)))
      end)
    | (Ok _, _) => Returns st
    end)
  end).

(** *** The poll loop of [start_poll] *)

Inductive PollEvent :=
| Poll_Cancelled
| Poll_Heartbeat
| Poll_Bi
| Poll_Datagram (now : u64) (data : bytes)
| Poll_Uni.

Inductive PollState :=
| Polling (hb_failures : usize) (st : TuicOutbound)
| Stopped (r : result unit Report) (st : TuicOutbound).

Definition heartbeat_step (hb_failures : usize) (st : TuicOutbound) : exec PollState :=
  exec_bind (send_heartbeat (to_connection st)) (fun '(r, h) =>
  let st := to_set_connection h st in
  match r with
  | Err _ =>
    let hb_failures := hb_failures + 1 in
    Returns (if HEARTBEAT_MAX_FAILURES <=? hb_failures
             then Stopped (Err (Report_Msg "Too many heartbeat failures")) st
             else Polling hb_failures st)
  | Ok _ => Returns (Polling (if 0 <? hb_failures then 0 else hb_failures) st)
  end).

Definition poll_step (s : PollState) (ev : PollEvent) : exec PollState :=
  match s with
  | Stopped _ _ => Returns s
  | Polling hb_failures st =>
    match ev with
    | Poll_Cancelled => Returns (Stopped (Ok ()) st)
    | Poll_Heartbeat => heartbeat_step hb_failures st
    | Poll_Bi | Poll_Uni => Returns s
    | Poll_Datagram now data =>
      exec_bind (on_datagram now data st) (fun st => Returns (Polling hb_failures st))
    end
  end.

Fixpoint poll_run (s : PollState) (evs : list PollEvent) : exec PollState :=
  match evs with
  | [] => Returns s
  | ev :: evs' => exec_bind (poll_step s ev) (fun s' => poll_run s' evs')
  end.

(** *** [handle_tcp] and [handle_udp] *)

Definition handle_tcp (target_addr : TargetAddr) (script : list IoEvent) :
    M QHist Report unit :=
  let! _ := open_tcp target_addr script in m_ret ().

(** The two tasks [handle_udp] spawns for an association, with what they
    share: the stream behind [as_ptr] (also reachable from the session cache),
    the queue [send_tx]/[send_rx] from the second task to the first, and the
    local socket.  Both channels hold [CHANNEL_CAPACITY] packets.  [as_queue]
    is what the queue holds, followed by what the second task still has to
    send of the batch it last read, while it waits for room; [as_gro] is
    whether that batch was one of several segments.  [us_receive] is, likewise,
    the other channel and the packet the poll loop may be waiting to send. *)
Record Association := {
  as_id : u16;
  as_ptr : nat;
  as_queue : list UdpPacket;
  as_gro : bool;
  (** each task runs until its loop [break]s *)
  as_relaying : bool;
  as_reading : bool;
  (** payloads written to the local socket *)
  as_local : list bytes
}.

Definition as_set_relaying (b : bool) (a : Association) : Association :=
  {| as_id := as_id a; as_ptr := as_ptr a; as_queue := as_queue a; as_gro := as_gro a; as_relaying := b;
     as_reading := as_reading a; as_local := as_local a |}.
Definition as_set_reading (b : bool) (a : Association) : Association :=
  {| as_id := as_id a; as_ptr := as_ptr a; as_queue := as_queue a; as_gro := as_gro a;
     as_relaying := as_relaying a; as_reading := b; as_local := as_local a |}.
Definition as_set_queue (q : list UdpPacket) (a : Association) : Association :=
  {| as_id := as_id a; as_ptr := as_ptr a; as_queue := q; as_gro := as_gro a;
     as_relaying := as_relaying a; as_reading := as_reading a; as_local := as_local a |}.
Definition as_push_queue (ps : list UdpPacket) (gro : bool) (a : Association) : Association :=
  {| as_id := as_id a; as_ptr := as_ptr a; as_queue := as_queue a ++ ps; as_gro := gro;
     as_relaying := as_relaying a; as_reading := as_reading a; as_local := as_local a |}.
Definition as_push_local (d : bytes) (a : Association) : Association :=
  {| as_id := as_id a; as_ptr := as_ptr a; as_queue := as_queue a; as_gro := as_gro a;
     as_relaying := as_relaying a; as_reading := as_reading a; as_local := as_local a ++ [d] |}.

(** [bounded_async(128)] *)
Definition CHANNEL_CAPACITY : Z := 128.

(** The second task waits for room in the queue, the poll loop for room in the
    channel of some stream. *)
Definition local_blocked (a : Association) : bool :=
  as_relaying a && (CHANNEL_CAPACITY <? len (as_queue a)).
Definition stream_blocked (u : UdpStream) : bool :=
  us_receive_open u && (CHANNEL_CAPACITY <? len (us_receive u)).
Definition poll_blocked (st : TuicOutbound) : bool :=
  bool_decide (map_Exists (fun _ u => stream_blocked u = true) (to_streams st)).

(** A new association: its id, its stream at a fresh pointer, its entry. *)
Definition udp_associate (st : TuicOutbound) : Association * TuicOutbound :=
  let assoc_id := to_udp_assoc_counter st in
  let p := fresh (dom (to_streams st)) in
  ({| as_id := assoc_id; as_ptr := p; as_queue := []; as_gro := false; as_relaying := true; as_reading := true;
      as_local := [] |},
   {| to_connection := to_connection st; to_udp_assoc_counter := as_u16 (assoc_id + 1);
      to_udp_session := cache_insert assoc_id p (to_udp_session st);
      to_streams := <[p := UdpStream_new assoc_id]> (to_streams st) |}).

(** [break] in the first task drops [receive_rx] and [send_rx].  A second task
    that waits for room then fails to send: the rest of a batch of segments is
    dropped and it goes on reading, after a single packet it ends. *)
Definition relay_break (st : TuicOutbound) (a : Association) : TuicOutbound * Association :=
  (match to_streams st !! as_ptr a with
   | Some u => to_set_stream (as_ptr a) (us_close_receive u) st
   | None => st
   end, as_set_relaying false (if local_blocked a then as_set_reading (as_reading a && as_gro a) a else a)).

(** The first task: [select!] over cancellation, the receive queue, the send
    queue and the garbage-collection timer.  A branch that is not ready
    leaves the state as it is.  The receive queue never reports an error, as
    the task itself keeps the stream and so the sender alive; the send queue
    does once it is empty and the second task is over. *)
Inductive RelayEvent :=
| Relay_Cancelled
| Relay_Receive (local_send_ok : bool)
| Relay_Send
| Relay_Gc (now_ms : u64).

Definition relay_step (ev : RelayEvent) (st : TuicOutbound) (a : Association) :
    exec (TuicOutbound * Association) :=
  if as_relaying a then
    match to_streams st !! as_ptr a with
    | None => Returns (st, a)
    | Some u =>
      match ev with
      | Relay_Cancelled => Returns (relay_break st a)
      | Relay_Receive local_send_ok =>
        match us_receive u with
        | [] => Returns (st, a)
        | packet :: rest =>
          Returns (to_set_stream (as_ptr a) (us_set_receive rest u) st,
                   if local_send_ok then as_push_local (pkt_payload packet) a else a)
        end
      | Relay_Send =>
        match as_queue a with
        | [] => Returns (if as_reading a then (st, a) else relay_break st a)
        | packet :: rest =>
          exec_bind (send_packet overflow_checks packet (u, to_connection st)) (fun '(_, (u, h)) =>
          Returns (to_set_connection h (to_set_stream (as_ptr a) u st), as_set_queue rest a))
        end
      | Relay_Gc now_ms =>
        Returns (to_set_stream (as_ptr a) (collect_garbage now_ms u) st, a)
      end
    end
  else Returns (st, a).

(** The second task: read from the local socket and queue the packets.  A
    closed queue drops the rest of a GRO batch but only ends the task on a
    single packet; a failed read always ends it. *)
Inductive LocalEvent :=
| Local_Cancelled
| Local_Recv (r : result (usize * bytes * RecvMeta) IoError).

Definition local_step (ev : LocalEvent) (a : Association) : exec Association :=
  if as_reading a then
    match ev with
    | Local_Cancelled => Returns (as_set_reading false a)
    | Local_Recv (Err _) => Returns (as_set_reading false a)
    | Local_Recv (Ok (n, buf, meta)) =>
      if n =? 1 then
        exec_bind (local_packets buf meta) (fun ps =>
        Returns (if as_relaying a then as_push_queue ps (is_gro meta) a
                 else as_set_reading (is_gro meta) a))
      else Returns (as_set_reading false a)
    end
  else Returns a.

(** The end of [handle_udp], after cancellation: the error is only logged. *)
Definition udp_teardown (assoc_id : u16) (st : TuicOutbound) : exec TuicOutbound :=
  exec_bind (drop_udp assoc_id (to_connection st)) (fun '(_, h) =>
  Returns (to_set_connection h st)).
End outbound.

Arguments TuicOutbound : clear implicits.
Arguments TuicOutbound {MO}.
Arguments PollState : clear implicits.
Arguments PollState {MO}.
