(* ===== verification/Config.v ===== *)
(** * Configuration and start-up (the wind crate: conf/, util.rs, cli.rs, main.rs;
      wind-tuic/src/tls.rs; wind-core/src/interface.rs)

    The options as they are stored, the runtime options they become, the
    sources they are read from and their precedence, and what the program does
    with its command line.  [load_providers] says which providers are merged,
    in which order; ConfigValue.v says what is read from them. *)

From stdpp Require Import base list strings sets.
From S2P Require Import Prelude BytesCrate Types CoreUdp SocksUdp SocksInbound Quinn Moka UdpStream.
From S2P Require Import Outbound.

(** ** Stored options (conf/persistent.rs) *)

Inductive AuthModeConfig :=
| AuthModeConfig_NoAuth
| AuthModeConfig_Password (username password : str).

Definition AuthMode_from (config : AuthModeConfig) : AuthMode :=
  match config with
  | AuthModeConfig_NoAuth => AuthMode_NoAuth
  | AuthModeConfig_Password username password => AuthMode_Password username password
  end.

Record SocksOpt := {
  po_listen_addr : SocketAddr;
  po_public_addr : option IpAddr;
  po_auth : AuthModeConfig;
  po_skip_auth : bool;
  po_allow_udp : bool
}.

Definition SocksOpt_default : SocksOpt :=
  {| po_listen_addr := SocketAddr_V4 [127; 0; 0; 1] 6666; po_public_addr := None;
     po_auth := AuthModeConfig_NoAuth; po_skip_auth := false; po_allow_udp := true |}.

(** Durations in milliseconds. *)
Record TuicOpt {U : UuidOps} := {
  pt_server_addr : TargetAddr;
  pt_sni : str;
  pt_uuid : Uuid;
  pt_password : str;
  pt_zero_rtt_handshake : bool;
  pt_heartbeat : Z;
  pt_gc_interval : Z;
  pt_gc_lifetime : Z;
  pt_skip_cert_verify : bool;
  pt_alpn : list str
}.
Arguments TuicOpt : clear implicits.
Arguments TuicOpt {U}.

Definition TuicOpt_default {U : UuidOps} : TuicOpt :=
  {| pt_server_addr := TargetAddr_IPv4 [127; 0; 0; 1] 9443;
     pt_sni := ascii_str "localhost";
     pt_uuid := uuid_from_bytes [193; 230; 219; 226; 244; 23; 72; 144; 153; 76; 158; 225; 91; 146; 101; 151];
     pt_password := ascii_str "test_passwd";
     pt_zero_rtt_handshake := false;
     pt_heartbeat := 10000;
     pt_gc_interval := 20000;
     pt_gc_lifetime := 20000;
     pt_skip_cert_verify := true;
     pt_alpn := [ascii_str "h3"] |}.

Record PersistentConfig {U : UuidOps} := {
  pc_socks_opt : SocksOpt;
  pc_tuic_opt : TuicOpt
}.
Arguments PersistentConfig : clear implicits.
Arguments PersistentConfig {U}.

Definition PersistentConfig_default {U : UuidOps} : PersistentConfig :=
  {| pc_socks_opt := SocksOpt_default; pc_tuic_opt := TuicOpt_default |}.

(** ** Runtime options (conf/runtime.rs, util.rs) *)

(** [to_socket_addrs]: [None] if the lookup fails. *)
Definition target_addr_to_socket_addr (resolve : str -> u16 -> option (list SocketAddr))
    (addr : TargetAddr) : exec SocketAddr :=
  match addr with
  | TargetAddr_IPv4 ip port => Returns (SocketAddr_V4 ip port)
  | TargetAddr_IPv6 ip port => Returns (SocketAddr_V6 ip port 0 0)
  | TargetAddr_Domain domain port =>
    match resolve domain port with
    | Some (a :: _) => Returns a
    | Some [] => Panics
    | None => Panics
    end
  end.

Record Config {U : UuidOps} := {
  cf_socks_opt : SocksInboundOpt;
  cf_tuic_opt : TuicOutboundOpts
}.
Arguments Config : clear implicits.
Arguments Config {U}.

Definition from_persist {U : UuidOps} (resolve : str -> u16 -> option (list SocketAddr))
    (config : PersistentConfig) : exec Config :=
  let s := pc_socks_opt config in
  let t := pc_tuic_opt config in
  exec_bind (target_addr_to_socket_addr resolve (pt_server_addr t)) (fun peer_addr =>
  Returns {|
    cf_socks_opt := {|
      so_listen_addr := po_listen_addr s; so_public_addr := po_public_addr s;
      so_auth := AuthMode_from (po_auth s); so_skip_auth := po_skip_auth s;
      so_allow_udp := po_allow_udp s |};
    cf_tuic_opt := {|
      oo_peer_addr := peer_addr; oo_sni := pt_sni t; oo_auth := (pt_uuid t, pt_password t);
      oo_zero_rtt_handshake := pt_zero_rtt_handshake t; oo_heartbeat := pt_heartbeat t;
      oo_gc_interval := pt_gc_interval t; oo_gc_lifetime := pt_gc_lifetime t;
      oo_skip_cert_verify := pt_skip_cert_verify t; oo_alpn := pt_alpn t |} |}).

(** ** Sources *)

Inductive Provider :=
| Provider_Toml (path : str)
| Provider_Yaml (path : str)
| Provider_Env (prefix : str).

Definition ends_with (suffix s : str) : bool :=
  bool_decide (drop (length s - length suffix) s = suffix).

(** [Path::join] on Unix: an absolute name replaces the directory, and a
    separator is added unless the directory is empty or ends in one. *)
Definition path_join (dir name : str) : str :=
  if bool_decide (head name = Some 47) then name
  else if bool_decide (dir = []) || bool_decide (last dir = Some 47) then dir ++ name
  else dir ++ 47 :: name.

(** The providers [load] merges, later ones taking precedence. *)
Definition load_providers (exists_ : str -> bool) (config_path config_dir : option str) :
    list Provider :=
  let in_dir name := match config_dir with Some d => path_join d name | None => name end in
  let toml := in_dir (ascii_str "config.toml") in
  let yaml := in_dir (ascii_str "config.yaml") in
  (if exists_ toml then [Provider_Toml toml] else []) ++
  (if exists_ yaml then [Provider_Yaml yaml] else []) ++
  match config_path with
  | Some p =>
    if ends_with (ascii_str ".toml") p then [Provider_Toml p]
    else if ends_with (ascii_str ".yaml") p || ends_with (ascii_str ".yml") p then [Provider_Yaml p]
    else [Provider_Toml p]
  | None => []
  end ++
  [Provider_Env (ascii_str "WIND_")].

Definition load {U : UuidOps} (extract : list Provider -> option PersistentConfig)
    (exists_ : str -> bool) (config_path config_dir : option str) : option PersistentConfig :=
  extract (load_providers exists_ config_path config_dir).

(** ** The command line (cli.rs, main.rs) *)

Inductive ConfigFormat := Format_Yaml | Format_Toml.

Record Cli := {
  cli_config : option str;
  cli_config_dir : option str;
  cli_work_dir : option str;
  cli_version : bool;
  cli_init : option ConfigFormat
}.

Definition format_str (f : ConfigFormat) : str :=
  match f with Format_Yaml => ascii_str "yaml" | Format_Toml => ascii_str "toml" end.

(** What [main] decides to do, up to the services it starts. *)
Inductive Startup {U : UuidOps} :=
| PrintUsage
| PrintVersion
| WriteDefault (create_dir : option str) (path : str) (format : str)
| ConfigError
| RunServices (config : Config).
Arguments Startup : clear implicits.
Arguments Startup {U}.

(** [export_to_file] knows these formats. *)
Definition export_format_ok (format : str) : bool :=
  bool_decide (format = ascii_str "yaml") || bool_decide (format = ascii_str "toml").

Definition main_startup {U : UuidOps} (extract : list Provider -> option PersistentConfig)
    (exists_ : str -> bool) (resolve : str -> u16 -> option (list SocketAddr))
    (parsed_cli : option Cli) : exec Startup :=
  match parsed_cli with
  | None => Returns PrintUsage
  | Some cli =>
    if cli_version cli then Returns PrintVersion
    else match cli_init cli with
    | Some format =>
      let file_name := ascii_str "config." ++ format_str format in
      let file_path :=
        match cli_config_dir cli with Some d => path_join d file_name | None => file_name end in
      Returns (WriteDefault (cli_config_dir cli) file_path (format_str format))
    | None =>
      match load extract exists_ (cli_config cli) (cli_config_dir cli) with
      | None => Returns ConfigError
      | Some persistent_config =>
        exec_bind (from_persist resolve persistent_config) (fun c => Returns (RunServices c))
      end
    end
  end.

(** ** TLS (wind-tuic/src/tls.rs) *)

(** How the server's certificate is checked, and the protocols offered.
    [skip_cert_verify] also leaves the protocol versions at their default. *)
Record ClientTls := {
  ct_verify_server_cert : bool;
  ct_tls13_only : bool;
  ct_alpn_protocols : list bytes
}.

(** [SkipServerVerification]: the certificate is not looked at; the handshake
    signatures are still checked by the crypto provider, a parameter. *)
Record CryptoProvider := {
  cp_verify_tls12_signature : bytes -> bytes -> bytes -> bool;
  cp_verify_tls13_signature : bytes -> bytes -> bytes -> bool;
  cp_supported_schemes : list Z
}.

(** [CryptoProvider::get_default().expect(..)] *)
Definition SkipServerVerification_new (get_default : option CryptoProvider) : exec CryptoProvider :=
  match get_default with Some p => Returns p | None => Panics end.

Definition verify_server_cert (end_entity : bytes) (intermediates : list bytes) (server_name : str) : bool :=
  true.
Definition verify_tls12_signature (self : CryptoProvider) (message cert dss : bytes) : bool :=
  cp_verify_tls12_signature self message cert dss.
Definition verify_tls13_signature (self : CryptoProvider) (message cert dss : bytes) : bool :=
  cp_verify_tls13_signature self message cert dss.
Definition supported_verify_schemes (self : CryptoProvider) : list Z := cp_supported_schemes self.

(** [platform_ok]: rustls accepts the version list and the platform
    verifier.  [CryptoProvider::get_default().expect(..)] comes first. *)
Definition tls_config {U : UuidOps} (get_default : option CryptoProvider) (platform_ok : bool)
    (opts : TuicOutboundOpts) : exec (option ClientTls) :=
  exec_bind (SkipServerVerification_new get_default) (fun _ =>
  Returns (
    if oo_skip_cert_verify opts
    then Some {| ct_verify_server_cert := false; ct_tls13_only := false;
                 ct_alpn_protocols := [ascii_str "h3"] |}
    else if platform_ok
    then Some {| ct_verify_server_cert := true; ct_tls13_only := true;
                 ct_alpn_protocols := [ascii_str "h3"] |}
    else None)).

(** ** Network stacks (wind-core/src/interface.rs) *)

Record Iface := {
  if_name : str;
  if_ipv4 : option Ipv4Addr;
  if_ipv6 : option Ipv6Addr;
  if_index : u32
}.

Inductive Network := TCP | UDP | ICMPv4 | ICMPv6.

Inductive Stack := Stack_V4 | Stack_V6.
Definition Stack_from_SocketAddr (value : SocketAddr) : Stack :=
  match value with SocketAddr_V4 _ _ => Stack_V4 | SocketAddr_V6 _ _ _ _ => Stack_V6 end.
Definition Stack_from_IpAddr (value : IpAddr) : Stack :=
  match value with IpAddr_V4 _ => Stack_V4 | IpAddr_V6 _ => Stack_V6 end.

Inductive StackPrefer := Prefer_V4 | Prefer_V6 | Prefer_V4V6 | Prefer_V6V4.
Definition support_v6 (p : StackPrefer) : bool :=
  negb match p with Prefer_V4 => true | _ => false end.

Lemma Stack_from_agree a : Stack_from_SocketAddr a = Stack_from_IpAddr (SocketAddr_ip a).
Proof. by destruct a. Qed.

(** ** Theorems *)

Section theorems.
Context {U : UuidOps}.

(** The options reach the services unchanged; start-up panics exactly when
    the server is a domain that does not resolve. *)
Lemma from_persist_panics resolve (config : PersistentConfig) :
  from_persist resolve config = Panics <->
  exists d p, pt_server_addr (pc_tuic_opt config) = TargetAddr_Domain d p /\
    (resolve d p = None \/ resolve d p = Some []).
Proof.
  unfold from_persist, target_addr_to_socket_addr.
  destruct (pt_server_addr (pc_tuic_opt config)) as [d p|ip p|ip p];
    [|split; [done|naive_solver]..].
  destruct (resolve d p) as [[|a l]|] eqn:Hr; cbn; split; intros H; try done.
  - exists d, p. auto.
  - destruct H as (d'&p'&[= <- <-]&[H|H]); congruence.
  - exists d, p. auto.
Qed.

(** The default configuration checks no certificate. *)
Lemma default_skips_verification resolve provider platform_ok :
  exists config tls, from_persist resolve PersistentConfig_default = Returns config /\
    tls_config (Some provider) platform_ok (cf_tuic_opt config) = Returns (Some tls) /\
    ct_verify_server_cert tls = false.
Proof. by do 2 eexists. Qed.

(** The protocols of the options are not offered. *)
Lemma tls_alpn_ignored provider ok (opts : TuicOutboundOpts) c :
  tls_config provider ok opts = Returns (Some c) -> ct_alpn_protocols c = [ascii_str "h3"].
Proof. unfold tls_config, SkipServerVerification_new. destruct provider; cbn; repeat case_match; intros; by simplify_eq. Qed.
End theorems.
