(* ===== verification/ConfigValue.v ===== *)
(** * Stored options as documents (wind/src/conf/persistent.rs: the derived
      [Serialize] and [Deserialize]; wind-core/src/types.rs)

    The value tree between the option structures and the files: what the
    derives write for every field, under its name, and what they accept.  The
    crates around them are an interface, [SerdeOps]: the text formats, the
    providers and the merge of [figment], the text of identifiers and of
    durations.  [SerdeLaws] has what those crates document about trees; that a
    configuration is read back is a theorem. *)

From stdpp Require Import base list gmap strings.
From S2P Require Import Prelude BytesCrate Types NetText TargetText Codec Config.

Abbreviation FileSystem := (gmap (list Z) (list Z)) (only parsing).

(** ** Value trees *)

(** [V_Variant] is a struct variant as it is handed to a format, which has its
    own way to write it; a character is its one-letter string. *)
Inductive Value :=
| V_String (s : str)
| V_Bool (b : bool)
| V_Num (n : Z)
| V_Empty
| V_Array (l : list Value)
| V_Dict (m : gmap (list Z) Value)
| V_Variant (name : str) (content : Value).

Abbreviation Dict := (gmap (list Z) Value).

(** ** [Serialize] *)

(** The fields of a structure, in their order. *)
Abbreviation Fields := (list (str * Value)).
Definition V_Struct (fields : Fields) : Value := V_Dict (list_to_map fields).

Definition Option_serialize {A} (f : A -> Value) (o : option A) : Value :=
  match o with Some a => f a | None => V_Empty end.
Definition password_fields (username password : str) : Fields :=
  [(ascii_str "username", V_String username); (ascii_str "password", V_String password)].
Definition AuthModeConfig_serialize (a : AuthModeConfig) : Value :=
  match a with
  | AuthModeConfig_NoAuth => V_String (ascii_str "NoAuth")
  | AuthModeConfig_Password username password =>
    V_Variant (ascii_str "Password") (V_Struct (password_fields username password))
  end.

Definition socks_fields (s : SocksOpt) : Fields :=
  [(ascii_str "listen_addr", V_String (show_socket_addr (po_listen_addr s)));
   (ascii_str "public_addr", Option_serialize (fun a => V_String (show_ip_addr a)) (po_public_addr s));
   (ascii_str "auth", AuthModeConfig_serialize (po_auth s));
   (ascii_str "skip_auth", V_Bool (po_skip_auth s));
   (ascii_str "allow_udp", V_Bool (po_allow_udp s))].

(** ** [Deserialize] *)

Definition de_str (v : Value) : option str := match v with V_String s => Some s | _ => None end.
Definition de_bool (v : Value) : option bool := match v with V_Bool b => Some b | _ => None end.
Definition de_seq {A} (f : Value -> option A) (v : Value) : option (list A) :=
  match v with V_Array l => mapM f l | _ => None end.
Definition de_parse {A} (parse : str -> option A) (v : Value) : option A := s ← de_str v; parse s.

(** A structure is read from a table, unknown keys being ignored, or from a
    sequence with a value for every field. *)
Definition struct_fields (names : list str) (v : Value) : option Dict :=
  match v with
  | V_Dict m => Some m
  | V_Array l => if (length names <=? length l)%nat then Some (list_to_map (zip names l)) else None
  | _ => None
  end.
(** There is no [serde(default)]: a missing field is an error ... *)
Definition field {A} (name : str) (f : Value -> option A) (m : Dict) : option A := v ← m !! name; f v.
(** ... unless its type is an option. *)
Definition option_field {A} (name : str) (f : Value -> option A) (m : Dict) : option (option A) :=
  match m !! name with
  | None | Some V_Empty => Some None
  | Some v => a ← f v; Some (Some a)
  end.

(** The variant of a table is its first key in the order of [BTreeMap]. *)
Fixpoint str_ltb (a b : str) : bool :=
  match a, b with
  | [], [] => false
  | [], _ => true
  | _, [] => false
  | x :: a, y :: b => (x <? y) || ((x =? y) && str_ltb a b)
  end.
Definition first_entry (m : Dict) : option (str * Value) :=
  map_fold (fun k v first =>
    match first with
    | Some (k', _) => if str_ltb k k' then Some (k, v) else first
    | None => Some (k, v)
    end) None m.

Definition password_deserialize (v : Value) : option AuthModeConfig :=
  m ← struct_fields [ascii_str "username"; ascii_str "password"] v;
  username ← field (ascii_str "username") de_str m;
  password ← field (ascii_str "password") de_str m;
  Some (AuthModeConfig_Password username password).
Definition AuthModeConfig_deserialize (v : Value) : option AuthModeConfig :=
  match v with
  | V_String s => if bool_decide (s = ascii_str "NoAuth") then Some AuthModeConfig_NoAuth else None
  | V_Dict m =>
    '(k, content) ← first_entry m;
    if bool_decide (k = ascii_str "NoAuth")
    then match content with V_Empty => Some AuthModeConfig_NoAuth | _ => None end
    else if bool_decide (k = ascii_str "Password") then password_deserialize content
    else None
  | V_Num n => if n =? 0 then Some AuthModeConfig_NoAuth else None
  | _ => None
  end.

Definition socks_names : list str :=
  ascii_str <$> ["listen_addr"%string; "public_addr"; "auth"; "skip_auth"; "allow_udp"].
Definition SocksOpt_deserialize (v : Value) : option SocksOpt :=
  m ← struct_fields socks_names v;
  listen_addr ← field (ascii_str "listen_addr") (de_parse parse_socket_addr) m;
  public_addr ← option_field (ascii_str "public_addr") (de_parse parse_ip_addr) m;
  auth ← field (ascii_str "auth") AuthModeConfig_deserialize m;
  skip_auth ← field (ascii_str "skip_auth") de_bool m;
  allow_udp ← field (ascii_str "allow_udp") de_bool m;
  Some {| po_listen_addr := listen_addr; po_public_addr := public_addr; po_auth := auth;
          po_skip_auth := skip_auth; po_allow_udp := allow_udp |}.

(** The server address has its own [Deserialize], which does not panic on a
    string (TargetText.v). *)
Definition de_target (v : Value) : option TargetAddr :=
  s ← de_str v; match TargetAddr_deserialize s with Returns (Ok a) => Some a | _ => None end.

(** ** The crates around the derives *)

(** What a provider has to read: the text of the file it found, if any, or the
    variables with the prefix. *)
Inductive ProviderData :=
| Data_Toml (text : option bytes)
| Data_Yaml (text : option bytes)
| Data_Env (vars : list (str * str)).

(** [toml_to_string] is [toml::to_string_pretty] and [yaml_to_string]
    [serde_yaml::to_string], which can fail; [figment_find] is the file a
    provider opens for a path ([figment] also looks in parent directories);
    [provide] is [None] when the text is malformed. *)
Class SerdeOps {U : UuidOps} := {
  toml_to_string : Value -> option bytes;
  yaml_to_string : Value -> option bytes;
  figment_find : FileSystem -> str -> option bytes;
  provide : ProviderData -> option Dict;
  dict_merge : Dict -> Dict -> Dict;
  uuid_show : Uuid -> str;
  uuid_read : Value -> option Uuid;
  duration_show : Z -> str;
  duration_read : Value -> option Z
}.
Arguments SerdeOps : clear implicits.
Arguments SerdeOps {U}.

(** TOML has no null, so an empty option is left out, and a struct variant is
    a table under its name. *)
Definition toml_field (toml : Value -> Value) (v : Value) : option Value :=
  match v with V_Empty => None | _ => Some (toml v) end.
Fixpoint toml_value (v : Value) : Value :=
  match v with
  | V_Array l => V_Array (toml_value <$> l)
  | V_Dict m => V_Dict (omap (toml_field toml_value) m)
  | V_Variant name content => V_Dict {[ name := toml_value content ]}
  | _ => v
  end.

(** A tree without variants, which YAML writes with a tag of its own. *)
Inductive untagged : Value -> Prop :=
| untagged_string s : untagged (V_String s)
| untagged_bool b : untagged (V_Bool b)
| untagged_num n : untagged (V_Num n)
| untagged_empty : untagged V_Empty
| untagged_array l : Forall untagged l -> untagged (V_Array l)
| untagged_dict m : map_Forall (fun _ => untagged) m -> untagged (V_Dict m).

(** The longest [Duration], in milliseconds. *)
Definition MAX_DURATION : Z := 2 ^ 64 * 1000.

(** What the crates document: no text and no variables provide nothing, a
    document is read back as the tree it was written from, an existing path
    is opened itself, a merge takes the later value except that two tables
    are merged, and identifiers and durations can be read from their text. *)
Class SerdeLaws {U : UuidOps} (S : SerdeOps) : Prop := {
  toml_missing : provide (Data_Toml None) = Some ∅;
  yaml_missing : provide (Data_Yaml None) = Some ∅;
  no_variables : provide (Data_Env []) = Some ∅;
  toml_read m text : toml_to_string (V_Dict m) = Some text ->
    provide (Data_Toml (Some text)) = Some (omap (toml_field toml_value) m);
  yaml_read m text : untagged (V_Dict m) -> yaml_to_string (V_Dict m) = Some text ->
    provide (Data_Yaml (Some text)) = Some m;
  find_existing fs path text : fs !! path = Some text -> figment_find fs path = Some text;
  merge_lookup m1 m2 key :
    dict_merge m1 m2 !! key =
    match m1 !! key, m2 !! key with
    | Some (V_Dict d1), Some (V_Dict d2) => Some (V_Dict (dict_merge d1 d2))
    | _, Some v => Some v
    | v, None => v
    end;
  uuid_text u : uuid_read (V_String (uuid_show u)) = Some u;
  duration_text d : 0 <= d < MAX_DURATION -> duration_read (V_String (duration_show d)) = Some d
}.

Section documents.
Context {U : UuidOps} {S : SerdeOps}.

Definition tuic_fields (t : TuicOpt) : Fields :=
  [(ascii_str "server_addr", V_String (TargetAddr_serialize (pt_server_addr t)));
   (ascii_str "sni", V_String (pt_sni t));
   (ascii_str "uuid", V_String (uuid_show (pt_uuid t)));
   (ascii_str "password", V_String (pt_password t));
   (ascii_str "zero_rtt_handshake", V_Bool (pt_zero_rtt_handshake t));
   (ascii_str "heartbeat", V_String (duration_show (pt_heartbeat t)));
   (ascii_str "gc_interval", V_String (duration_show (pt_gc_interval t)));
   (ascii_str "gc_lifetime", V_String (duration_show (pt_gc_lifetime t)));
   (ascii_str "skip_cert_verify", V_Bool (pt_skip_cert_verify t));
   (ascii_str "alpn", V_Array (V_String <$> pt_alpn t))].
Definition config_fields (c : PersistentConfig) : Fields :=
  [(ascii_str "socks_opt", V_Struct (socks_fields (pc_socks_opt c)));
   (ascii_str "tuic_opt", V_Struct (tuic_fields (pc_tuic_opt c)))].
Definition PersistentConfig_serialize (c : PersistentConfig) : Value := V_Struct (config_fields c).

Definition tuic_names : list str :=
  ascii_str <$> ["server_addr"%string; "sni"; "uuid"; "password"; "zero_rtt_handshake"; "heartbeat";
    "gc_interval"; "gc_lifetime"; "skip_cert_verify"; "alpn"].
Definition TuicOpt_deserialize (v : Value) : option TuicOpt :=
  m ← struct_fields tuic_names v;
  server_addr ← field (ascii_str "server_addr") de_target m;
  sni ← field (ascii_str "sni") de_str m;
  uuid ← field (ascii_str "uuid") uuid_read m;
  password ← field (ascii_str "password") de_str m;
  zero_rtt_handshake ← field (ascii_str "zero_rtt_handshake") de_bool m;
  heartbeat ← field (ascii_str "heartbeat") duration_read m;
  gc_interval ← field (ascii_str "gc_interval") duration_read m;
  gc_lifetime ← field (ascii_str "gc_lifetime") duration_read m;
  skip_cert_verify ← field (ascii_str "skip_cert_verify") de_bool m;
  alpn ← field (ascii_str "alpn") (de_seq de_str) m;
  Some {| pt_server_addr := server_addr; pt_sni := sni; pt_uuid := uuid; pt_password := password;
          pt_zero_rtt_handshake := zero_rtt_handshake; pt_heartbeat := heartbeat;
          pt_gc_interval := gc_interval; pt_gc_lifetime := gc_lifetime;
          pt_skip_cert_verify := skip_cert_verify; pt_alpn := alpn |}.
Definition PersistentConfig_deserialize (v : Value) : option PersistentConfig :=
  m ← struct_fields [ascii_str "socks_opt"; ascii_str "tuic_opt"] v;
  socks_opt ← field (ascii_str "socks_opt") SocksOpt_deserialize m;
  tuic_opt ← field (ascii_str "tuic_opt") TuicOpt_deserialize m;
  Some {| pc_socks_opt := socks_opt; pc_tuic_opt := tuic_opt |}.

(** [Figment::merge] over the providers, then [extract]. *)
Definition merge_all (ds : list Dict) : Dict := foldl dict_merge ∅ ds.
Definition figment_extract (sources : list ProviderData) : option PersistentConfig :=
  ds ← mapM provide sources; PersistentConfig_deserialize (V_Dict (merge_all ds)).
End documents.

(** ** Reading back what was written *)

Fixpoint get_field (key : str) (fields : Fields) : option Value :=
  match fields with
  | [] => None
  | (k, v) :: fields => if bool_decide (k = key) then Some v else get_field key fields
  end.

Lemma struct_lookup fields key : (list_to_map fields : Dict) !! key = get_field key fields.
Proof.
  induction fields as [|[k v] fields IH]; cbn [list_to_map get_field foldr fst snd]; [apply lookup_empty|].
  case_bool_decide as Hk; [subst k; apply lookup_insert_eq|by rewrite lookup_insert_ne].
Qed.

(** How a format changes the values of fields: strings, flags and lists of
    strings stay, an empty option may be dropped, and a mode is read back. *)
Record keeps_fields (t : Value -> option Value) (auth : AuthModeConfig) : Prop := {
  keeps_string s : t (V_String s) = Some (V_String s);
  keeps_bool b : t (V_Bool b) = Some (V_Bool b);
  keeps_strings l : t (V_Array (V_String <$> l)) = Some (V_Array (V_String <$> l));
  keeps_empty : t V_Empty = None \/ t V_Empty = Some V_Empty;
  keeps_auth : exists v, t (AuthModeConfig_serialize auth) = Some v /\ AuthModeConfig_deserialize v = Some auth
}.

Definition reads (m : Dict) (t : Value -> option Value) (fields : Fields) : Prop :=
  forall key, m !! key = get_field key fields ≫= t.

Lemma reads_struct fields : reads (list_to_map fields) Some fields.
Proof. intros key. rewrite struct_lookup. by destruct (get_field key fields). Qed.
Lemma reads_toml fields :
  reads (omap (toml_field toml_value) (list_to_map fields : Dict)) (toml_field toml_value) fields.
Proof. intros key. by rewrite lookup_omap, struct_lookup. Qed.

(** One field of a document. *)
Lemma field_reads {A} m t fields name (f : Value -> option A) v :
  reads m t fields -> get_field name fields = Some v -> field name f m = (t v ≫= f).
Proof. intros Hr Hg. unfold field. by rewrite Hr, Hg. Qed.

Lemma strings_read l : mapM de_str (V_String <$> l) = Some l.
Proof. apply mapM_fmap_Some. done. Qed.

Lemma first_entry_singleton k v : first_entry {[ k := v ]} = Some (k, v).
Proof. unfold first_entry. by rewrite map_fold_singleton. Qed.

Lemma toml_keeps auth : keeps_fields (toml_field toml_value) auth.
Proof.
  split; try done.
  - intros l. unfold toml_field. cbn [toml_value]. do 2 f_equal. rewrite <-list_fmap_compose. done.
  - by left.
  - destruct auth as [|u p]; [by eexists|].
    exists (V_Dict {[ ascii_str "Password" := toml_value (V_Struct (password_fields u p)) ]}). split; [done|].
    cbn [AuthModeConfig_deserialize]. rewrite first_entry_singleton.
    cbn [mbind option_bind]. rewrite bool_decide_eq_false_2, bool_decide_eq_true_2 by done.
    unfold password_deserialize, V_Struct. cbn [toml_value struct_fields mbind option_bind].
    erewrite 2 (field_reads _ _ _ _ _ _ (reads_toml _)) by reflexivity. done.
Qed.

Lemma untagged_keeps : keeps_fields Some AuthModeConfig_NoAuth.
Proof. split; try done; [by right|by eexists]. Qed.

(** The addresses and durations that have a text: a server that is a domain
    has no colon, no leading bracket and is not spelled like an IPv4 address,
    and an IPv6 socket address has no flow information. *)
Record config_ok {U : UuidOps} (c : PersistentConfig) : Prop := {
  ok_listen : socket_addr_ok (po_listen_addr (pc_socks_opt c));
  ok_public : from_option ip_addr_ok True (po_public_addr (pc_socks_opt c));
  ok_server : TargetAddr_ok (pt_server_addr (pc_tuic_opt c));
  ok_server_text : text_safe (pt_server_addr (pc_tuic_opt c));
  ok_heartbeat : 0 <= pt_heartbeat (pc_tuic_opt c) < MAX_DURATION;
  ok_gc_interval : 0 <= pt_gc_interval (pc_tuic_opt c) < MAX_DURATION;
  ok_gc_lifetime : 0 <= pt_gc_lifetime (pc_tuic_opt c) < MAX_DURATION
}.

Section round_trip.
Context {U : UuidOps} {S : SerdeOps} {SL : SerdeLaws S}.

(** The fields of a document, each read from the value the format kept. *)
Ltac read_field := erewrite field_reads; [|eassumption|reflexivity].

Lemma socks_roundtrip m t s :
  reads m t (socks_fields s) -> keeps_fields t (po_auth s) ->
  socket_addr_ok (po_listen_addr s) -> from_option ip_addr_ok True (po_public_addr s) ->
  SocksOpt_deserialize (V_Dict m) = Some s.
Proof.
  intros Hm [Hs Hb _ He (w&Hw&Ha)] Hl Hp. destruct s as [l p a sk al]. cbn in Hw, Ha, Hl, Hp.
  unfold SocksOpt_deserialize. cbn [struct_fields mbind option_bind].
  do 4 read_field. cbn [po_listen_addr po_auth po_skip_auth po_allow_udp].
  rewrite Hs, !Hb, Hw. cbn [mbind option_bind de_parse de_str de_bool].
  rewrite parse_show_socket_addr by done. cbn [mbind option_bind]. rewrite Ha.
  assert (option_field (ascii_str "public_addr") (de_parse parse_ip_addr) m = Some p) as ->; [|done].
  unfold option_field. rewrite Hm.
  change (get_field _ _) with (Some (Option_serialize (fun a => V_String (show_ip_addr a)) p)).
  destruct p as [p|]; cbn [mbind option_bind Option_serialize].
  - rewrite Hs. cbn [mbind option_bind de_parse de_str]. by rewrite parse_show_ip_addr.
  - by destruct He as [-> | ->].
Qed.

Lemma tuic_roundtrip m t auth o :
  reads m t (tuic_fields o) -> keeps_fields t auth ->
  TargetAddr_ok (pt_server_addr o) -> text_safe (pt_server_addr o) ->
  0 <= pt_heartbeat o < MAX_DURATION -> 0 <= pt_gc_interval o < MAX_DURATION ->
  0 <= pt_gc_lifetime o < MAX_DURATION ->
  TuicOpt_deserialize (V_Dict m) = Some o.
Proof.
  intros Hm [Hs Hb Hl _ _] Hok Ht Hh Hi Hg. unfold TuicOpt_deserialize. cbn [struct_fields mbind option_bind].
  do 10 read_field. rewrite !Hs, !Hb, Hl.
  cbn [mbind option_bind de_target de_str de_bool de_seq]. rewrite deserialize_text_safe, strings_read by done.
  rewrite uuid_text, !duration_text by done. by destruct o.
Qed.

Lemma config_roundtrip m t c :
  reads m t (config_fields c) -> keeps_fields t (po_auth (pc_socks_opt c)) ->
  (forall fields, exists d, t (V_Struct fields) = Some (V_Dict d) /\ reads d t fields) ->
  config_ok c -> PersistentConfig_deserialize (V_Dict m) = Some c.
Proof.
  intros Hm Hk Hd []. unfold PersistentConfig_deserialize. cbn [struct_fields mbind option_bind].
  do 2 read_field. destruct (Hd (socks_fields (pc_socks_opt c))) as (d1&->&H1).
  destruct (Hd (tuic_fields (pc_tuic_opt c))) as (d2&->&H2). cbn [mbind option_bind].
  erewrite socks_roundtrip, tuic_roundtrip by done. by destruct c.
Qed.

Lemma toml_roundtrip c : config_ok c ->
  PersistentConfig_deserialize (V_Dict (omap (toml_field toml_value) (list_to_map (config_fields c)))) = Some c.
Proof.
  apply (config_roundtrip _ _ _ (reads_toml _) (toml_keeps _)).
  intros fields. eexists. split; [done|apply reads_toml].
Qed.

Lemma yaml_roundtrip c : config_ok c -> po_auth (pc_socks_opt c) = AuthModeConfig_NoAuth ->
  PersistentConfig_deserialize (PersistentConfig_serialize c) = Some c.
Proof.
  intros Hok Ha. apply (config_roundtrip _ _ _ (reads_struct _)); [|..|done].
  - rewrite Ha. apply untagged_keeps.
  - intros fields. eexists. split; [done|apply reads_struct].
Qed.

Lemma untagged_struct fields : Forall (fun f => untagged f.2) fields -> untagged (V_Struct fields).
Proof.
  intros Hf. constructor. intros k v Hv%elem_of_list_to_map_2. rewrite Forall_forall in Hf. by apply (Hf (k, v)).
Qed.

Ltac untag := apply untagged_struct; repeat (apply Forall_cons; split); cbn [snd];
  [try untag; try by constructor..|by apply Forall_nil].

Lemma untagged_config c : po_auth (pc_socks_opt c) = AuthModeConfig_NoAuth ->
  untagged (PersistentConfig_serialize c).
Proof.
  intros Ha. unfold PersistentConfig_serialize, config_fields, socks_fields. rewrite Ha. untag.
  - by destruct (po_public_addr _); constructor.
  - constructor. apply Forall_fmap, Forall_true. constructor.
Qed.
End round_trip.

(** ** Merging *)
Section merging.
Context {U : UuidOps} {S : SerdeOps} {SL : SerdeLaws S}.

Lemma merge_empty_l m : dict_merge ∅ m = m.
Proof. apply map_eq. intros k. rewrite merge_lookup, lookup_empty. by destruct (m !! k). Qed.
Lemma merge_empty_r m : dict_merge m ∅ = m.
Proof. apply map_eq. intros k. rewrite merge_lookup, lookup_empty. by destruct (m !! k) as [[]|]. Qed.

(** A setting of a document: a key of one of its two tables. *)
Definition setting (section key : str) (d : Dict) : option Value :=
  match d !! section with Some (V_Dict t) => t !! key | _ => None end.

(** The document has the section as a table, if at all, and in it no table
    for the key. *)
Definition table_with_value (section key : str) (d : Dict) : Prop :=
  match d !! section with
  | None => True
  | Some (V_Dict t) => match t !! key with Some (V_Dict _) => False | _ => True end
  | Some _ => False
  end.

Lemma merge_setting section key d1 d2 :
  table_with_value section key d1 -> table_with_value section key d2 ->
  table_with_value section key (dict_merge d1 d2) /\
  setting section key (dict_merge d1 d2) = or_else (setting section key d2) (setting section key d1).
Proof.
  unfold table_with_value, setting. rewrite merge_lookup.
  destruct (d1 !! section) as [[]|], (d2 !! section) as [[]|]; try done.
  - rewrite merge_lookup. intros H1 H2. by destruct (m !! key) as [[]|], (m0 !! key) as [[]|].
  - intros _ H2. split; [done|]. by destruct (m !! key).
Qed.

Lemma settings_merged section key ds d :
  table_with_value section key d -> Forall (table_with_value section key) ds ->
  table_with_value section key (foldl dict_merge d ds) /\
  setting section key (foldl dict_merge d ds) =
  foldl (fun earlier d => or_else (setting section key d) earlier) (setting section key d) ds.
Proof.
  intros Hd Hds. revert d Hd. induction Hds as [|d' ds Hd' _ IH]; intros d Hd; [done|]. cbn [foldl].
  destruct (merge_setting section key d d') as [Ht <-]; [done..|]. by apply IH.
Qed.

(** *** Missing settings *)

Lemma field_set {A} name (f : Value -> option A) m a : field name f m = Some a -> is_Some (m !! name).
Proof. unfold field. by destruct (m !! name). Qed.

(** Every field of a structure that was read was set, options apart. *)
Ltac fields_set := repeat match goal with
  | H : mbind _ _ = Some _ |- _ => apply bind_Some in H as (?&?&?)
  | H : field _ _ _ = Some _ |- _ => apply field_set in H
  end.

Definition required_socks : list str := ascii_str <$> ["listen_addr"%string; "auth"; "skip_auth"; "allow_udp"].
Lemma socks_set t s : SocksOpt_deserialize (V_Dict t) = Some s ->
  Forall (fun key => is_Some (t !! key)) required_socks.
Proof.
  unfold SocksOpt_deserialize. cbn [struct_fields mbind option_bind]. intros H. fields_set. by repeat constructor.
Qed.
Lemma tuic_set t o : TuicOpt_deserialize (V_Dict t) = Some o ->
  Forall (fun key => is_Some (t !! key)) tuic_names.
Proof.
  unfold TuicOpt_deserialize. cbn [struct_fields mbind option_bind]. intros H. fields_set. by repeat constructor.
Qed.

(** The settings without which nothing is read. *)
Definition required (section key : str) : Prop :=
  (section = ascii_str "socks_opt" /\ key ∈ required_socks) \/
  (section = ascii_str "tuic_opt" /\ key ∈ tuic_names).

Lemma deserialize_required section key m c :
  required section key -> table_with_value section key m ->
  PersistentConfig_deserialize (V_Dict m) = Some c -> is_Some (setting section key m).
Proof.
  unfold PersistentConfig_deserialize, table_with_value, setting. cbn [struct_fields mbind option_bind].
  intros Hreq Ht (s&Hs&(o&Ho&_)%bind_Some)%bind_Some. unfold field in Hs, Ho.
  destruct Hreq as [[-> Hk]|[-> Hk]].
  - destruct (m !! ascii_str "socks_opt") as [[]|]; try done.
    apply socks_set in Hs. rewrite Forall_forall in Hs. by apply Hs.
  - destruct (m !! ascii_str "tuic_opt") as [[]|]; try done.
    apply tuic_set in Ho. rewrite Forall_forall in Ho. by apply Ho.
Qed.

(** What none of the sources sets stays unset. *)
Lemma merged_unset section key ds :
  Forall (fun d => table_with_value section key d /\ setting section key d = None) ds ->
  table_with_value section key (merge_all ds) /\ setting section key (merge_all ds) = None.
Proof.
  intros Hds. destruct (settings_merged section key ds ∅) as [Ht Hs].
  { unfold table_with_value. by rewrite lookup_empty. }
  { eapply Forall_impl; [exact Hds|naive_solver]. }
  split; [exact Ht|]. unfold merge_all. rewrite Hs. clear Hs Ht.
  replace (setting section key ∅) with (@None Value) by (unfold setting; by rewrite lookup_empty).
  induction Hds as [|d ds [_ Hd] _ IH]; [done|]. cbn [foldl]. by rewrite Hd.
Qed.
End merging.

(** ** A concrete interface: documents as the bits of a numbering *)

Fixpoint value_size (v : Value) : nat :=
  match v with
  | V_Array l => S (foldr (fun v n => value_size v + n)%nat 0%nat l)
  | V_Dict m => S (map_fold (fun _ v n => value_size v + n)%nat 0%nat m)
  | V_Variant _ c => S (value_size c)
  | _ => 0
  end.

Local Abbreviation Leaf := (str + bool + Z + unit)%type.

Fixpoint value_tree (v : Value) : gen_tree Leaf :=
  match v with
  | V_String s => GenLeaf (inl (inl (inl s)))
  | V_Bool b => GenLeaf (inl (inl (inr b)))
  | V_Num n => GenLeaf (inl (inr n))
  | V_Empty => GenLeaf (inr ())
  | V_Array l => GenNode 0 (value_tree <$> l)
  | V_Dict m => GenNode 1 (map_fold (fun k v ts => GenNode 3 [GenLeaf (inl (inl (inl k))); value_tree v] :: ts) [] m)
  | V_Variant name c => GenNode 2 [GenLeaf (inl (inl (inl name))); value_tree c]
  end.

Definition tree_entry (value : gen_tree Leaf -> Value) (t : gen_tree Leaf) : str * Value :=
  match t with
  | GenNode 3 [GenLeaf (inl (inl (inl k))); t] => (k, value t)
  | _ => ([], V_Empty)
  end.
Fixpoint tree_value (t : gen_tree Leaf) : Value :=
  match t with
  | GenLeaf (inl (inl (inl s))) => V_String s
  | GenLeaf (inl (inl (inr b))) => V_Bool b
  | GenLeaf (inl (inr n)) => V_Num n
  | GenLeaf (inr _) => V_Empty
  | GenNode 0 ts => V_Array (tree_value <$> ts)
  | GenNode 1 ts => V_Dict (list_to_map (tree_entry tree_value <$> ts))
  | GenNode 2 [GenLeaf (inl (inl (inl name))); c] => V_Variant name (tree_value c)
  | _ => V_Empty
  end.

Lemma tree_value_id v : tree_value (value_tree v) = v.
Proof.
  induction v as [v IH] using (induction_ltof1 _ value_size). unfold ltof in IH.
  destruct v as [s|b|n| |l|m|name c]; cbn [value_tree tree_value]; try done.
  - f_equal. cbn [value_size] in IH.
    induction l as [|v l IHl]; [done|]. cbn [foldr] in IH. rewrite !fmap_cons.
    f_equal; [apply IH; lia|]. apply IHl. intros w Hw. apply IH. lia.
  - f_equal. rewrite map_fold_foldr. cbn [value_size] in IH. rewrite map_fold_foldr in IH.
    rewrite <-(list_to_map_to_list m) at 2. f_equal.
    induction (map_to_list m) as [|[k v] kvs IHl]; [done|]. cbn [foldr uncurry] in IH |- *. rewrite fmap_cons.
    f_equal; [|apply IHl; intros w Hw; apply IH; lia]. cbn [tree_entry]. f_equal. apply IH. lia.
  - f_equal. apply IH. cbn. lia.
Qed.

#[export] Instance Value_eq_dec : EqDecision Value.
Proof.
  intros v w. destruct (decide (value_tree v = value_tree w)) as [H|H].
  - left. by rewrite <-(tree_value_id v), H, tree_value_id.
  - right. by intros ->.
Defined.
#[export] Instance Value_countable : Countable Value := inj_countable' value_tree tree_value tree_value_id.

Fixpoint pos_bits (p : positive) : bytes :=
  match p with xH => [] | xO p => 48 :: pos_bits p | xI p => 49 :: pos_bits p end.
Fixpoint bits_pos (b : bytes) : positive :=
  match b with [] => xH | x :: b => if x =? 48 then xO (bits_pos b) else xI (bits_pos b) end.
Lemma bits_pos_id p : bits_pos (pos_bits p) = p.
Proof. induction p as [p IH|p IH|]; cbn; by rewrite ?IH. Qed.

Definition write_bits (v : Value) : bytes := pos_bits (encode v).
Definition read_bits (text : bytes) : option Dict :=
  match decode (bits_pos text) with Some (V_Dict m) => Some m | _ => None end.
Lemma read_write_bits m : read_bits (write_bits (V_Dict m)) = Some m.
Proof. unfold read_bits, write_bits. by rewrite bits_pos_id, decode_encode. Qed.

Fixpoint value_merge (v1 v2 : Value) : Value :=
  match v1, v2 with
  | V_Dict m1, V_Dict m2 => V_Dict (union_with (fun a b => Some (value_merge a b)) m1 m2)
  | _, _ => v2
  end.

(** The variables are taken as strings under their names. *)
Definition bits_serde : SerdeOps (U:=list_uuid) := {|
  toml_to_string v := Some (write_bits (toml_value v));
  yaml_to_string v := Some (write_bits v);
  figment_find fs path := fs !! path;
  provide p :=
    match p with
    | Data_Toml None | Data_Yaml None => Some ∅
    | Data_Toml (Some text) | Data_Yaml (Some text) => read_bits text
    | Data_Env vars => Some (list_to_map (prod_map id V_String <$> vars))
    end;
  dict_merge := union_with (fun a b => Some (value_merge a b));
  uuid_show := uuid_as_bytes (UuidOps:=list_uuid);
  uuid_read v := uuid_from_bytes (UuidOps:=list_uuid) <$> de_str v;
  duration_show d := [d];
  duration_read v := match v with V_String [d] => Some d | _ => None end
|}.

Lemma bits_serde_laws : SerdeLaws bits_serde.
Proof.
  split; cbn [toml_to_string yaml_to_string figment_find provide dict_merge uuid_show uuid_read duration_show duration_read bits_serde];
    try done.
  - intros m text [= <-]. apply read_write_bits.
  - intros m text _ [= <-]. apply read_write_bits.
  - intros m1 m2 k. rewrite lookup_union_with. by destruct (m1 !! k) as [[]|], (m2 !! k) as [[]|].
  - intros u. cbn [de_str fmap option_fmap option_map]. by rewrite (uuid_from_as (UuidLaws:=list_uuid_laws)).
Qed.
