(* ===== verification/Client.v ===== *)
(** * What the TUIC client guarantees

    Theorems about Outbound.v: received datagrams reach the association they
    belong to, reassembled; the poll loop gives up after three consecutive
    heartbeat failures; local datagrams are cut into the packets they hold. *)

From stdpp Require Import base list gmap strings list_numbers.
From S2P Require Import Prelude BytesCrate Types Codec Header Cmd Addr Quinn Io.
From S2P Require Import Proto Messages Moka CoreUdp Reassembly ReassemblySpec Delivery Buffer UdpStream.
From S2P Require Import Fragmentation Outbound.

(** ** Received datagrams *)

(** A [Packet] message on an association: packet id, fragment total and id,
    address and payload. *)
Record RxMsg := {
  rx_pkt : u16;
  rx_total : u8;
  rx_id : u8;
  rx_addr : Address;
  rx_payload : bytes
}.

Definition rx_datagram {U : UuidOps} (a : u16) (m : RxMsg) : bytes :=
  message_wire (Command_Packet a (rx_pkt m) (rx_total m) (rx_id m) (len (rx_payload m)))
    (Some (rx_addr m)) ++ rx_payload m.

Definition rx_wf (m : RxMsg) : Prop :=
  is_u16 (rx_pkt m) /\ is_u8 (rx_total m) /\ 0 <= rx_id m < 255 /\ address_wf (rx_addr m) /\
  is_u16 (len (rx_payload m)).
#[export] Instance rx_wf_dec m : Decision (rx_wf m).
Proof. unfold rx_wf; apply _. Defined.

Definition rx_info (a : u16) (m : RxMsg) : FragmentInfo :=
  {| fi_assoc_id := a; fi_pkt_id := rx_pkt m; fi_frag_total := rx_total m; fi_frag_id := rx_id m;
     fi_source := None; fi_target := target_or_placeholder (rx_addr m) |}.

(** What an association receives: whole packets as they are, fragments
    through the reassembly table. *)
Fixpoint rx_spec (a : u16) (ms : list RxMsg) (s : gmap (Z * Z) PartialPacket) :
    list UdpPacket * gmap (Z * Z) PartialPacket :=
  match ms with
  | [] => ([], s)
  | m :: ms' =>
    let '(o, s1) :=
      if 1 <? rx_total m then spec_add (rx_info a m) (rx_payload m) s
      else (Some {| pkt_source := None; pkt_target := target_or_placeholder (rx_addr m);
                    pkt_payload := rx_payload m |}, s) in
    let '(ps, s2) := rx_spec a ms' s1 in
    (option_list o ++ ps, s2)
  end.

(** One message, seen from its association. *)
Definition rx_step (a : u16) (m : RxMsg) (s : gmap (Z * Z) PartialPacket) :
    option UdpPacket * gmap (Z * Z) PartialPacket :=
  if 1 <? rx_total m then spec_add (rx_info a m) (rx_payload m) s
  else (Some {| pkt_source := None; pkt_target := target_or_placeholder (rx_addr m);
                pkt_payload := rx_payload m |}, s).

(** The fragment cache has room: no message of [ms] is a fragment that would
    make more than 1000 packets incomplete at a time. *)
Definition rx_room (a : u16) (s : gmap (Z * Z) PartialPacket) (ms : list RxMsg) : Prop :=
  forall ms1 m ms2, ms = ms1 ++ m :: ms2 -> 1 < rx_total m ->
    (size ({[(a, rx_pkt m)]} ∪ dom (rx_spec a ms1 s).2) <= 1000)%nat.

Definition rx_keys (a : u16) (ms : list RxMsg) : gset (Z * Z) :=
  list_to_set ((fun m => (a, rx_pkt m)) <$> ms).

Lemma rx_step_dom a m s : dom (rx_step a m s).2 ⊆ {[(a, rx_pkt m)]} ∪ dom s.
Proof. unfold rx_step. case_match; [apply spec_add_dom|set_solver]. Qed.

Lemma rx_spec_cons a m ms s :
  (rx_spec a (m :: ms) s).2 = (rx_spec a ms (rx_step a m s).2).2.
Proof.
  cbn [rx_spec]. fold (rx_step a m s). destruct (rx_step a m s) as [o s1]. cbn [snd].
  by destruct (rx_spec a ms s1).
Qed.

Lemma rx_room_cons a s m ms : rx_room a s (m :: ms) ->
  (1 < rx_total m -> (size ({[(a, rx_pkt m)]} ∪ dom s) <= 1000)%nat) /\ rx_room a (rx_step a m s).2 ms.
Proof.
  intros H. split; [by apply (H [] m ms)|]. intros ms1 m' ms2 -> Ht.
  rewrite <-rx_spec_cons. by apply (H (m :: ms1) m' ms2).
Qed.

Lemma rx_room_app a s ms1 ms2 : rx_room a s (ms1 ++ ms2) -> rx_room a s ms1.
Proof. intros H l1 m l2 ->. rewrite <-app_assoc in H. by apply (H l1 m (l2 ++ ms2)). Qed.

Lemma rx_spec_keys a ms s : dom (rx_spec a ms s).2 ⊆ dom s ∪ rx_keys a ms.
Proof.
  revert s; induction ms as [|m ms IH]; intros s; [cbn; set_solver|].
  rewrite rx_spec_cons. etrans; [apply IH|]. pose proof (rx_step_dom a m s). unfold rx_keys in *. set_solver.
Qed.

(** Enough: there are at most 1000 packet ids. *)
Lemma rx_room_keys a s ms K : dom s ⊆ K -> rx_keys a ms ⊆ K -> (size K <= 1000)%nat -> rx_room a s ms.
Proof.
  intros Hs HK Hsz ms1 m ms2 -> _. etrans; [apply subseteq_size|exact Hsz].
  pose proof (rx_spec_keys a ms1 s). unfold rx_keys in *. rewrite fmap_app, list_to_set_app in HK. set_solver.
Qed.

Lemma rx_spec_app a ms1 ms2 s :
  (rx_spec a (ms1 ++ ms2) s).1 = (rx_spec a ms1 s).1 ++ (rx_spec a ms2 (rx_spec a ms1 s).2).1.
Proof.
  revert s; induction ms1 as [|m ms1 IH]; intros s; [done|]. cbn [app rx_spec]. fold (rx_step a m s).
  destruct (rx_step a m s) as [o s1]. specialize (IH s1).
  destruct (rx_spec a (ms1 ++ ms2) s1), (rx_spec a ms1 s1). cbn in *. by rewrite IH, app_assoc.
Qed.

Section receive.
Context {B : BytesOps} {U : UuidOps} {MO : MokaOps}.
Context (overflow_checks log_info : bool).

(** The poll loop on a sequence of datagrams while nobody takes packets from
    the associations: it goes on while no stream's channel makes it wait, and
    leaves the rest. *)
Fixpoint receive_all (ds : list (u64 * bytes)) (st : TuicOutbound) : exec (TuicOutbound * list (u64 * bytes)) :=
  match ds with
  | [] => Returns (st, [])
  | (now, d) :: ds' =>
    if poll_blocked st then Returns (st, ds)
    else exec_bind (on_datagram overflow_checks log_info now d st) (fun st' => receive_all ds' st')
  end.
End receive.

(** The stream an association id leads to. *)
Definition assoc_stream {MO : MokaOps} (a : u16) (st : TuicOutbound) : option UdpStream :=
  contents (to_udp_session st) !! a ≫= fun p => to_streams st !! p.

Section laws.
Context {B : BytesOps} {BL : BytesLaws B} {U : UuidOps} {UL : UuidLaws U}
        {MO : MokaOps} {ML : MokaLaws MO}.
Context (overflow_checks log_info : bool).
Local Abbreviation on_datagram := (on_datagram overflow_checks log_info).
Local Abbreviation receive_all := (receive_all overflow_checks log_info).

Lemma rx_command_wf a m : is_u16 a -> rx_wf m ->
  command_wf CmdType_Packet
    (Command_Packet a (rx_pkt m) (rx_total m) (rx_id m) (len (rx_payload m))).
Proof. intros Ha (?&?&?&?&?). split; [done|]. split_and!; try done. unfold is_u8. lia. Qed.

Lemma on_datagram_packet now a m st : is_u16 a -> rx_wf m ->
  on_datagram now (rx_datagram a m) st =
  Returns (deliver now a (rx_pkt m) (rx_total m) (rx_id m) (rx_payload m)
             (target_or_placeholder (rx_addr m)) st).
Proof.
  intros Ha Hm. pose proof (rx_command_wf a m Ha Hm) as Hc. destruct Hm as (?&?&Hid&Haddr&Hl).
  unfold Outbound.on_datagram, rx_datagram, message_wire. rewrite <-!app_assoc.
  unfold decode_header, decode_command, decode_address.
  rewrite (decode_some_ok header_codec) by done. cbn [exec_bind Header_new hdr_command].
  rewrite (decode_some_ok (cmd_codec _)) by done. cbn [exec_bind].
  rewrite (decode_some_ok addr_codec) by done. cbn [exec_bind].
  rewrite copy_to_bytes_le by (pose proof (len_nonneg (rx_payload m)); lia). cbn [exec_bind].
  rewrite ztake_all by lia. unfold u8_add.
  rewrite (proj2 (Z.ltb_lt _ _)) by (change (2 ^ 8) with 256; lia). by destruct log_info.
Qed.

(** Delivery through the session cache to an open stream. *)
Lemma deliver_stream now a pkt total id payload t st p u :
  contents (to_udp_session st) !! a = Some p -> to_streams st !! p = Some u ->
  let r := if 1 <? total then process_fragment now a pkt total id payload None t u
           else (Some {| pkt_source := None; pkt_target := t; pkt_payload := payload |}, u) in
  let u' := match r.1 with Some packet => (receive_packet packet r.2).2 | None => r.2 end in
  let st' := deliver now a pkt total id payload t st in
  contents (to_udp_session st') = contents (to_udp_session st) /\
  to_connection st' = to_connection st /\
  to_streams st' = <[p := u']> (to_streams st).
Proof.
  intros Hs Hu. cbv zeta. unfold deliver.
  pose proof (get_value a (to_udp_session st)) as Hv. pose proof (get_contents a (to_udp_session st)) as Hc.
  destruct (cache_get a (to_udp_session st)) as [o c]. cbn [fst snd] in Hv, Hc.
  rewrite Hs in Hv. subst o. cbn [to_set_session to_streams mbind option_bind]. rewrite Hu.
  cbn [fmap option_fmap option_map].
  destruct (if 1 <? total then _ else _) as [[packet|] u']; cbn; by rewrite Hc.
Qed.

Lemma deliver_assoc now a pkt total id payload t st u :
  assoc_stream a st = Some u ->
  let r := if 1 <? total then process_fragment now a pkt total id payload None t u
           else (Some {| pkt_source := None; pkt_target := t; pkt_payload := payload |}, u) in
  assoc_stream a (deliver now a pkt total id payload t st)
  = Some (match r.1 with Some packet => (receive_packet packet r.2).2 | None => r.2 end).
Proof.
  unfold assoc_stream. intros Ha.
  destruct (contents (to_udp_session st) !! a) as [p|] eqn:Hp; [|done]. cbn in Ha.
  destruct (deliver_stream now a pkt total id payload t st p u Hp Ha) as (->&_&->).
  rewrite Hp. cbn. by rewrite lookup_insert_eq.
Qed.

Lemma rx_step_stream now a m u :
  us_receive_open u = true -> frb_wf (us_fragment_buffer u) ->
  (1 < rx_total m -> cache_room (a, rx_pkt m) (frb_fragments (us_fragment_buffer u))) ->
  let r := if 1 <? rx_total m
           then process_fragment now a (rx_pkt m) (rx_total m) (rx_id m) (rx_payload m) None
                  (target_or_placeholder (rx_addr m)) u
           else (Some {| pkt_source := None; pkt_target := target_or_placeholder (rx_addr m);
                         pkt_payload := rx_payload m |}, u) in
  let u' := match r.1 with Some packet => (receive_packet packet r.2).2 | None => r.2 end in
  let sp := rx_step a m (frb_abs (us_fragment_buffer u)) in
  us_receive u' = us_receive u ++ option_list sp.1 /\ us_receive_open u' = true /\
  frb_wf (us_fragment_buffer u') /\ frb_abs (us_fragment_buffer u') = sp.2.
Proof.
  intros Hopen Hwf Hroom. cbv zeta. unfold rx_step. destruct (1 <? rx_total m) eqn:Ht.
  - zify_bool.
    destruct (add_fragment_refines now (rx_info a m) (rx_payload m) (us_fragment_buffer u))
      as (Hwf'&Ho&Habs); [done|by apply Hroom|cbn; lia|].
    unfold process_fragment. fold (rx_info a m).
    destruct (add_fragment now (rx_info a m) (rx_payload m) (us_fragment_buffer u)) as [o b].
    cbn [fst snd] in *. rewrite <-Ho, <-Habs. destruct o as [packet|]; cbn [fst snd option_list].
    + unfold receive_packet. cbn [us_set_buffer us_receive_open]. rewrite Hopen. done.
    + cbn. by rewrite app_nil_r.
  - cbn [fst snd]. unfold receive_packet. rewrite Hopen. done.
Qed.

(** Delivery to one stream makes the loop wait exactly if that stream's
    channel overflows. *)
Lemma deliver_blocked now a pkt total id payload t st u :
  assoc_stream a st = Some u -> poll_blocked st = false ->
  let st' := deliver now a pkt total id payload t st in
  forall u', assoc_stream a st' = Some u' -> poll_blocked st' = stream_blocked u'.
Proof.
  unfold assoc_stream. intros Ha Hb. cbv zeta. intros u'.
  destruct (contents (to_udp_session st) !! a) as [p|] eqn:Hp; [|done]. cbn in Ha.
  destruct (deliver_stream now a pkt total id payload t st p u Hp Ha) as (->&_&Hs).
  rewrite Hp. cbn. unfold poll_blocked in *. rewrite Hs, lookup_insert_eq. intros [= <-].
  set (v := match _ with Some _ => _ | None => _ end).
  apply bool_decide_eq_false in Hb. destruct (stream_blocked v) eqn:Hv.
  - apply bool_decide_eq_true. exists p, v. by rewrite lookup_insert_eq.
  - apply bool_decide_eq_false. intros (q&w&[[<- <-]|[_ Hq]]%lookup_insert_Some&Hw); [congruence|].
    apply Hb. by exists q, w.
Qed.

Lemma receive_all_refines (a : u16) (ms : list RxMsg) (nows : list u64) (st : TuicOutbound) (u : UdpStream) :
  is_u16 a -> Forall rx_wf ms -> length nows = length ms ->
  assoc_stream a st = Some u -> us_receive_open u = true -> poll_blocked st = false ->
  frb_wf (us_fragment_buffer u) -> rx_room a (frb_abs (us_fragment_buffer u)) ms ->
  exists n st' u',
    receive_all (zip nows (rx_datagram a <$> ms)) st = Returns (st', drop n (zip nows (rx_datagram a <$> ms))) /\
    assoc_stream a st' = Some u' /\
    us_receive u' = us_receive u ++ (rx_spec a (take n ms) (frb_abs (us_fragment_buffer u))).1 /\
    ((n >= length ms)%nat \/ CHANNEL_CAPACITY < len (us_receive u')).
Proof.
  intros Ha Hms. revert nows st u.
  induction Hms as [|m ms Hm Hms IH]; intros [|now nows] st u Hlen Hst Hopen Hbl Hwf Hroom; [|done..|].
  { exists 0%nat, st, u. cbn. rewrite app_nil_r. split_and!; [done..|left; lia]. }
  cbn [fmap list_fmap zip zip_with Client.receive_all]. rewrite Hbl, on_datagram_packet by done.
  cbn [exec_bind].
  pose proof (deliver_assoc now a (rx_pkt m) (rx_total m) (rx_id m) (rx_payload m)
    (target_or_placeholder (rx_addr m)) st u Hst) as Hst'.
  pose proof (deliver_blocked now a (rx_pkt m) (rx_total m) (rx_id m) (rx_payload m)
    (target_or_placeholder (rx_addr m)) st u Hst Hbl) as Hbl'.
  apply rx_room_cons in Hroom as [Hroom Hrest].
  destruct (rx_step_stream now a m u Hopen Hwf) as (Hr&Ho&Hwf'&Habs); [by intros; apply frb_room_now, Hroom|].
  cbv zeta in Hst', Hr, Ho, Hwf', Habs, Hbl'. set (u1 := match _ with Some _ => _ | None => _ end) in *.
  set (st1 := deliver _ _ _ _ _ _ _ _) in *. specialize (Hbl' u1 Hst').
  assert (forall n, (rx_spec a (take (S n) (m :: ms)) (frb_abs (us_fragment_buffer u))).1 =
    option_list (rx_step a m (frb_abs (us_fragment_buffer u))).1 ++
    (rx_spec a (take n ms) (frb_abs (us_fragment_buffer u1))).1) as Hspec.
  { intros n. rewrite Habs. cbn [take rx_spec]. fold (rx_step a m (frb_abs (us_fragment_buffer u))).
    destruct (rx_step a m _) as [o s1]. cbn [fst snd]. by destruct (rx_spec a (take n ms) s1). }
  destruct (poll_blocked st1) eqn:Hb1.
  - exists 1%nat, st1, u1. split_and!; [|done| |].
    + destruct ms as [|m2 ms]; destruct nows as [|now2 nows]; try done.
      cbn [fmap list_fmap zip zip_with Client.receive_all drop]. by rewrite Hb1.
    + rewrite Hspec, Hr. cbn. by rewrite app_nil_r.
    + right. unfold stream_blocked in Hbl'. symmetry in Hbl'.
      apply andb_true_iff in Hbl' as [_ ?%Z.ltb_lt]. done.
  - destruct (IH nows st1 u1) as (n&st'&u'&Hrun&?&Hrx&Hor); [by injection Hlen|done..|by rewrite Habs|].
    exists (S n), st', u'. change (drop (S n) (?x :: ?l)) with (drop n l). rewrite Hrun.
    split_and!; [done..| |].
    + by rewrite Hrx, Hr, Hspec, <-app_assoc.
    + destruct Hor; [left; cbn; lia|by right].
Qed.

(** C16: receiving refines its specification.  An open association that is
    sent any sequence of well-formed [Packet] datagrams, whole or fragmented,
    queues for the local socket exactly the packets the specification delivers
    for the datagrams the poll loop takes, in that order, and none of them
    makes it panic; the loop takes all of them, or stops because the packets
    have overflowed the association's channel of 128.  The condition is the
    capacity of the fragment cache: no more than 1000 packets are incomplete at
    a time. *)
Theorem client_receives (a : u16) (ms : list RxMsg) (nows : list u64) (st : TuicOutbound) (u : UdpStream) :
  is_u16 a -> Forall rx_wf ms -> length nows = length ms ->
  assoc_stream a st = Some u -> us_receive_open u = true -> poll_blocked st = false ->
  frb_wf (us_fragment_buffer u) -> rx_room a (frb_abs (us_fragment_buffer u)) ms ->
  let arrived := zip nows (rx_datagram a <$> ms) in
  exists n st' u',
    receive_all arrived st = Returns (st', drop n arrived) /\
    assoc_stream a st' = Some u' /\
    us_receive u' = us_receive u ++ (rx_spec a (take n ms) (frb_abs (us_fragment_buffer u))).1 /\
    ((n >= length ms)%nat \/ CHANNEL_CAPACITY < len (us_receive u')).
Proof. intros. by apply receive_all_refines. Qed.

(** ** Hostile datagrams *)

(** A packet message whose announced size or fragment id the client does not
    survive. *)
Definition deadly (data : bytes) : Prop :=
  exists a pkt total id size addr rest,
    data = message_wire (Command_Packet a pkt total id size) (Some addr) ++ rest /\
    command_wf CmdType_Packet (Command_Packet a pkt total id size) /\ address_wf addr /\
    (len rest < size \/ (overflow_checks = true /\ log_info = true /\ id = 255)).

Lemma on_datagram_deadly now a pkt total id size addr rest st :
  command_wf CmdType_Packet (Command_Packet a pkt total id size) -> address_wf addr ->
  on_datagram now (message_wire (Command_Packet a pkt total id size) (Some addr) ++ rest) st = Panics <->
  len rest < size \/ (overflow_checks = true /\ log_info = true /\ id = 255).
Proof.
  intros Hc Ha. unfold Outbound.on_datagram, message_wire. rewrite <-!app_assoc.
  unfold decode_header, decode_command, decode_address.
  rewrite (decode_some_ok header_codec) by done. cbn [exec_bind Header_new hdr_command].
  rewrite (decode_some_ok (cmd_codec _)) by done. cbn [exec_bind].
  rewrite (decode_some_ok addr_codec) by done. cbn [exec_bind].
  destruct Hc as (_&_&_&_&Hid&Hsz). unfold is_u8, is_u16 in *. change (2 ^ 8) with 256 in Hid.
  destruct (Z.lt_ge_cases (len rest) size).
  - rewrite copy_to_bytes_short by done. cbn. tauto.
  - rewrite copy_to_bytes_le by lia. cbn [exec_bind]. unfold u8_add. change (2 ^ 8) with 256.
    destruct log_info, overflow_checks, (Z.ltb_spec (id + 1) 256); cbn;
      (split; [|intros [?|(?&?&?)]]); try done; try lia; intros _; right; split_and!; (done || lia).
Qed.

(** C17: exactly which datagrams kill the client.  A datagram makes the poll
    task panic if and only if it is a well-formed [Packet] message that
    announces more payload than follows it, or (where overflow is checked and
    the log line is enabled) has fragment id 255. *)
Theorem client_panics_iff now data st :
  bytes_ok data -> on_datagram now data st = Panics <-> deadly data.
Proof.
  intros Hok. split.
  - intros Hp. unfold Outbound.on_datagram, decode_header, decode_command, decode_address in Hp.
    destruct (decode_some_cases header_codec data (incomplete "header" "datagram") Hok)
      as [(?&?&Hd)|(h&r1&Hd&[Hv Hh]&->&Hok1)]; rewrite Hd in Hp; [done|]. cbn [exec_bind] in Hp.
    destruct (decode_some_cases (cmd_codec (hdr_command h)) r1 (incomplete "command" "datagram") Hok1)
      as [(?&?&Hd2)|(c&r2&Hd2&Hc&->&Hok2)]; rewrite Hd2 in Hp; [done|]. cbn [exec_bind] in Hp.
    destruct c as [| |a pkt total id size| |]; try done.
    destruct (decode_some_cases addr_codec r2 (incomplete "address" "UDP packet") Hok2)
      as [(?&?&Hd3)|(addr&rest&Hd3&Ha&->&_)]; rewrite Hd3 in Hp; [done|].
    destruct Hc as [Hty Hc]. cbn in Hty.
    exists a, pkt, total, id, size, addr, rest. split_and!; [|done|done|].
    + unfold message_wire. rewrite <-!app_assoc. do 1 f_equal. unfold header_wire. cbn.
      by rewrite <-Hty, Hv.
    + apply (on_datagram_deadly now a pkt total id size addr rest st); [done..|].
      unfold Outbound.on_datagram, message_wire. rewrite <-!app_assoc.
      unfold decode_header, decode_command, decode_address.
      rewrite (decode_some_ok header_codec) by done. cbn [exec_bind Header_new hdr_command].
      rewrite (decode_some_ok (cmd_codec _)) by done. cbn [exec_bind].
      rewrite (decode_some_ok addr_codec) by done. done.
  - intros (a&pkt&total&id&size&addr&rest&->&Hc&Ha&Hbad). by apply on_datagram_deadly.
Qed.
End laws.

(** ** Witnesses *)

(** A client with one association, id 7. *)
Definition demo_assoc_client : TuicOutbound (MO:=bounded_map) :=
  {| to_connection := []; to_udp_assoc_counter := 8;
     to_udp_session := cache_insert (MokaOps:=bounded_map) 7 0%nat (cache_new (MokaOps:=bounded_map) 65535);
     to_streams := {[0%nat := UdpStream_new (MO:=bounded_map) 7]} |}.

Definition demo_msgs : list RxMsg :=
  [{| rx_pkt := 3; rx_total := 2; rx_id := 1; rx_addr := Address_None; rx_payload := [3; 4] |};
   {| rx_pkt := 4; rx_total := 1; rx_id := 0; rx_addr := Address_IPv4 [10; 0; 0; 2] 53;
      rx_payload := [9] |};
   {| rx_pkt := 3; rx_total := 2; rx_id := 0; rx_addr := Address_IPv4 [10; 0; 0; 1] 53;
      rx_payload := [1; 2] |}].

Lemma client_receives_witness :
  let arrived := zip [1; 2; 3] (rx_datagram (U:=list_uuid) 7 <$> demo_msgs) in
  exists n st' u',
    receive_all (B:=list_bytes) (U:=list_uuid) true true arrived demo_assoc_client = Returns (st', drop n arrived) /\
    assoc_stream 7 st' = Some u' /\
    us_receive u' = (rx_spec 7 (take n demo_msgs) ∅).1 /\
    ((n >= 3)%nat \/ CHANNEL_CAPACITY < len (us_receive u')).
Proof.
  apply (client_receives (BL:=list_bytes_laws) (UL:=list_uuid_laws) (ML:=bounded_map_laws)
    true true 7 demo_msgs [1; 2; 3] demo_assoc_client (UdpStream_new (MO:=bounded_map) 7));
    [by_compute|by_compute|reflexivity|reflexivity|reflexivity|by_compute| |].
  - apply (frb_new_wf (ML:=bounded_map_laws)).
  - apply (rx_room_keys _ _ _ (rx_keys 7 demo_msgs)); by_compute.
Defined.

Lemma client_panics_iff_witness :
  on_datagram (B:=list_bytes) (U:=list_uuid) (MO:=bounded_map) false false 0
    (message_wire (U:=list_uuid) (Command_Packet 1 2 1 0 500) (Some Address_None))
    {| to_connection := []; to_udp_assoc_counter := 0;
       to_udp_session := cache_new (MokaOps:=bounded_map) 65535; to_streams := ∅ |} = Panics.
Proof.
  apply (client_panics_iff (BL:=list_bytes_laws) (UL:=list_uuid_laws)); [by_compute|].
  exists 1, 2, 1, 0, 500, Address_None, []. split_and!; [reflexivity|by_compute|by_compute|left; by_compute].
Defined.

(** ** Heartbeats *)

(** The heartbeat datagram of SPEC.md section 5.5, and its outcomes. *)
Definition heartbeat_entry (ok : bool) : QuicCall * bool := (SendDatagram [VER; 4], ok).

(** Consecutive failures at the end of a sequence of outcomes. *)
Definition failures (oks : list bool) : Z :=
  foldl (fun k (ok : bool) => if ok then 0 else k + 1) 0 oks.

Definition poll_outbound {MO : MokaOps} (s : PollState) : TuicOutbound :=
  match s with Polling _ st | Stopped _ st => st end.

Section heartbeat.
Context {B : BytesOps} {BL : BytesLaws B} {U : UuidOps} {UL : UuidLaws U}
        {Q : QuinnOps} {MO : MokaOps}.
Context (overflow_checks log_info : bool).

Lemma failures_snoc oks ok : failures (oks ++ [ok]) = if ok then 0 else failures oks + 1.
Proof. unfold failures. by rewrite foldl_app. Qed.

Lemma failures_nonneg oks : 0 <= failures oks.
Proof.
  induction oks as [|ok oks IH] using rev_ind; [done|]. rewrite failures_snoc. destruct ok; lia.
Qed.

Lemma heartbeat_step_eq k st : 0 <= k ->
  heartbeat_step k st =
  let ok := q_send_datagram (to_connection st) [VER; 4] in
  let st' := to_set_connection (to_connection st ++ [heartbeat_entry ok]) st in
  Returns (if ok then Polling 0 st'
           else if 3 <=? k + 1 then Stopped (Err (Report_Msg "Too many heartbeat failures")) st'
           else Polling (k + 1) st').
Proof.
  intros Hk. unfold heartbeat_step, send_heartbeat.
  rewrite (encode_into_ok header_codec) by done. cbn [app header_wire Header_new hdr_version hdr_command
    u8_from_CmdType]. unfold m_bind, send_datagram, q_call, guard_unit, heartbeat_entry.
  destruct (q_send_datagram _ _); cbn; [|done].
  destruct (Z.ltb_spec 0 k); [done|]. by replace k with 0 by lia.
Qed.

Lemma deliver_connection now a pkt total id payload t (st : TuicOutbound) :
  to_connection (deliver now a pkt total id payload t st) = to_connection st.
Proof. unfold deliver. by repeat (case_match; simplify_eq/=). Qed.

Lemma on_datagram_connection now data (st st' : TuicOutbound) :
  on_datagram overflow_checks log_info now data st = Returns st' ->
  to_connection st' = to_connection st.
Proof.
  unfold on_datagram, exec_bind. intros H.
  repeat (case_match; simplify_eq/=); try done; apply deliver_connection.
Qed.

(** What the loop remembers of the outcomes so far. *)
Definition poll_inv (c0 : QHist) (cancelled : Prop) (s : PollState) : Prop :=
  exists oks, to_connection (poll_outbound s) = c0 ++ (heartbeat_entry <$> oks) /\
  match s with
  | Polling k _ => k = failures oks /\ forall p, p `prefix_of` oks -> failures p < 3
  | Stopped (Ok _) _ => cancelled /\ forall p, p `prefix_of` oks -> failures p < 3
  | Stopped (Err _) _ => failures oks = 3 /\
      forall p, p `prefix_of` oks -> p <> oks -> failures p < 3
  end.

Lemma prefix_snoc_cases {A} (p l : list A) x :
  p `prefix_of` l ++ [x] -> p `prefix_of` l \/ p = l ++ [x].
Proof.
  intros [k Hk]. destruct k as [|y k _] using rev_ind; [right; by rewrite app_nil_r in Hk|left].
  rewrite app_assoc in Hk. apply app_inj_tail in Hk as [-> _]. by exists k.
Qed.

Lemma poll_step_inv c0 (C : Prop) s ev s' :
  (ev = Poll_Cancelled -> C) -> poll_inv c0 C s ->
  poll_step overflow_checks log_info s ev = Returns s' -> poll_inv c0 C s'.
Proof.
  intros HC (oks&Hc&Hs). destruct s as [k st|r st]; cbn; [|intros [= <-]; by exists oks].
  destruct Hs as [-> Hp]. cbn in Hc. destruct ev as [| | |now data|].
  - intros [= <-]. exists oks. auto.
  - rewrite heartbeat_step_eq by apply failures_nonneg. cbv zeta. rewrite Hc.
    set (ok := q_send_datagram _ _). intros [= <-]. exists (oks ++ [ok]).
    pose proof (Hp oks ltac:(done)) as Hlt.
    split; [by (destruct ok; [|case_match]; cbn; rewrite fmap_app, app_assoc)|].
    assert (forall p, p `prefix_of` oks ++ [ok] -> p <> oks ++ [ok] -> failures p < 3) as Hpre.
    { intros p [?|?]%prefix_snoc_cases ?; [auto|done]. }
    pose proof (failures_snoc oks ok) as Hsn. destruct ok.
    + rewrite Hsn. split; [done|]. intros p [?| ->]%prefix_snoc_cases; [auto|lia].
    + destruct (Z.leb_spec 3 (failures oks + 1)); [split; [lia|done]|].
      rewrite Hsn. split; [done|]. intros p [?| ->]%prefix_snoc_cases; [auto|lia].
  - intros [= <-]. by exists oks.
  - destruct (on_datagram _ _ now data st) as [st1|] eqn:Hd; cbn; [|done].
    intros [= <-]. exists oks. cbn. by rewrite (on_datagram_connection now data st st1 Hd).
  - intros [= <-]. by exists oks.
Qed.

(** C18: the heartbeat policy.  Whatever happens on the connection, the only
    thing the poll loop sends is heartbeats; it is running as long as no three
    in a row have failed, it returns an error exactly at the third consecutive
    failure, and it returns [Ok] only when cancelled. *)
Theorem poll_heartbeats st evs s' :
  poll_run overflow_checks log_info (Polling 0 st) evs = Returns s' ->
  exists oks, to_connection (poll_outbound s') = to_connection st ++ (heartbeat_entry <$> oks) /\
  match s' with
  | Polling k _ => k = failures oks /\ forall p, p `prefix_of` oks -> failures p < 3
  | Stopped (Ok _) _ => Poll_Cancelled ∈ evs /\ forall p, p `prefix_of` oks -> failures p < 3
  | Stopped (Err _) _ => failures oks = 3 /\
      forall p, p `prefix_of` oks -> p <> oks -> failures p < 3
  end.
Proof.
  enough (forall s, poll_inv (to_connection st) (Poll_Cancelled ∈ evs) s ->
    forall evs', evs' ⊆ evs -> poll_run overflow_checks log_info s evs' = Returns s' ->
    poll_inv (to_connection st) (Poll_Cancelled ∈ evs) s') as H.
  { intros Hr. apply (H (Polling 0 st)) with (evs' := evs); [|done|done].
    exists []. cbn. rewrite app_nil_r. split_and!; [done..|]. intros p ->%prefix_nil_inv. done. }
  intros s Hs evs'. revert s Hs; induction evs' as [|ev evs' IH]; intros s Hs Hsub; cbn.
  { by intros [= <-]. }
  destruct (poll_step _ _ s ev) as [s1|] eqn:Hstep; [|done]. cbn. apply IH; [|set_solver].
  eapply poll_step_inv; [|done..]. intros ->. apply Hsub. left.
Qed.
End heartbeat.

(** A transport that refuses every datagram. *)
Definition deaf : QuinnOps := {|
  q_open_uni _ := None; q_open_bi _ := None; q_write_chunk _ _ _ := false;
  q_write_all_chunks _ _ _ := false; q_send_datagram _ _ := false;
  q_max_datagram_size _ := None; q_export_keying_material := toy_ekm
|}.

Definition demo_idle : TuicOutbound (MO:=bounded_map) :=
  {| to_connection := []; to_udp_assoc_counter := 0;
     to_udp_session := cache_new (MokaOps:=bounded_map) 65535; to_streams := ∅ |}.

Lemma poll_heartbeats_witness : exists s' : PollState (MO:=bounded_map),
  poll_run (B:=list_bytes) (U:=list_uuid) (Q:=deaf) true true (Polling 0 demo_idle)
    [Poll_Heartbeat; Poll_Uni; Poll_Heartbeat; Poll_Heartbeat; Poll_Heartbeat] = Returns s' /\
  exists oks, to_connection (poll_outbound s') = heartbeat_entry <$> oks /\ failures oks = 3.
Proof.
  eexists. split; [vm_compute; reflexivity|].
  destruct (poll_heartbeats (BL:=list_bytes_laws) (UL:=list_uuid_laws) (Q:=deaf) (MO:=bounded_map)
    true true demo_idle [Poll_Heartbeat; Poll_Uni; Poll_Heartbeat; Poll_Heartbeat; Poll_Heartbeat]
    _ ltac:(vm_compute; reflexivity)) as (oks&Hc&Hf&_). by exists oks.
Defined.

(** ** Datagrams from the local socket *)

Section local.
Context (buf : bytes) (meta : RecvMeta).

Lemma slice_in a b : 0 <= a <= b -> b <= len buf -> slice a b buf = Returns (ztake (b - a) (zdrop a buf)).
Proof.
  intros. unfold slice. by rewrite (proj2 (Z.leb_le a b)), (proj2 (Z.leb_le b _)) by lia.
Qed.

(** The [i]-th segment of a coalesced datagram. *)
Definition segment (i : Z) : bytes :=
  ztake (Z.min (i * rm_stride meta + rm_stride meta) (rm_len meta) - i * rm_stride meta)
    (zdrop (i * rm_stride meta) buf).

Lemma segment_chunk i : 0 < rm_stride meta -> 0 <= i -> i * rm_stride meta <= rm_len meta ->
  rm_len meta <= len buf ->
  segment i = chunk (ztake (rm_len meta) buf) (rm_stride meta) (rm_stride meta) i.
Proof.
  intros Hs Hi Hin Hl. unfold segment, chunk. rewrite frag_off_step by lia.
  replace (frag_off (rm_stride meta) (rm_stride meta) i) with (i * rm_stride meta)
    by (unfold frag_off; destruct (Z.eqb_spec i 0); lia).
  replace (if i =? 0 then rm_stride meta else rm_stride meta) with (rm_stride meta) by by case_match.
  unfold ztake, zdrop. rewrite skipn_firstn_comm, take_take. f_equal. lia.
Qed.

Lemma gro_loop_segments n i : 0 < rm_stride meta -> rm_len meta <= len buf -> 0 <= i ->
  (i + Z.of_nat n - 1) * rm_stride meta <= rm_len meta \/ n = 0%nat ->
  gro_loop buf (rm_len meta) (rm_stride meta) n i = Returns (segment <$> seqZ i (Z.of_nat n)).
Proof.
  intros Hs Hl. revert i; induction n as [|n IH]; intros i Hi Hin; [done|].
  destruct Hin as [Hin|]; [|done]. cbn [gro_loop].
  assert (0 <= i * rm_stride meta <= rm_len meta) by (rewrite Nat2Z.inj_succ in Hin; nia).
  rewrite slice_in by lia. cbn [exec_bind].
  rewrite IH; [|lia|].
  2: { left. replace (i + 1 + Z.of_nat n - 1) with (i + Z.of_nat (S n) - 1) by lia. done. }
  rewrite Nat2Z.inj_succ, (seqZ_cons i), Z.pred_succ by lia. done.
Qed.

Lemma local_payloads_ok : 0 <= rm_len meta <= len buf -> 0 <= rm_stride meta ->
  exists ps, local_payloads buf meta = Returns ps /\ concat ps = ztake (rm_len meta) buf /\
    (is_gro meta = true -> Forall (fun p => len p <= rm_stride meta) ps /\
       len ps = div_ceil (rm_len meta) (rm_stride meta)) /\
    (is_gro meta = false -> ps = [ztake (rm_len meta) buf]).
Proof.
  intros Hl Hs. unfold local_payloads. destruct (is_gro meta) eqn:Hg.
  2: { rewrite slice_in by lia. rewrite Z.sub_0_r. eexists. split; [done|].
       cbn. by rewrite app_nil_r. }
  unfold is_gro in Hg. apply andb_true_iff in Hg as [?%Z.ltb_lt ?%Z.ltb_lt].
  destruct (div_ceil_bounds (rm_len meta) (rm_stride meta)) as (?&?&?); [lia..|].
  set (n := div_ceil _ _) in *.
  rewrite gro_loop_segments by (try lia; left; rewrite Z2Nat.id by lia; nia).
  rewrite Z2Nat.id by lia. eexists. split_and!; [done| |intros _|done].
  - rewrite (list_fmap_ext _ (chunk (ztake (rm_len meta) buf) (rm_stride meta) (rm_stride meta))).
    2: { intros k i [? ?]%lookup_seqZ. apply segment_chunk; nia. }
    rewrite <-(Z2Nat.id n), chunks_concat by lia. apply ztake_all.
    rewrite len_ztake, Z2Nat.id by lia. unfold frag_off.
    destruct (Z.eqb_spec n 0); nia.
  - split.
    + apply Forall_fmap, Forall_forall. intros i Hi%elem_of_seqZ. cbn. unfold segment, len, ztake.
      rewrite length_take. lia.
    + unfold len. rewrite length_fmap, length_seqZ. lia.
Qed.
End local.

(** C25: local datagrams are neither lost nor mangled.  What the local socket
    delivered, coalesced or not, is queued as packets whose payloads
    concatenate to exactly the bytes received; coalesced datagrams are cut
    into the announced number of segments, none longer than the stride. *)
Theorem local_packets_cover buf meta :
  0 <= rm_len meta <= len buf -> 0 <= rm_stride meta ->
  exists ps, local_packets buf meta = Returns ps /\
    concat (pkt_payload <$> ps) = ztake (rm_len meta) buf /\
    Forall (fun p => pkt_target p = local_target meta /\ pkt_source p = None) ps /\
    (is_gro meta = true ->
       Forall (fun p => len (pkt_payload p) <= rm_stride meta) ps /\
       len ps = div_ceil (rm_len meta) (rm_stride meta)) /\
    (is_gro meta = false -> len ps = 1).
Proof.
  intros Hl Hs. destruct (local_payloads_ok buf meta Hl Hs) as (ps&Hp&Hc&Hg&Hn).
  unfold local_packets. rewrite Hp. cbn [exec_bind]. eexists. split; [done|].
  rewrite <-list_fmap_compose. split_and!.
  - by rewrite (list_fmap_ext _ id), list_fmap_id by done.
  - by apply Forall_fmap, Forall_true.
  - intros [? Hlen]%Hg. split; [by apply Forall_fmap|]. rewrite <-Hlen. unfold len.
    by rewrite length_fmap.
  - intros ->%Hn. done.
Qed.

(** A domain destination is lost.  Packets a client addresses to a
    domain name are sent to the client's own socket address; an address given
    as an IP is kept. *)
Lemma domain_destination_lost buf meta ps d port :
  local_packets buf meta = Returns ps ->
  (rm_destination meta = Some (TargetAddr_Domain d port) ->
   Forall (fun p => pkt_target p = TargetAddr_from_SocketAddr (rm_addr meta)) ps) /\
  (forall t, rm_destination meta = Some t -> (forall d' p', t <> TargetAddr_Domain d' p') ->
   Forall (fun p => pkt_target p = t) ps).
Proof.
  unfold local_packets. destruct (local_payloads buf meta) as [l|]; [|done]. intros [= <-].
  split; [intros Hd|intros t Hd Ht]; apply Forall_fmap, Forall_true; intros x; cbn;
    unfold local_target; rewrite Hd; [done|]. destruct t; [by destruct (Ht domain port0)|done..].
Qed.

Definition demo_gro : RecvMeta :=
  {| rm_addr := SocketAddr_V4 [127; 0; 0; 1] 5000; rm_len := 7; rm_stride := 3; rm_ecn := None;
     rm_dst_ip := None; rm_destination := Some (TargetAddr_Domain [119; 46; 105; 111] 53) |}.

Lemma local_packets_cover_witness :
  exists ps, local_packets [1; 2; 3; 4; 5; 6; 7; 8; 9] demo_gro = Returns ps /\
    concat (pkt_payload <$> ps) = [1; 2; 3; 4; 5; 6; 7] /\ len ps = 3.
Proof.
  destruct (local_packets_cover [1; 2; 3; 4; 5; 6; 7; 8; 9] demo_gro) as (ps&H1&H2&_&H3&_);
    [by_compute..|]. exists ps. split_and!; [done|done|]. by apply H3.
Defined.

Lemma domain_destination_lost_witness :
  exists ps, local_packets [1; 2; 3; 4; 5; 6; 7; 8; 9] demo_gro = Returns ps /\
    Forall (fun p => pkt_target p = TargetAddr_IPv4 [127; 0; 0; 1] 5000) ps.
Proof.
  eexists. split; [vm_compute; reflexivity|].
  apply (proj1 (domain_destination_lost [1; 2; 3; 4; 5; 6; 7; 8; 9] demo_gro _
    [119; 46; 105; 111] 53 eq_refl) eq_refl).
Defined.

