(* ===== verification/Traffic.v ===== *)
(** * What the connection carries

    Which datagrams and streams the client's operations put on the connection:
    a [Packet] datagram belongs to an association, and only [send_packet] on
    the association's stream sends one. *)

From stdpp Require Import base list gmap strings list_numbers.
From S2P Require Import Prelude BytesCrate Types Codec Header Cmd Addr Quinn Io.
From S2P Require Import Proto Messages Moka CoreUdp Reassembly ReassemblySpec Delivery Buffer UdpStream.
From S2P Require Import Fragmentation Outbound Client.

(** The association a datagram names. *)
Definition assoc_of {B : BytesOps} {U : UuidOps} (data : bytes) : option u16 :=
  match decode_header "datagram" data with
  | Returns (Ok header, buf) =>
    match decode_command (hdr_command header) "datagram" buf with
    | Returns (Ok (Command_Packet assoc_id _ _ _ _), _) => Some assoc_id
    | _ => None
    end
  | _ => None
  end.

Section calls.
Context {B : BytesOps} {U : UuidOps}.

Definition not_datagram (c : QuicCall) : Prop := match c with SendDatagram _ => False | _ => True end.

(** A call for an association, and one that is not for it. *)
Definition packet_of (id : u16) (c : QuicCall) : Prop :=
  match c with SendDatagram d => assoc_of d = Some id | _ => False end.
Definition not_packet_of (id : u16) (c : QuicCall) : Prop :=
  match c with SendDatagram d => assoc_of d <> Some id | _ => True end.

(** The calls between two histories. *)
Definition added (P : QuicCall -> Prop) (h h' : QHist) : Prop :=
  exists ext, h' = h ++ ext /\ Forall (fun e => P e.1) ext.

Lemma added_refl P h : added P h h.
Proof. exists []. by rewrite app_nil_r. Qed.

Lemma added_trans P h1 h2 h3 : added P h1 h2 -> added P h2 h3 -> added P h1 h3.
Proof.
  intros (e1&->&H1) (e2&->&H2). exists (e1 ++ e2). rewrite app_assoc. split; [done|]. by apply Forall_app.
Qed.

Lemma added_mono (P P' : QuicCall -> Prop) h h' : (forall c, P c -> P' c) -> added P h h' -> added P' h h'.
Proof. intros HP (e&->&He). exists e. split; [done|]. eapply Forall_impl; [exact He|]. intros x. apply HP. Qed.
End calls.

(** ** Operations on the connection alone *)
Section connection.
Context {B : BytesOps} {BL : BytesLaws B} {U : UuidOps} {UL : UuidLaws U} {Q : QuinnOps}.

Definition adds {A} (P : QuicCall -> Prop) (m : M QHist Report A) : Prop :=
  forall h r h', m h = Returns (r, h') -> added P h h'.

Lemma adds_bind {A C} P (m : M QHist Report A) (k : A -> M QHist Report C) :
  adds P m -> (forall a, adds P (k a)) -> adds P (m_bind m k).
Proof.
  intros Hm Hk h r h'. unfold m_bind. destruct (m h) as [[[a|e] h1]|] eqn:He; [|intros [= <- <-]; by eapply Hm|done].
  intros H%Hk. eapply added_trans; [by eapply Hm|done].
Qed.

Lemma adds_ret {A} P (a : A) : adds P (m_ret a).
Proof. intros h r h' [= <- <-]. apply added_refl. Qed.
Lemma adds_throw {A} P e : adds P (m_throw (A:=A) e).
Proof. intros h r h' [= <- <-]. apply added_refl. Qed.
Lemma adds_encode P m buf : adds P (encode_into m buf).
Proof.
  intros h r h'. unfold encode_into, m_bind, m_local, m_from, m_ret.
  destruct (m buf) as [[[[]|e] b]|]; cbn; intros [= <- <-]; apply added_refl.
Qed.
Lemma adds_call {A} (P : QuicCall -> Prop) c (ans : QHist -> option A) : P c -> adds P (q_call c ans).
Proof.
  intros Hc h r h'. unfold q_call. destruct (ans h); intros [= <- <-]; eexists; (split; [done|]); by constructor.
Qed.
Lemma adds_open_bi : adds not_datagram open_bi.
Proof. by apply adds_call. Qed.
Lemma adds_open_uni : adds not_datagram open_uni.
Proof. by apply adds_call. Qed.
Lemma adds_write_chunk s c : adds not_datagram (write_chunk s c).
Proof. by apply adds_call. Qed.

Create HintDb adds.
#[local] Hint Resolve adds_ret adds_throw adds_encode adds_open_bi adds_open_uni adds_write_chunk : adds.
Local Ltac adds := repeat (apply adds_bind; [auto with adds|intros ?]); auto with adds.

Lemma adds_open_tcp t script : adds not_datagram (open_tcp t script).
Proof. unfold open_tcp. adds. repeat case_match; auto with adds. Qed.

Lemma adds_drop_udp id : adds not_datagram (drop_udp id).
Proof. unfold drop_udp. adds. Qed.

Lemma adds_send_auth u s : adds not_datagram (send_auth u s).
Proof. unfold send_auth. apply adds_bind; [case_match; auto with adds|intros ?]. cbv zeta. adds. Qed.
End connection.

(** ** Sending on a stream *)
Section stream.
Context {B : BytesOps} {BL : BytesLaws B} {U : UuidOps} {UL : UuidLaws U} {Q : QuinnOps} {MO : MokaOps}.
Context (overflow_checks : bool).

Definition packet_prefix (id pkt : u16) (total fid : u8) (size : u16) : bytes :=
  header_wire (Header_new CmdType_Packet) ++ command_wire (Command_Packet id pkt total fid size).

Lemma assoc_of_packet id pkt total fid size rest :
  is_u16 id -> is_u16 pkt -> is_u8 total -> is_u8 fid -> is_u16 size ->
  assoc_of (packet_prefix id pkt total fid size ++ rest) = Some id.
Proof.
  intros. assert (command_wf CmdType_Packet (Command_Packet id pkt total fid size)) as Hc by by split.
  unfold assoc_of, packet_prefix, decode_header, decode_command. rewrite <-app_assoc.
  rewrite (decode_some_ok header_codec) by done. cbn [Header_new hdr_command].
  by rewrite (decode_some_ok (cmd_codec _)) by done.
Qed.

Context (id : u16) (Hid : is_u16 id) (P : QuicCall -> Prop).

(** The operation stays on the stream's association, and all it adds to the
    connection satisfies [P]. *)
Definition tx {A} (Post : A -> Prop) (m : M (UdpStream * QHist) Report A) : Prop :=
  forall u h r u' h', us_assoc_id u = id -> is_u16 (us_next_pkt_id u) -> m (u, h) = Returns (r, (u', h')) ->
    us_assoc_id u' = id /\ is_u16 (us_next_pkt_id u') /\ (forall a, r = Ok a -> Post a) /\
    added P h h'.

Lemma tx_bind {A C} (Post : A -> Prop) (Post' : C -> Prop) m (k : A -> M (UdpStream * QHist) Report C) :
  tx Post m -> (forall a, Post a -> tx Post' (k a)) -> tx Post' (m_bind m k).
Proof.
  intros Hm Hk u h r u' h' Hu Hn. unfold m_bind.
  destruct (m (u, h)) as [[[a|e] [u1 h1]]|] eqn:He; [| |done];
    destruct (Hm _ _ _ _ _ Hu Hn He) as (Hu1&Hn1&Hp&Ha).
  - intros (?&?&?&?)%(Hk a (Hp a eq_refl)); [|done..]. split_and!; [done..|by eapply added_trans].
  - intros [= <- <- <-]. by split_and!.
Qed.

Lemma tx_weaken {A} (Post Post' : A -> Prop) m : (forall a, Post a -> Post' a) -> tx Post m -> tx Post' m.
Proof. intros HP Hm u h r u' h' Hu Hn He. destruct (Hm _ _ _ _ _ Hu Hn He) as (?&?&Hp&?). split_and!; eauto. Qed.

Lemma tx_ret {A} (Post : A -> Prop) a : Post a -> tx Post (m_ret a).
Proof. intros Ha u h r u' h' Hu Hn [= <- <- <-]. split_and!; [done..|by intros ? [= <-]|apply added_refl]. Qed.
Lemma tx_throw {A} (Post : A -> Prop) e : tx Post (m_throw e).
Proof. intros u h r u' h' Hu Hn [= <- <- <-]. split_and!; [done..|apply added_refl]. Qed.
Lemma tx_lift {A} (m : exec A) : tx (fun a => m = Returns a) (m_lift m).
Proof.
  intros u h r u' h' Hu Hn. unfold m_lift. destruct m; [|done]. intros [= <- <- <-].
  split_and!; [done..|by intros ? [= <-]|apply added_refl].
Qed.
Lemma tx_get : tx (fun s => us_assoc_id s.1 = id) m_get.
Proof. intros u h r u' h' Hu Hn [= <- <- <-]. split_and!; [done..|by intros ? [= <-]|apply added_refl]. Qed.
Lemma tx_load : tx is_u16 next_pkt_id_load.
Proof. intros u h r u' h' Hu Hn [= <- <- <-]. split_and!; [done..|by intros ? [= <-]|apply added_refl]. Qed.
Lemma tx_fetch_add : tx is_u16 next_pkt_id_fetch_add.
Proof.
  intros u h r u' h' Hu Hn [= <- <- <-]. split_and!; [done| |by intros ? [= <-]|apply added_refl].
  cbn. unfold is_u16, as_u16. apply Z.mod_pos_bound. lia.
Qed.
Lemma tx_from {A} (Post : A -> Prop) f m : tx Post m -> tx Post (m_from f m).
Proof.
  intros Hm u h r u' h' Hu Hn. unfold m_from. destruct (m (u, h)) as [[r1 [u1 h1]]|] eqn:He; [|done].
  intros [= <- <- <-]. destruct (Hm _ _ _ _ _ Hu Hn He) as (?&?&Hp&?). split_and!; [done..| |done].
  destruct r1; [|done]. intros ? [= <-]. by apply Hp.
Qed.

(** A connection operation, with what its result satisfies. *)
Lemma tx_conn {A} (Post : A -> Prop) (m : M QHist Report A) :
  adds P m -> (forall h a h', m h = Returns (Ok a, h') -> Post a) -> tx Post (on_conn m).
Proof.
  intros Hm Hp u h r u' h' Hu Hn. unfold on_conn. cbn. destruct (m h) as [[r1 h1]|] eqn:He; [|done].
  intros [= <- <- <-]. split_and!; [done..| |by eapply Hm]. intros a ->. by eapply Hp.
Qed.

Lemma tx_header : tx (fun b => b = header_wire (Header_new CmdType_Packet))
  (on_conn (encode_into (HeaderCodec_encode (Header_new CmdType_Packet)) [])).
Proof.
  apply tx_conn; [apply adds_encode|]. intros h a h'. unfold encode_into, m_bind, m_local, m_from, m_ret.
  rewrite (fc_encode (FrameCodec:=header_codec)) by done. by intros [= <-].
Qed.

Lemma tx_command c buf : command_wf CmdType_Packet c ->
  tx (fun b => b = buf ++ command_wire c) (on_conn (encode_into (CmdCodec_encode CmdType_Packet c) buf)).
Proof.
  intros Hc. apply tx_conn; [apply adds_encode|]. intros h a h'. unfold encode_into, m_bind, m_local, m_from, m_ret.
  rewrite (fc_encode (FrameCodec:=cmd_codec _)) by done. by intros [= <-].
Qed.

Lemma tx_address a buf : tx (fun b => AddressCodec_encode a buf = Returns (Ok (), b))
  (on_conn (encode_into (AddressCodec_encode a) buf)).
Proof.
  apply tx_conn; [apply adds_encode|]. intros h b h'. unfold encode_into, m_bind, m_local, m_from, m_ret.
  destruct (AddressCodec_encode a buf) as [[[[]|e] d]|] eqn:He; cbn; intros Heq; by simplify_eq.
Qed.

Lemma tx_send data : P (SendDatagram data) -> tx (fun _ => True) (on_conn (send_datagram data)).
Proof. intros Hd. apply tx_conn; [by apply adds_call|done]. Qed.

(** What [P] has to allow for a packet to [target]: its datagrams, the first
    with the address and the others without. *)
Definition allows (target : TargetAddr) : Prop :=
  forall pkt total fid a payload buf, is_u16 pkt -> is_u8 total -> is_u8 fid ->
    a = Address_from_TargetAddr target \/ a = Address_None ->
    AddressCodec_encode a (packet_prefix id pkt total fid (as_u16 (len payload))) = Returns (Ok (), buf) ->
    P (SendDatagram (buf ++ payload)).

Lemma tx_fragments packet pkt total f1 f2 n i off :
  allows (pkt_target packet) -> is_u16 pkt -> is_u8 total ->
  tx (fun _ => True) (send_fragments overflow_checks packet id pkt total f1 f2 n i off).
Proof.
  intros HP Hp Ht. revert i off; induction n as [|n IH]; intros i off; cbn [send_fragments]; cbv zeta; [by apply tx_ret|].
  assert (is_u8 (as_u8 i)) as Hi by (unfold is_u8, as_u8; apply Z.mod_pos_bound; lia).
  eapply tx_bind; [apply tx_lift|intros remaining _]. eapply tx_bind; [apply tx_lift|intros frag _].
  eapply tx_bind; [apply tx_header|intros b1 ->].
  eapply tx_bind; [apply tx_command|intros b2 ->].
  { split; [done|]. split_and!; try done. unfold is_u16, as_u16; apply Z.mod_pos_bound; lia. }
  eapply (tx_bind (fun b => P (SendDatagram (b ++ frag)))).
  { case_match; (eapply tx_weaken; [|apply tx_address]); intros b; (eapply HP; [done..|]); [by left|by right]. }
  intros b3 Hb. eapply tx_bind; [by apply tx_from, tx_send|intros ? _; apply IH].
Qed.

Lemma adds_send_udp pkt target payload : allows target -> is_u16 pkt ->
  adds P (send_udp id pkt target payload true).
Proof.
  intros HP Hp h r h'. unfold send_udp.
  assert (is_u16 (as_u16 (len payload))) as Hs by (unfold is_u16, as_u16; apply Z.mod_pos_bound; lia).
  rewrite (encode_into_ok header_codec), (encode_into_ok (cmd_codec _)) by (done || by split).
  revert h r h'. change (adds P (m_bind (encode_into (AddressCodec_encode (Address_from_TargetAddr target))
    (packet_prefix id pkt 1 0 (as_u16 (len payload)))) (fun buf => send_datagram (buf ++ payload) ;;! m_ret ()))).
  intros h r h'. unfold m_bind at 1, encode_into. unfold m_bind at 1, m_local, m_from.
  destruct (AddressCodec_encode _ _) as [[[[]|e] d]|] eqn:He; cbn [result_map_err snd m_ret];
    [|intros [= <- <-]; apply added_refl|done].
  apply adds_bind; [|intros; apply adds_ret]. apply adds_call. eapply (HP pkt 1 0); [done|done|done|by left|exact He].
Qed.

(** Everything [send_packet] does to the connection. *)
Lemma tx_send_packet packet : allows (pkt_target packet) -> tx (fun _ => True) (send_packet overflow_checks packet).
Proof.
  intros HP. unfold send_packet. cbv zeta.
  eapply (tx_bind (fun _ => True)); [repeat case_match; by (apply tx_ret || apply tx_throw)|intros _ _].
  assert (tx (fun _ => True) max_datagram_or_default) as Hmax.
  { unfold max_datagram_or_default. eapply (tx_bind (fun _ => True)); [|intros; by apply tx_ret].
    apply tx_conn; [|done]. intros h r h' [= <- <-]. apply added_refl. }
  eapply tx_bind; [apply Hmax|intros mds _]. eapply tx_bind; [apply tx_lift|intros limit _]. case_match.
  - eapply tx_bind; [apply tx_load|intros pkt Hp]. eapply tx_bind; [apply tx_get|intros st ->].
    eapply (tx_bind (fun _ => True)); [|intros _ _; eapply tx_bind; [apply tx_fetch_add|intros; by apply tx_ret]].
    apply tx_conn; [by apply adds_send_udp|done].
  - unfold send_fragmented_packet. cbv zeta. eapply tx_bind; [apply Hmax|intros m _].
    eapply (tx_bind (fun _ => True)).
    { case_match; [by apply tx_ret|]. eapply tx_bind; [apply tx_lift|intros; by apply tx_ret]. }
    intros c _. case_match; [apply tx_throw|]. eapply tx_bind; [apply tx_fetch_add|intros pkt Hp].
    eapply tx_bind; [apply tx_get|intros st ->]. apply tx_fragments; [done..|].
    unfold is_u8, as_u8. apply Z.mod_pos_bound. lia.
Qed.
End stream.

(** [send_packet] sends packets of its association only. *)
Section own_packets.
Context {B : BytesOps} {BL : BytesLaws B} {U : UuidOps} {UL : UuidLaws U} {Q : QuinnOps}.

Lemma address_encode_appends a dst r dst' :
  AddressCodec_encode a dst = Returns (r, dst') -> exists w, dst' = dst ++ w.
Proof.
  unfold AddressCodec_encode. m_unfold.
  destruct a as [|d p|ip p|ip p]; cbn; [|destruct (255 <? len d)|..]; cbn; intros Heq; simplify_eq;
    rewrite ?reserve_id, ?put_u16_app, ?put_slice_app, ?put_u8_app, <-?app_assoc;
    (by eexists) || (exists []; by rewrite app_nil_r).
Qed.

Lemma allows_own id target : is_u16 id -> allows id (packet_of id) target.
Proof.
  intros Hid pkt total fid a payload buf Hp Ht Hf _ [w ->]%address_encode_appends. unfold packet_of.
  rewrite <-app_assoc. apply assoc_of_packet; try done. unfold is_u16, as_u16. apply Z.mod_pos_bound. lia.
Qed.
End own_packets.
