(* ===== verification/SocksProps.v ===== *)
(** * What the SOCKS5 UDP socket guarantees

    Parsing against the wire format of RFC 1928 section 7, and the path of a
    datagram from the local application to the tunnel's queue. *)

From stdpp Require Import base list gmap strings.
From S2P Require Import Prelude BytesCrate Types Codec Quinn Io Moka CoreUdp SocksUdp.
From S2P Require Import UdpStream Outbound Fragmentation Client.

(** ** Lossy decoding *)

Lemma utf8_lossy_id s : utf8_valid s = true -> utf8_lossy s = s.
Proof.
  revert s. fix IH 1. intros [|b1 r1]; [done|]. cbn.
  destruct (in_range 0 127 b1); [by intros ->%IH|]. destruct r1 as [|b2 r2]; [done|].
  destruct (in_range 194 223 b1).
  { intros [-> ->%IH]%andb_true_iff. done. }
  destruct r2 as [|b3 r3]; [done|]. destruct (in_range 224 239 b1).
  { intros [[-> ->]%andb_true_iff ->%IH]%andb_true_iff. done. }
  destruct r3 as [|b4 r4]; [done|].
  intros [[[[-> ->]%andb_true_iff ->]%andb_true_iff ->]%andb_true_iff ->%IH]%andb_true_iff. done.
Qed.

Lemma utf8_valid_replacement t : utf8_valid (REPLACEMENT ++ t) = utf8_valid t.
Proof. done. Qed.

Lemma utf8_lossy_valid s : utf8_valid (utf8_lossy s) = true.
Proof.
  induction s as [[|b1 r1] IH] using list_len_ind; [done|]. cbn [utf8_lossy].
  destruct (in_range 0 127 b1) eqn:H0; [cbn [utf8_valid]; rewrite H0; apply IH; cbn; lia|].
  destruct (in_range 194 223 b1) eqn:H2.
  { destruct r1 as [|b2 r2]; [done|].
    destruct (utf8_cont b2) eqn:Hb2; [|rewrite utf8_valid_replacement; apply IH; cbn; lia].
    cbn [utf8_valid]. rewrite H0, H2, Hb2. apply IH; cbn; lia. }
  destruct (in_range 224 239 b1) eqn:H3.
  { destruct r1 as [|b2 r2]; [done|].
    destruct (utf8_second3 b1 b2) eqn:Hb2; [|rewrite utf8_valid_replacement; apply IH; cbn; lia].
    destruct r2 as [|b3 r3]; [done|].
    destruct (utf8_cont b3) eqn:Hb3; [|rewrite utf8_valid_replacement; apply IH; cbn; lia].
    cbn [utf8_valid]. rewrite H0, H2, H3, Hb2, Hb3. apply IH; cbn; lia. }
  destruct (in_range 240 244 b1) eqn:H4; [|rewrite utf8_valid_replacement; apply IH; cbn; lia].
  destruct r1 as [|b2 r2]; [done|].
  destruct (utf8_second4 b1 b2) eqn:Hb2; [|rewrite utf8_valid_replacement; apply IH; cbn; lia].
  destruct r2 as [|b3 r3]; [done|].
  destruct (utf8_cont b3) eqn:Hb3; [|rewrite utf8_valid_replacement; apply IH; cbn; lia].
  destruct r3 as [|b4 r4]; [done|].
  destruct (utf8_cont b4) eqn:Hb4; [|rewrite utf8_valid_replacement; apply IH; cbn; lia].
  cbn [utf8_valid]. rewrite H0, H2, H3, H4, Hb2, Hb3, Hb4. apply IH; cbn; lia.
Qed.

(** Valid strings are bytes. *)
Lemma in_range_u8 lo hi b : 0 <= lo -> hi <= 255 -> in_range lo hi b = true -> is_u8 b.
Proof.
  unfold in_range, is_u8. intros ?? [?%Z.leb_le ?%Z.leb_le]%andb_true_iff.
  change (2 ^ 8) with 256. lia.
Qed.

Lemma utf8_cont_u8 b : utf8_cont b = true -> is_u8 b.
Proof. by apply in_range_u8. Qed.
Lemma utf8_second3_u8 a b : utf8_second3 a b = true -> is_u8 b.
Proof. unfold utf8_second3. repeat case_match; by apply in_range_u8. Qed.
Lemma utf8_second4_u8 a b : utf8_second4 a b = true -> is_u8 b.
Proof. unfold utf8_second4. repeat case_match; by apply in_range_u8. Qed.

Lemma utf8_valid_bytes s : utf8_valid s = true -> bytes_ok s.
Proof.
  revert s. fix IH 1. intros [|b1 r1]; [constructor|]. cbn.
  destruct (in_range 0 127 b1) eqn:H0.
  { intros Hr. constructor; [by eapply (in_range_u8 0 127)|by apply IH]. }
  destruct r1 as [|b2 r2]; [done|]. destruct (in_range 194 223 b1) eqn:H2.
  { intros [H Hr]%andb_true_iff. constructor; [by eapply (in_range_u8 194 223)|].
    constructor; [by apply utf8_cont_u8|by apply IH]. }
  destruct r2 as [|b3 r3]; [done|]. destruct (in_range 224 239 b1) eqn:H3.
  { intros [[Hb2 Hb3]%andb_true_iff Hr]%andb_true_iff.
    constructor; [by eapply (in_range_u8 224 239)|].
    constructor; [by eapply utf8_second3_u8|]. constructor; [by apply utf8_cont_u8|by apply IH]. }
  destruct r3 as [|b4 r4]; [done|].
  intros [[[[Hb1 Hb2]%andb_true_iff Hb3]%andb_true_iff Hb4]%andb_true_iff Hr]%andb_true_iff.
  constructor; [by eapply (in_range_u8 240 244)|]. constructor; [by eapply utf8_second4_u8|].
  do 2 (constructor; [by apply utf8_cont_u8|]). by apply IH.
Qed.

Lemma utf8_lossy_ok s : str_ok (utf8_lossy s).
Proof. split; [apply utf8_valid_bytes|]; apply utf8_lossy_valid. Qed.

(** ** Parsing *)

(** The address field of RFC 1928, for a domain given as raw bytes. *)
Inductive SocksRaw :=
| Raw_V4 (ip : bytes) (port : u16)
| Raw_V6 (ip : bytes) (port : u16)
| Raw_Domain (raw : bytes) (port : u16).

Definition raw_wire (a : SocksRaw) : bytes :=
  match a with
  | Raw_V4 ip p => 1 :: ip ++ [be_hi p; be_lo p]
  | Raw_V6 ip p => 4 :: ip ++ [be_hi p; be_lo p]
  | Raw_Domain d p => 3 :: len d :: d ++ [be_hi p; be_lo p]
  end.

Definition raw_wf (a : SocksRaw) : Prop :=
  match a with
  | Raw_V4 ip p => ipv4_ok ip /\ is_u16 p
  | Raw_V6 ip p => ipv6_ok ip /\ is_u16 p
  | Raw_Domain d p => bytes_ok d /\ len d <= 255 /\ is_u16 p
  end.
#[export] Instance raw_wf_dec a : Decision (raw_wf a).
Proof. destruct a; cbn; apply _. Defined.

Definition raw_addr (a : SocksRaw) : SocksTargetAddr :=
  match a with
  | Raw_V4 ip p => Socks_Ip (SocketAddr_V4 ip p)
  | Raw_V6 ip p => Socks_Ip (SocketAddr_V6 ip p 0 0)
  | Raw_Domain d p => Socks_Domain (utf8_lossy d) p
  end.

Definition socks_datagram (frag : u8) (a : SocksRaw) (payload : bytes) : bytes :=
  [0; 0; frag] ++ raw_wire a ++ payload.

Lemma be_at_app l h b r i : i = len l -> be_at i (l ++ h :: b :: r) = Returns (of_be h b).
Proof.
  intros Hi. unfold be_at. rewrite index_app by done. cbn [exec_bind].
  change (l ++ h :: b :: r) with (l ++ [h] ++ b :: r). rewrite app_assoc.
  rewrite index_app; [done|]. rewrite len_app. change (len [h]) with 1. lia.
Qed.

Lemma be_at_port l p r i : is_u16 p -> i = len l -> be_at i (l ++ be_hi p :: be_lo p :: r) = Returns p.
Proof. intros Hp Hi. rewrite be_at_app by done. by rewrite of_be_split. Qed.

Lemma parse_target_raw frag a payload : raw_wf a ->
  parse_target (default 0 (head (raw_wire a))) (socks_datagram frag a payload)
  = Returns (Ok (raw_addr a, 3 + len (raw_wire a))).
Proof.
  intros Hwf. unfold parse_target, socks_datagram. pose proof (len_nonneg payload).
  destruct a as [ip p|ip p|d p]; cbn [raw_wire raw_addr head default from_option Z.eqb Pos.eqb id].
  - destruct Hwf as [[Hl _] Hp]. destruct ip as [|a [|b [|c [|d [|z l]]]]]; try done.
    2: { autorewrite with wind in Hl. pose proof (len_nonneg l). lia. }
    autorewrite with wind. rewrite (proj2 (Z.ltb_ge _ _)) by lia.
    cbn [app]. change (index _ _) with (Returns (A:=Z) a) at 1. cbn [exec_bind].
    change (index _ _) with (Returns (A:=Z) b) at 1. cbn [exec_bind].
    change (index _ _) with (Returns (A:=Z) c) at 1. cbn [exec_bind].
    change (index _ _) with (Returns (A:=Z) d) at 1. cbn [exec_bind].
    rewrite (be_at_port [0; 0; frag; 1; a; b; c; d] p payload) by done. done.
  - destruct Hwf as [[Hl _] Hp].
    autorewrite with wind. rewrite (proj2 (Z.ltb_ge _ _)) by lia.
    replace ([0; 0; frag] ++ (4 :: ip ++ [be_hi p; be_lo p]) ++ payload)
      with ([0; 0; frag; 4] ++ ip ++ be_hi p :: be_lo p :: payload) by (cbn; by rewrite <-app_assoc).
    rewrite slice_app by (done || (rewrite Hl; done)). cbn [exec_bind]. rewrite app_assoc.
    rewrite be_at_port by (done || (rewrite len_app, Hl; done)). cbn [exec_bind].
    do 3 f_equal. rewrite Hl. done.
  - destruct Hwf as (_&Hl&Hp). pose proof (len_nonneg d).
    autorewrite with wind.
    rewrite (proj2 (Z.ltb_ge _ _)) by lia.
    replace ([0; 0; frag] ++ (3 :: len d :: d ++ [be_hi p; be_lo p]) ++ payload)
      with ([0; 0; frag; 3; len d] ++ d ++ be_hi p :: be_lo p :: payload) by (cbn; by rewrite <-app_assoc).
    change (index 4 _) with (Returns (A:=Z) (len d)). cbn [exec_bind]. cbv zeta.
    rewrite (proj2 (Z.ltb_ge _ _)) by lia.
    rewrite slice_app by done. cbn [exec_bind]. rewrite app_assoc.
    rewrite be_at_port by (done || (rewrite len_app; done)). cbn [exec_bind].
    do 3 f_equal. lia.
Qed.

Lemma parse_raw frag a payload : raw_wf a ->
  parse_udp_request_sync (socks_datagram frag a payload) = Returns (Ok (frag, raw_addr a, payload)).
Proof.
  intros Hwf. pose proof (parse_target_raw frag a payload Hwf) as Ht.
  assert (exists t r, raw_wire a = t :: r) as (t&r&Hw) by (destruct a; cbn; eauto).
  unfold parse_udp_request_sync, socks_datagram in *. rewrite Hw in *. cbn [head default from_option] in Ht.
  pose proof (len_nonneg r). pose proof (len_nonneg payload).
  rewrite (proj2 (Z.ltb_ge _ _)) by (autorewrite with wind; lia).
  cbn [app] in *.
  change (index 0 _) with (Returns (A:=Z) 0). change (index 1 _) with (Returns (A:=Z) 0).
  cbn [exec_bind Z.eqb negb orb].
  change (index 2 _) with (Returns (A:=Z) frag). change (index 3 _) with (Returns (A:=Z) t).
  cbn [exec_bind]. unfold id in Ht. rewrite Ht. cbn [exec_bind].
  replace (0 :: 0 :: frag :: t :: r ++ payload) with ((0 :: 0 :: frag :: t :: r) ++ payload ++ [])
    by (by rewrite app_nil_r).
  rewrite slice_app; [done|autorewrite with wind; lia|autorewrite with wind; lia].
Qed.

(** What the parser can do with a packet. *)
Lemma parse_cases data : bytes_ok data ->
  (exists e, parse_udp_request_sync data = Returns (Err e)) \/
  (exists frag a payload, raw_wf a /\ data = socks_datagram frag a payload).
Proof.
  intros Hok. unfold parse_udp_request_sync. destruct (Z.ltb_spec (len data) 4) as [|Hlen]; [by left; eexists|].
  destruct data as [|r0 [|r1 [|frag [|t rest]]]]; try (by rewrite ?len_cons, ?len_nil in Hlen; lia). clear Hlen.
  change (index 0 _) with (Returns (A:=Z) r0). change (index 1 _) with (Returns (A:=Z) r1).
  change (index 2 _) with (Returns (A:=Z) frag). change (index 3 _) with (Returns (A:=Z) t).
  cbn [exec_bind].
  destruct (Z.eqb_spec r0 0) as [->|]; [|by left; eexists].
  destruct (Z.eqb_spec r1 0) as [->|]; [|by left; eexists]. cbn [negb orb].
  rewrite !bytes_ok_cons in Hok. destruct Hok as (_&_&_&_&Hok).
  assert (forall n, 0 <= n -> n + 2 <= len rest -> exists ip p payload,
    rest = ip ++ be_hi p :: be_lo p :: payload /\ len ip = n /\ bytes_ok ip /\ is_u16 p) as Hsplit.
  { intros n Hn Hl. exists (ztake n rest), (u16_of (zdrop n rest)), (zdrop 2 (zdrop n rest)).
    destruct (u16_of_split (zdrop n rest)) as [Hp Hz]; [rewrite len_zdrop; lia|auto with wind|].
    split_and!; [|apply len_ztake; lia|auto with wind|done]. by rewrite <-Hz, ztake_zdrop. }
  unfold parse_target.
  destruct (Z.eqb_spec t 1) as [->|]; [|destruct (Z.eqb_spec t 3) as [->|];
    [|destruct (Z.eqb_spec t 4) as [->|]; [|by left; eexists]]].
  - destruct (Z.ltb_spec (len (0 :: 0 :: frag :: 1 :: rest)) (4 + 6)) as [|Hl]; [by left; eexists|right].
    autorewrite with wind in Hl. destruct (Hsplit 4) as (ip&p&payload&->&?&?&?); [lia..|].
    exists frag, (Raw_V4 ip p), payload. split; [done|]. unfold socks_datagram. cbn.
    by rewrite <-app_assoc.
  - destruct rest as [|dl rest]; [by left; eexists|].
    destruct (Z.ltb_spec (len (0 :: 0 :: frag :: 3 :: dl :: rest)) (4 + 1)) as [|_]; [by left; eexists|].
    change (index 4 _) with (Returns (A:=Z) dl). cbn [exec_bind]. cbv zeta.
    destruct (Z.ltb_spec (len (0 :: 0 :: frag :: 3 :: dl :: rest)) (4 + 1 + dl + 2)) as [|Hl];
      [by left; eexists|right].
    autorewrite with wind in Hl. apply bytes_ok_cons in Hok as [[Hn Hn'] Hok].
    change (2 ^ 8) with 256 in Hn'.
    destruct (u16_of_split (zdrop dl rest)) as [Hp Hz]; [rewrite len_zdrop; lia|auto with wind|].
    exists frag, (Raw_Domain (ztake dl rest) (u16_of (zdrop dl rest))), (zdrop 2 (zdrop dl rest)).
    unfold socks_datagram. cbn [raw_wf raw_wire]. rewrite len_ztake by lia.
    split; [split_and!; [auto with wind|lia|done]|]. cbn. rewrite <-app_assoc. cbn.
    by rewrite <-Hz, ztake_zdrop.
  - destruct (Z.ltb_spec (len (0 :: 0 :: frag :: 4 :: rest)) (4 + 18)) as [|Hl]; [by left; eexists|right].
    autorewrite with wind in Hl. destruct (Hsplit 16) as (ip&p&payload&->&?&?&?); [lia..|].
    exists frag, (Raw_V6 ip p), payload. split; [done|]. unfold socks_datagram. cbn.
    by rewrite <-app_assoc.
Qed.

(** C21: the SOCKS5 UDP parser and RFC 1928 agree.  Every request with an
    IPv4, IPv6 or domain address is parsed to that address and its payload; on
    any other bytes the parser reports an error; it never panics, and the
    address it yields is always well formed. *)
Theorem parse_udp_request_correct :
  (forall frag a payload, raw_wf a ->
     parse_udp_request_sync (socks_datagram frag a payload)
     = Returns (Ok (frag, raw_addr a, payload))) /\
  (forall data, bytes_ok data ->
     no_panic (parse_udp_request_sync data) /\
     forall frag t payload, parse_udp_request_sync data = Returns (Ok (frag, t, payload)) ->
       exists a, raw_wf a /\ data = socks_datagram frag a payload /\ t = raw_addr a /\
         TargetAddr_ok (convert_target_addr t)).
Proof.
  split; [apply parse_raw|]. intros data Hok. unfold no_panic.
  destruct (parse_cases data Hok) as [(e&He)|(frag&a&payload&Hwf&->)].
  - rewrite He. split; [done|]. intros; simplify_eq.
  - rewrite parse_raw by done. split; [done|]. intros ??? [= <- <- <-]. exists a.
    split_and!; try done. destruct a as [ip p|ip p|d p]; cbn in *; try tauto.
    split; [apply utf8_lossy_ok|tauto].
Qed.

Lemma parse_udp_request_correct_witness :
  parse_udp_request_sync (socks_datagram 0 (Raw_V4 [10; 0; 0; 1] 53) [7; 7])
  = Returns (Ok (0, Socks_Ip (SocketAddr_V4 [10; 0; 0; 1] 53), [7; 7])).
Proof. apply (proj1 parse_udp_request_correct 0 (Raw_V4 [10; 0; 0; 1] 53) [7; 7]). by_compute. Defined.

(** The two conversions of a SOCKS address are the same function. *)
Lemma convert_addr_agree a : convert_target_addr a = convert_addr a.
Proof. by destruct a as [[]|]. Qed.

(** ** From the application to the tunnel *)

(** The call of [socket.recv] in outbound.rs: one buffer, one metadata. *)
Definition rv_init (source : SocketAddr) (buf : bytes) : RecvState :=
  {| rv_source := source; rv_bufs := [buf]; rv_meta := [RecvMeta_default]; rv_processed := 0 |}.

(** What the reading task sees of its completion. *)
Definition recv_event (r : poll (result usize string)) (s : RecvState) : option LocalEvent :=
  match r with
  | Pending => None
  | Ready (Err e) => Some (Local_Recv (Err (io_error e)))
  | Ready (Ok n) =>
    Some (Local_Recv (Ok (n, default [] (head (rv_bufs s)), default RecvMeta_default (head (rv_meta s)))))
  end.

(** The socket reports one datagram of [n] bytes: no coalescing, any ECN bits
    and any destination address. *)
Definition lone (m : QuinnRecvMeta) (n : usize) : Prop :=
  qm_len m = n /\ (qm_stride m = 0 \/ n <= qm_stride m).
#[export] Instance lone_dec m n : Decision (lone m n).
Proof. unfold lone; apply _. Defined.

Definition lone_meta (client : SocketAddr) (n : usize) : QuinnRecvMeta :=
  {| qm_addr := client; qm_len := n; qm_stride := n; qm_ecn := None; qm_dst_ip := None |}.

(** What one nonempty datagram becomes: its destination, if it names one, and
    the bytes handed on. *)
Inductive strips (d : bytes) : option SocksRaw -> bytes -> Prop :=
| strips_socks frag a payload :
    raw_wf a -> d = socks_datagram frag a payload -> strips d (Some a) payload
| strips_raw :
    (forall frag a payload, raw_wf a -> d <> socks_datagram frag a payload) -> strips d None d.

Lemma socks_datagram_len frag a payload : len payload < len (socks_datagram frag a payload).
Proof. unfold socks_datagram. autorewrite with wind. pose proof (len_nonneg (raw_wire a)). lia. Qed.

Lemma strips_len d o payload : strips d o payload -> len payload <= len d.
Proof. intros [frag a p _ ->|]; [|done]. pose proof (socks_datagram_len frag a p). lia. Qed.

Lemma strips_parse d : bytes_ok d ->
  exists o payload, strips d o payload /\
    match o with
    | Some a => exists frag, parse_udp_request_sync d = Returns (Ok (frag, raw_addr a, payload))
    | None => exists e, parse_udp_request_sync d = Returns (Err e)
    end.
Proof.
  intros Hok. destruct (parse_cases d Hok) as [(e&He)|(frag&a&payload&Hwf&->)].
  - exists None, d. split; [|by exists e]. constructor. intros frag a payload Hwf ->.
    by rewrite parse_raw in He.
  - exists (Some a), payload. split; [by econstructor|]. exists frag. by apply parse_raw.
Qed.

Definition strips_destination (o : option SocksRaw) : option TargetAddr :=
  (fun a => convert_target_addr (raw_addr a)) <$> o.

Lemma recv_lone_datagram d pad m source buf n :
  bytes_ok d -> 0 < len d <= len buf -> lone m (len d) ->
  exists o payload, strips d o payload /\
    socks_poll_recv (replicate n Socks_RecvFailed ++ [Socks_Received [(d ++ pad, m)]]) (rv_init source buf) =
    Some (Returns (Ready (Ok 1),
      {| rv_source := qm_addr m;
         rv_bufs := [payload ++ zdrop (len payload) buf];
         rv_meta := [rm_set_len (len payload) (rm_set_destination (strips_destination o) (RecvMeta_from m))];
         rv_processed := 1 |})).
Proof.
  intros Hok [Hpos Hbuf] [Hlen _]. destruct (strips_parse d Hok) as (o&payload&Hs&Hp).
  exists o, payload. split; [done|]. apply strips_len in Hs as Hle.
  assert (len payload <= len buf) as Hfit by lia.
  induction n as [|n IH]; [|done]. cbn [replicate app socks_poll_recv recv_batch]. unfold recv_one.
  rewrite Hlen, (proj2 (Z.ltb_lt _ _)) by done. rewrite slice_to_app by done. cbn [exec_bind].
  destruct Hs as [frag a payload Hwf Hd|Hno]; destruct Hp as (x&->); cbn [exec_bind]; unfold rv_put; cbn;
    rewrite Z.min_l by done; by rewrite (ztake_all _ _ (Z.le_refl _)).
Qed.

(** Where a stripped datagram goes: a domain, or no destination at all, is
    replaced by the client's own address. *)
Definition tunnel_target (client : SocketAddr) (o : option SocksRaw) : TargetAddr :=
  match o with
  | Some (Raw_V4 ip p) => TargetAddr_IPv4 ip p
  | Some (Raw_V6 ip p) => TargetAddr_IPv6 ip p
  | Some (Raw_Domain _ _) | None => TargetAddr_from_SocketAddr client
  end.

(** C24: what an application sends reaches the tunnel.  A nonempty datagram
    that arrives alone in its buffer (not coalesced), after any number of
    failed receive calls and with any further metadata, is queued as exactly
    one packet.  If it is a SOCKS5 request its header is removed and the packet
    carries exactly the payload, addressed to the IP it names; if it names a
    domain the packet is addressed to the client itself; if it is no SOCKS5
    request all its bytes are sent, to the client itself.  The sender's address
    is remembered for replies. *)
Theorem socks_datagram_queued d pad m source buf n assoc :
  bytes_ok d -> 0 < len d <= len buf -> lone m (len d) ->
  as_relaying assoc = true -> as_reading assoc = true ->
  exists o payload r s ev, strips d o payload /\
    socks_poll_recv (replicate n Socks_RecvFailed ++ [Socks_Received [(d ++ pad, m)]]) (rv_init source buf)
      = Some (Returns (r, s)) /\
    rv_source s = qm_addr m /\ recv_event r s = Some ev /\
    local_step ev assoc = Returns (as_push_queue
      [{| pkt_source := None; pkt_target := tunnel_target (qm_addr m) o; pkt_payload := payload |}] false assoc).
Proof.
  intros Hok Hlen Hlone Hrel Hread.
  destruct (recv_lone_datagram d pad m source buf n Hok Hlen Hlone) as (o&payload&Hs&Hr).
  exists o, payload. do 3 eexists. split; [done|]. split; [exact Hr|]. split; [done|]. split; [done|].
  apply strips_len in Hs as Hle. destruct Hlone as [Hm Hstride].
  unfold local_step. rewrite Hread. cbn [Z.eqb Pos.eqb head default from_option id rv_bufs rv_meta].
  unfold local_packets, local_payloads, is_gro.
  cbn [rm_set_len rm_set_destination RecvMeta_from rm_stride rm_len].
  replace ((0 <? qm_stride m) && (qm_stride m <? len payload)) with false by lia.
  change (payload ++ zdrop (len payload) buf) with ([] ++ payload ++ zdrop (len payload) buf).
  rewrite slice_app by done. cbn [exec_bind]. rewrite Hrel. do 4 f_equal.
  by destruct o as [[ip p|ip p|dm p]|].
Qed.

(** An empty datagram ends the association.  A zero-length UDP datagram
    to the SOCKS5 port is counted as no packet, which the reading task takes
    for an error: it stops, and nothing the application sends afterwards is
    relayed. *)
Lemma empty_datagram_stops_reading client temp source buf assoc :
  as_reading assoc = true ->
  exists r s ev,
    socks_poll_recv [Socks_Received [(temp, lone_meta client 0)]] (rv_init source buf)
      = Some (Returns (r, s)) /\
    recv_event r s = Some ev /\
    local_step ev assoc = Returns (as_set_reading false assoc) /\
    forall ev', local_step ev' (as_set_reading false assoc) = Returns (as_set_reading false assoc).
Proof.
  intros Hread. do 3 eexists. split; [done|]. split; [done|]. split; [|done].
  unfold local_step. by rewrite Hread.
Qed.

(** Coalesced SOCKS5 datagrams are not separated.  Only the first header
    of a coalesced buffer is removed and the segment size is kept, so the next
    datagram's header travels as payload and the second packet goes to the
    first one's address. *)
Lemma coalesced_socks_datagrams :
  let one := socks_datagram 0 (Raw_V4 [10; 0; 0; 1] 53) [1; 1] in
  let two := socks_datagram 0 (Raw_V4 [10; 0; 0; 2] 53) [2; 2] in
  let meta := {| qm_addr := SocketAddr_V4 [127; 0; 0; 1] 5000; qm_len := 24; qm_stride := 12;
                 qm_ecn := None; qm_dst_ip := None |} in
  let to payload := {| pkt_source := None; pkt_target := TargetAddr_IPv4 [10; 0; 0; 1] 53;
                       pkt_payload := payload |} in
  match socks_poll_recv [Socks_Received [(one ++ two, meta)]]
          (rv_init (SocketAddr_V4 [0; 0; 0; 0] 0) (replicate 40 0)) with
  | Some (Returns (r, s)) =>
    match recv_event r s with
    | Some (Local_Recv (Ok (n, buf, m))) =>
      n = 1 /\ local_packets buf m = Returns [to ([1; 1] ++ ztake 10 two); to [2; 2]]
    | _ => False
    end
  | _ => False
  end.
Proof. vm_compute. split; reflexivity. Qed.

(** ** From the tunnel to the application *)

Lemma rv_put_source src m s s' : rv_put src m s = Returns s' -> rv_source s' = rv_source s.
Proof. unfold rv_put. repeat case_match; intros; by simplify_eq. Qed.

Lemma recv_one_source temp m s s' : recv_one temp m s = Returns s' ->
  rv_source s' = if 0 <? qm_len m then qm_addr m else rv_source s.
Proof.
  unfold recv_one. destruct (0 <? qm_len m); [|by intros [= <-]].
  destruct (slice_to _ temp) as [data|]; [|done]. cbn [exec_bind].
  destruct (parse_udp_request_sync data) as [[[[??]?]|?]|]; cbn [exec_bind]; [..|done];
    by intros ->%rv_put_source.
Qed.

(** The stored address after a batch: the sender of its last nonempty
    datagram. *)
Lemma recv_batch_source pre temp m post s s' :
  0 < qm_len m -> Forall (fun b => qm_len b.2 <= 0) post ->
  recv_batch (pre ++ (temp, m) :: post) s = Returns s' -> rv_source s' = qm_addr m.
Proof.
  intros Hm Hpost. revert s. induction pre as [|[t0 m0] pre IH]; intros s; cbn [app recv_batch].
  - destruct (recv_one temp m s) as [s1|] eqn:H1; [|done]. cbn [exec_bind]. apply recv_one_source in H1.
    rewrite (proj2 (Z.ltb_lt _ _)) in H1 by done. rewrite <-H1. clear H1. revert s1.
    induction Hpost as [|[t1 m1] post Hle _ IH]; intros s1; cbn [recv_batch]; [by intros [= <-]|].
    destruct (recv_one t1 m1 s1) as [s2|] eqn:H2; [|done]. cbn [exec_bind]. intros ->%IH.
    apply recv_one_source in H2. cbn [snd] in Hle. by rewrite (proj2 (Z.ltb_ge _ _)) in H2.
  - destruct (recv_one t0 m0 s) as [s1|]; [|done]. cbn [exec_bind]. apply IH.
Qed.

(** A client's address as a SOCKS5 header carries it: without the scope and
    flow of IPv6. *)
Definition client_raw (client : SocketAddr) : SocksRaw :=
  match client with
  | SocketAddr_V4 ip p => Raw_V4 ip p
  | SocketAddr_V6 ip p _ _ => Raw_V6 ip p
  end.

(** C40: replies go to the last client, and name it.  After a receive, a reply
    is sent to the sender, IPv4 or IPv6, of the last nonempty datagram of the
    batch, whatever destination it is given, and the SOCKS5 header in front of
    the payload carries that same address, not the address of the remote
    peer. *)
Theorem reply_names_client new_udp_header socket_send pre temp m post rv r rv' target buf s :
  (forall client, raw_wf (client_raw client) ->
     new_udp_header client = Some ([0; 0; 0] ++ raw_wire (client_raw client))) ->
  raw_wf (client_raw (qm_addr m)) -> 0 < qm_len m -> Forall (fun b => qm_len b.2 <= 0) post ->
  socks_poll_recv [Socks_Received (pre ++ (temp, m) :: post)] rv = Some (Returns (r, rv')) ->
  s5_source_addr s = rv_source rv' ->
  exists out,
    tx_destination out = qm_addr m /\
    parse_udp_request_sync (tx_contents out) = Returns (Ok (0, raw_addr (client_raw (qm_addr m)), buf)) /\
    poll_send (try_send new_udp_header socket_send) buf target s =
    (if socket_send out
     then (Ready (Ok (len buf)), {| s5_source_addr := qm_addr m; s5_sent := s5_sent s ++ [out] |})
     else (Ready (Err "send"%string), s)).
Proof.
  intros Hh Hwf Hm Hpost Hrecv Hs. cbn [socks_poll_recv] in Hrecv.
  destruct (recv_batch _ _) as [s1|] eqn:Hb; [|done]. cbn [exec_bind] in Hrecv. injection Hrecv as _ <-.
  apply recv_batch_source in Hb; [|done..]. rewrite Hb in Hs.
  unfold poll_send, try_send. rewrite Hs, Hh by done. cbv zeta.
  exists {| tx_destination := qm_addr m; tx_ecn := None;
            tx_contents := ([0; 0; 0] ++ raw_wire (client_raw (qm_addr m))) ++ buf;
            tx_segment_size := None; tx_src_ip := None |}.
  split; [done|split].
  - cbn [tx_contents]. rewrite <-app_assoc. by apply (parse_raw 0).
  - cbn [send_transmit tx_ecn tx_contents tx_segment_size tx_src_ip]. by destruct (socket_send _).
Qed.

(** ** Witnesses *)

Definition demo_assoc : Association :=
  {| as_id := 1; as_ptr := 0; as_queue := []; as_gro := false; as_relaying := true;
     as_reading := true; as_local := [] |}.

Definition demo_request : bytes := socks_datagram 0 (Raw_V4 [10; 0; 0; 1] 53) [7; 8; 9].
(** The system also reports ECN bits and the local address. *)
Definition demo_meta : QuinnRecvMeta :=
  {| qm_addr := SocketAddr_V4 [127; 0; 0; 1] 5000; qm_len := 13; qm_stride := 13;
     qm_ecn := Some 2; qm_dst_ip := Some (IpAddr_V4 [127; 0; 0; 1]) |}.

Lemma socks_datagram_queued_witness :
  exists o payload r s ev, strips demo_request o payload /\
    socks_poll_recv (replicate 1 Socks_RecvFailed ++ [Socks_Received [(demo_request ++ replicate 7 0, demo_meta)]])
      (rv_init (SocketAddr_V4 [0; 0; 0; 0] 0) (replicate 20 0)) = Some (Returns (r, s)) /\
    rv_source s = SocketAddr_V4 [127; 0; 0; 1] 5000 /\ recv_event r s = Some ev /\
    local_step ev demo_assoc = Returns (as_push_queue
      [{| pkt_source := None; pkt_target := tunnel_target (SocketAddr_V4 [127; 0; 0; 1] 5000) o;
          pkt_payload := payload |}] false demo_assoc).
Proof.
  apply (socks_datagram_queued demo_request (replicate 7 0) demo_meta (SocketAddr_V4 [0; 0; 0; 0] 0)
    (replicate 20 0) 1 demo_assoc); [by_compute|by_compute|by_compute|reflexivity|reflexivity].
Defined.

Lemma empty_datagram_stops_reading_witness :
  exists r s ev,
    socks_poll_recv [Socks_Received [([], lone_meta (SocketAddr_V4 [127; 0; 0; 1] 5000) 0)]]
      (rv_init (SocketAddr_V4 [0; 0; 0; 0] 0) []) = Some (Returns (r, s)) /\
    recv_event r s = Some ev /\
    local_step ev demo_assoc = Returns (as_set_reading false demo_assoc) /\
    forall ev', local_step ev' (as_set_reading false demo_assoc)
      = Returns (as_set_reading false demo_assoc).
Proof. apply (empty_datagram_stops_reading _ _ _ _ demo_assoc). reflexivity. Defined.

Definition demo_header (a : SocketAddr) : option bytes :=
  match a with
  | SocketAddr_V4 ip p => Some ([0; 0; 0] ++ raw_wire (Raw_V4 ip p))
  | SocketAddr_V6 ip p _ _ => Some ([0; 0; 0] ++ raw_wire (Raw_V6 ip p))
  end.

Lemma reply_names_client_witness : exists out,
  tx_destination out = SocketAddr_V4 [127; 0; 0; 1] 5000 /\
  parse_udp_request_sync (tx_contents out)
    = Returns (Ok (0, Socks_Ip (SocketAddr_V4 [127; 0; 0; 1] 5000), [4; 2])) /\
  poll_send (try_send demo_header (fun _ => true)) [4; 2] (SocketAddr_V4 [0; 0; 0; 0] 0)
    {| s5_source_addr := SocketAddr_V4 [127; 0; 0; 1] 5000; s5_sent := [] |} =
  (Ready (Ok 2), {| s5_source_addr := SocketAddr_V4 [127; 0; 0; 1] 5000; s5_sent := [out] |}).
Proof.
  eapply (reply_names_client demo_header (fun _ => true) [] (demo_request ++ replicate 7 0) demo_meta []
    (rv_init (SocketAddr_V4 [0; 0; 0; 0] 0) (replicate 20 0)));
    [by intros []|by_compute|by_compute|constructor|vm_compute; reflexivity|reflexivity].
Defined.
