(* ===== verification/Association.v ===== *)
(** * A UDP association at work (wind-tuic/src/outbound.rs)

    The three tasks that serve an association, the poll loop and the two
    spawned by [handle_udp], and what each of their steps does to the two
    queues between them: the packets read locally on their way out, the
    packets received on their way in.  Pipeline.v puts the steps together for
    the whole program. *)

From stdpp Require Import base list gmap strings list_numbers.
From S2P Require Import Prelude BytesCrate Types Codec Header Cmd Addr Quinn Io.
From S2P Require Import Proto Messages Moka CoreUdp Reassembly ReassemblySpec Delivery Buffer UdpStream.
From S2P Require Import Fragmentation Outbound Client Traffic.

(** A step of one of the tasks. *)
Inductive AssocEvent :=
| As_Poll (ev : PollEvent)
| As_Relay (ev : RelayEvent)
| As_Local (ev : LocalEvent).

(** ** What goes in *)

(** The packets of one read from the local socket. *)
Definition local_read (ev : AssocEvent) : list UdpPacket :=
  match ev with
  | As_Local (Local_Recv (Ok (n, buf, meta))) =>
    if n =? 1 then match local_packets buf meta with Returns ps => ps | Panics => [] end else []
  | _ => []
  end.
Definition outgoing (evs : list AssocEvent) : list UdpPacket := concat (local_read <$> evs).

(** The datagrams the poll loop takes from the connection. *)
Definition received_datagram (ev : AssocEvent) : option bytes :=
  match ev with As_Poll (Poll_Datagram _ data) => Some data | _ => None end.
Definition incoming (evs : list AssocEvent) : list bytes := omap received_datagram evs.

Definition local_send_failed (ev : AssocEvent) : bool :=
  match ev with As_Relay (Relay_Receive false) => true | _ => false end.

Definition is_polling {MO : MokaOps} (s : PollState) : bool :=
  match s with Polling _ _ => true | Stopped _ _ => false end.

(** ** What goes out: [send_packet] called on one packet after the other; what
    else the connection carries in between is not for the association *)
Section sends.
Context {B : BytesOps} {U : UuidOps} {Q : QuinnOps} {MO : MokaOps}.
Context (overflow_checks : bool) (assoc_id : u16) (h0 : list (QuicCall * bool)).

Inductive sends : list UdpPacket -> u16 -> list (QuicCall * bool) -> Prop :=
| sends_nothing : sends [] 0 h0
| sends_packet ps h packet u r u' h' :
    sends ps (us_next_pkt_id u) h -> us_assoc_id u = assoc_id ->
    send_packet overflow_checks packet (u, h) = Returns (r, (u', h')) ->
    sends (ps ++ [packet]) (us_next_pkt_id u') h'
| sends_other ps n h h' : sends ps n h -> added (not_packet_of assoc_id) h h' -> sends ps n h'.
End sends.

(** ** Sending leaves the rest of the stream alone *)

Section frame.
Context {B : BytesOps} {U : UuidOps} {Q : QuinnOps} {MO : MokaOps}.
Context (overflow_checks : bool).

Definition keeps_stream {A} (m : M (UdpStream * QHist) Report A) : Prop :=
  forall u h r u' h', m (u, h) = Returns (r, (u', h')) ->
    exists n, u' = us_set_next_pkt_id n u /\ (is_u16 (us_next_pkt_id u) -> is_u16 n).

Lemma set_next_pkt_id_id u : us_set_next_pkt_id (us_next_pkt_id u) u = u.
Proof. by destruct u. Qed.

Lemma keeps_same {A} (m : M (UdpStream * QHist) Report A) :
  (forall u h r u' h', m (u, h) = Returns (r, (u', h')) -> u' = u) -> keeps_stream m.
Proof.
  intros Hm u h r u' h' ->%Hm. exists (us_next_pkt_id u). by rewrite set_next_pkt_id_id.
Qed.

Lemma keeps_bind {A C} (m : M (UdpStream * QHist) Report A) (k : A -> M (UdpStream * QHist) Report C) :
  keeps_stream m -> (forall a, keeps_stream (k a)) -> keeps_stream (m_bind m k).
Proof.
  intros Hm Hk u h r u' h'. unfold m_bind.
  destruct (m (u, h)) as [[[a|e] [u1 h1]]|] eqn:He; [|intros [= <- <- <-]; by eapply Hm|done].
  destruct (Hm _ _ _ _ _ He) as (n1&->&?). intros (n&->&?)%Hk. exists n. split; [done|]. auto.
Qed.

Lemma keeps_ret {A} (a : A) : keeps_stream (m_ret a).
Proof. apply keeps_same. by intros ? ? ? ? ? [= <- <- <-]. Qed.
Lemma keeps_throw {A} e : keeps_stream (A:=A) (m_throw e).
Proof. apply keeps_same. by intros ? ? ? ? ? [= <- <- <-]. Qed.
Lemma keeps_get : keeps_stream m_get.
Proof. apply keeps_same. by intros ? ? ? ? ? [= <- <- <-]. Qed.
Lemma keeps_lift {A} (m : exec A) : keeps_stream (m_lift m).
Proof. apply keeps_same. unfold m_lift. intros ? ? ? ? ?. destruct m; by intros [= <- <- <-]. Qed.
Lemma keeps_on_conn {A} (m : M QHist Report A) : keeps_stream (on_conn m).
Proof.
  apply keeps_same. unfold on_conn. intros u h r u' h'. cbn.
  destruct (m h) as [[? ?]|]; by intros [= <- <- <-].
Qed.
Lemma keeps_from {A} f (m : M (UdpStream * QHist) Report A) :
  keeps_stream m -> keeps_stream (m_from f m).
Proof.
  intros Hm u h r u' h'. unfold m_from. destruct (m (u, h)) as [[r1 [u1 h1]]|] eqn:He; [|done].
  intros [= <- <- <-]. by eapply Hm.
Qed.
Lemma keeps_load : keeps_stream next_pkt_id_load.
Proof. apply keeps_same. by intros ? ? ? ? ? [= <- <- <-]. Qed.
Lemma keeps_fetch_add : keeps_stream next_pkt_id_fetch_add.
Proof.
  intros u h r u' h' [= <- <- <-]. eexists. split; [done|]. intros _. unfold is_u16, as_u16.
  apply Z.mod_pos_bound. lia.
Qed.

Create HintDb keeps.
#[local] Hint Resolve keeps_ret keeps_throw keeps_get keeps_lift keeps_on_conn keeps_from
  keeps_load keeps_fetch_add : keeps.
Local Ltac keeps := repeat (apply keeps_bind; [auto with keeps|intros ?]); auto with keeps.

Lemma keeps_send_fragments packet a p total f1 f2 n i off :
  keeps_stream (send_fragments overflow_checks packet a p total f1 f2 n i off).
Proof.
  revert i off; induction n as [|n IH]; intros i off; cbn [send_fragments]; cbv zeta; [keeps|].
  do 4 (apply keeps_bind; [auto with keeps|intros ?]). apply keeps_bind; [case_match; keeps|intros ?].
  keeps.
Qed.

Lemma keeps_send_packet packet : keeps_stream (send_packet overflow_checks packet).
Proof.
  unfold send_packet. cbv zeta. apply keeps_bind; [repeat case_match; keeps|intros _].
  unfold max_datagram_or_default. apply keeps_bind; [keeps|intros mds].
  apply keeps_bind; [keeps|intros limit]. case_match; [keeps|].
  unfold send_fragmented_packet, max_datagram_or_default. cbv zeta.
  apply keeps_bind; [keeps|intros m]. apply keeps_bind; [case_match; keeps|intros c].
  case_match; [keeps|]. apply keeps_bind; [keeps|intros id]. apply keeps_bind; [keeps|intros st].
  apply keeps_send_fragments.
Qed.

(** Receiving leaves the stream's identifiers alone. *)
Definition same_ids (u u' : UdpStream) : Prop :=
  us_assoc_id u' = us_assoc_id u /\ us_next_pkt_id u' = us_next_pkt_id u.

Lemma deliver_ids now a pkt total id payload t (st : TuicOutbound) p u :
  to_streams st !! p = Some u ->
  exists u', to_streams (deliver now a pkt total id payload t st) !! p = Some u' /\ same_ids u u'.
Proof.
  intros Hp. unfold deliver. destruct (cache_get a (to_udp_session st)) as [o c].
  cbn [to_set_session to_streams].
  destruct (o ≫= _) as [[q v]|] eqn:Ho; [|by exists u].
  assert (to_streams st !! q = Some v) as Hq.
  { destruct o as [q'|]; [|done]. cbn in Ho. destruct (to_streams st !! q') eqn:E; naive_solver. }
  assert (forall r : option UdpPacket * UdpStream, same_ids v r.2 ->
    exists u', to_streams (let '(cp, us) := r in
      match cp with
      | Some packet => to_set_stream q (receive_packet packet us).2 (to_set_session c st)
      | None => to_set_stream q us (to_set_session c st)
      end) !! p = Some u' /\ same_ids u u') as Hgen.
  { intros [cp us] Hus. cbn in Hus.
    assert (exists us', same_ids v us' /\ to_streams (match cp with
      | Some packet => to_set_stream q (receive_packet packet us).2 (to_set_session c st)
      | None => to_set_stream q us (to_set_session c st) end) = <[q := us']> (to_streams st))
      as (us'&Hus'&->).
    { destruct cp as [packet|]; eexists; (split; [|reflexivity]); [|done].
      unfold receive_packet. by case_match. }
    destruct (decide (p = q)) as [->|Hne].
    - rewrite lookup_insert_eq. exists us'. split; [done|]. by simplify_eq.
    - rewrite lookup_insert_ne by done. by exists u. }
  apply Hgen. case_match; [|done]. unfold process_fragment.
  destruct (add_fragment _ _ _ _). done.
Qed.

Lemma on_datagram_ids checks log now data (st st' : TuicOutbound) p u :
  on_datagram checks log now data st = Returns st' -> to_streams st !! p = Some u ->
  exists u', to_streams st' !! p = Some u' /\ same_ids u u'.
Proof.
  unfold on_datagram, exec_bind. intros H Hp.
  repeat (case_match; simplify_eq/=); try (by exists u); by apply deliver_ids.
Qed.
End frame.

(** ** The outgoing queue *)

Section pipeline.
Context {B : BytesOps} {BL : BytesLaws B} {U : UuidOps} {UL : UuidLaws U}
        {Q : QuinnOps} {MO : MokaOps} {ML : MokaLaws MO}.
Context (overflow_checks log_info : bool).

Lemma outgoing_snoc pre ev : outgoing (pre ++ [ev]) = outgoing pre ++ local_read ev.
Proof. unfold outgoing. rewrite fmap_app, concat_app. cbn. by rewrite app_nil_r. Qed.

Lemma heartbeat_step_conn k (st : TuicOutbound) s' : heartbeat_step k st = Returns s' ->
  exists ok, poll_outbound s' = to_set_connection (to_connection st ++ [heartbeat_entry ok]) st.
Proof.
  unfold heartbeat_step, send_heartbeat.
  rewrite (encode_into_ok header_codec) by done. cbn [app header_wire Header_new hdr_version hdr_command
    u8_from_CmdType]. unfold m_bind, send_datagram, q_call, guard_unit, heartbeat_entry.
  destruct (q_send_datagram _ _); cbn; intros [= <-]; [by exists true|].
  exists false. by case_match.
Qed.

Lemma heartbeat_foreign id : not_packet_of id (SendDatagram [VER; 4]).
Proof.
  cbn. unfold assoc_of, decode_header, decode_command.
  rewrite <-(app_nil_r [VER; 4]). change [VER; 4] with (header_wire (Header_new CmdType_Heartbeat)).
  rewrite (decode_some_ok header_codec) by done. cbn [Header_new hdr_command].
  rewrite (decode_some_ok (cmd_codec CmdType_Heartbeat) Command_Heartbeat []) by done. done.
Qed.

Lemma heartbeat_added id h ok : added (not_packet_of id) h (h ++ [heartbeat_entry ok]).
Proof. eexists. split; [done|]. constructor; [|done]. apply heartbeat_foreign. Qed.

Lemma poll_step_view s ev s' p u :
  poll_step overflow_checks log_info s ev = Returns s' -> to_streams (poll_outbound s) !! p = Some u ->
  exists u', to_streams (poll_outbound s') !! p = Some u' /\ same_ids u u' /\
    forall id, added (not_packet_of id) (to_connection (poll_outbound s)) (to_connection (poll_outbound s')).
Proof.
  intros Hs Hp. destruct s as [k st|r st]; cbn in *; [|simplify_eq; exists u; split_and!; auto using added_refl; done].
  destruct ev as [| | |now data|]; try (simplify_eq; exists u; split_and!; auto using added_refl; done).
  - apply heartbeat_step_conn in Hs as [ok ->]. exists u. split_and!; [done..|]. intros id. apply heartbeat_added.
  - destruct (on_datagram _ _ now data st) as [st1|] eqn:Hd; [|done]. cbn in Hs. simplify_eq. cbn.
    destruct (on_datagram_ids _ _ _ _ _ _ _ _ Hd Hp) as (u'&?&?).
    apply on_datagram_connection in Hd as ->. exists u'. split_and!; auto using added_refl.
Qed.

(** What is sent so far and what is queued is what was read. *)
Definition out_inv (h0 : QHist) (id : u16) (p : nat) (pre : list AssocEvent) (st : TuicOutbound)
    (a : Association) : Prop :=
  as_ptr a = p /\ exists taken u,
    to_streams st !! p = Some u /\ us_assoc_id u = id /\
    sends overflow_checks id h0 taken (us_next_pkt_id u) (to_connection st) /\
    taken ++ as_queue a `prefix_of` outgoing pre /\
    (as_relaying a = true -> taken ++ as_queue a = outgoing pre).

(** Steps that touch neither the queue nor what is sent. *)
Lemma out_keep h0 id p pre st a st' a' u u' :
  out_inv h0 id p pre st a -> to_streams st !! p = Some u -> to_streams st' !! p = Some u' ->
  same_ids u u' ->
  added (not_packet_of id) (to_connection st) (to_connection st') ->
  as_ptr a' = as_ptr a -> as_queue a' = as_queue a ->
  (as_relaying a' = true -> as_relaying a = true) -> out_inv h0 id p pre st' a'.
Proof.
  intros (Hp&taken&v&Hv&Hid&Hsent&Hpre&Hall) Hu Hu' [Ha Hn] Hc Hp' Hq Hrl. simplify_eq.
  split; [done|]. exists taken, u'. rewrite Hn, Hq. split_and!; [done..| |done|auto].
  by econstructor.
Qed.

Lemma out_step_poll h0 id p pre s a ev s' :
  out_inv h0 id p pre (poll_outbound s) a -> poll_step overflow_checks log_info s ev = Returns s' ->
  out_inv h0 id p pre (poll_outbound s') a.
Proof.
  intros Hinv Hs. pose proof Hinv as (_&_&u&Hu&_).
  destruct (poll_step_view _ _ _ _ _ Hs Hu) as (u'&?&?&?). by eapply out_keep.
Qed.

(** The second task may end with the first, the rest of the association stays. *)
Lemma relay_break_assoc st a :
  let a' := (relay_break st a).2 in
  as_id a' = as_id a /\ as_ptr a' = as_ptr a /\ as_queue a' = as_queue a /\ as_local a' = as_local a /\
  as_relaying a' = false /\ (as_reading a' = true -> as_reading a = true).
Proof. cbn. destruct (local_blocked a); cbn; split_and!; try done. by destruct (as_reading a). Qed.

Lemma out_break h0 id p pre st a :
  out_inv h0 id p pre st a -> out_inv h0 id p pre (relay_break st a).1 (relay_break st a).2.
Proof.
  intros Hinv. pose proof Hinv as (Hp&_&u&Hu&_). destruct (relay_break_assoc st a) as (_&?&?&_&Hrl&?).
  eapply (out_keep _ _ _ _ st a _ _ u (us_close_receive u)); try done;
    unfold relay_break; rewrite ?Hp, ?Hu; [cbn; by rewrite lookup_insert_eq|apply added_refl].
Qed.

Lemma out_step_relay h0 id p pre st a ev st' a' :
  out_inv h0 id p pre st a -> relay_step overflow_checks ev st a = Returns (st', a') ->
  out_inv h0 id p pre st' a'.
Proof.
  intros Hinv Hs. pose proof (out_break _ _ _ _ _ _ Hinv) as Hbreak.
  pose proof Hinv as (Hp&taken&u&Hu&Hid&Hsent&Hpre&Hall).
  unfold relay_step in Hs. destruct (as_relaying a) eqn:Hrl; [|by simplify_eq].
  rewrite Hp, Hu in Hs. destruct ev as [|ok| |now_ms].
  - by simplify_eq.
  - destruct (us_receive u) as [|packet rest]; simplify_eq; [done|].
    eapply (out_keep _ _ _ _ st a _ _ u (us_set_receive rest u)); try done;
      [cbn; by rewrite lookup_insert_eq|apply added_refl|by destruct ok..].
  - destruct (as_queue a) as [|packet rest] eqn:Hq; [destruct (as_reading a); by simplify_eq|].
    destruct (send_packet overflow_checks packet (u, to_connection st)) as [[r [u1 h1]]|] eqn:Hsend;
      [|done]. cbn in Hs. simplify_eq. split; [done|].
    destruct (keeps_send_packet _ _ _ _ _ _ _ Hsend) as (n&->&_).
    exists (taken ++ [packet]), (us_set_next_pkt_id n u). cbn.
    rewrite <-app_assoc, lookup_insert_eq. split_and!; [done..| |done|auto].
    exact (sends_packet _ _ _ _ _ _ _ _ _ _ Hsent eq_refl Hsend).
  - simplify_eq. eapply (out_keep _ _ _ _ st _ _ _ u (collect_garbage now_ms u)); try done; [|apply added_refl].
    cbn. by rewrite lookup_insert_eq.
Qed.

Lemma out_step_local h0 id p pre st a ev a' :
  out_inv h0 id p pre st a -> as_reading a = true -> local_step ev a = Returns a' ->
  out_inv h0 id p (pre ++ [As_Local ev]) st a'.
Proof.
  intros (Hp&taken&u&Hu&Hid&Hsent&Hpre&Hall) Hrd Hs. unfold out_inv. rewrite outgoing_snoc.
  unfold local_step in Hs. rewrite Hrd in Hs.
  assert (forall b, local_read (As_Local ev) = [] \/ as_relaying a = false ->
    as_ptr (as_set_reading b a) = p /\ exists taken u,
      to_streams st !! p = Some u /\ us_assoc_id u = id /\
      sends overflow_checks id h0 taken (us_next_pkt_id u) (to_connection st) /\
      taken ++ as_queue (as_set_reading b a) `prefix_of` outgoing pre ++ local_read (As_Local ev) /\
      (as_relaying (as_set_reading b a) = true ->
       taken ++ as_queue (as_set_reading b a) = outgoing pre ++ local_read (As_Local ev))) as Hstop.
  { intros b Hor. split; [done|]. exists taken, u. cbn [as_queue as_set_reading as_relaying].
    split_and!; [done..|by apply prefix_app_r|]. intros Hrl. destruct Hor as [->|]; [|congruence].
    rewrite app_nil_r. auto. }
  destruct ev as [|[[[n buf] meta]|e]]; [simplify_eq; by apply Hstop; left| |simplify_eq; by apply Hstop; left].
  cbn [local_read] in *. destruct (n =? 1) eqn:Hn; [|simplify_eq; by apply Hstop; left].
  destruct (local_packets buf meta) as [ps|] eqn:Hps; [|done]. cbn in Hs.
  destruct (as_relaying a) eqn:Hrl; simplify_eq; [|by apply Hstop; right].
  split; [done|]. exists taken, u. cbn [as_queue as_push_queue as_relaying].
  rewrite app_assoc, (Hall eq_refl). split_and!; [done..|auto].
Qed.

(** ** The incoming queue *)

Lemma rx_spec_snoc a ms m t :
  rx_spec a (ms ++ [m]) t =
  ((rx_spec a ms t).1 ++ option_list (rx_step a m (rx_spec a ms t).2).1,
   (rx_step a m (rx_spec a ms t).2).2).
Proof.
  revert t; induction ms as [|m' ms IH]; intros t; cbn [app rx_spec]; fold (rx_step a m t).
  - cbn. fold (rx_step a m t). destruct (rx_step a m t) as [o t1]. cbn. by rewrite app_nil_r.
  - fold (rx_step a m' t). destruct (rx_step a m' t) as [o t1]. rewrite IH.
    destruct (rx_spec a ms t1) as [ps t2]. cbn. by rewrite <-app_assoc.
Qed.

Definition in_inv (id : u16) (p : nat) (pre : list AssocEvent) (ms : list RxMsg) (st : TuicOutbound)
    (a : Association) : Prop :=
  as_ptr a = p /\ contents (to_udp_session st) !! id = Some p /\ exists u forwarded,
    to_streams st !! p = Some u /\ us_receive_open u = true /\
    frb_wf (us_fragment_buffer u) /\ frb_abs (us_fragment_buffer u) = (rx_spec id ms ∅).2 /\
    forwarded ++ us_receive u = (rx_spec id ms ∅).1 /\
    as_local a `sublist_of` (pkt_payload <$> forwarded) /\
    (Forall (fun ev => local_send_failed ev = false) pre -> as_local a = pkt_payload <$> forwarded).

(** The association's stream, as far as receiving goes. *)
Definition same_rx (u u' : UdpStream) : Prop :=
  us_receive_open u' = us_receive_open u /\ us_receive u' = us_receive u /\
  (frb_wf (us_fragment_buffer u) -> frb_wf (us_fragment_buffer u') /\
     frb_abs (us_fragment_buffer u') = frb_abs (us_fragment_buffer u)).

Lemma in_keep id p pre ev ms st a st' a' u u' :
  in_inv id p pre ms st a -> to_streams st !! p = Some u -> to_streams st' !! p = Some u' ->
  same_rx u u' -> contents (to_udp_session st') !! id = contents (to_udp_session st) !! id -> as_ptr a' = as_ptr a ->
  as_local a' = as_local a -> in_inv id p (pre ++ [ev]) ms st' a'.
Proof.
  intros (Hp&Hsess&v&fw&Hv&Hop&Hwf&Habs&Hfw&Hsub&Hall) Hu Hu' (Ho&Hr&Hb) Hs Hp' Hl. simplify_eq.
  destruct (Hb Hwf) as [Hwf' Habs']. split; [done|]. split; [by rewrite Hs|].
  exists u', fw. rewrite Hr, Ho, Habs', Hl. split_and!; try done.
  intros [Hf _]%Forall_app. auto.
Qed.

Lemma in_step_datagram id p pre ms m st a now st' :
  is_u16 id -> rx_wf m -> rx_room id ∅ (ms ++ [m]) ->
  in_inv id p pre ms st a ->
  on_datagram overflow_checks log_info now (rx_datagram id m) st = Returns st' ->
  in_inv id p (pre ++ [As_Poll (Poll_Datagram now (rx_datagram id m))]) (ms ++ [m]) st' a.
Proof.
  intros Hid Hm Hroom (Hp&Hsess&u&fw&Hu&Hop&Hwf&Habs&Hfw&Hsub&Hall).
  rewrite on_datagram_packet by done. intros [= <-].
  destruct (deliver_stream now id (rx_pkt m) (rx_total m) (rx_id m) (rx_payload m)
    (target_or_placeholder (rx_addr m)) st p u Hsess Hu) as (Hc&_&Hst).
  destruct (rx_step_stream now id m u Hop Hwf) as (Hr&Ho&Hwf'&Habs').
  { intros Ht. apply frb_room_now; [done|]. rewrite Habs. by apply (Hroom ms m []). }
  cbv zeta in Hst, Hr, Ho, Hwf', Habs'. set (u1 := match _ with Some _ => _ | None => _ end) in *.
  split; [done|]. split; [by rewrite Hc|]. exists u1, fw. rewrite Hst, lookup_insert_eq, rx_spec_snoc.
  cbn [fst snd]. rewrite Hr, Habs', Habs, app_assoc, Hfw. split_and!; try done.
  intros [Hf _]%Forall_app. auto.
Qed.

Lemma in_step_poll id p pre ms s a ev s' :
  in_inv id p pre ms (poll_outbound s) a -> is_polling s' = true ->
  poll_step overflow_checks log_info s ev = Returns s' ->
  received_datagram (As_Poll ev) = None ->
  in_inv id p (pre ++ [As_Poll ev]) ms (poll_outbound s') a.
Proof.
  intros Hinv Hpl Hs Hno. pose proof Hinv as (_&_&u&_&Hu&_).
  destruct s as [k st|r st]; cbn in Hs; [|by simplify_eq].
  assert (to_udp_session (poll_outbound s') = to_udp_session st /\
          to_streams (poll_outbound s') = to_streams st) as [Hsess Hst].
  { destruct ev as [| | |now data|]; try done; try by simplify_eq.
    by apply heartbeat_step_conn in Hs as [ok ->]. }
  eapply in_keep; [done|exact Hu|by rewrite Hst|done|by rewrite Hsess|done..].
Qed.

Lemma in_step_relay id p pre ms st a ev st' a' :
  in_inv id p pre ms st a -> as_relaying a' = true ->
  relay_step overflow_checks ev st a = Returns (st', a') ->
  in_inv id p (pre ++ [As_Relay ev]) ms st' a'.
Proof.
  intros Hinv Hrl' Hs. pose proof Hinv as (Hp&Hsess&u&fw&Hu&Hop&Hwf&Habs&Hfw&Hsub&Hall).
  unfold relay_step in Hs. destruct (as_relaying a) eqn:Hrl; [|by simplify_eq; congruence].
  rewrite Hp, Hu in Hs.
  destruct ev as [|ok| |now_ms].
  - unfold relay_break in Hs. by simplify_eq.
  - destruct (us_receive u) as [|packet rest] eqn:Hr; simplify_eq; [by eapply in_keep|].
    split; [by destruct ok|]. split; [done|].
    exists (us_set_receive rest u), (fw ++ [packet]). cbn. rewrite lookup_insert_eq, <-app_assoc, fmap_app.
    split_and!; [done..| |].
    + destruct ok; cbn; [by apply sublist_app|by apply sublist_inserts_r].
    + intros [Hf Hok]%Forall_app. inversion_clear Hok as [|? ? Hok1 _]. destruct ok; [|discriminate Hok1].
      cbn. by rewrite Hall.
  - destruct (as_queue a) as [|packet rest] eqn:Hq.
    { destruct (as_reading a); unfold relay_break in Hs; simplify_eq; by eapply in_keep. }
    destruct (send_packet overflow_checks packet (u, to_connection st)) as [[r [u1 h1]]|] eqn:Hsend;
      [|done]. cbn in Hs. simplify_eq.
    destruct (keeps_send_packet _ _ _ _ _ _ _ Hsend) as (n&->&_).
    eapply (in_keep _ _ _ _ _ st a _ _ u (us_set_next_pkt_id n u)); try done.
    cbn. by rewrite lookup_insert_eq.
  - simplify_eq. eapply (in_keep _ _ _ _ _ st _ _ _ u (collect_garbage now_ms u)); try done.
    { cbn. by rewrite lookup_insert_eq. }
    split_and!; [done..|]. intros Hw. by apply cleanup_expired_noop.
Qed.

Lemma in_step_local id p pre ms st a ev a' :
  in_inv id p pre ms st a -> local_step ev a = Returns a' ->
  in_inv id p (pre ++ [As_Local ev]) ms st a'.
Proof.
  intros Hinv Hs. pose proof Hinv as (_&_&u&_&Hu&_).
  assert (as_ptr a' = as_ptr a /\ as_local a' = as_local a) as [? ?].
  { unfold local_step, exec_bind in Hs. repeat (case_match; simplify_eq/=); done. }
  by eapply in_keep.
Qed.
End pipeline.
