(* ===== verification/EndToEnd.v ===== *)
(** * A UDP packet from one peer to the other

    [UdpStream::send_packet] on one side, the datagram arm of [start_poll] on
    the other, an unreliable network between them that loses, reorders and
    repeats datagrams. *)

From stdpp Require Import base list gmap strings list_numbers.
From S2P Require Import Prelude BytesCrate Types Codec Header Cmd Addr Quinn Io.
From S2P Require Import Proto Messages Moka CoreUdp Reassembly ReassemblySpec Delivery Buffer UdpStream.
From S2P Require Import Fragmentation Outbound Client.

(** ** Fragments as received messages *)

Definition frag_msg (packet : UdpPacket) (pkt : u16) (mds : usize) (i : Z) : RxMsg :=
  {| rx_pkt := pkt; rx_total := packet_frag_count packet mds; rx_id := i;
     rx_addr := frag_address packet i; rx_payload := packet_chunk packet mds i |}.

Definition received (packet : UdpPacket) : UdpPacket :=
  {| pkt_source := None; pkt_target := pkt_target packet; pkt_payload := pkt_payload packet |}.

Lemma target_or_placeholder_from t : target_or_placeholder (Address_from_TargetAddr t) = t.
Proof. unfold target_or_placeholder. by rewrite address_to_from_target. Qed.

Lemma rx_info_frag packet a pkt mds i :
  rx_info a (frag_msg packet pkt mds i)
  = frag_info a pkt (packet_frag_count packet mds) (pkt_target packet) i.
Proof.
  unfold rx_info, frag_info, frag_msg, frag_address. cbn. f_equal.
  destruct (i =? 0); [apply target_or_placeholder_from|done].
Qed.

Lemma rx_spec_frags a ms s : Forall (fun m => 1 < rx_total m) ms ->
  (rx_spec a ms s).1 = omap snd (spec_run ((fun m => (rx_info a m, rx_payload m)) <$> ms) s).1.
Proof.
  intros Hms. revert s; induction Hms as [|m ms Hm Hms IH]; intros s; [done|].
  cbn [rx_spec fmap list_fmap spec_run]. rewrite (proj2 (Z.ltb_lt _ _)) by done.
  destruct (spec_add (rx_info a m) (rx_payload m) s) as [o s1]. specialize (IH s1).
  destruct (rx_spec a ms s1) as [ps s2]. fold (list_fmap _ _ (fun m => (rx_info a m, rx_payload m)) ms).
  change (list_fmap _ _ (fun m => (rx_info a m, rx_payload m)) ms)
    with ((fun m => (rx_info a m, rx_payload m)) <$> ms).
  destruct (spec_run _ s1) as [os s3]. cbn in *. rewrite IH. by destruct o.
Qed.

(** The fragments of a packet, in any order, with losses and repetitions. *)
Lemma rx_spec_delivers (packet : UdpPacket) (a pkt mds : Z) (l : list Z) (s : gmap (Z * Z) PartialPacket) :
  let n := packet_frag_count packet mds in
  (len (pkt_payload packet) <= first_max packet mds \/ 0 < sub_max mds) ->
  1 < n -> (forall i, i ∈ l -> 0 <= i < n) -> s !! (a, pkt) = None ->
  exists k, (rx_spec a (frag_msg packet pkt mds <$> l) s).1 = replicate k (received packet) /\
    ((0 < k)%nat <-> forall i, 0 <= i < n -> i ∈ l) /\
    (forall i, 0 <= i < n -> (k <= copies i l)%nat).
Proof.
  intros n Hroom Hn Hl Hs. rewrite rx_spec_frags.
  2: { apply Forall_fmap, Forall_true. done. }
  rewrite <-list_fmap_compose.
  erewrite (list_fmap_ext _ (frag a pkt n (pkt_target packet) (packet_chunk packet mds))).
  2: { intros i x _. cbn. by rewrite rx_info_frag. }
  rewrite omap_via_fmap, (spec_run_single (a, pkt)).
  2: { apply Forall_fmap, Forall_true. done. }
  rewrite Hs. replace (received packet) with (whole n (pkt_target packet) (packet_chunk packet mds)).
  - apply packet_deliveries; [unfold in_packet; lia|done].
  - unfold whole, received. f_equal. by apply chunks_cover; [apply saturating_nonneg..|].
Qed.

Section laws.
Context {B : BytesOps} {BL : BytesLaws B} {U : UuidOps} {UL : UuidLaws U}
        {MO : MokaOps} {ML : MokaLaws MO}.

Lemma frag_datagram_msg packet a pkt mds i :
  frag_wf packet a pkt mds -> mds <= 65535 + 11 -> 0 <= i < packet_frag_count packet mds ->
  frag_datagram packet a pkt mds i = rx_datagram a (frag_msg packet pkt mds i) /\
  rx_wf (frag_msg packet pkt mds i).
Proof.
  intros Hwf Hmds Hi. pose proof (frag_size_exact packet a pkt mds i Hwf Hi Hmds) as Hsz.
  pose proof (frag_count_pos packet a pkt mds Hwf). split.
  - unfold frag_datagram, rx_datagram, frag_command. by rewrite Hsz.
  - unfold rx_wf, frag_msg; cbn [rx_pkt rx_total rx_id rx_addr rx_payload]. rewrite <-Hsz.
    split_and!; try lia.
    + apply Hwf.
    + unfold is_u8. lia.
    + by eapply frag_address_wf.
    + apply as_u16_u16.
Qed.

(** Different messages are different datagrams. *)
Lemma rx_datagram_inj a m1 m2 : is_u16 a -> rx_wf m1 -> rx_wf m2 ->
  rx_datagram a m1 = rx_datagram a m2 -> m1 = m2.
Proof.
  intros Ha H1 H2 Heq. pose proof (rx_command_wf a m1 Ha H1). pose proof (rx_command_wf a m2 Ha H2).
  destruct H1 as (_&_&_&Ha1&_), H2 as (_&_&_&Ha2&_).
  unfold rx_datagram in Heq.
  pose proof (decode_message_ok _ _ (rx_payload m1) "" H Ha1) as Hd.
  rewrite Heq, decode_message_ok in Hd by done.
  destruct m1, m2. cbn in *. by simplify_eq.
Qed.

Definition single_msg (packet : UdpPacket) (pkt : u16) : RxMsg :=
  {| rx_pkt := pkt; rx_total := 1; rx_id := 0;
     rx_addr := Address_from_TargetAddr (pkt_target packet); rx_payload := pkt_payload packet |}.

(** The messages a packet travels as. *)
Definition packet_msgs (packet : UdpPacket) (pkt : u16) (mds : usize) : list RxMsg :=
  if 10 + target_addr_size (pkt_target packet) + len (pkt_payload packet) <=? mds
  then [single_msg packet pkt]
  else frag_msg packet pkt mds <$> seqZ 0 (packet_frag_count packet mds).

Context {Q : QuinnOps}.

(** The sender's conditions. *)
Record sender_ok (packet : UdpPacket) (s : UdpStream) (mds : usize) : Prop := {
  so_assoc : is_u16 (us_assoc_id s);
  so_pkt : is_u16 (us_next_pkt_id s);
  so_target : TargetAddr_ok (pkt_target packet);
  so_mds : 10 + target_addr_size (pkt_target packet) <= mds <= 65535 + 11
}.

Lemma target_addr_size_min t : 4 <= target_addr_size t.
Proof. destruct t as [d ?|?|?]; cbn; try lia. pose proof (len_nonneg d). lia. Qed.

Lemma sender_frag_wf packet s mds :
  sender_ok packet s mds -> target_fits (pkt_target packet) ->
  packet_frag_count packet mds <= MAX_FRAGMENTS ->
  frag_wf packet (us_assoc_id s) (us_next_pkt_id s) mds.
Proof.
  intros [Ha Hp Ht Hm] Hf Hc. split; try done. right. pose proof (target_addr_size_min (pkt_target packet)).
  unfold sub_max, saturating_sub. lia.
Qed.

(** What a successful [send_packet] has put on the wire. *)
Lemma send_packet_msgs checks packet s h s' h' :
  let mds := default 1200 (q_max_datagram_size h) in
  sender_ok packet s mds ->
  send_packet checks packet (s, h) = Returns (Ok (), (s', h')) ->
  target_fits (pkt_target packet) /\
  (mds < 10 + target_addr_size (pkt_target packet) + len (pkt_payload packet) ->
   frag_wf packet (us_assoc_id s) (us_next_pkt_id s) mds) /\
  h' = h ++ (accepted <$> (rx_datagram (us_assoc_id s) <$> packet_msgs packet (us_next_pkt_id s) mds)).
Proof.
  intros mds Hok. rewrite send_packet_eq by apply Hok. fold mds. unfold packet_msgs.
  destruct (decide _) as [Hf|]; [|done]. destruct (Z.leb_spec (10 + target_addr_size (pkt_target packet) + len (pkt_payload packet)) mds)
    as [Hfit|Hbig].
  - pose proof (target_addr_size_min (pkt_target packet)). destruct Hok as [Ha Hp Ht Hm].
    rewrite send_whole_run by done. unfold send_whole_result.
    destruct (q_send_datagram h _); [|done]. intros [= <- <-].
    split_and!; [done|lia|]. cbn. unfold accepted, single_datagram, rx_datagram. cbn.
    unfold as_u16. rewrite Z.mod_small; [done|]. pose proof (len_nonneg (pkt_payload packet)). lia.
  - intros Hs.
    assert (packet_frag_count packet mds <= MAX_FRAGMENTS) as Hc.
    { destruct (Z.le_gt_cases (packet_frag_count packet mds) MAX_FRAGMENTS) as [|Hgt]; [done|exfalso].
      pose proof (send_fragmented_too_large checks packet s h) as Hl. fold mds in Hl.
      rewrite Hl in Hs; [done| |done].
      pose proof (target_addr_size_min (pkt_target packet)). destruct Hok as [_ _ _ Hm].
      unfold sub_max, saturating_sub. lia. }
    pose proof (sender_frag_wf packet s mds Hok Hf Hc) as Hwf. split_and!; [done..|].
    pose proof (send_fragmented_run checks packet s h Hwf) as Hr. fold mds in Hr. rewrite Hs in Hr.
    destruct (send_all _ h) as [[] h''] eqn:Ha; simplify_eq. apply send_all_ok in Ha as ->.
    f_equal. f_equal. unfold packet_datagrams. rewrite <-list_fmap_compose. apply list_fmap_ext.
    intros k i [? ?]%lookup_seqZ. cbn. apply frag_datagram_msg; [done|apply Hok|lia].
Qed.

(** More than one fragment when the packet does not fit. *)
Lemma packet_frag_count_big packet mds :
  10 + target_addr_size (pkt_target packet) <= mds ->
  mds < 10 + target_addr_size (pkt_target packet) + len (pkt_payload packet) ->
  1 < packet_frag_count packet mds.
Proof.
  intros Hm Hbig. pose proof (target_addr_size_min (pkt_target packet)).
  unfold packet_frag_count, frag_count.
  assert (first_max packet mds < len (pkt_payload packet)) by (unfold first_max, saturating_sub; lia).
  rewrite (proj2 (Z.leb_gt _ _)) by done.
  destruct (div_ceil_bounds (len (pkt_payload packet) - first_max packet mds) (sub_max mds)); [|lia..].
  unfold sub_max, saturating_sub. lia.
Qed.

(** A list of datagrams drawn from those of [f 0 .. f (n-1)] is the image of
    a list of indices. *)
Lemma datagram_indices {A} (f : Z -> A) n (ds : list A) :
  (forall d, d ∈ ds -> d ∈ f <$> seqZ 0 n) ->
  exists l, ds = f <$> l /\ forall i, i ∈ l -> 0 <= i < n.
Proof.
  induction ds as [|d ds IH]; intros Hin.
  - exists []. split; [done|]. intros i Hi%elem_of_nil. done.
  - destruct IH as (l&->&Hl); [intros; apply Hin; by right|].
    destruct (proj1 (list_elem_of_fmap _ _ _) (Hin d ltac:(left))) as (i&->&Hi%elem_of_seqZ).
    exists (i :: l). split; [done|]. intros j [->|?]%elem_of_cons; [lia|auto].
Qed.

(** How often a datagram arrived. *)
Definition arrivals (d : bytes) (arrived : list bytes) : nat := length (filter (eq d) arrived).

Lemma copies_arrivals (f : Z -> bytes) i l : (copies i l <= arrivals (f i) (f <$> l))%nat.
Proof.
  unfold copies, arrivals. induction l as [|j l IH]; [done|]. cbn [fmap list_fmap].
  change (list_fmap _ _ f l) with (f <$> l). rewrite !filter_cons. case_decide as H1; case_decide as H2; cbn; try lia.
  by subst.
Qed.

(** What an association receives from datagrams drawn from those of one
    packet. *)
Definition delivers (sent arrived : list bytes) (packet : UdpPacket) (ps : list UdpPacket) : Prop :=
  exists k, ps = replicate k (received packet) /\
    ((0 < k)%nat <-> forall d, d ∈ sent -> d ∈ arrived) /\
    (forall d, d ∈ sent -> (k <= arrivals d arrived)%nat) /\
    (length sent = 1%nat -> k = length arrived).

Lemma packet_msgs_received (packet : UdpPacket) (a pkt mds : Z) (arrived : list bytes) :
  let sent := rx_datagram a <$> packet_msgs packet pkt mds in
  is_u16 a -> is_u16 pkt -> TargetAddr_ok (pkt_target packet) -> target_fits (pkt_target packet) ->
  10 + target_addr_size (pkt_target packet) <= mds <= 65535 + 11 ->
  (mds < 10 + target_addr_size (pkt_target packet) + len (pkt_payload packet) ->
   frag_wf packet a pkt mds) ->
  (forall d, d ∈ arrived -> d ∈ sent) ->
  exists ms, arrived = rx_datagram a <$> ms /\ Forall rx_wf ms /\ Forall (fun m => rx_pkt m = pkt) ms /\
    forall n s, s !! (a, pkt) = None -> delivers sent (take n arrived) packet (rx_spec a (take n ms) s).1.
Proof.
  cbv zeta. intros Ha Hp Ht Hf Hm Hwf Hin. unfold packet_msgs in *.
  destruct (Z.leb_spec (10 + target_addr_size (pkt_target packet) + len (pkt_payload packet)) mds)
    as [Hfit|Hbig].
  - exists (replicate (length arrived) (single_msg packet pkt)).
    set (d0 := rx_datagram a (single_msg packet pkt)) in *. change (rx_datagram a <$> [single_msg packet pkt]) with [d0] in *.
    assert (arrived = replicate (length arrived) d0) as Harr.
    { symmetry. apply replicate_as_Forall. split; [done|]. apply Forall_forall. intros d Hd%Hin%list_elem_of_singleton. done. }
    split_and!.
    + by rewrite fmap_replicate.
    + apply Forall_replicate. pose proof (len_nonneg (pkt_payload packet)).
      pose proof (target_addr_size_min (pkt_target packet)).
      unfold rx_wf, single_msg; cbn. split_and!; try lia; try done.
      * by apply address_from_target_wf.
      * unfold is_u16. lia.
    + by apply Forall_replicate.
    + intros n s _. rewrite Harr at 1. rewrite !take_replicate. set (k := (n `min` length arrived)%nat).
      exists k. rewrite length_replicate. split_and!; [|split|..].
      * clearbody k. clear. revert s. induction k as [|k IH]; intros s; [done|].
        cbn [replicate rx_spec single_msg rx_total]. change (1 <? 1) with false. cbn iota. specialize (IH s).
        destruct (rx_spec a (replicate k _) s). cbn in *. rewrite IH. unfold received.
        by rewrite target_or_placeholder_from.
      * intros Hk d ->%list_elem_of_singleton. apply elem_of_replicate. split; [done|lia].
      * intros Hall. specialize (Hall d0 ltac:(left)). apply elem_of_replicate in Hall as [_ ?]. lia.
      * intros d ->%list_elem_of_singleton. unfold arrivals. clearbody d0. clear.
        induction k as [|k IH]; [done|]. cbn [replicate]. rewrite filter_cons, decide_True by done. cbn [length]. lia.
      * done.
  - specialize (Hwf Hbig). pose proof (packet_frag_count_big packet mds (proj1 Hm) Hbig) as Hn.
    set (n := packet_frag_count packet mds) in *.
    assert (forall i, 0 <= i < n -> rx_wf (frag_msg packet pkt mds i)) as Hmw.
    { intros i Hi. apply (frag_datagram_msg packet a pkt mds i Hwf (proj2 Hm) Hi). }
    set (f := fun i => rx_datagram a (frag_msg packet pkt mds i)).
    rewrite <-list_fmap_compose in *. change (rx_datagram a ∘ frag_msg packet pkt mds) with f in *.
    destruct (datagram_indices f n arrived Hin) as (l&->&Hrange).
    assert (forall i j, 0 <= i < n -> 0 <= j < n -> f i = f j -> i = j) as Hinj.
    { intros i j Hi Hj He. apply rx_datagram_inj in He; auto. by injection He. }
    exists (frag_msg packet pkt mds <$> l). split_and!.
    + by rewrite <-list_fmap_compose.
    + apply Forall_fmap, Forall_forall. intros i Hi. apply Hmw, Hrange, Hi.
    + by apply Forall_fmap, Forall_true.
    + intros m s Hs. rewrite <-!fmap_take.
      assert (forall i, i ∈ take m l -> 0 <= i < n) as Htake.
      { intros i Hi. apply Hrange. rewrite <-(take_drop m l). set_solver. }
      destruct (rx_spec_delivers packet a pkt mds (take m l) s) as (k&Hk&Hiff&Hle); [apply Hwf|done..|].
      exists k. split_and!; [done| | |].
      * rewrite Hiff. split.
        -- intros Hall d (i&->&Hi%elem_of_seqZ)%list_elem_of_fmap. apply list_elem_of_fmap_2, Hall. fold n. lia.
        -- intros Hall i Hi. destruct (proj1 (list_elem_of_fmap _ _ _) (Hall (f i) (list_elem_of_fmap_2 f _ i
             (proj2 (elem_of_seqZ 0 n i) ltac:(fold n in Hi; lia))))) as (j&Hj&Hjl).
           apply Hinj in Hj as ->; [done|done|by apply Htake].
      * intros d (i&->&Hi%elem_of_seqZ)%list_elem_of_fmap. etrans; [apply (Hle i); fold n; lia|].
        apply (copies_arrivals f).
      * rewrite length_fmap, length_seqZ. lia.
Qed.

(** C1: end to end.  When [send_packet] succeeds and its datagrams travel over
    a network that loses, reorders and repeats them at will, before and after
    the packet is complete, an open association of the peer that has room
    receives this packet and nothing else, target and payload unchanged, and
    the receiver never panics.  It receives it if and only if every datagram
    arrived, and never more often than the datagram that arrived least: so
    exactly once when none is lost or repeated.  A packet in a single datagram
    is received once for each copy.  The poll loop takes all the datagrams, or
    stops because the packets have overflowed the association's channel.
    Conditions: the datagram limit leaves room for a header, the receiver has
    fewer than 1000 incomplete packets and none with this packet's id. *)
Theorem udp_end_to_end checks checks' log packet (s : UdpStream) h s' h' arrived nows
    (st : TuicOutbound) (u : UdpStream) :
  let sent := sent_datagrams (drop (length h) h') in
  sender_ok packet s (default 1200 (q_max_datagram_size h)) ->
  send_packet checks packet (s, h) = Returns (Ok (), (s', h')) ->
  (forall d, d ∈ arrived -> d ∈ sent) -> length nows = length arrived ->
  assoc_stream (us_assoc_id s) st = Some u -> us_receive_open u = true -> poll_blocked st = false ->
  frb_wf (us_fragment_buffer u) -> (size (frb_abs (us_fragment_buffer u)) < 1000)%nat ->
  frb_abs (us_fragment_buffer u) !! (us_assoc_id s, us_next_pkt_id s) = None ->
  exists n k st' u',
    receive_all checks' log (zip nows arrived) st = Returns (st', drop n (zip nows arrived)) /\
    assoc_stream (us_assoc_id s) st' = Some u' /\
    us_receive u' = us_receive u ++ replicate k (received packet) /\
    ((0 < k)%nat <-> forall d, d ∈ sent -> d ∈ take n arrived) /\
    (forall d, d ∈ sent -> (k <= arrivals d (take n arrived))%nat) /\
    (length sent = 1%nat -> k = length (take n arrived)) /\
    ((n >= length arrived)%nat \/ CHANNEL_CAPACITY < len (us_receive u')).
Proof.
  cbv zeta. intros Hok Hsend Hin Hlen Hst Hopen Hbl Hwf Hsz Hnew.
  destruct (send_packet_msgs checks packet s h s' h' Hok Hsend) as (Hf&Hfw&->).
  rewrite drop_app_length, sent_accepted in *. destruct Hok as [Ha Hp Ht Hm].
  destruct (packet_msgs_received packet (us_assoc_id s) (us_next_pkt_id s)
    (default 1200 (q_max_datagram_size h)) arrived) as (ms&->&Hms&Hpkt&Hrx); [done..|].
  set (K := {[(us_assoc_id s, us_next_pkt_id s)]} ∪ dom (frb_abs (us_fragment_buffer u))).
  rewrite length_fmap in Hlen.
  destruct (receive_all_refines checks' log (us_assoc_id s) ms nows st u)
    as (n&st'&u'&Hrun&Hst'&Hr&Hor); [done..|apply (rx_room_keys _ _ _ K); [set_solver| |]|].
  - intros k. unfold rx_keys, K. rewrite elem_of_list_to_set, list_elem_of_fmap.
    intros (m&->&Hm'). rewrite (proj1 (Forall_forall _ _) Hpkt m Hm'). set_solver.
  - unfold K. rewrite size_union_alt, size_singleton.
    enough (size (dom (frb_abs (us_fragment_buffer u)) ∖ {[(us_assoc_id s, us_next_pkt_id s)]})
      <= size (frb_abs (us_fragment_buffer u)))%nat by lia.
    rewrite <-size_dom. apply subseteq_size. set_solver.
  - destruct (Hrx n _ Hnew) as (k&Hk&H1&H2&H3). exists n, k, st', u'. rewrite Hk in Hr.
    rewrite <-(length_fmap (rx_datagram (us_assoc_id s)) ms) in Hor. exact (conj Hrun (conj Hst' (conj Hr (conj H1 (conj H2 (conj H3 Hor)))))).
Qed.
End laws.

(** ** Witness: three datagrams, reordered and duplicated *)

Definition demo_wire (i : Z) : bytes := frag_datagram (U:=list_uuid) demo_big 7 0 25 i.

Definition demo_history : list (QuicCall * bool) :=
  accepted <$> packet_datagrams (U:=list_uuid) demo_big 7 0 25.

(** The packet completes at the fourth datagram; the fifth is a late copy. *)
Definition demo_arrived : list bytes := demo_wire <$> [2; 0; 2; 1; 0].

Lemma udp_end_to_end_witness :
  exists n k st' u',
    receive_all (B:=list_bytes) (U:=list_uuid) true true (zip [1; 2; 3; 4; 5] demo_arrived) demo_assoc_client
      = Returns (st', drop n (zip [1; 2; 3; 4; 5] demo_arrived)) /\
    assoc_stream 7 st' = Some u' /\ us_receive u' = replicate k (received demo_big) /\
    ((0 < k)%nat <-> forall d, d ∈ demo_wire <$> [0; 1; 2] -> d ∈ take n demo_arrived) /\
    (forall d, d ∈ demo_wire <$> [0; 1; 2] -> (k <= arrivals d (take n demo_arrived))%nat) /\
    (3%nat = 1%nat -> k = length (take n demo_arrived)) /\
    ((n >= 5)%nat \/ CHANNEL_CAPACITY < len (us_receive u')).
Proof.
  apply (udp_end_to_end (BL:=list_bytes_laws) (UL:=list_uuid_laws) (ML:=bounded_map_laws)
    (Q:=demo_mtu) true true true demo_big demo_stream [] (us_set_next_pkt_id 1 demo_stream)
    demo_history demo_arrived [1; 2; 3; 4; 5] demo_assoc_client demo_stream).
  - split; by_compute.
  - vm_compute. reflexivity.
  - intros d. change (sent_datagrams _) with (demo_wire <$> [0; 1; 2]). unfold demo_arrived.
    cbn [app fmap list_fmap]. rewrite !elem_of_cons, elem_of_nil. tauto.
  - reflexivity.
  - reflexivity.
  - reflexivity.
  - by_compute.
  - apply (frb_new_wf (ML:=bounded_map_laws)).
  - vm_compute. lia.
  - reflexivity.
Defined.
