(* ===== verification/Inbound.v ===== *)
(** * The TUIC server (wind-tuic/src/inbound.rs)

    One QUIC connection after the other: accepting it, the loop over its
    streams and datagrams, authentication, the command handlers.  The
    connection context is the state; the handlers run in the error monad; the
    loop is a step function over what the connection produces. *)

From stdpp Require Import base list gmap strings.
From S2P Require Import Prelude BytesCrate Types Codec Header Cmd Addr Quinn Io.
From S2P Require Import Proto Moka.

(** ** [quinn::RecvStream], as an interface

    [recv_rest] is what the peer has sent, or will, before it finishes the
    stream.  [None] is a read error: the limit exceeded, the stream finished
    early, reset, or lost. *)
Class RecvOps := {
  RecvStream : Type;
  recv_rest : RecvStream -> bytes;
  read_to_end : Z -> RecvStream -> option bytes * RecvStream;
  read_exact : Z -> RecvStream -> option bytes * RecvStream
}.

(** What the crate documents: [read_to_end] returns all that is left and
    fails beyond its limit, [read_exact] the next [n] bytes. *)
Class RecvLaws (R : RecvOps) : Prop := {
  read_to_end_sound n r d r' : read_to_end n r = (Some d, r') ->
    d = recv_rest r /\ len d <= n /\ recv_rest r' = [];
  read_exact_sound n r d r' : 0 <= n -> read_exact n r = (Some d, r') ->
    len d = n /\ recv_rest r = d ++ recv_rest r';
  recv_rest_ok r : bytes_ok (recv_rest r)
}.

(** A stream the peer has finished, as its content. *)
Definition finished_stream : RecvOps := {|
  RecvStream := bytes;
  recv_rest r := as_u8 <$> r;
  read_to_end n r := if len r <=? n then (Some (as_u8 <$> r), []) else (None, r);
  read_exact n r := if n <=? len r then (Some (as_u8 <$> ztake n r), zdrop n r) else (None, r)
|}.

Lemma finished_stream_laws : RecvLaws finished_stream.
Proof.
  split; cbn.
  - intros n r d r'. destruct (Z.leb_spec (len r) n); intros; simplify_eq.
    split_and!; [done| |done]. unfold len in *. by rewrite length_fmap.
  - intros n r d r' Hn. destruct (Z.leb_spec n (len r)); intros; simplify_eq.
    rewrite <-fmap_app, ztake_zdrop. split; [|done].
    unfold len. rewrite length_fmap. by apply len_ztake.
  - intros r. apply Forall_fmap, Forall_true. intros x. cbn. unfold is_u8, as_u8.
    apply Z.mod_pos_bound. lia.
Qed.

(** ** Options *)

Section opts.
Context {U : UuidOps}.

(** Durations in milliseconds; certificate and key are opaque. *)
Record TuicInboundOpts := {
  io_listen_addr : SocketAddr;
  io_certificate : list bytes;
  io_private_key : bytes;
  io_alpn : list str;
  io_users : gmap Uuid str;
  io_auth_timeout : Z;
  io_max_idle_time : Z;
  io_max_concurrent_bi_streams : u32;
  io_max_concurrent_uni_streams : u32;
  io_send_window : u64;
  io_receive_window : u32;
  io_zero_rtt : bool;
  io_initial_mtu : u16;
  io_min_mtu : u16;
  io_gso : bool
}.

Definition TuicInboundOpts_default : TuicInboundOpts := {|
  io_listen_addr := SocketAddr_V4 [0; 0; 0; 0] 443;
  io_certificate := [];
  io_private_key := [];
  io_alpn := [[104; 51]];
  io_users := ∅;
  io_auth_timeout := 3000;
  io_max_idle_time := 15000;
  io_max_concurrent_bi_streams := 32;
  io_max_concurrent_uni_streams := 32;
  io_send_window := 8 * 1024 * 1024;
  io_receive_window := 8 * 1024 * 1024;
  io_zero_rtt := false;
  io_initial_mtu := 1200;
  io_min_mtu := 1200;
  io_gso := true
|}.

(** What [create_server_config] sets; everything else keeps its default. *)
Record ServerConfig := {
  sc_alpn_protocols : list bytes;
  sc_max_early_data_size : u32;
  sc_send_half_rtt_data : bool;
  sc_max_bidi : Z;
  sc_max_uni : Z;
  sc_send_window : u64;
  sc_stream_receive_window : Z;
  sc_max_idle_timeout : Z;
  sc_initial_mtu : u16;
  sc_min_mtu : u16;
  sc_gso : bool
}.

(** [cert_ok] and [quic_ok] are rustls' and quinn's verdicts on the key
    material; [IdleTimeout::try_from] takes less than [2^62] milliseconds. *)
Definition create_server_config (cert_ok quic_ok : bool) (opts : TuicInboundOpts) :
    result ServerConfig Report :=
  if negb cert_ok then Err (Report_Msg "Failed to configure TLS certificate")
  else if negb quic_ok then Err (Report_Msg "Failed to create QUIC server config")
  else if 2 ^ 62 <=? io_max_idle_time opts then Err (Report_Msg "Invalid max idle time")
  else Ok {|
    sc_alpn_protocols := io_alpn opts;
    sc_max_early_data_size := if io_zero_rtt opts then 2 ^ 32 - 1 else 0;
    sc_send_half_rtt_data := io_zero_rtt opts;
    sc_max_bidi := io_max_concurrent_bi_streams opts;
    sc_max_uni := io_max_concurrent_uni_streams opts;
    sc_send_window := io_send_window opts;
    sc_stream_receive_window := io_receive_window opts;
    sc_max_idle_timeout := io_max_idle_time opts;
    sc_initial_mtu := io_initial_mtu opts;
    sc_min_mtu := io_min_mtu opts;
    sc_gso := io_gso opts
  |}.
End opts.

(** ** A connection *)

Section inbound.
Context {B : BytesOps} {U : UuidOps} {Q : QuinnOps} {MO : MokaOps} {R : RecvOps}.

Record UdpSession := {
  se_assoc_id : u16;
  se_fragments : Cache Z bytes
}.

(** [ic_closed] is the application close of the connection; [ic_tcp] are the
    calls of [InboundCallback::handle_tcpstream], with the stream handed
    over. *)
Record InboundCtx := {
  ic_uuid : option Uuid;
  ic_users : gmap Uuid str;
  ic_udp_sessions : gmap Z UdpSession;
  ic_closed : bool;
  ic_tcp : list (TargetAddr * RecvStream)
}.

Definition ic_set_uuid (u : option Uuid) (c : InboundCtx) : InboundCtx :=
  {| ic_uuid := u; ic_users := ic_users c; ic_udp_sessions := ic_udp_sessions c;
     ic_closed := ic_closed c; ic_tcp := ic_tcp c |}.
Definition ic_set_sessions (s : gmap Z UdpSession) (c : InboundCtx) : InboundCtx :=
  {| ic_uuid := ic_uuid c; ic_users := ic_users c; ic_udp_sessions := s;
     ic_closed := ic_closed c; ic_tcp := ic_tcp c |}.
Definition ic_close (c : InboundCtx) : InboundCtx :=
  {| ic_uuid := ic_uuid c; ic_users := ic_users c; ic_udp_sessions := ic_udp_sessions c;
     ic_closed := true; ic_tcp := ic_tcp c |}.
Definition ic_push_tcp (t : TargetAddr) (r : RecvStream) (c : InboundCtx) : InboundCtx :=
  {| ic_uuid := ic_uuid c; ic_users := ic_users c; ic_udp_sessions := ic_udp_sessions c;
     ic_closed := ic_closed c; ic_tcp := ic_tcp c ++ [(t, r)] |}.

(** [callback.handle_tcpstream(target, stream).await]: its result is the
    environment's. *)
Context (handle_tcpstream : TargetAddr -> RecvStream -> result unit Report).

Definition call_tcpstream (t : TargetAddr) (r : RecvStream) : M InboundCtx Report unit :=
  m_modify (ic_push_tcp t r) ;;!
  m_of_result (handle_tcpstream t r).

(** [.map_err(..)?] on a read *)
Definition read_or {A} (o : option A) (msg : string) : M InboundCtx Report A :=
  match o with Some a => m_ret a | None => m_throw (Report_Msg msg) end.

Definition handle_auth (uuid : Uuid) (token : bytes) : M InboundCtx Report unit :=
  let! connection := m_get in
  let! password := read_or (ic_users connection !! uuid) "Unknown user" in
  let! expected_token := read_or (q_export_keying_material 32 (uuid_as_bytes uuid) password)
    "Failed to export keying material" in
  if bool_decide (token <> expected_token)
  then m_throw (Report_Msg "Invalid authentication token")
  else m_modify (ic_set_uuid (Some uuid)).

(** Only logs: relaying is not implemented. *)
Definition handle_udp_packet (assoc_id : u16) (target_addr : TargetAddr) (payload : bytes) :
    M InboundCtx Report unit := m_ret ().

Definition handle_dissociate (assoc_id : u16) : M InboundCtx Report unit :=
  let! connection := m_get in
  m_modify (ic_set_sessions (delete assoc_id (ic_udp_sessions connection))).

Definition handle_uni_stream (recv : RecvStream) : M InboundCtx Report unit :=
  let! data := read_or (read_to_end 65536 recv).1 "Failed to read stream" in
  let! (header, buf) := m_local (decode_header "uni stream") data in
  let! (cmd, buf) := m_local (decode_command (hdr_command header) "uni stream") buf in
  match cmd with
  | Command_Auth uuid token => handle_auth uuid token
  | Command_Packet assoc_id _ _ _ size =>
    let! (addr, buf) := m_local (decode_address "uni stream packet") buf in
    let! (payload, _) := m_lift (split_to size buf) in
    let! target_addr := m_of_result (address_to_target addr) in
    handle_udp_packet assoc_id target_addr payload
  | Command_Dissociate assoc_id => handle_dissociate assoc_id
  | Command_Heartbeat => m_ret ()
  | _ => m_ret ()
  end.

Definition handle_bi_stream (recv : RecvStream) : M InboundCtx Report unit :=
  let! connection := m_get in
  if bool_decide (ic_uuid connection = None) then m_ret ()
  else
    let '(header_buf, recv) := read_exact 2 recv in
    let! buf := read_or header_buf "Failed to read header" in
    let! (header, buf) := m_local (decode_header "bi stream") buf in
    match hdr_command header with
    | CmdType_Connect =>
      m_local (decode_command CmdType_Connect "bi stream") [] ;;!
      let '(addr_data, recv) := read_to_end 512 recv in
      let! addr_buf := read_or addr_data "Failed to read address" in
      let! (addr, _) := m_local (decode_address "bi stream") addr_buf in
      let! target_addr := m_of_result (address_to_target addr) in
      call_tcpstream target_addr recv
    | _ => m_ret ()
    end.

Definition handle_datagram (data : bytes) : M InboundCtx Report unit :=
  let! connection := m_get in
  if bool_decide (ic_uuid connection = None) then m_ret ()
  else
    let! (header, buf) := m_local (decode_header "datagram") data in
    match hdr_command header with
    | CmdType_Packet =>
      let! (cmd, buf) := m_local (decode_command CmdType_Packet "datagram") buf in
      match cmd with
      | Command_Packet assoc_id _ _ _ size =>
        let! (addr, buf) := m_local (decode_address "datagram packet") buf in
        let! (payload, _) := m_lift (split_to size buf) in
        let! target_addr := m_of_result (address_to_target addr) in
        handle_udp_packet assoc_id target_addr payload
      | _ => m_ret ()
      end
    | CmdType_Heartbeat => m_ret ()
    | _ => m_ret ()
    end.

(** ** The connection loop *)

(** What the connection produces, [None] being a connection error, and the
    authentication timer of the spawned task. *)
Inductive ConnEvent :=
| Conn_Uni (recv : option RecvStream)
| Conn_Bi (recv : option RecvStream)
| Conn_Datagram (data : option bytes)
| Conn_AuthTimeout.

(** The loop has [break]ed, or is running. *)
Record ConnState := { cs_running : bool; cs_ctx : InboundCtx }.

Definition auth_timeout (c : InboundCtx) : InboundCtx :=
  match ic_uuid c with None => ic_close c | Some _ => c end.

(** An error of a handler is logged and the loop goes on; a panic unwinds
    through [listen]. *)
Definition conn_handler (c : InboundCtx) (h : M InboundCtx Report unit) : exec ConnState :=
  exec_bind (h c) (fun '(_, c') => Returns {| cs_running := true; cs_ctx := c' |}).

Definition conn_step (s : ConnState) (ev : ConnEvent) : exec ConnState :=
  let stop := Returns {| cs_running := false; cs_ctx := cs_ctx s |} in
  match ev with
  | Conn_AuthTimeout => Returns {| cs_running := cs_running s; cs_ctx := auth_timeout (cs_ctx s) |}
  | Conn_Uni r =>
    if cs_running s then
      match r with None => stop | Some recv => conn_handler (cs_ctx s) (handle_uni_stream recv) end
    else Returns s
  | Conn_Bi r =>
    if cs_running s then
      match r with None => stop | Some recv => conn_handler (cs_ctx s) (handle_bi_stream recv) end
    else Returns s
  | Conn_Datagram r =>
    if cs_running s then
      match r with None => stop | Some data => conn_handler (cs_ctx s) (handle_datagram data) end
    else Returns s
  end.

Fixpoint conn_run (s : ConnState) (evs : list ConnEvent) : exec ConnState :=
  match evs with
  | [] => Returns s
  | ev :: evs' => exec_bind (conn_step s ev) (fun s' => conn_run s' evs')
  end.

(** How quinn answers for an incoming connection. *)
Record Incoming := {
  inc_accept : bool;
  inc_into_0rtt : bool;
  inc_connecting : bool;
  inc_events : list ConnEvent
}.

Definition InboundCtx_new (users : gmap Uuid str) : InboundCtx :=
  {| ic_uuid := None; ic_users := users; ic_udp_sessions := ∅; ic_closed := false; ic_tcp := [] |}.

(** [None]: the connection was not accepted, and [handle_connection] returned
    [Ok]. *)
Definition handle_connection (incoming : Incoming) (users : gmap Uuid str) (zero_rtt : bool) :
    exec (result (option ConnState) Report) :=
  if negb (inc_accept incoming) then Returns (Ok None)
  else if (zero_rtt && inc_into_0rtt incoming) || inc_connecting incoming
  then exec_bind (conn_run {| cs_running := true; cs_ctx := InboundCtx_new users |} (inc_events incoming))
         (fun s => Returns (Ok (Some s)))
  else Returns (Err (Report_Msg "Failed to establish QUIC connection")).

(** [listen] after its set-up: one connection at a time until cancelled. *)
Inductive ListenEvent :=
| Listen_Cancelled
| Listen_Accept (incoming : Incoming).

Fixpoint listen_loop (opts : TuicInboundOpts) (evs : list ListenEvent)
    (served : list ConnState) : exec (list ConnState) :=
  match evs with
  | [] => Returns served
  | Listen_Cancelled :: _ => Returns served
  | Listen_Accept incoming :: evs' =>
    exec_bind (handle_connection incoming (io_users opts) (io_zero_rtt opts)) (fun r =>
    listen_loop opts evs' match r with Ok (Some s) => served ++ [s] | _ => served end)
  end.

(** The endpoint's address is only unwrapped for a log line. *)
Definition listen (log_info cert_ok quic_ok bind_ok endpoint_ok local_addr_ok : bool) (opts : TuicInboundOpts)
    (evs : list ListenEvent) : exec (result (list ConnState) Report) :=
  match create_server_config cert_ok quic_ok opts with
  | Err e => Returns (Err e)
  | Ok _ =>
    if negb bind_ok then Returns (Err (Report_Msg "Failed to bind socket"))
    else if negb endpoint_ok then Returns (Err (Report_Msg "Failed to create QUIC endpoint"))
    else if log_info && negb local_addr_ok then Panics
    else exec_bind (listen_loop opts evs []) (fun served => Returns (Ok served))
  end.
End inbound.

Arguments InboundCtx : clear implicits.
Arguments InboundCtx {U MO R}.
Arguments ConnState : clear implicits.
Arguments ConnState {U MO R}.
