(* ===== verification/Server.v ===== *)
(** * What the TUIC server guarantees

    Theorems about Inbound.v: authentication is sound and complete with
    respect to the keying material both ends export, TCP relaying needs it,
    and what the handlers do with malformed or inconvenient input. *)

From stdpp Require Import base list gmap strings.
From S2P Require Import Prelude BytesCrate Types Codec Header Cmd Addr Quinn Io.
From S2P Require Import Proto Messages Moka Inbound.

Section laws.
Context {B : BytesOps} {BL : BytesLaws B} {U : UuidOps} {UL : UuidLaws U} {Q : QuinnOps}
        {MO : MokaOps} {R : RecvOps} {RL : RecvLaws R}.
Context (cb : TargetAddr -> RecvStream -> result unit Report).

(** [data] opens with the Authenticate command of user [u], with the token
    both ends derive from the user's password. *)
Definition valid_auth (users : gmap Uuid str) (u : Uuid) (data : bytes) : Prop :=
  exists password token rest,
    users !! u = Some password /\
    q_export_keying_material 32 (uuid_as_bytes u) password = Some token /\
    data = message_wire (Command_Auth u token) None ++ rest.

(** ** The handlers, case by case *)

(** The three possible effects of a unidirectional stream. *)
Lemma handle_uni_effect recv c r c' :
  handle_uni_stream recv c = Returns (r, c') ->
  c' = c \/
  (exists u, valid_auth (ic_users c) u (recv_rest recv) /\ c' = ic_set_uuid (Some u) c /\ r = Ok ()) \/
  (exists a, c' = ic_set_sessions (delete a (ic_udp_sessions c)) c).
Proof.
  unfold handle_uni_stream. destruct (read_to_end 65536 recv) as [[data|] recv'] eqn:Hr; cbn [fst].
  2: { intros [= _ <-]. by left. }
  destruct (read_to_end_sound _ _ _ _ Hr) as (->&_&_).
  unfold read_or at 1. rewrite run_ret. unfold decode_header, decode_command, decode_address.
  pose proof (recv_rest_ok recv) as Hok.
  destruct (decode_some_cases header_codec (recv_rest recv) (incomplete "header" "uni stream") Hok)
    as [(?&?&Hd)|(h&r1&Hd&[Hv Hh]&Hw&Hok1)].
  { erewrite run_local_err by done. intros [= _ <-]. by left. }
  erewrite run_local_ok by done.
  destruct (decode_some_cases (cmd_codec (hdr_command h)) r1 (incomplete "command" "uni stream") Hok1)
    as [(?&?&Hd2)|(cmd&r2&Hd2&Hc&->&Hok2)].
  { erewrite run_local_err by done. intros [= _ <-]. by left. }
  erewrite run_local_ok by done.
  destruct cmd as [u token| |a pkt total id size|a|]; cbn beta iota.
  - unfold handle_auth. rewrite run_get. unfold read_or.
    destruct (ic_users c !! u) as [password|] eqn:Hu; [|intros [= _ <-]; by left]. rewrite run_ret.
    destruct (q_export_keying_material _ _ _) as [expected|] eqn:He; [|intros [= _ <-]; by left].
    rewrite run_ret. case_bool_decide as Ht; [intros [= _ <-]; by left|].
    subst token. intros [= <- <-]. right; left. exists u.
    split_and!; [|done..]. exists password, expected, r2. split_and!; [done..|].
    rewrite Hw. unfold message_wire, header_wire. destruct Hc as [Hty _]. cbn in Hty |- *.
    rewrite <-Hty, Hv. by rewrite app_nil_r.
  - intros [= _ <-]. by left.
  - destruct (decode_some_cases addr_codec r2 (incomplete "address" "uni stream packet") Hok2)
      as [(?&?&Hd3)|(addr&rest&Hd3&Ha&->&_)].
    { erewrite run_local_err by done. intros [= _ <-]. by left. }
    erewrite run_local_ok by done. cbn beta iota.
    destruct (split_to size rest) as [[payload r3]|] eqn:Hs; [|by rewrite run_lift_panic].
    erewrite run_lift by done. unfold m_bind, m_of_result.
    destruct (address_to_target addr); intros [= _ <-]; by left.
  - intros [= _ <-]. right; right. by exists a.
  - intros [= _ <-]. by left.
Qed.

(** A bidirectional stream changes nothing but the list of TCP calls, and
    that only on an authenticated connection. *)
Lemma handle_bi_effect recv c r c' :
  handle_bi_stream cb recv c = Returns (r, c') ->
  c' = c \/ (is_Some (ic_uuid c) /\ exists t s, c' = ic_push_tcp t s c).
Proof.
  unfold handle_bi_stream. rewrite run_get, run_if. case_bool_decide as Hu.
  { intros [= _ <-]. by left. }
  intros H. unfold m_bind, m_local, read_or, call_tcpstream, m_modify, m_of_result, m_ret, m_throw in H.
  repeat (case_match; simplify_eq/=); try (by left); right;
    (split; [by destruct (ic_uuid _)|]).
  unfold m_bind in H. simplify_eq. eauto.
Qed.

Lemma handle_datagram_effect data c r c' :
  handle_datagram data c = Returns (r, c') -> c' = c.
Proof.
  unfold handle_datagram. rewrite run_get, run_if. case_bool_decide; [by intros [= _ <-]|].
  intros H1. unfold m_bind, m_local, handle_udp_packet, m_of_result, m_lift, m_ret in H1.
  repeat (case_match; simplify_eq/=); done.
Qed.

(** ** Authentication *)

(** The contents of the unidirectional streams among the events. *)
Definition uni_data (evs : list ConnEvent) : list bytes :=
  omap (fun ev => match ev with Conn_Uni (Some recv) => Some (recv_rest recv) | _ => None end) evs.

Lemma uni_data_cons ev evs : uni_data (ev :: evs) = uni_data [ev] ++ uni_data evs.
Proof. exact (omap_app _ [ev] evs). Qed.

Definition auth_inv (users : gmap Uuid str) (seen : list bytes) (c : InboundCtx) : Prop :=
  ic_users c = users /\
  (forall u, ic_uuid c = Some u -> exists d, d ∈ seen /\ valid_auth users u d) /\
  (ic_tcp c <> [] -> is_Some (ic_uuid c)).

Lemma conn_step_inv users seen s ev s' :
  auth_inv users seen (cs_ctx s) -> conn_step cb s ev = Returns s' ->
  auth_inv users (seen ++ uni_data [ev]) (cs_ctx s').
Proof.
  intros Hinv Hstep.
  assert (auth_inv users (seen ++ uni_data [ev]) (cs_ctx s)) as Hw.
  { destruct Hinv as (?&Hu&?). split_and!; [done| |done].
    intros u (d&?&?)%Hu. exists d. split; [set_solver|done]. }
  unfold conn_step, conn_handler in Hstep.
  destruct ev as [[recv|]|[recv|]|[data|]|]; try (by case_match; simplify_eq).
  - destruct (cs_running s); [|by simplify_eq].
    destruct (handle_uni_stream recv (cs_ctx s)) as [[r c']|] eqn:Hh; [|done].
    cbn in Hstep. simplify_eq. cbn [cs_ctx].
    apply handle_uni_effect in Hh as [->|[(u&Hv&->&_)|(a&->)]]; [done| |done].
    destruct Hw as (Hus&_&Htcp). split_and!; [done| |done].
    cbn. intros u' [= <-]. rewrite Hus in Hv. exists (recv_rest recv). split; [set_solver|done].
  - destruct (cs_running s); [|by simplify_eq].
    destruct (handle_bi_stream cb recv (cs_ctx s)) as [[r c']|] eqn:Hh; [|done].
    cbn in Hstep. simplify_eq. cbn [cs_ctx].
    apply handle_bi_effect in Hh as [->|(Hu&t&st&->)]; [done|].
    destruct Hw as (?&?&?). by split_and!.
  - destruct (cs_running s); [|by simplify_eq].
    destruct (handle_datagram data (cs_ctx s)) as [[r c']|] eqn:Hh; [|done].
    cbn in Hstep. simplify_eq. cbn [cs_ctx]. by apply handle_datagram_effect in Hh as ->.
  - simplify_eq. cbn [cs_ctx]. unfold auth_timeout. by destruct (ic_uuid (cs_ctx s)).
Qed.

Lemma conn_run_inv users seen s evs s' :
  auth_inv users seen (cs_ctx s) -> conn_run cb s evs = Returns s' ->
  auth_inv users (seen ++ uni_data evs) (cs_ctx s').
Proof.
  revert seen s; induction evs as [|ev evs IH]; intros seen s Hinv; cbn [conn_run].
  { intros [= <-]. by rewrite app_nil_r. }
  destruct (conn_step cb s ev) as [s1|] eqn:Hs; [|done]. cbn [exec_bind]. intros Hr.
  rewrite uni_data_cons, app_assoc.
  apply (IH _ s1); [|done]. by apply (conn_step_inv users seen s).
Qed.

(** C4: no relaying without authentication.  Whatever a client sends, in
    whatever order, if the server has asked for a TCP connection on its behalf
    then the connection carries a user id, and if it carries one then the
    client has sent, on a unidirectional stream, that user's Authenticate
    command with the token derived from that user's password and this TLS
    session. *)
Theorem tcp_requires_authentication users evs s' :
  conn_run cb {| cs_running := true; cs_ctx := InboundCtx_new users |} evs = Returns s' ->
  (ic_tcp (cs_ctx s') <> [] -> is_Some (ic_uuid (cs_ctx s'))) /\
  (forall u, ic_uuid (cs_ctx s') = Some u -> exists d, d ∈ uni_data evs /\ valid_auth users u d).
Proof.
  intros Hr. apply (conn_run_inv users []) in Hr as (_&Hu&Ht); [by split|].
  by split_and!.
Qed.

(** ** Running the handlers on a message *)

(** A stream whose whole content arrives. *)
Definition delivers (limit : Z) (recv : RecvStream) (data : bytes) : Prop :=
  exists recv', read_to_end limit recv = (Some data, recv').

Lemma handle_uni_start recv data c :
  delivers 65536 recv data ->
  handle_uni_stream recv c =
  (let! (header, buf) := m_local (decode_header "uni stream") data in
   let! (cmd, buf) := m_local (decode_command (hdr_command header) "uni stream") buf in
   match cmd with
   | Command_Auth uuid token => handle_auth uuid token
   | Command_Packet assoc_id _ _ _ size =>
     let! (addr, buf) := m_local (decode_address "uni stream packet") buf in
     let! (payload, _) := m_lift (split_to size buf) in
     let! target_addr := m_of_result (address_to_target addr) in
     handle_udp_packet assoc_id target_addr payload
   | Command_Dissociate assoc_id => handle_dissociate assoc_id
   | Command_Heartbeat => m_ret ()
   | _ => m_ret ()
   end) c.
Proof. intros [recv' Hr]. unfold handle_uni_stream. by rewrite Hr. Qed.

Lemma local_header_command (cmd : Command) rest ctx ctx' {A}
    (k : Header -> Command -> bytes -> M InboundCtx Report A) c :
  command_wf (CmdType_from_Command cmd) cmd ->
  (let! (h, buf) := m_local (decode_header ctx)
     (header_wire (Header_new (CmdType_from_Command cmd)) ++ command_wire cmd ++ rest) in
   let! (cmd', buf) := m_local (decode_command (hdr_command h) ctx') buf in k h cmd' buf) c =
  k (Header_new (CmdType_from_Command cmd)) cmd rest c.
Proof.
  intros Hc. unfold decode_header, decode_command.
  erewrite run_local_ok by (apply (decode_some_ok header_codec), header_new_wf, command_type_known).
  cbn beta iota. cbn [Header_new hdr_command].
  by erewrite run_local_ok by (by apply (decode_some_ok (cmd_codec _))).
Qed.

Lemma handle_uni_auth recv u token rest c :
  len token = 32 -> bytes_ok token ->
  delivers 65536 recv (message_wire (Command_Auth u token) None ++ rest) ->
  handle_uni_stream recv c = handle_auth u token c.
Proof.
  intros Hl Hb Hd. rewrite (handle_uni_start _ _ _ Hd). unfold message_wire.
  rewrite app_nil_r, <-app_assoc. by rewrite local_header_command by done.
Qed.

Lemma handle_auth_eq u token c :
  handle_auth u token c =
  match ic_users c !! u with
  | None => Returns (Err (Report_Msg "Unknown user"), c)
  | Some password =>
    match q_export_keying_material 32 (uuid_as_bytes u) password with
    | None => Returns (Err (Report_Msg "Failed to export keying material"), c)
    | Some expected =>
      if bool_decide (token <> expected)
      then Returns (Err (Report_Msg "Invalid authentication token"), c)
      else Returns (Ok (), ic_set_uuid (Some u) c)
    end
  end.
Proof.
  unfold handle_auth, read_or. rewrite run_get. destruct (ic_users c !! u); [|done]. rewrite run_ret.
  destruct (q_export_keying_material _ _ _); [|done]. rewrite run_ret. by case_bool_decide.
Qed.

Lemma send_auth_run uuid secret token h :
  QuinnLaws Q -> q_export_keying_material 32 (uuid_as_bytes uuid) secret = Some token ->
  send_auth uuid secret h =
  (let! send := open_uni in
   write_chunk send (message_wire (Command_Auth uuid token) None) ;;! m_ret ()) h.
Proof.
  intros QL Ht. unfold send_auth. rewrite Ht, run_ret. cbv zeta.
  destruct (q_ekm_len 32 _ _ _ ltac:(lia) Ht) as [Hl Hb].
  rewrite (encode_into_ok header_codec) by done.
  rewrite (encode_into_ok (cmd_codec CmdType_Auth)) by done.
  unfold message_wire. cbn [app CmdType_from_Command]. by rewrite app_nil_r.
Qed.

(** C8: authentication completes.  If the client's [send_auth] succeeds, and
    the server receives the stream it wrote and knows the user by the same
    password, the connection is authenticated as that user. *)
Theorem send_auth_accepted uuid secret h h' recv c :
  QuinnLaws Q -> send_auth uuid secret h = Returns (Ok (), h') ->
  ic_users c !! uuid = Some secret ->
  exists sid data,
    h' = h ++ [(OpenUni, true); (WriteChunk sid data, true)] /\
    (delivers 65536 recv data ->
     handle_uni_stream recv c = Returns (Ok (), ic_set_uuid (Some uuid) c)).
Proof.
  intros QL Hs Hu.
  destruct (q_export_keying_material 32 (uuid_as_bytes uuid) secret) as [token|] eqn:Ht.
  2: { unfold send_auth in Hs. by rewrite Ht in Hs. }
  rewrite (send_auth_run _ _ token) in Hs by done.
  unfold open_uni, write_chunk, q_call, guard_unit, m_bind, m_ret in Hs.
  destruct (q_open_uni h) as [sid|]; [|done]. destruct (q_write_chunk _ _ _); simplify_eq.
  exists sid, (message_wire (Command_Auth uuid token) None). rewrite <-app_assoc.
  split; [done|]. intros Hd. destruct (q_ekm_len 32 _ _ _ ltac:(lia) Ht).
  rewrite <-(app_nil_r (message_wire _ _)) in Hd.
  rewrite (handle_uni_auth _ _ _ _ _ ltac:(done) ltac:(done) Hd), handle_auth_eq, Hu, Ht.
  by rewrite bool_decide_false by (intros Hn; by apply Hn).
Qed.

(** C30: a rejected token has no effect at all.  An unknown user or a token
    that is not the expected one is an error that leaves the whole context as
    it was: not authenticated, but also not closed, so that the client may try
    again until the timeout. *)
Theorem auth_rejected recv u token rest c :
  len token = 32 -> bytes_ok token ->
  delivers 65536 recv (message_wire (Command_Auth u token) None ++ rest) ->
  (forall password, ic_users c !! u = Some password ->
     q_export_keying_material 32 (uuid_as_bytes u) password <> Some token) ->
  (exists e, handle_uni_stream recv c = Returns (Err e, c)) /\
  conn_step cb {| cs_running := true; cs_ctx := c |} (Conn_Uni (Some recv)) =
    Returns {| cs_running := true; cs_ctx := c |}.
Proof.
  intros Hl Hb Hd Hbad.
  assert (exists e, handle_uni_stream recv c = Returns (Err e, c)) as [e He].
  { rewrite (handle_uni_auth _ _ _ _ _ Hl Hb Hd), handle_auth_eq.
    destruct (ic_users c !! u) as [password|]; [|by eexists].
    specialize (Hbad password eq_refl). destruct (q_export_keying_material _ _ _); [|by eexists].
    rewrite bool_decide_true by congruence. by eexists. }
  split; [by exists e|]. cbn. unfold conn_handler. by rewrite He.
Qed.

(** ** UDP packets and TCP connections *)

Lemma handle_uni_packet recv a pkt total id size addr rest c :
  command_wf CmdType_Packet (Command_Packet a pkt total id size) -> address_wf addr ->
  delivers 65536 recv (message_wire (Command_Packet a pkt total id size) (Some addr) ++ rest) ->
  handle_uni_stream recv c =
  if len rest <? size then Panics
  else Returns (match address_to_target addr with Ok _ => Ok () | Err e => Err e end, c).
Proof.
  intros Hc Ha Hd. rewrite (handle_uni_start _ _ _ Hd). unfold message_wire.
  rewrite <-!app_assoc. rewrite (local_header_command (Command_Packet a pkt total id size)) by done.
  unfold decode_address. erewrite run_local_ok by (by apply (decode_some_ok addr_codec)).
  destruct Hc as (_&_&_&_&_&Hs). unfold is_u16 in Hs. cbn beta iota.
  destruct (Z.ltb_spec (len rest) size).
  - by rewrite run_lift_panic by (by apply split_to_short).
  - erewrite run_lift by (apply split_to_le; lia). cbn beta iota. unfold m_bind, m_of_result.
    by destruct (address_to_target addr).
Qed.

(** C38: an unauthenticated client can bring the server down.  A [Packet]
    command on a unidirectional stream is processed without authentication,
    and if it announces more payload than it carries the handler panics; the
    panic unwinds through [listen], so no further connection is served. *)
Theorem unauthenticated_panic (opts : TuicInboundOpts) evs recv a pkt total id size addr rest incoming :
  command_wf CmdType_Packet (Command_Packet a pkt total id size) -> address_wf addr ->
  delivers 65536 recv (message_wire (Command_Packet a pkt total id size) (Some addr) ++ rest) ->
  len rest < size ->
  inc_accept incoming = true -> inc_connecting incoming = true ->
  inc_events incoming = [Conn_Uni (Some recv)] ->
  listen_loop cb opts (Listen_Accept incoming :: evs) [] = Panics.
Proof.
  intros Hc Ha Hd Hlt H1 H2 H3. cbn [listen_loop]. unfold handle_connection.
  rewrite H1, H2, H3, orb_true_r. cbn. unfold conn_handler.
  rewrite (handle_uni_packet _ _ _ _ _ _ _ _ _ Hc Ha Hd). by rewrite (proj2 (Z.ltb_lt _ _)).
Qed.

(** Later fragments are refused.  The server answers a fragment without
    an address, which is how every fragment but the first travels, with an
    error. *)
Lemma server_refuses_later_fragments recv a pkt total id size payload c :
  command_wf CmdType_Packet (Command_Packet a pkt total id size) -> size = len payload ->
  delivers 65536 recv
    (message_wire (Command_Packet a pkt total id size) (Some Address_None) ++ payload) ->
  handle_uni_stream recv c =
    Returns (Err (Report_Msg "Address::None cannot be converted to TargetAddr"), c).
Proof.
  intros Hc -> Hd. rewrite (handle_uni_packet _ _ _ _ _ _ Address_None _ _ Hc I Hd).
  by rewrite (proj2 (Z.ltb_ge _ _)) by lia.
Qed.

(** A [Connect] stream on an authenticated connection, after its address has
    been read. *)
Lemma handle_bi_connect recv c r o r' :
  is_Some (ic_uuid c) ->
  read_exact 2 recv = (Some (header_wire (Header_new CmdType_Connect)), r) ->
  read_to_end 512 r = (o, r') ->
  handle_bi_stream cb recv c =
  match o with
  | None => Returns (Err (Report_Msg "Failed to read address"), c)
  | Some addr_buf =>
    (let! (addr, _) := m_local (decode_address "bi stream") addr_buf in
     let! target_addr := m_of_result (address_to_target addr) in
     call_tcpstream cb target_addr r') c
  end.
Proof.
  intros [u Hu] Hh Hr. unfold handle_bi_stream.
  rewrite run_get, run_if, bool_decide_false by congruence.
  rewrite Hh. unfold read_or at 1. rewrite run_ret. unfold decode_header.
  rewrite <-(app_nil_r (header_wire _)).
  erewrite run_local_ok by (by apply (decode_some_ok header_codec)). cbn beta iota.
  cbn [Header_new hdr_command]. unfold decode_command.
  erewrite run_local_ok by (by apply (decode_some_ok (cmd_codec CmdType_Connect) Command_Connect [])).
  rewrite Hr. by destruct o.
Qed.

Lemma handle_bi_target recv c r t rest r' :
  TargetAddr_ok t -> target_fits t -> is_Some (ic_uuid c) ->
  read_exact 2 recv = (Some (header_wire (Header_new CmdType_Connect)), r) ->
  read_to_end 512 r = (Some (address_wire (Address_from_TargetAddr t) ++ rest), r') ->
  handle_bi_stream cb recv c = Returns (cb t r', ic_push_tcp t r' c).
Proof.
  intros Ht Hf Hu Hh Hr. rewrite (handle_bi_connect _ _ _ _ _ Hu Hh Hr). unfold decode_address.
  erewrite run_local_ok by (by apply (decode_some_ok addr_codec), address_from_target_wf).
  cbn beta iota. unfold m_bind at 1, m_of_result at 1. by rewrite address_to_from_target.
Qed.

(** C39: what the server does with a TCP request.  On an authenticated
    connection, a stream with a [Connect] command and data after it leads, if
    address and data fit in 512 bytes, to a relay to that address whose input
    is already at its end: the data is gone.  If they do not fit there is no
    relay at all. *)
Theorem connect_swallows_data recv t rest c r :
  TargetAddr_ok t -> target_fits t -> is_Some (ic_uuid c) ->
  read_exact 2 recv = (Some (header_wire (Header_new CmdType_Connect)), r) ->
  recv_rest r = address_wire (Address_from_TargetAddr t) ++ rest ->
  (forall r', read_to_end 512 r = (Some (recv_rest r), r') ->
     recv_rest r' = [] /\
     handle_bi_stream cb recv c = Returns (cb t r', ic_push_tcp t r' c)) /\
  (512 < len (recv_rest r) ->
     handle_bi_stream cb recv c = Returns (Err (Report_Msg "Failed to read address"), c)).
Proof.
  intros Ht Hf Hu Hh Hrest. split.
  - intros r' Hr. split; [by apply (read_to_end_sound _ _ _ _ Hr)|]. rewrite Hrest in Hr.
    by eapply handle_bi_target.
  - intros Hbig. destruct (read_to_end 512 r) as [[d|] r'] eqn:Hr.
    + destruct (read_to_end_sound _ _ _ _ Hr) as (->&?&_). lia.
    + by rewrite (handle_bi_connect _ _ _ _ _ Hu Hh Hr).
Qed.

Lemma open_tcp_run t script h :
  TargetAddr_ok t -> target_fits t ->
  open_tcp t script h =
  (let! send := open_bi in
   write_chunk send (message_wire Command_Connect (Some (Address_from_TargetAddr t))) ;;!
   match copy_io script with
   | None => m_ret None
   | Some (a, b, Some e) => m_throw (Report_Io "copy_io")
   | Some (a, b, None) => m_ret (Some (a, b))
   end) h.
Proof.
  intros Ht Hf. unfold open_tcp. destruct (open_bi h) as [[[sid|e] h1]|] eqn:Hb.
  2: { by rewrite !(run_bind_err _ _ _ _ _ Hb). }
  2: { by rewrite !(run_bind_panic _ _ _ Hb). }
  rewrite !(run_bind_ok _ _ _ _ _ Hb).
  rewrite (encode_into_ok header_codec) by done.
  rewrite (encode_into_ok (cmd_codec CmdType_Connect)) by done.
  by rewrite (encode_into_ok addr_codec) by (by apply address_from_target_wf).
Qed.

(** The server's side of a stream that starts with a request and goes on with
    [early]: a relay to the target once the client has finished the stream and
    if it all fits, otherwise none. *)
Lemma server_reads_connect t (Ht : TargetAddr_ok t) (Hf : target_fits t) :
  let data := message_wire Command_Connect (Some (Address_from_TargetAddr t)) in
  forall recv c recv1 early,
    is_Some (ic_uuid c) -> recv_rest recv = data ++ early ->
    read_exact 2 recv = (Some (ztake 2 data), recv1) ->
    match read_to_end 512 recv1 with
    | (Some _, recv2) =>
      len data + len early <= 514 /\ recv_rest recv2 = [] /\
      handle_bi_stream cb recv c = Returns (cb t recv2, ic_push_tcp t recv2 c)
    | (None, _) => handle_bi_stream cb recv c = Returns (Err (Report_Msg "Failed to read address"), c)
    end.
Proof.
  intros data recv c recv1 early Hu Hrest H1.
  destruct (read_to_end 512 recv1) as [[d|] recv2] eqn:Hr; [|by rewrite (handle_bi_connect _ _ _ _ _ Hu H1 Hr)].
  destruct (read_exact_sound 2 _ _ _ ltac:(lia) H1) as [_ H2]. rewrite Hrest in H2.
  rewrite <-(ztake_zdrop 2 data), <-app_assoc in H2 at 1. apply app_inv_head in H2.
  destruct (read_to_end_sound _ _ _ _ Hr) as (->&Hl&Hend). rewrite <-H2 in Hr, Hl.
  rewrite len_app in Hl. split_and!; [|done|exact (handle_bi_target recv c recv1 t early recv2 Ht Hf Hu H1 Hr)].
  rewrite <-(ztake_zdrop 2 data), len_app. change (len (ztake 2 data)) with 2. lia.
Qed.

(** A TCP request from one end to the other.  The client's [open_tcp]
    writes, before anything else on its stream, a message that the server, on
    an authenticated connection and once the stream is finished within 512
    bytes, turns into a relay to exactly the requested target; and the client
    returns an error just when the transport refused or its relay ended with
    one. *)
Lemma tcp_request_end_to_end t script h r h' :
  TargetAddr_ok t -> target_fits t -> open_tcp t script h = Returns (r, h') ->
  (h' = h ++ [(OpenBi, false)] /\ r = Err (Report_Quinn "connection error")) \/
  exists sid data ok,
    h' = h ++ [(OpenBi, true); (WriteChunk sid data, ok)] /\
    (ok = false -> r = Err (Report_Quinn "connection error")) /\
    (ok = true ->
       r = match copy_io script with
           | None => Ok None
           | Some (_, _, Some _) => Err (Report_Io "copy_io")
           | Some (a, b, None) => Ok (Some (a, b))
           end) /\
    forall recv c recv1 early,
      is_Some (ic_uuid c) -> recv_rest recv = data ++ early ->
      read_exact 2 recv = (Some (ztake 2 data), recv1) ->
      match read_to_end 512 recv1 with
      | (Some _, recv2) =>
        len data + len early <= 514 /\ recv_rest recv2 = [] /\
        handle_bi_stream cb recv c = Returns (cb t recv2, ic_push_tcp t recv2 c)
      | (None, _) => handle_bi_stream cb recv c = Returns (Err (Report_Msg "Failed to read address"), c)
      end.
Proof.
  intros Ht Hf. rewrite open_tcp_run by done. unfold open_bi, write_chunk, q_call, guard_unit, m_bind.
  destruct (q_open_bi h) as [sid|]; intros Hr; [right|simplify_eq; by left].
  set (data := message_wire _ _) in *.
  pose proof (server_reads_connect t Ht Hf) as Hserver. fold data in Hserver.
  destruct (q_write_chunk _ sid data) eqn:Hw.
  - exists sid, data, true. rewrite <-app_assoc in Hr.
    destruct (copy_io script) as [[[a b] [e|]]|]; unfold m_ret, m_throw in Hr; by simplify_eq.
  - simplify_eq. exists sid, data, false. by rewrite <-app_assoc.
Qed.
End laws.

(** ** Witnesses *)

Definition demo_transport : QuinnOps := loopback (Some 1200) toy_ekm.
Definition demo_user : Uuid (UuidOps:=list_uuid) := uuid_from_bytes (UuidOps:=list_uuid) (replicate 16 7).
Definition demo_password : str := [112; 119].
Definition demo_users : gmap (Uuid (UuidOps:=list_uuid)) str := {[demo_user := demo_password]}.
Definition demo_token : bytes :=
  default [] (toy_ekm 32 (uuid_as_bytes (UuidOps:=list_uuid) demo_user) demo_password).
Definition demo_auth : bytes := message_wire (U:=list_uuid) (Command_Auth demo_user demo_token) None.
Definition demo_connect : bytes := [5; 1; 1; 10; 0; 0; 1; 0; 80].
Definition demo_cb (_ : TargetAddr) (_ : bytes) : result unit Report := Ok ().

Abbreviation demo_run := (conn_run (B:=list_bytes) (U:=list_uuid) (Q:=demo_transport)
  (MO:=bounded_map) (R:=finished_stream) demo_cb).
Abbreviation demo_ctx := (InboundCtx_new (U:=list_uuid) (MO:=bounded_map) (R:=finished_stream) demo_users).
Definition demo_server : ConnState (U:=list_uuid) (MO:=bounded_map) (R:=finished_stream) :=
  {| cs_running := true; cs_ctx := demo_ctx |}.

Definition demo_session : list (ConnEvent (R:=finished_stream)) :=
  [Conn_Bi (R:=finished_stream) (Some demo_connect);
   Conn_Uni (R:=finished_stream) (Some demo_auth);
   Conn_Bi (R:=finished_stream) (Some demo_connect)].

Lemma tcp_requires_authentication_witness :
  match demo_run demo_server demo_session with
  | Returns s' => ic_tcp (cs_ctx s') <> [] /\ is_Some (ic_uuid (cs_ctx s')) /\
      exists d, d ∈ uni_data demo_session /\
        valid_auth (U:=list_uuid) (Q:=demo_transport) demo_users demo_user d
  | Panics => False
  end.
Proof.
  assert (match demo_run demo_server demo_session with
          | Returns s' => ic_tcp (cs_ctx s') <> [] /\ ic_uuid (cs_ctx s') = Some demo_user
          | Panics => False end) as Hrun
    by (split; [vm_compute; discriminate|by_compute]).
  destruct (demo_run demo_server demo_session) as [s'|] eqn:Hs; [|done]. destruct Hrun as [Ht Hu].
  destruct (tcp_requires_authentication (BL:=list_bytes_laws) (UL:=list_uuid_laws)
    (RL:=finished_stream_laws) demo_cb demo_users demo_session s' Hs) as [H1 H2].
  split_and!; [done|by apply H1|by apply H2].
Defined.

Lemma send_auth_accepted_witness : exists sid data,
  handle_uni_stream (B:=list_bytes) (U:=list_uuid) (Q:=demo_transport) (MO:=bounded_map)
    (R:=finished_stream) demo_auth demo_ctx = Returns (Ok (), ic_set_uuid (Some demo_user) demo_ctx) /\
  [(OpenUni, true); (WriteChunk 0 demo_auth, true)] = [(OpenUni, true); (WriteChunk sid data, true)].
Proof.
  destruct (send_auth_accepted (BL:=list_bytes_laws) (UL:=list_uuid_laws) (Q:=demo_transport)
    (MO:=bounded_map) (R:=finished_stream) demo_user demo_password [] [(OpenUni, true); (WriteChunk 0 demo_auth, true)]
    demo_auth demo_ctx (loopback_laws _) ltac:(vm_compute; reflexivity) ltac:(by_compute))
    as (sid&data&Hh&Hr).
  exists sid, data. split; [|exact Hh]. apply Hr. injection Hh as <- <-.
  exists []. vm_compute. reflexivity.
Defined.

Definition bad_token : bytes := replicate 32 0.
Definition demo_bad_auth : bytes := message_wire (U:=list_uuid) (Command_Auth demo_user bad_token) None.

Lemma auth_rejected_witness :
  conn_step (B:=list_bytes) (Q:=demo_transport) (R:=finished_stream) demo_cb demo_server
    (Conn_Uni (R:=finished_stream) (Some demo_bad_auth)) = Returns demo_server.
Proof.
  apply (auth_rejected (BL:=list_bytes_laws) (UL:=list_uuid_laws) (Q:=demo_transport)
    (MO:=bounded_map) (R:=finished_stream) demo_cb demo_bad_auth demo_user bad_token [] demo_ctx).
  - by_compute.
  - by_compute.
  - exists []. vm_compute. reflexivity.
  - intros password Hp. assert (Some demo_password = Some password) as [= <-]
      by (rewrite <-Hp; by_compute). by_compute.
Defined.

Definition demo_bomb : bytes :=
  message_wire (U:=list_uuid) (Command_Packet 1 2 1 0 500) (Some Address_None).
Definition demo_incoming : Incoming (R:=finished_stream) :=
  {| inc_accept := true; inc_into_0rtt := false; inc_connecting := true;
     inc_events := [Conn_Uni (R:=finished_stream) (Some demo_bomb)] |}.

Lemma unauthenticated_panic_witness :
  listen_loop (B:=list_bytes) (U:=list_uuid) (Q:=demo_transport) (MO:=bounded_map)
    (R:=finished_stream) demo_cb TuicInboundOpts_default [Listen_Accept demo_incoming] [] = Panics.
Proof.
  apply (unauthenticated_panic (BL:=list_bytes_laws) (UL:=list_uuid_laws) (Q:=demo_transport)
    (MO:=bounded_map) (R:=finished_stream) demo_cb TuicInboundOpts_default [] demo_bomb
    1 2 1 0 500 Address_None [] demo_incoming); try by_compute; try reflexivity.
  exists []. vm_compute. reflexivity.
Defined.

Definition demo_later : bytes :=
  message_wire (U:=list_uuid) (Command_Packet 1 2 3 1 2) (Some Address_None) ++ [8; 9].

Lemma server_refuses_later_fragments_witness :
  handle_uni_stream (B:=list_bytes) (U:=list_uuid) (Q:=demo_transport) (MO:=bounded_map)
    (R:=finished_stream) demo_later demo_ctx =
  Returns (Err (Report_Msg "Address::None cannot be converted to TargetAddr"), demo_ctx).
Proof.
  apply (server_refuses_later_fragments (BL:=list_bytes_laws) (UL:=list_uuid_laws)
    (Q:=demo_transport) (MO:=bounded_map) (R:=finished_stream) demo_later 1 2 3 1 2 [8; 9]);
    [by_compute|reflexivity|].
  exists []. vm_compute. reflexivity.
Defined.

Lemma connect_swallows_data_witness :
  let c := ic_set_uuid (Some demo_user) demo_ctx in
  handle_bi_stream (B:=list_bytes) (R:=finished_stream) demo_cb (demo_connect ++ [71; 69; 84]) c =
  Returns (Ok (), ic_push_tcp (R:=finished_stream) (TargetAddr_IPv4 [10; 0; 0; 1] 80) [] c).
Proof.
  apply (proj1 (connect_swallows_data (BL:=list_bytes_laws) (UL:=list_uuid_laws) (MO:=bounded_map)
    (RL:=finished_stream_laws) demo_cb (demo_connect ++ [71; 69; 84]) (TargetAddr_IPv4 [10; 0; 0; 1] 80)
    [71; 69; 84] (ic_set_uuid (Some demo_user) demo_ctx) [1; 10; 0; 0; 1; 0; 80; 71; 69; 84]
    ltac:(by_compute) ltac:(by_compute) ltac:(by eexists) ltac:(vm_compute; reflexivity)
    ltac:(vm_compute; reflexivity)) []). vm_compute. reflexivity.
Defined.
