(* ===== verification/App.v ===== *)
(** * The application (wind/src/main.rs, wind-core/src/lib.rs)

    [Manager] joins the SOCKS5 server to the TUIC client: the server hands it
    streams and sockets through [InboundCallback], it passes them on through
    [AbstractOutbound].  [run] starts the tasks and [main] waits for them when
    it shuts down.  The tasks are the poll loop, the three accepting tasks,
    the listener and two for each UDP association; they run concurrently, one
    step of one of them at a time, over one state. *)

From stdpp Require Import base list gmap strings list_numbers.
From S2P Require Import Prelude BytesCrate Types Codec Header Cmd Addr Quinn Io Callback.
From S2P Require Import Proto Moka CoreUdp SocksUdp SocksInbound Tasks Reassembly UdpStream Outbound Client.

(** ** The TUIC client as an outbound *)
Section outbounds.
Context {B : BytesOps} {U : UuidOps} {Q : QuinnOps} {MO : MokaOps}.

(** What its methods share: the client's own state and the tasks of the
    associations started so far. *)
Definition OutState : Type := TuicOutbound * list Association.

Definition on_connection {A} (m : M QHist Report A) : M OutState Report A :=
  fun s => match m (to_connection s.1) with
           | Returns (r, h) => Returns (r, (to_set_connection h s.1, s.2))
           | Panics => Panics
           end.

(** [copy_io] inside [open_tcp], one read at a time. *)
Definition relay_poll (ev : IoEvent) (s : CopyState) : M OutState Report (option CopyState) :=
  match copy_step s ev with
  | inl s' => m_ret (Some s')
  | inr (_, Some _) => m_throw (Report_Io "copy_io")
  | inr (_, None) => m_ret None
  end.

(** [handle_udp] up to its last loop, which waits for the cancellation. *)
Definition associate : M OutState Report u16 :=
  fun s => let '(a, st) := udp_associate s.1 in Returns (Ok (as_id a), (st, s.2 ++ [a])).

Definition dissociate (assoc_id : u16) : M OutState Report unit :=
  fun s => exec_bind (udp_teardown assoc_id s.1) (fun st => Returns (Ok (), (st, s.2))).

Definition tuic_outbound : AbstractOutbound OutState := {|
  OutTcp := CopyState;
  OutUdp := u16;
  out_handle_tcp target_addr := let! _ := on_connection (open_tcp target_addr []) in m_ret copy_init;
  out_poll_tcp := relay_poll;
  out_handle_udp := associate;
  out_cancel_udp := dissociate
|}.

(** [enum Outbounds] and its dispatch. *)
Inductive Outbounds := Outbounds_Tuic.

Definition outbounds (o : Outbounds) : AbstractOutbound OutState :=
  match o with Outbounds_Tuic => tuic_outbound end.
End outbounds.

(** ** [Manager] *)
Definition Manager {S} (outbound : AbstractOutbound S) : InboundCallback S := {|
  TcpFuture := OutTcp;
  UdpFuture := OutUdp;
  handle_tcpstream target_addr := let! f := out_handle_tcp target_addr in m_ret f;
  poll_tcpstream := out_poll_tcp;
  handle_udpsocket := let! f := out_handle_udp in m_ret f;
  cancel_udpsocket f := out_cancel_udp f ;;! m_ret ()
|}.

Section app.
Context {B : BytesOps} {U : UuidOps} {Q : QuinnOps} {MO : MokaOps}.
Context (overflow_checks log_info : bool) (opts : SocksInboundOpt).

#[local] Instance manager : InboundCallback OutState := Manager tuic_outbound.

(** ** The state of the program *)

(** [ap_cancelled] and [ap_closed] are [AppContext]'s token and tracker; the
    channels from the accepting tasks to the poll loop hold what is forwarded
    less what is taken. *)
Record App := {
  ap_cancelled : bool;
  ap_closed : bool;
  ap_poll : PollState;
  ap_incoming : IncomingHandlers bytes unit unit;
  ap_taken : nat * nat * nat;
  ap_listener : Listener (CB:=manager);
  ap_assocs : list Association
}.

Definition ap_set_cancelled (a : App) : App :=
  {| ap_cancelled := true; ap_closed := true; ap_poll := ap_poll a; ap_incoming := ap_incoming a;
     ap_taken := ap_taken a; ap_listener := ap_listener a; ap_assocs := ap_assocs a |}.
Definition ap_set_poll (s : PollState) (a : App) : App :=
  {| ap_cancelled := ap_cancelled a; ap_closed := ap_closed a; ap_poll := s; ap_incoming := ap_incoming a;
     ap_taken := ap_taken a; ap_listener := ap_listener a; ap_assocs := ap_assocs a |}.
Definition ap_set_incoming (h : IncomingHandlers bytes unit unit) (a : App) : App :=
  {| ap_cancelled := ap_cancelled a; ap_closed := ap_closed a; ap_poll := ap_poll a; ap_incoming := h;
     ap_taken := ap_taken a; ap_listener := ap_listener a; ap_assocs := ap_assocs a |}.
Definition ap_set_taken (t : nat * nat * nat) (a : App) : App :=
  {| ap_cancelled := ap_cancelled a; ap_closed := ap_closed a; ap_poll := ap_poll a; ap_incoming := ap_incoming a;
     ap_taken := t; ap_listener := ap_listener a; ap_assocs := ap_assocs a |}.
Definition ap_set_listener (l : Listener (CB:=manager)) (a : App) : App :=
  {| ap_cancelled := ap_cancelled a; ap_closed := ap_closed a; ap_poll := ap_poll a; ap_incoming := ap_incoming a;
     ap_taken := ap_taken a; ap_listener := l; ap_assocs := ap_assocs a |}.
Definition ap_set_assocs (l : list Association) (a : App) : App :=
  {| ap_cancelled := ap_cancelled a; ap_closed := ap_closed a; ap_poll := ap_poll a; ap_incoming := ap_incoming a;
     ap_taken := ap_taken a; ap_listener := ap_listener a; ap_assocs := l |}.

Definition ap_out (a : App) : TuicOutbound := poll_outbound (ap_poll a).

(** The client's state is shared by the poll loop and the other tasks. *)
Definition ap_set_out (st : TuicOutbound) (a : App) : App :=
  ap_set_poll (match ap_poll a with Polling k _ => Polling k st | Stopped r _ => Stopped r st end) a.

(** [run]: the client connects, then [start_poll] and [listen] are spawned;
    [start_poll] spawns the accepting tasks and the loop. *)
Definition run (env : ConnectEnv) (tuic_opt : TuicOutboundOpts) (bind_ok : bool) : M QHist Report App :=
  let! outbound := TuicOutbound_new env tuic_opt in
  m_ret {| ap_cancelled := false; ap_closed := false; ap_poll := Polling 0 outbound;
           ap_incoming := handle_incoming; ap_taken := (0, 0, 0)%nat;
           ap_listener := socks_listen bind_ok; ap_assocs := [] |}.

(** ** Steps *)

Inductive AppEvent :=
(** [ctrl_c] in [main]: [token.cancel()], [tasks.close()] *)
| Ev_Shutdown
| Ev_PollCancelled
| Ev_Heartbeat
| Ev_TakeDatagram (now : u64)
| Ev_TakeBi
| Ev_TakeUni
| Ev_Datagram (ev : HandlerEvent (T:=bytes))
| Ev_Bi (ev : HandlerEvent (T:=unit))
| Ev_Uni (ev : HandlerEvent (T:=unit))
| Ev_Listen (ev : SocksListenEvent)
| Ev_Relay (i : nat) (ev : RelayEvent)
| Ev_Local (i : nat) (ev : LocalEvent).

(** A panic ends the task it happens in. *)
Definition poll_task (ev : PollEvent) (s : PollState) : PollState :=
  match poll_step overflow_checks log_info s ev with
  | Returns s' => s'
  | Panics => Stopped (Err (Report_Msg "panicked")) (poll_outbound s)
  end.

Definition handler_task {T} (ev : HandlerEvent (T:=T)) (h : Handler) : Handler :=
  match handler_step h ev with
  | Returns h' => h'
  | Panics => {| hd_running := false; hd_forwarded := hd_forwarded h |}
  end.

(** A send succeeds while the poll loop lives and there is room; into a full
    channel it waits, until it times out. *)
Definition accept_step {T} (cancelled alive : bool) (taken : nat) (ev : HandlerEvent (T:=T)) (h : Handler) :
    Handler :=
  match ev with
  | Accept_Ok item in_time =>
    if alive then
      if len (hd_forwarded h) - Z.of_nat taken <? SPSC_BUFFER_SIZE
      then handler_task (Accept_Ok item true) h
      else if in_time then h else handler_task (Accept_Ok item false) h
    else handler_task (Accept_Ok item false) h
  | Accept_Err => handler_task Accept_Err h
  | Handler_Cancelled => if cancelled then handler_task Handler_Cancelled h else h
  end.

Definition incoming_step (ev : AppEvent) (a : App) : App :=
  let alive := match ap_poll a with Polling _ _ => true | Stopped _ _ => false end in
  let h := ap_incoming a in
  match ev with
  | Ev_Datagram e =>
    ap_set_incoming {| ih_datagram := accept_step (ap_cancelled a) alive (ap_taken a).1.1 e (ih_datagram h);
                       ih_bi := ih_bi h; ih_uni := ih_uni h |} a
  | Ev_Bi e =>
    ap_set_incoming {| ih_datagram := ih_datagram h;
                       ih_bi := accept_step (ap_cancelled a) alive (ap_taken a).1.2 e (ih_bi h);
                       ih_uni := ih_uni h |} a
  | Ev_Uni e =>
    ap_set_incoming {| ih_datagram := ih_datagram h; ih_bi := ih_bi h;
                       ih_uni := accept_step (ap_cancelled a) alive (ap_taken a).2 e (ih_uni h) |} a
  | _ => a
  end.

(** The branches of the poll loop's [select!], each when it is ready.  A loop
    that waits for room in a stream's channel is not at its [select!]. *)
Definition poll_app (ev : AppEvent) (a : App) : App :=
  match ap_poll a with
  | Stopped _ _ => a
  | Polling _ _ =>
    if poll_blocked (ap_out a) then a else
    let '(d, b, u) := ap_taken a in
    match ev with
    | Ev_PollCancelled =>
      if ap_cancelled a then ap_set_poll (poll_task Poll_Cancelled (ap_poll a)) a else a
    | Ev_Heartbeat => ap_set_poll (poll_task Poll_Heartbeat (ap_poll a)) a
    | Ev_TakeDatagram now =>
      match hd_forwarded (ih_datagram (ap_incoming a)) !! d with
      | Some data => ap_set_taken (S d, b, u) (ap_set_poll (poll_task (Poll_Datagram now data) (ap_poll a)) a)
      | None => a
      end
    | Ev_TakeBi =>
      match hd_forwarded (ih_bi (ap_incoming a)) !! b with
      | Some _ => ap_set_taken (d, S b, u) (ap_set_poll (poll_task Poll_Bi (ap_poll a)) a)
      | None => a
      end
    | Ev_TakeUni =>
      match hd_forwarded (ih_uni (ap_incoming a)) !! u with
      | Some _ => ap_set_taken (d, b, S u) (ap_set_poll (poll_task Poll_Uni (ap_poll a)) a)
      | None => a
      end
    | _ => a
    end
  end.

(** Events that stand for a seen cancellation happen only after one. *)
Definition listen_ready (cancelled : bool) (ev : SocksListenEvent) : bool :=
  match ev with
  | Socks_Cancelled | Socks_Session Session_Cancelled => cancelled
  | _ => true
  end.

Definition listen_app (ev : SocksListenEvent) (a : App) : App :=
  if listen_ready (ap_cancelled a) ev then
    match socks_listen_step opts ev (ap_listener a) (ap_out a, ap_assocs a) with
    | Returns (l, (st, assocs)) => ap_set_listener l (ap_set_assocs assocs (ap_set_out st a))
    | Panics => ap_set_listener (ls_set_state (Listened true) (ap_listener a)) a
    end
  else a.

Definition relay_task (ev : RelayEvent) (st : TuicOutbound) (x : Association) : TuicOutbound * Association :=
  match relay_step overflow_checks ev st x with
  | Returns r => r
  | Panics => relay_break st x
  end.

Definition local_task (ev : LocalEvent) (x : Association) : Association :=
  match local_step ev x with
  | Returns x' => x'
  | Panics => as_set_reading false x
  end.

Definition relay_app (i : nat) (ev : RelayEvent) (a : App) : App :=
  match ap_assocs a !! i with
  | None => a
  | Some x =>
    if match ev with Relay_Cancelled => ap_cancelled a | _ => true end then
      let '(st, x') := relay_task ev (ap_out a) x in
      ap_set_assocs (<[i := x']> (ap_assocs a)) (ap_set_out st a)
    else a
  end.

(** Nor is a reading task that waits for room in its queue. *)
Definition local_app (i : nat) (ev : LocalEvent) (a : App) : App :=
  match ap_assocs a !! i with
  | None => a
  | Some x =>
    if local_blocked x then a else
    if match ev with Local_Cancelled => ap_cancelled a | _ => true end then
      ap_set_assocs (<[i := local_task ev x]> (ap_assocs a)) a
    else a
  end.

Definition app_step (ev : AppEvent) (a : App) : App :=
  match ev with
  | Ev_Shutdown => ap_set_cancelled a
  | Ev_PollCancelled | Ev_Heartbeat | Ev_TakeDatagram _ | Ev_TakeBi | Ev_TakeUni => poll_app ev a
  | Ev_Datagram _ | Ev_Bi _ | Ev_Uni _ => incoming_step ev a
  | Ev_Listen ev => listen_app ev a
  | Ev_Relay i ev => relay_app i ev a
  | Ev_Local i ev => local_app i ev a
  end.

Definition app_run (evs : list AppEvent) (a : App) : App := foldl (fun a ev => app_step ev a) a evs.

(** ** Shutting down *)

Inductive Task := T_Poll | T_Datagram | T_Bi | T_Uni | T_Listen | T_Relay (i : nat) | T_Local (i : nat).

Definition task_over (t : Task) (a : App) : bool :=
  match t with
  | T_Poll => match ap_poll a with Polling _ _ => false | Stopped _ _ => true end
  | T_Datagram => negb (hd_running (ih_datagram (ap_incoming a)))
  | T_Bi => negb (hd_running (ih_bi (ap_incoming a)))
  | T_Uni => negb (hd_running (ih_uni (ap_incoming a)))
  | T_Listen => match ls_state (ap_listener a) with Listened _ => true | _ => false end
  | T_Relay i => match ap_assocs a !! i with Some x => negb (as_relaying x) | None => true end
  | T_Local i => match ap_assocs a !! i with Some x => negb (as_reading x) | None => true end
  end.

(** The tasks the tracker holds. *)
Definition tasks (a : App) : list Task :=
  [T_Poll; T_Datagram; T_Bi; T_Uni; T_Listen] ++ (T_Relay <$> seq 0 (length (ap_assocs a))) ++
  (T_Local <$> seq 0 (length (ap_assocs a))).

(** [ctx.tasks.wait()] completes. *)
Definition wait_ready (a : App) : bool := ap_closed a && forallb (fun t => task_over t a) (tasks a).

(** [timeout(10s, ctx.tasks.wait()).await?], in the state the ten seconds or
    the wait end in. *)
Definition main_result (a : App) : result unit Report :=
  if wait_ready a then Ok () else Err (Report_Msg "deadline has elapsed").
End app.

Arguments App : clear implicits.
Arguments App {B U Q MO}.
