(* ===== verification/AppProps.v ===== *)
(** * What holds of every state of the application

    The state stays well formed under every interleaving of the tasks:
    identifiers keep their width, entries of the session table lead to streams
    with their id, queues keep their bounds.  A small application that runs
    evaluates the model. *)

From stdpp Require Import base list gmap strings list_numbers.
From S2P Require Import Prelude BytesCrate Types Codec Header Cmd Addr Quinn Io Callback.
From S2P Require Import Proto Messages Moka CoreUdp SocksUdp SocksInbound Tasks Reassembly UdpStream.
From S2P Require Import Fragmentation Outbound Client Traffic Association App.

(** ** Well-formed states *)

Section well_formed.
Context {B : BytesOps} {U : UuidOps} {Q : QuinnOps} {MO : MokaOps}.

(** A closed channel holds nothing. *)
Definition closed_empty (u : UdpStream) : Prop := us_receive_open u = false -> us_receive u = [].

Definition stream_ok (u : UdpStream) : Prop :=
  is_u16 (us_assoc_id u) /\ is_u16 (us_next_pkt_id u) /\ closed_empty u.

(** Every session entry leads to a stream with its id. *)
Definition out_ok (st : TuicOutbound) : Prop :=
  is_u16 (to_udp_assoc_counter st) /\
  (forall p u, to_streams st !! p = Some u -> stream_ok u) /\
  (forall id p, contents (to_udp_session st) !! id = Some p ->
     exists u, to_streams st !! p = Some u /\ us_assoc_id u = id).

(** A stream's channel is within its capacity, but for the one packet the poll
    loop may be waiting to send. *)
Definition queues_ok (st : TuicOutbound) : Prop :=
  forall p u, to_streams st !! p = Some u -> len (us_receive u) <= CHANNEL_CAPACITY + 1.

(** Every stream is that of an association. *)
Definition owned (st : TuicOutbound) (l : list Association) : Prop :=
  forall p, p ∈ dom (to_streams st) -> p ∈ as_ptr <$> l.

(** The reading task sends the packets of one read, at most one for each byte
    of its buffer, and reads again only when all of them are in the channel. *)
Definition MAX_BATCH : Z := 65535.

(** An association owns the stream it points to, whose receiving end is open
    exactly while the association relays; what it queues fits a datagram, and
    it queues no more than its channel holds and the batch waiting to be
    sent. *)
Definition assoc_ok (st : TuicOutbound) (x : Association) : Prop :=
  (exists u, to_streams st !! as_ptr x = Some u /\ us_assoc_id u = as_id x /\
     us_receive_open u = as_relaying x) /\
  Forall (fun pkt => len (pkt_payload pkt) <= 65535) (as_queue x) /\
  len (as_queue x) <= CHANNEL_CAPACITY + MAX_BATCH.

(** A channel never holds more than its capacity, nor gives more than it got. *)
Definition channel_ok {T} (h : Handler (T:=T)) (taken : nat) : Prop :=
  0 <= len (hd_forwarded h) - Z.of_nat taken <= SPSC_BUFFER_SIZE.

Definition poll_ok (s : PollState) : Prop :=
  match s with Polling k _ => 0 <= k < HEARTBEAT_MAX_FAILURES | Stopped _ _ => True end.

(** A UDP session waits for the end of an association of its own. *)
Definition listener_ok (l : Listener (CB:=manager)) (assocs : list Association) : Prop :=
  match ls_state l with
  | Serving (Await_Udp (Some id)) => exists x, x ∈ assocs /\ as_id x = id
  | _ => True
  end.

Definition app_ok (a : App) : Prop :=
  out_ok (ap_out a) /\ Forall (assoc_ok (ap_out a)) (ap_assocs a) /\ NoDup (as_ptr <$> ap_assocs a) /\
  poll_ok (ap_poll a) /\
  channel_ok (ih_datagram (ap_incoming a)) (ap_taken a).1.1 /\
  channel_ok (ih_bi (ap_incoming a)) (ap_taken a).1.2 /\
  channel_ok (ih_uni (ap_incoming a)) (ap_taken a).2 /\
  listener_ok (ap_listener a) (ap_assocs a) /\
  queues_ok (ap_out a) /\ owned (ap_out a) (ap_assocs a).

(** What the operating system answers a read: at most the 65535 bytes of the
    buffer it was given. *)
Definition event_ok (ev : AppEvent) : Prop :=
  match ev with
  | Ev_Local _ (Local_Recv (Ok (_, buf, _))) => len buf <= 65535
  | _ => True
  end.
#[export] Instance event_ok_dec ev : Decision (event_ok ev).
Proof. unfold event_ok. repeat case_match; apply _. Defined.
End well_formed.

(** ** Steps of the client's state *)

Section evolves.
Context {B : BytesOps} {U : UuidOps} {Q : QuinnOps} {MO : MokaOps} {ML : MokaLaws MO}.
Context (overflow_checks log_info : bool).

Definition stream_le (u u' : UdpStream) : Prop :=
  us_assoc_id u' = us_assoc_id u /\ (is_u16 (us_next_pkt_id u) -> is_u16 (us_next_pkt_id u')) /\
  (closed_empty u -> closed_empty u').

(** Streams stay where they are and keep their identity; [keep] says which
    keep their receiving end as it is, [n] by how much their channels grow. *)
Definition evolves (n : Z) (keep : nat -> Prop) (st st' : TuicOutbound) : Prop :=
  to_udp_assoc_counter st' = to_udp_assoc_counter st /\
  (contents (to_udp_session st') = contents (to_udp_session st) /\
   capacity (to_udp_session st') = capacity (to_udp_session st)) /\
  dom (to_streams st') = dom (to_streams st) /\
  forall p u, to_streams st !! p = Some u -> exists u', to_streams st' !! p = Some u' /\
    stream_le u u' /\ (keep p -> us_receive_open u' = us_receive_open u) /\
    len (us_receive u') <= len (us_receive u) + n.

Lemma evolves_out n keep st st' : evolves n keep st st' -> out_ok st -> out_ok st'.
Proof.
  intros (Hc&[Hs _]&Hd&Hst) (Hcnt&Hok&Hsess). unfold out_ok. rewrite Hc, Hs. split_and!; [done| |].
  - intros p u' Hp. assert (is_Some (to_streams st !! p)) as [u Hu].
    { apply elem_of_dom. rewrite <-Hd. by eapply elem_of_dom_2. }
    destruct (Hst p u Hu) as (u1&Hu1&(Hid&Hn&Hce)&_). simplify_eq. destruct (Hok p u Hu) as (?&?&?).
    split_and!; [by rewrite Hid|auto..].
  - intros id p Hp. destruct (Hsess id p Hp) as (u&Hu&Hid). destruct (Hst p u Hu) as (u1&Hu1&[Hid' _]&_).
    exists u1. split; [done|congruence].
Qed.

Lemma evolves_queues n keep st st' : evolves n keep st st' ->
  (forall p u, to_streams st !! p = Some u -> len (us_receive u) <= CHANNEL_CAPACITY + 1 - n) -> queues_ok st'.
Proof.
  intros (_&_&Hd&Hst) Hq p u' Hp. assert (is_Some (to_streams st !! p)) as [u Hu].
  { apply elem_of_dom. rewrite <-Hd. by eapply elem_of_dom_2. }
  destruct (Hst p u Hu) as (u1&Hu1&_&_&Hle). simplify_eq. specialize (Hq p u Hu). lia.
Qed.

Lemma evolves_owned n keep st st' l : evolves n keep st st' -> owned st l -> owned st' l.
Proof. intros (_&_&Hd&_). unfold owned. by rewrite Hd. Qed.

Lemma evolves_assoc n keep st st' x :
  evolves n keep st st' -> keep (as_ptr x) -> assoc_ok st x -> assoc_ok st' x.
Proof.
  intros (_&_&_&Hst) Hk ((u&Hu&Hid&Ho)&Hq). split; [|done].
  destruct (Hst _ u Hu) as (u'&Hu'&[Hid' _]&Ho'&_). exists u'. split_and!; [done|congruence|].
  by rewrite Ho'.
Qed.

Lemma evolves_refl n keep st : 0 <= n -> evolves n keep st st.
Proof. intros. split_and!; [done..|]. intros p u Hp. exists u. split_and!; [done..|lia]. Qed.

Lemma evolves_connection n keep h st : 0 <= n -> evolves n keep st (to_set_connection h st).
Proof. intros. split_and!; [done..|]. intros p u Hp. exists u. split_and!; [done..|lia]. Qed.

Lemma evolves_set_stream n keep c h p u u' st : 0 <= n ->
  to_streams st !! p = Some u -> stream_le u u' -> (keep p -> us_receive_open u' = us_receive_open u) ->
  len (us_receive u') <= len (us_receive u) + n -> contents c = contents (to_udp_session st) ->
  capacity c = capacity (to_udp_session st) -> evolves n keep st (to_set_connection h (to_set_stream p u' (to_set_session c st))).
Proof.
  intros Hn Hp Hle Hk Hlen Hc Hcap. split_and!; [done|done|done| |].
  - cbn. apply set_eq. intros q. rewrite dom_insert, elem_of_union, elem_of_singleton.
    split; [|auto]. intros [-> |]; [by eapply elem_of_dom_2|done].
  - intros q v Hq. cbn. destruct (decide (q = p)) as [->|].
    + rewrite lookup_insert_eq. simplify_eq. eauto.
    + rewrite lookup_insert_ne by done. exists v. split_and!; [done..|lia].
Qed.

Lemma evolves_stream n keep p u u' st : 0 <= n ->
  to_streams st !! p = Some u -> stream_le u u' -> (keep p -> us_receive_open u' = us_receive_open u) ->
  len (us_receive u') <= len (us_receive u) + n -> evolves n keep st (to_set_stream p u' st).
Proof.
  intros. by apply (evolves_set_stream n keep (to_udp_session st) (to_connection st) p u u' st).
Qed.

Lemma deliver_evolves keep now a pkt total id payload t st :
  evolves 1 keep st (deliver now a pkt total id payload t st).
Proof.
  unfold deliver. pose proof (get_contents a (to_udp_session st)) as Hc.
  pose proof (get_config a (to_udp_session st)) as [Hcap _].
  destruct (cache_get a (to_udp_session st)) as [o c]. cbn [snd] in Hc, Hcap. cbn [to_set_session to_streams].
  destruct (o ≫= _) as [[q v]|] eqn:Ho.
  2: { split_and!; [done|done|done|done|]. intros p u Hp. exists u. split_and!; [done..|cbn; lia]. }
  assert (to_streams st !! q = Some v) as Hq.
  { destruct o as [q'|]; [|done]. cbn in Ho. destruct (to_streams st !! q') eqn:E; naive_solver. }
  assert (forall u', us_assoc_id u' = us_assoc_id v -> us_next_pkt_id u' = us_next_pkt_id v ->
    us_receive_open u' = us_receive_open v -> len (us_receive u') <= len (us_receive v) + 1 ->
    (closed_empty v -> closed_empty u') -> evolves 1 keep st (to_set_stream q u' (to_set_session c st))) as Hset.
  { intros u' H1 H2 H3 H4 Hc'. apply (evolves_set_stream 1 keep c (to_connection st) q v u' st); try done.
    split_and!; [done|by rewrite H2|by apply Hc']. }
  destruct (1 <? total); [unfold process_fragment; destruct (add_fragment _ _ _ _) as [[packet|] b]|];
    unfold receive_packet; repeat case_match; simplify_eq/=; apply Hset; try done;
    try (cbn [us_push us_set_buffer us_receive]; rewrite ?len_app, ?len_cons, ?len_nil; lia);
    unfold closed_empty; cbn; congruence.
Qed.

Lemma on_datagram_evolves keep now data st st' :
  on_datagram overflow_checks log_info now data st = Returns st' -> evolves 1 keep st st'.
Proof.
  unfold on_datagram, exec_bind. intros H.
  repeat (case_match; simplify_eq/=); by (apply evolves_refl || apply deliver_evolves).
Qed.

Lemma heartbeat_evolves {BL : BytesLaws B} {UL : UuidLaws U} keep k st s' :
  0 <= k -> heartbeat_step k st = Returns s' -> evolves 1 keep st (poll_outbound s') /\ poll_ok s'.
Proof.
  intros Hk. rewrite heartbeat_step_eq by done. cbv zeta. intros [= <-].
  destruct (q_send_datagram _ _); [|destruct (Z.leb_spec 3 (k + 1))];
    (split; [by apply evolves_connection|unfold poll_ok, HEARTBEAT_MAX_FAILURES; lia || done]).
Qed.

(** *** The tasks of an association *)

Lemma relay_break_ok st x : assoc_ok st x ->
  evolves 0 (fun p => p <> as_ptr x) st (relay_break st x).1 /\
  assoc_ok (relay_break st x).1 (relay_break st x).2.
Proof.
  intros ((u&Hu&Hid&Ho)&Hq&Hql). destruct (relay_break_assoc st x) as (Hi&Hp&Hqu&_&Hr&_). split.
  - unfold relay_break. rewrite Hu. apply (evolves_stream _ _ _ u); try done.
    cbn. pose proof (len_nonneg (us_receive u)). change (len (@nil UdpPacket)) with 0. lia.
  - split; [|by rewrite Hqu]. exists (us_close_receive u). rewrite Hi, Hp, Hr. unfold relay_break. rewrite Hu.
    cbn. by rewrite lookup_insert_eq.
Qed.

Lemma relay_task_ok ev st x : assoc_ok st x ->
  let r := relay_task overflow_checks ev st x in
  evolves 0 (fun p => p <> as_ptr x) st r.1 /\ assoc_ok r.1 r.2 /\
  as_ptr r.2 = as_ptr x /\ as_id r.2 = as_id x /\ (as_reading r.2 = true -> as_reading x = true) /\
  (as_relaying x = false -> as_relaying r.2 = false).
Proof.
  intros Hx. pose proof (relay_break_ok st x Hx) as [Hb1 Hb2].
  pose proof Hx as ((u&Hu&Hid&Ho)&Hq&Hql). unfold relay_task, relay_step. rewrite Hu. cbv zeta.
  pose proof (evolves_refl 0 (fun p => p <> as_ptr x) st ltac:(lia)) as Hrefl.
  pose proof (relay_break_assoc st x) as (Hbi&Hbp&_&_&_&Hbr).
  destruct (as_relaying x) eqn:Hrl; [|done].
  assert (forall u' h x', us_assoc_id u' = us_assoc_id u -> (is_u16 (us_next_pkt_id u) -> is_u16 (us_next_pkt_id u')) ->
    us_receive_open u' = us_receive_open u -> len (us_receive u') <= len (us_receive u) ->
    (closed_empty u -> closed_empty u') -> as_ptr x' = as_ptr x -> as_id x' = as_id x -> as_reading x' = as_reading x -> as_relaying x' = true -> Forall (fun pkt => len (pkt_payload pkt) <= 65535) (as_queue x') ->
    len (as_queue x') <= len (as_queue x) ->
    let st' := to_set_connection h (to_set_stream (as_ptr x) u' st) in
    evolves 0 (fun p => p <> as_ptr x) st st' /\ assoc_ok st' x' /\ as_ptr x' = as_ptr x /\ as_id x' = as_id x /\
    (as_reading x' = true -> as_reading x = true) /\ (true = false -> as_relaying x' = false)) as Hset.
  { intros u' h x' H1 H2 H3 Hl Hce H4 H5 Hrd H6 H7 H8. cbv zeta.
    split_and!; [|split; [|split; [done|lia]]|done|done|congruence|done].
    - apply (evolves_set_stream _ _ (to_udp_session st) h (as_ptr x) u u' st); try done. lia.
    - exists u'. cbn. rewrite H4, H5, H6, lookup_insert_eq. split_and!; [done|congruence..]. }
  destruct ev as [|ok| |now_ms].
  - done.
  - destruct (us_receive u) as [|packet rest] eqn:Hrc; [done|].
    destruct ok; apply (Hset (us_set_receive rest u) (to_connection st)); try done;
      try (cbn [us_set_receive us_receive]; rewrite ?Hrc, len_cons; lia); unfold closed_empty; cbn; congruence.
  - destruct (as_queue x) as [|packet rest] eqn:Hqe; [by destruct (as_reading x) eqn:Hrd; split_and!|].
    destruct (send_packet overflow_checks packet (u, to_connection st)) as [[r [u1 h1]]|] eqn:Hsend; [|done].
    destruct (keeps_send_packet _ _ _ _ _ _ _ Hsend) as (n&->&Hn). cbn [exec_bind].
    apply Forall_cons in Hq as [_ Hq]. apply Hset; try done. rewrite len_cons. cbn [snd as_queue as_set_queue]. lia.
  - by apply (Hset (collect_garbage now_ms u) (to_connection st)).
Qed.

Lemma slice_len a b buf d : 0 <= a -> slice a b buf = Returns d -> len d <= len buf.
Proof.
  unfold slice. intros Ha. case_match; [|done]. intros [= <-]. unfold len, ztake, zdrop.
  rewrite length_take, length_drop. lia.
Qed.

Lemma gro_loop_len buf total_len stride n i ps : 0 <= i -> 0 <= stride ->
  gro_loop buf total_len stride n i = Returns ps -> Forall (fun d => len d <= len buf) ps.
Proof.
  intros Hi Hs. revert i ps Hi; induction n as [|n IH]; intros i ps Hi; cbn; [by intros [= <-]|].
  destruct (slice _ _ buf) as [d|] eqn:Hd; [|done]. cbn.
  destruct (gro_loop _ _ _ _ _) as [rest|] eqn:Hr; [|done]. cbn. intros [= <-].
  constructor; [eapply slice_len; [|done]; nia|]. eapply IH; [|exact Hr]. lia.
Qed.

Lemma local_packets_len buf meta ps : local_packets buf meta = Returns ps ->
  Forall (fun pkt => len (pkt_payload pkt) <= len buf) ps.
Proof.
  unfold local_packets. destruct (local_payloads buf meta) as [ds|] eqn:Hd; [|done]. cbn. intros [= <-].
  apply Forall_fmap. unfold compose. cbn. unfold local_payloads in Hd.
  destruct (is_gro meta) eqn:Hg.
  - apply andb_true_iff in Hg as [Hg _]. apply Z.ltb_lt in Hg.
    eapply gro_loop_len; [done| |exact Hd]. lia.
  - destruct (slice _ _ _) as [d|] eqn:Hs; [|done]. cbn in Hd. simplify_eq.
    constructor; [|done]. by eapply slice_len.
Qed.

(** The last segment ends inside the buffer. *)
Lemma gro_loop_last buf total_len stride n i ps : (0 < n)%nat ->
  gro_loop buf total_len stride n i = Returns ps ->
  length ps = n /\ Z.min ((i + Z.of_nat n) * stride) total_len <= len buf.
Proof.
  intros Hn. revert i ps; induction n as [|n IH]; intros i ps; [lia|]. cbn [gro_loop]. unfold slice at 1.
  case_match eqn:Hs; [|done]. cbn [exec_bind].
  destruct (gro_loop buf total_len stride n (i + 1)) as [rest|] eqn:Hr; [|done].
  cbn [exec_bind]. intros [= <-]. destruct n as [|n].
  - cbn in Hr. simplify_eq. split; [done|]. lia.
  - apply IH in Hr as [<- Hl]; [|lia]. split; [done|].
    by replace (i + Z.of_nat (S (length rest))) with (i + 1 + Z.of_nat (length rest)) by lia.
Qed.

Lemma local_packets_count buf meta ps :
  local_packets buf meta = Returns ps -> len ps <= Z.max 1 (len buf).
Proof.
  unfold local_packets. destruct (local_payloads buf meta) as [ds|] eqn:Hd; [|done]. cbn. intros [= <-].
  unfold len at 1. rewrite length_fmap. unfold local_payloads in Hd. destruct (is_gro meta) eqn:Hg.
  - apply andb_true_iff in Hg as [Hs%Z.ltb_lt Ht%Z.ltb_lt].
    destruct (div_ceil_bounds (rm_len meta) (rm_stride meta)) as (H1&H2&H3); [lia..|].
    set (q := div_ceil (rm_len meta) (rm_stride meta)) in *.
    apply gro_loop_last in Hd as [-> Hl]; [|lia]. rewrite Z2Nat.id in * by lia. nia.
  - destruct (slice _ _ _) as [d|]; [|done]. cbn in Hd. simplify_eq. cbn. lia.
Qed.

Lemma local_task_frame ev x :
  as_ptr (local_task ev x) = as_ptr x /\ as_id (local_task ev x) = as_id x /\
  as_relaying (local_task ev x) = as_relaying x /\ (as_reading x = false -> as_reading (local_task ev x) = false).
Proof.
  unfold local_task, local_step. destruct (as_reading x) eqn:Hr; [|done].
  destruct ev as [|[[[n buf] meta]|e]]; [done| |done]. destruct (n =? 1); [|done].
  destruct (local_packets buf meta) as [ps|]; [|done]. cbn [exec_bind]. by destruct (as_relaying x) eqn:?.
Qed.

Lemma local_task_ok i ev st x : assoc_ok st x -> local_blocked x = false -> event_ok (Ev_Local i ev) ->
  assoc_ok st (local_task ev x).
Proof.
  intros Hx Hbl Hev. pose proof Hx as ((u&Hu&Hid&Ho)&Hq&Hql). unfold local_task, local_step.
  destruct (as_reading x) eqn:Hr; [|done].
  destruct ev as [|[[[n buf] meta]|e]]; [done| |done].
  destruct (n =? 1); [|done]. destruct (local_packets buf meta) as [ps|] eqn:Hps; [|done].
  cbn [exec_bind]. destruct (as_relaying x) eqn:Hrl; [|done].
  split; [exists u; cbn; by rewrite Hrl|]. cbn [as_queue as_push_queue event_ok] in *. split.
  - apply Forall_app. split; [done|]. eapply Forall_impl; [by eapply local_packets_len|]. cbn in *. lia.
  - apply local_packets_count in Hps. unfold local_blocked in Hbl. rewrite Hrl in Hbl. cbn [andb] in Hbl.
    zify_bool. unfold MAX_BATCH in *. rewrite len_app. lia.
Qed.
End evolves.

(** ** The invariant *)

Section invariant.
Context {B : BytesOps} {BL : BytesLaws B} {U : UuidOps} {UL : UuidLaws U}
        {Q : QuinnOps} {MO : MokaOps} {ML : MokaLaws MO}.
Context (overflow_checks log_info : bool) (opts : SocksInboundOpt).
Local Abbreviation app_step := (app_step overflow_checks log_info opts).
Local Abbreviation app_run := (app_run overflow_checks log_info opts).

Lemma udp_associate_ok st : out_ok st ->
  let r := udp_associate st in
  out_ok r.2 /\ assoc_ok r.2 r.1 /\
  (forall x, assoc_ok st x -> assoc_ok r.2 x /\ as_ptr x <> as_ptr r.1) /\
  (queues_ok st -> queues_ok r.2) /\ (forall l, owned st l -> owned r.2 (l ++ [r.1])).
Proof.
  intros (Hc&Hs&Hsess). cbn. set (p := fresh (dom (to_streams st))).
  assert (to_streams st !! p = None) as Hp by (apply not_elem_of_dom, is_fresh). split_and!.
  - unfold out_ok. cbn. split_and!.
    + unfold is_u16, as_u16. apply Z.mod_pos_bound. lia.
    + intros q u [[<- <-]|[? Hq]]%lookup_insert_Some; [by split|by eapply Hs].
    + intros id q Hq. eapply lookup_weaken in Hq; [|apply insert_sub].
      apply lookup_insert_Some in Hq as [[<- <-]|[Hne Hq]].
      * eexists. by rewrite lookup_insert_eq.
      * destruct (Hsess id q Hq) as (u&Hu&?). exists u. split; [|done].
        rewrite lookup_insert_ne; [done|]. intros ->. congruence.
  - split; cbn; [|by split; [|apply Z.leb_le]]. eexists. by rewrite lookup_insert_eq.
  - intros x ((u&Hu&Hid&Ho)&Hq). assert (as_ptr x <> p) as Hne by congruence.
    split; [|done]. split; [|done]. exists u. cbn. by rewrite lookup_insert_ne.
  - intros Hq q u. cbn. intros [[<- <-]|[? Hu]]%lookup_insert_Some; [by apply Z.leb_le|by eapply Hq].
  - intros l Hl q. cbn. rewrite dom_insert, fmap_app, elem_of_app. intros [->%elem_of_singleton|Hq]%elem_of_union;
      [right; by apply list_elem_of_singleton|left; by apply Hl].
Qed.

(** What the callback does to the client's state. *)
Inductive out_effect (s : OutState) : OutState -> Prop :=
| effect_connection h : added not_datagram (to_connection s.1) h -> out_effect s (to_set_connection h s.1, s.2)
| effect_associate : out_effect s ((udp_associate s.1).2, s.2 ++ [(udp_associate s.1).1]).

Lemma effect_none s : out_effect s s.
Proof.
  destruct s as [st l]. assert (to_set_connection (to_connection st) st = st) as He by by destruct st.
  rewrite <-He at 2. apply effect_connection, added_refl.
Qed.

Lemma manager_tcp t s rr s' :
  handle_tcpstream (InboundCallback:=manager) t s = Returns (rr, s') -> out_effect s s' /\ s'.2 = s.2.
Proof.
  cbn. unfold on_connection. m_unfold. pose proof (adds_open_tcp t [] (to_connection s.1)) as Hadds.
  destruct (open_tcp t [] (to_connection s.1)) as [[[?|?] h]|]; [..|done]; intros [= _ <-];
    (split; [|done]); by eapply effect_connection, Hadds.
Qed.

Lemma manager_poll ev f s rr s' :
  poll_tcpstream (InboundCallback:=manager) ev f s = Returns (rr, s') -> s' = s.
Proof.
  cbn. unfold relay_poll. destruct (copy_step f ev) as [?|[? [?|]]]; by intros [= _ <-].
Qed.

Lemma manager_cancel id s rr s' :
  cancel_udpsocket (InboundCallback:=manager) id s = Returns (rr, s') ->
  rr = Ok () /\ out_effect s s' /\ s'.2 = s.2.
Proof.
  cbn. unfold dissociate, udp_teardown. m_unfold. pose proof (adds_drop_udp id (to_connection s.1)) as Hadds.
  destruct (drop_udp id (to_connection s.1)) as [[r h]|]; [|done]. intros [= <- <-]. split_and!; [done| |done].
  by eapply effect_connection, Hadds.
Qed.

Lemma listen_effect ev l s l' s' :
  socks_listen_step (CB:=manager) opts ev l s = Returns (l', s') ->
  listener_ok l s.2 -> out_effect s s' /\ listener_ok l' s'.2.
Proof.
  unfold socks_listen_step. intros H Hl.
  destruct (ls_state l) as [| |p|] eqn:Hst; destruct ev as [| | |env|ev]; simplify_eq;
    try (split; [apply effect_none|done]);
    try (by split; [apply effect_none|unfold listener_ok; cbn; rewrite Hst]).
  - destruct (handle_income opts env ([], s)) as [[r [acts s1]]|] eqn:Hi; [|done]. cbn in H. simplify_eq.
    apply handle_income_state in Hi as [[-> Hr]|[(t&rr&Ht&->&_)|(rr&Hu&->)]].
    + split; [apply effect_none|]. by destruct Hr as [->|[? ->]].
    + apply manager_tcp in Ht as [? _]. split; [done|]. by destruct rr.
    + injection Hu as <- <-. split; [apply effect_associate|]. unfold listener_ok; cbn.
      exists (udp_associate s.1).1. split; [set_solver|done].
  - destruct (session_step ev p ([], s)) as [[r [acts s1]]|] eqn:Hi; [|done]. cbn in H. simplify_eq.
    apply session_step_state in Hi as [[-> Hr]|[(f&e&rr&->&Hp&->)|(f&rr&->&->&Hc&->)]].
    + split; [apply effect_none|]. destruct Hr as [->| ->]; [done|].
      unfold listener_ok in *. cbn. by rewrite Hst in Hl.
    + apply manager_poll in Hp as ->. split; [apply effect_none|]. by destruct rr as [[?|]|].
    + apply manager_cancel in Hc as (->&?&_). by split.
Qed.

Lemma ap_out_set st a : ap_out (ap_set_out st a) = st.
Proof. unfold ap_set_out, ap_out. by destruct (ap_poll a). Qed.

Lemma poll_ok_set st a : poll_ok (ap_poll a) -> poll_ok (ap_poll (ap_set_out st a)).
Proof. unfold ap_set_out. by destruct (ap_poll a). Qed.

Lemma app_ok_intro a :
  out_ok (ap_out a) -> Forall (assoc_ok (ap_out a)) (ap_assocs a) -> NoDup (as_ptr <$> ap_assocs a) ->
  poll_ok (ap_poll a) -> channel_ok (ih_datagram (ap_incoming a)) (ap_taken a).1.1 ->
  channel_ok (ih_bi (ap_incoming a)) (ap_taken a).1.2 ->
  channel_ok (ih_uni (ap_incoming a)) (ap_taken a).2 -> listener_ok (ap_listener a) (ap_assocs a) ->
  queues_ok (ap_out a) -> owned (ap_out a) (ap_assocs a) -> app_ok a.
Proof. intros. unfold app_ok. tauto. Qed.

(** The poll loop moves the client's state on and keeps the rest. *)
Lemma poll_task_ok ev s : poll_ok s ->
  let s' := poll_task overflow_checks log_info ev s in
  poll_ok s' /\ evolves 1 (fun _ => True) (poll_outbound s) (poll_outbound s').
Proof.
  intros Hs. unfold poll_task. destruct s as [k st|r st]; cbn in *; [|split; [done|by apply evolves_refl]].
  destruct ev as [| | |now data|]; cbn; try (split; [done|by apply evolves_refl]).
  - destruct (heartbeat_step k st) as [s'|] eqn:Hh; cbn; [|split; [done|by apply evolves_refl]].
    apply and_comm. eapply heartbeat_evolves; [|exact Hh]. lia.
  - destruct (on_datagram _ _ now data st) as [st'|] eqn:Hd; cbn; [|split; [done|by apply evolves_refl]].
    split; [done|by eapply on_datagram_evolves].
Qed.

(** *** What the tasks put on the connection *)

Lemma poll_task_adds (P : QuicCall -> Prop) pe s : P (SendDatagram [VER; 4]) ->
  added P (to_connection (poll_outbound s))
    (to_connection (poll_outbound (poll_task overflow_checks log_info pe s))).
Proof.
  intros HP. unfold poll_task. destruct (poll_step _ _ s pe) as [s'|] eqn:He; [|apply added_refl].
  destruct s as [k st|r st]; cbn in He; [|simplify_eq; apply added_refl].
  destruct pe as [| | |now data|]; try (simplify_eq; apply added_refl).
  - apply heartbeat_step_conn in He as [ok ->]. exists [heartbeat_entry ok]. split; [done|]. by constructor.
  - destruct (on_datagram _ _ now data st) as [st1|] eqn:Hd; [|done]. cbn in He. simplify_eq. cbn.
    apply on_datagram_connection in Hd as ->. apply added_refl.
Qed.

Lemma relay_task_adds (P : QuicCall -> Prop) ev st x : assoc_ok st x -> out_ok st ->
  Forall (fun packet => allows (as_id x) P (pkt_target packet)) (as_queue x) ->
  added P (to_connection st) (to_connection (relay_task overflow_checks ev st x).1).
Proof.
  intros ((u&Hu&Hid&Ho)&_) (_&Hs&_) HP. destruct (Hs _ _ Hu) as (Hu16&Hn16&_).
  assert (added P (to_connection st) (to_connection (relay_break st x).1)) as Hbreak.
  { unfold relay_break. rewrite Hu. apply added_refl. }
  unfold relay_task, relay_step. rewrite Hu. destruct (as_relaying x); [|apply added_refl].
  destruct ev as [|ok| |now_ms]; [done| | |apply added_refl].
  - destruct (us_receive u); apply added_refl.
  - destruct HP as [|packet rest Hp _]; [destruct (as_reading x); [apply added_refl|done]|].
    destruct (send_packet overflow_checks packet (u, to_connection st)) as [[r [u1 h1]]|] eqn:Hsend; [|done].
    rewrite <-Hid in Hp. by destruct (tx_send_packet overflow_checks _ Hu16 P packet Hp _ _ _ _ _ eq_refl Hn16 Hsend) as (_&_&_&?).
Qed.

(** When the poll loop runs every channel has room. *)
Lemma app_room a : app_ok a -> poll_blocked (ap_out a) = false ->
  forall p u, to_streams (ap_out a) !! p = Some u ->
    len (us_receive u) <= CHANNEL_CAPACITY.
Proof.
  intros ((_&Hs&_)&_) Hb p u Hu. destruct (Hs p u Hu) as (_&_&Hce).
  destruct (us_receive_open u) eqn:Ho; [|by rewrite Hce]. apply bool_decide_eq_false in Hb. apply Z.leb_le, not_false_iff_true.
  intros Hlt%Z.leb_gt. apply Hb. exists p, u. split; [done|]. unfold stream_blocked.
  by rewrite Ho, (proj2 (Z.ltb_lt _ _)).
Qed.

Lemma app_ok_poll_task ev a : app_ok a -> poll_blocked (ap_out a) = false ->
  app_ok (ap_set_poll (poll_task overflow_checks log_info ev (ap_poll a)) a).
Proof.
  intros Hok Hb. pose proof Hok as (Ho&Ha&Hn&Hp&Hd&Hbi&Hu&Hl&Hq&How).
  destruct (poll_task_ok ev (ap_poll a) Hp) as [Hp' Hev].
  apply app_ok_intro; try done; [by eapply evolves_out| | |by eapply evolves_owned].
  - eapply Forall_impl; [exact Ha|]. intros x. by eapply evolves_assoc.
  - eapply evolves_queues; [exact Hev|]. intros p u Hpu.
    pose proof (app_room a Hok Hb p u Hpu). lia.
Qed.

Lemma channel_take {T} (h : Handler (T:=T)) taken x :
  channel_ok h taken -> hd_forwarded h !! taken = Some x -> channel_ok h (S taken).
Proof. unfold channel_ok, len. intros H Hx%lookup_lt_Some. lia. Qed.

Lemma app_ok_poll ev a : app_ok a -> app_ok (poll_app overflow_checks log_info ev a).
Proof.
  intros Hok. unfold poll_app. destruct (ap_poll a) eqn:Hpoll; [|done]. rewrite <-Hpoll.
  destruct (poll_blocked (ap_out a)) eqn:Hbl; [done|]. destruct (ap_taken a) as [[d b] u] eqn:Ht.
  assert (forall pe t, channel_ok (ih_datagram (ap_incoming a)) t.1.1 ->
    channel_ok (ih_bi (ap_incoming a)) t.1.2 -> channel_ok (ih_uni (ap_incoming a)) t.2 ->
    app_ok (ap_set_taken t (ap_set_poll (poll_task overflow_checks log_info pe (ap_poll a)) a))) as Htake.
  { intros pe t ? ? ?. destruct (app_ok_poll_task pe a Hok Hbl) as (?&?&?&?&_&_&_&?&?&?).
    by apply app_ok_intro. }
  pose proof Hok as (_&_&_&_&Hd&Hb&Hu&_). rewrite Ht in Hd, Hb, Hu. cbn in Hd, Hb, Hu.
  destruct ev; try done.
  - case_match; [by apply app_ok_poll_task|done].
  - by apply app_ok_poll_task.
  - case_match; [|done]. apply Htake; [by eapply channel_take|done..].
  - case_match; [|done]. apply Htake; [done|by eapply channel_take|done].
  - case_match; [|done]. apply Htake; [done|done|by eapply channel_take].
Qed.

(** Only a successful send forwards anything. *)
Lemma handler_task_forwarded {T} (ev : HandlerEvent (T:=T)) h :
  hd_forwarded (handler_task ev h) = hd_forwarded h ++
    (if hd_running h then option_list (accepted_item ev) else []).
Proof.
  unfold handler_task, handler_step. destruct (hd_running h); [|by rewrite app_nil_r].
  destruct ev as [? [|]| |]; cbn; by rewrite ?app_nil_r.
Qed.

Lemma accept_step_ok {T} c alive taken (ev : HandlerEvent (T:=T)) h :
  channel_ok h taken -> channel_ok (accept_step c alive taken ev h) taken.
Proof.
  intros Hc. unfold accept_step, channel_ok in *.
  repeat case_match; try done; rewrite handler_task_forwarded; cbn [accepted_item option_list];
    destruct (hd_running h); rewrite ?app_nil_r; try done.
  zify_bool. change (option_list (Some item)) with [item]. unfold len, SPSC_BUFFER_SIZE in *. rewrite length_app. cbn. lia.
Qed.

Lemma app_ok_incoming ev a : app_ok a -> app_ok (incoming_step ev a).
Proof.
  intros (Ho&Ha&Hn&Hp&Hd&Hb&Hu&Hl&Hq&How). unfold incoming_step.
  destruct ev; apply app_ok_intro; try done; by apply accept_step_ok.
Qed.

Lemma app_ok_listen ev a : app_ok a -> app_ok (listen_app opts ev a).
Proof.
  intros Hok. pose proof Hok as (Ho&Ha&Hn&Hp&Hd&Hb&Hu&Hl&Hq&How). unfold listen_app.
  destruct (listen_ready _ _); [|done].
  destruct (socks_listen_step opts ev (ap_listener a) (ap_out a, ap_assocs a)) as [[l [st assocs]]|] eqn:Hs;
    [|by apply app_ok_intro].
  destruct (listen_effect _ _ _ _ _ Hs Hl) as [Heff Hl']. pose proof (poll_ok_set st a Hp).
  apply app_ok_intro; try done;
    change (ap_out (ap_set_listener _ _)) with (ap_out (ap_set_out st a)); rewrite ?ap_out_set;
    cbn [ap_assocs ap_set_listener ap_set_assocs]; inversion Heff; subst; cbn.
  - eapply (evolves_out 0 (fun _ => True)); [by apply evolves_connection|done].
  - by apply udp_associate_ok.
  - eapply Forall_impl; [exact Ha|]. intros x. apply (evolves_assoc 0 (fun _ => True)); [|done]. by apply evolves_connection.
  - destruct (udp_associate_ok (ap_out a) Ho) as (_&?&Hx&_). apply Forall_app. split; [|by constructor].
    eapply Forall_impl; [exact Ha|]. intros x Hx'. by apply Hx.
  - done.
  - destruct (udp_associate_ok (ap_out a) Ho) as (_&_&Hx&_). rewrite fmap_app. apply NoDup_app.
    split_and!; [done| |apply NoDup_singleton]. intros p (x&->&Hin)%list_elem_of_fmap Heq%list_elem_of_singleton.
    rewrite Forall_forall in Ha. by destruct (Hx x (Ha x Hin)).
  - done.
  - by apply udp_associate_ok.
  - done.
  - by apply udp_associate_ok.
Qed.

(** An association replaced by its next state. *)
Lemma assocs_insert st st' (l : list Association) i x x' :
  l !! i = Some x -> as_ptr x' = as_ptr x -> as_id x' = as_id x -> NoDup (as_ptr <$> l) ->
  evolves 0 (fun p => p <> as_ptr x) st st' -> assoc_ok st' x' -> Forall (assoc_ok st) l ->
  Forall (assoc_ok st') (<[i := x']> l) /\ as_ptr <$> <[i := x']> l = as_ptr <$> l /\
  forall id, (exists y, y ∈ l /\ as_id y = id) -> exists y, y ∈ <[i := x']> l /\ as_id y = id.
Proof.
  intros Hi Hp Hid Hn Hev Hx' Hl. pose proof (lookup_lt_Some _ _ _ Hi) as Hlt. split_and!.
  - apply Forall_lookup. intros j y Hy. apply list_lookup_insert_Some in Hy as [(->&<-&_)|[Hne Hy]]; [done|].
    eapply evolves_assoc; [exact Hev| |by eapply Forall_lookup_1]. intros Heq. apply Hne.
    eapply (NoDup_lookup _ _ _ (as_ptr x) Hn); rewrite list_lookup_fmap; [by rewrite Hi|by rewrite Hy, <-Heq].
  - rewrite list_fmap_insert, Hp, list_insert_id; [done|]. by rewrite list_lookup_fmap, Hi.
  - intros id (y&[j Hj]%list_elem_of_lookup&<-). destruct (decide (i = j)) as [<-|Hne].
    + exists x'. split; [|congruence]. eapply list_elem_of_lookup_2. by apply list_lookup_insert_eq.
    + exists y. split; [|done]. eapply list_elem_of_lookup_2. by rewrite list_lookup_insert_ne.
Qed.

Lemma listener_ok_mono l (xs ys : list Association) :
  (forall id, (exists y, y ∈ xs /\ as_id y = id) -> exists y, y ∈ ys /\ as_id y = id) ->
  listener_ok l xs -> listener_ok l ys.
Proof. unfold listener_ok. intros H. repeat case_match; auto. Qed.

Lemma app_ok_relay i ev a : app_ok a -> app_ok (relay_app overflow_checks i ev a).
Proof.
  intros Hok. pose proof Hok as (Ho&Ha&Hn&Hp&Hd&Hb&Hu&Hl&Hq&How). unfold relay_app.
  destruct (ap_assocs a !! i) as [x|] eqn:Hi; [|done]. destruct (match ev with Relay_Cancelled => _ | _ => _ end); [|done].
  destruct (relay_task_ok overflow_checks ev (ap_out a) x) as (Hev&Hx'&Hptr&Hid&_&_); [by eapply Forall_lookup_1|].
  destruct (relay_task overflow_checks ev (ap_out a) x) as [st x']. cbn [fst snd] in *.
  destruct (assocs_insert (ap_out a) st (ap_assocs a) i x x') as (H1&H2&H3); try done.
  pose proof (poll_ok_set st a Hp). apply app_ok_intro; try done;
    try change (ap_out (ap_set_assocs _ _)) with (ap_out (ap_set_out st a)); rewrite ?ap_out_set;
    cbn [ap_assocs ap_set_assocs];
    [by eapply evolves_out|done|by rewrite H2|by eapply listener_ok_mono| |].
  - eapply evolves_queues; [exact Hev|]. intros p u Hpu. pose proof (Hq p u Hpu). lia.
  - unfold owned. rewrite H2. by eapply evolves_owned.
Qed.

Lemma app_ok_local i ev a : event_ok (Ev_Local i ev) -> app_ok a -> app_ok (local_app i ev a).
Proof.
  intros He Hok. pose proof Hok as (Ho&Ha&Hn&Hp&Hd&Hb&Hu&Hl&Hq&How). unfold local_app.
  destruct (ap_assocs a !! i) as [x|] eqn:Hi; [|done]. destruct (local_blocked x) eqn:Hbl; [done|]. destruct (match ev with Local_Cancelled => _ | _ => _ end); [|done].
  destruct (local_task_frame ev x) as (Hptr&Hid&_&_).
  assert (assoc_ok (ap_out a) (local_task ev x)) as Hx' by (eapply local_task_ok; [by eapply Forall_lookup_1|done|exact He]).
  destruct (assocs_insert (ap_out a) (ap_out a) (ap_assocs a) i x (local_task ev x)) as (H1&H2&H3); try done.
  { by apply evolves_refl. }
  apply app_ok_intro; try done; cbn [ap_assocs ap_set_assocs].
  - by rewrite H2.
  - by eapply listener_ok_mono.
  - unfold owned. by rewrite H2.
Qed.

Lemma app_ok_step ev a : event_ok ev -> app_ok a -> app_ok (app_step ev a).
Proof.
  intros He Hok. destruct ev; cbn [App.app_step];
    [done|by apply app_ok_poll..|by apply app_ok_incoming|by apply app_ok_incoming|by apply app_ok_incoming
    |by apply app_ok_listen|by apply app_ok_relay|by apply app_ok_local].
Qed.

Lemma app_ok_run evs a : Forall event_ok evs -> app_ok a -> app_ok (app_run evs a).
Proof.
  intros He. revert a. induction He as [|ev evs Hev _ IH]; intros a Hok; [done|].
  cbn. apply IH. by apply app_ok_step.
Qed.

Lemma run_ok env o bind_ok h a h' : run env o bind_ok h = Returns (Ok a, h') -> app_ok a /\ ap_assocs a = [].
Proof.
  unfold run, TuicOutbound_new, check. intros H. m_unfold. repeat (case_match; simplify_eq/=).
  split; [|done]. apply app_ok_intro; try done; cbn.
  - split; [done|]. split; [done|]. cbn. intros id p. by rewrite contents_new.
  - constructor.
  - unfold listener_ok. cbn. by destruct bind_ok.
Qed.
End invariant.

(** ** The claim *)
Section claim.
Context {B : BytesOps} {BL : BytesLaws B} {U : UuidOps} {UL : UuidLaws U}
        {Q : QuinnOps} {MO : MokaOps} {ML : MokaLaws MO}.
Context (overflow_checks log_info : bool) (opts : SocksInboundOpt).

(** C7: the program's state stays well formed.  Once [run] has succeeded, under
    every interleaving of the tasks: identifiers are 16-bit, a session entry
    leads to a stream with its id, two associations never share a stream, a
    stream's receiving end is open exactly while its association relays, no
    queued packet exceeds a datagram, every stream belongs to an association, a
    closed one holds nothing, the heartbeat counter stays below its limit, and
    a UDP session waits for an association that exists.  Channels keep their
    bounds: those of the accepting tasks their capacity; a stream's receive
    channel its 128 packets and the one the poll loop is waiting to send; an
    association's send channel its 128 packets and the rest of the one batch,
    of at most 65535 packets, that the reading task is waiting to send. *)
Theorem app_state_typed env o bind_ok h a h' evs :
  run env o bind_ok h = Returns (Ok a, h') -> Forall event_ok evs ->
  app_ok (app_run overflow_checks log_info opts evs a).
Proof. intros [Hok _]%run_ok Hevs. by apply app_ok_run. Qed.
End claim.

(** ** A concrete program *)

Definition demo_quic : QuinnOps := loopback (Some 1200) toy_ekm.
Definition demo_tuic : TuicOutboundOpts (U:=list_uuid) :=
  {| oo_peer_addr := SocketAddr_V4 [127; 0; 0; 1] 443; oo_sni := []; oo_auth := (uuid_from_bytes (UuidOps:=list_uuid) (replicate 16 7), [112]);
     oo_zero_rtt_handshake := false; oo_heartbeat := 10000; oo_gc_interval := 20000;
     oo_gc_lifetime := 20000; oo_skip_cert_verify := true; oo_alpn := [] |}.
Definition demo_connect_env : ConnectEnv :=
  {| ce_tls_config := true; ce_quic_config := true; ce_bind := true; ce_endpoint := true;
     ce_connect := true; ce_handshake := true |}.

Definition demo_started : exec (result App Report * QHist) :=
  run (B:=list_bytes) (U:=list_uuid) (Q:=demo_quic) (MO:=bounded_map) demo_connect_env demo_tuic true [].
Definition demo_app : App (B:=list_bytes) (U:=list_uuid) (Q:=demo_quic) (MO:=bounded_map) :=
  match demo_started with
  | Returns (Ok a, _) => a
  | _ => {| ap_cancelled := true; ap_closed := true;
            ap_poll := Stopped (Ok ()) {| to_connection := []; to_udp_assoc_counter := 0;
              to_udp_session := cache_new (MokaOps:=bounded_map) 0; to_streams := ∅ |};
            ap_incoming := handle_incoming; ap_taken := (0, 0, 0)%nat;
            ap_listener := socks_listen false; ap_assocs := [] |}
  end.

Lemma demo_run_eq : exists h, demo_started = Returns (Ok demo_app, h).
Proof.
  assert (match demo_started with Returns (Ok _, _) => true | _ => false end = true) as H
    by (vm_compute; reflexivity).
  unfold demo_app. destruct demo_started as [[[a|e] h]|]; [by exists h|done..].
Qed.

(** A client associates, the application sends two datagrams, one is relayed. *)
Definition demo_events : list AppEvent :=
  let meta := {| rm_addr := SocketAddr_V4 [127; 0; 0; 1] 5000; rm_len := 3; rm_stride := 0; rm_ecn := None;
                 rm_dst_ip := None; rm_destination := Some (TargetAddr_IPv4 [10; 0; 0; 1] 53) |} in
  [Ev_Listen Socks_Accepted; Ev_Listen (Socks_Command demo_client_session);
   Ev_Local 0 (Local_Recv (Ok (1, [7; 8; 9], meta))); Ev_Heartbeat;
   Ev_Local 0 (Local_Recv (Ok (1, [1; 2; 3], meta))); Ev_Relay 0 Relay_Send].

Lemma app_state_typed_witness :
  app_ok (app_run true true demo_opts demo_events demo_app) /\
  (length ∘ as_queue) <$> ap_assocs (app_run true true demo_opts demo_events demo_app) = [1%nat].
Proof.
  split; [|vm_compute; reflexivity]. destruct demo_run_eq as [h Hrun].
  apply (app_state_typed (BL:=list_bytes_laws) (UL:=list_uuid_laws) (ML:=bounded_map_laws) true true demo_opts
    demo_connect_env demo_tuic true [] demo_app h demo_events); [exact Hrun|by_compute].
Defined.
