(* ===== verification/Shutdown.v ===== *)
(** * Shutting down (wind/src/main.rs)

    After Ctrl-C [main] cancels the token, closes the tracker and waits ten
    seconds for its tasks.  Under a scheduler that lets every task see the
    cancellation, all of them end once the listener is between two sessions;
    while a session is served nothing but the session's own streams can end
    it, and the wait times out. *)

From stdpp Require Import base list gmap strings list_numbers.
From S2P Require Import Prelude BytesCrate Types Codec Header Cmd Addr Quinn Io Callback.
From S2P Require Import Proto Messages Moka CoreUdp SocksUdp SocksInbound Tasks Reassembly UdpStream.
From S2P Require Import Outbound Client Association App AppProps.

(** The step in which a task sees the cancellation. *)
Definition cancel_event (t : Task) : AppEvent :=
  match t with
  | T_Poll => Ev_PollCancelled
  | T_Datagram => Ev_Datagram Handler_Cancelled
  | T_Bi => Ev_Bi Handler_Cancelled
  | T_Uni => Ev_Uni Handler_Cancelled
  | T_Listen => Ev_Listen Socks_Cancelled
  | T_Relay i => Ev_Relay i Relay_Cancelled
  | T_Local i => Ev_Local i Local_Cancelled
  end.

(** Finitely many things that each hold from some point on hold together from
    some point on. *)
Lemma eventually_all {A} (P : A -> nat -> Prop) (l : list A) :
  (forall x, x ∈ l -> exists N, forall m, (N <= m)%nat -> P x m) ->
  exists N, forall m, (N <= m)%nat -> Forall (fun x => P x m) l.
Proof.
  induction l as [|x l IH]; intros H; [by exists 0%nat|].
  destruct (H x) as [N1 H1]; [set_solver|]. destruct IH as [N2 H2]; [set_solver|].
  exists (Nat.max N1 N2). intros m Hm. constructor; [apply H1; lia|apply H2; lia].
Qed.
Section tasks.
Context {B : BytesOps} {BL : BytesLaws B} {U : UuidOps} {UL : UuidLaws U}
        {Q : QuinnOps} {MO : MokaOps} {ML : MokaLaws MO}.
Context (overflow_checks log_info : bool) (opts : SocksInboundOpt).
Local Abbreviation app_step := (app_step overflow_checks log_info opts).

(** [t] has been spawned. *)
Definition spawned (t : Task) (a : App) : Prop :=
  match t with T_Relay i | T_Local i => (i < length (ap_assocs a))%nat | _ => True end.

Lemma elem_tasks t a : t ∈ tasks a <-> spawned t a.
Proof.
  unfold tasks. rewrite !elem_of_app, !list_elem_of_fmap. split.
  - intros [Ht|[(i&->&Hi%elem_of_seq)|(i&->&Hi%elem_of_seq)]]; cbn; [|lia..].
    repeat (apply elem_of_cons in Ht as [->|Ht]; [done|]). by apply elem_of_nil in Ht.
  - destruct t as [| | | | |i|i]; intros Ht; [left; set_solver..| |].
    + right; left. exists i. split; [done|]. apply elem_of_seq. cbn in Ht. lia.
    + right; right. exists i. split; [done|]. apply elem_of_seq. cbn in Ht. lia.
Qed.

(** *** What a step changes *)

Lemma listen_assocs ev a : app_ok a ->
  ap_poll (listen_app opts ev a) = ap_poll (ap_set_out (ap_out (listen_app opts ev a)) a) /\
  exists new, ap_assocs (listen_app opts ev a) = ap_assocs a ++ new.
Proof.
  intros (_&_&_&_&_&_&_&Hl&_). unfold listen_app.
  assert (ap_poll a = ap_poll (ap_set_out (ap_out a) a)) as Hself.
  { unfold ap_set_out, ap_out. by destruct (ap_poll a). }
  destruct (listen_ready _ _); [|split; [done|]; exists []; by rewrite app_nil_r].
  destruct (socks_listen_step _ _ _ _) as [[l [st assocs]]|] eqn:Hs.
  - destruct (listen_effect _ _ _ _ _ _ Hs Hl) as [Heff _].
    change (ap_out (ap_set_listener _ _)) with (ap_out (ap_set_out st a)). rewrite ap_out_set.
    split; [done|]. inversion Heff; subst; cbn; [exists []; by rewrite app_nil_r|by eexists].
  - split; [done|]. exists []. by rewrite app_nil_r.
Qed.

Lemma handler_task_running {T} (ev : HandlerEvent (T:=T)) h :
  hd_running h = false -> hd_running (handler_task ev h) = false.
Proof. intros Hh. unfold handler_task, handler_step. by rewrite !Hh. Qed.

Lemma handler_task_cancelled {T} (h : Handler (T:=T)) : hd_running (handler_task Handler_Cancelled h) = false.
Proof. unfold handler_task, handler_step. by destruct (hd_running h) eqn:E. Qed.

Lemma accept_step_running {T} c alive taken (ev : HandlerEvent (T:=T)) h :
  hd_running h = false -> hd_running (accept_step c alive taken ev h) = false.
Proof. intros. unfold accept_step. repeat case_match; first [done|by apply handler_task_running]. Qed.

(** The spawned tasks of an association, before and after a step. *)
Lemma assocs_step ev a i x : event_ok ev -> app_ok a -> ap_assocs a !! i = Some x ->
  exists x', ap_assocs (app_step ev a) !! i = Some x' /\
    (as_relaying x = false -> as_relaying x' = false) /\ (as_reading x = false -> as_reading x' = false).
Proof.
  intros He Hok Hx. assert (Forall (assoc_ok (ap_out a)) (ap_assocs a)) as Ha by apply Hok.
  destruct ev as [| | | | | | | | |ev|j ev|j ev]; cbn [App.app_step];
    try (unfold poll_app, incoming_step; repeat case_match; cbn; by exists x).
  - destruct (listen_assocs ev a Hok) as [_ [new ->]]. exists x. by rewrite lookup_app_l by (by eapply lookup_lt_Some).
  - unfold relay_app. destruct (ap_assocs a !! j) as [y|] eqn:Hj; [|by exists x].
    destruct (match ev with Relay_Cancelled => _ | _ => _ end); [|by exists x].
    destruct (relay_task_ok overflow_checks ev (ap_out a) y) as (_&_&_&_&Hrd&Hrl); [by eapply Forall_lookup_1|].
    destruct (relay_task overflow_checks ev (ap_out a) y) as [st y']. cbn in *.
    destruct (decide (i = j)) as [->|]; [|exists x; by rewrite list_lookup_insert_ne].
    simplify_eq. exists y'. rewrite list_lookup_insert_eq by (by eapply lookup_lt_Some). split_and!; [done..|].
    intros Hf. apply not_true_iff_false. intros Ht%Hrd. congruence.
  - unfold local_app. destruct (ap_assocs a !! j) as [y|] eqn:Hj; [|by exists x].
    destruct (local_blocked y); [by exists x|]. destruct (match ev with Local_Cancelled => _ | _ => _ end); [|by exists x].
    destruct (local_task_frame ev y) as (_&_&Hrl&Hrd). cbn.
    destruct (decide (i = j)) as [->|]; [|exists x; by rewrite list_lookup_insert_ne].
    simplify_eq. exists (local_task ev x). rewrite list_lookup_insert_eq by (by eapply lookup_lt_Some).
    by rewrite Hrl.
Qed.

(** The accepting tasks are only touched by their own events. *)
Lemma incoming_step_over ev a :
  let h := ap_incoming a in let h' := ap_incoming (app_step ev a) in
  (hd_running (ih_datagram h) = false -> hd_running (ih_datagram h') = false) /\
  (hd_running (ih_bi h) = false -> hd_running (ih_bi h') = false) /\
  (hd_running (ih_uni h) = false -> hd_running (ih_uni h') = false).
Proof.
  cbv zeta. destruct ev; cbn [App.app_step];
    unfold poll_app, incoming_step, listen_app, relay_app, local_app, ap_set_out; cbn;
    repeat case_match; cbn; split_and!; auto using accept_step_running.
Qed.

(** A task that is over stays over. *)
Lemma task_over_step t ev a : event_ok ev -> app_ok a -> spawned t a ->
  task_over t a = true -> task_over t (app_step ev a) = true.
Proof.
  intros He Hok Hsp Ht.
  assert (forall st, task_over T_Poll (ap_set_out st a) = task_over T_Poll a) as Hset.
  { intros st. unfold ap_set_out, task_over. cbn. by destruct (ap_poll a). }
  destruct t as [| | | | |i|i].
  - destruct ev as [| | | | | | | | |ev|j ev|j ev]; cbn [App.app_step]; try done;
      try (unfold poll_app; cbn in Ht; destruct (ap_poll a) eqn:Hp; [done|]; cbn; by rewrite Hp).
    + destruct (listen_assocs ev a Hok) as [Hp _]. unfold task_over in *. rewrite Hp.
      unfold ap_set_out. cbn. by destruct (ap_poll a).
    + unfold relay_app. destruct (ap_assocs a !! j) as [x|]; [|done].
      destruct (match ev with Relay_Cancelled => _ | _ => _ end); [|done].
      destruct (relay_task overflow_checks ev (ap_out a) x) as [st x'].
      change (task_over T_Poll (ap_set_out st a) = true). by rewrite Hset.
    + unfold local_app. destruct (ap_assocs a !! j) as [x|]; [|done]. destruct (local_blocked x); [done|].
      by destruct (match ev with Local_Cancelled => _ | _ => _ end).
  - by apply negb_true_iff, (incoming_step_over ev a), negb_true_iff.
  - by apply negb_true_iff, (incoming_step_over ev a), negb_true_iff.
  - by apply negb_true_iff, (incoming_step_over ev a), negb_true_iff.
  - cbn in Ht. destruct (ls_state (ap_listener a)) eqn:Hl; try done.
    assert (forall a', ap_listener a' = ap_listener a -> task_over T_Listen a' = true) as Hsame.
    { intros a' He'. unfold task_over. by rewrite He', Hl. }
    destruct ev; cbn [App.app_step]; try (apply Hsame;
      unfold poll_app, relay_app, local_app, incoming_step, ap_set_out; repeat case_match; done).
    unfold listen_app, socks_listen_step. rewrite Hl. destruct (listen_ready _ _); by apply Hsame.
  - cbn in Hsp, Ht. destruct (lookup_lt_is_Some_2 _ _ Hsp) as [x Hx]. rewrite Hx in Ht.
    destruct (assocs_step ev a i x He Hok Hx) as (x'&Hx'&Hrl&_). cbn. rewrite Hx'.
    apply negb_true_iff in Ht. apply negb_true_iff. auto.
  - cbn in Hsp, Ht. destruct (lookup_lt_is_Some_2 _ _ Hsp) as [x Hx]. rewrite Hx in Ht.
    destruct (assocs_step ev a i x He Hok Hx) as (x'&Hx'&_&Hrd). cbn. rewrite Hx'.
    apply negb_true_iff in Ht. apply negb_true_iff. auto.
Qed.

(** A task that waits for room in a channel does not see the cancellation. *)
Definition waiting (t : Task) (a : App) : bool :=
  match t with
  | T_Poll => poll_blocked (ap_out a)
  | T_Local i => match ap_assocs a !! i with Some x => local_blocked x | None => false end
  | _ => false
  end.

(** Only the first task of an association makes others wait. *)
Lemma nothing_waits t a : app_ok a ->
  (forall i, spawned (T_Relay i) a -> task_over (T_Relay i) a = true) -> waiting t a = false.
Proof.
  intros (_&Ha&_&_&_&_&_&_&_&How) Hr.
  assert (forall i x, ap_assocs a !! i = Some x -> as_relaying x = false) as Hrl.
  { intros i x Hx. specialize (Hr i (lookup_lt_Some _ _ _ Hx)). cbn in Hr. rewrite Hx in Hr.
    by apply negb_true_iff. }
  destruct t as [| | | | |i|i]; try done.
  - apply bool_decide_eq_false. intros (p&u&Hu&Hb). specialize (How p (elem_of_dom_2 _ _ _ Hu)).
    apply list_elem_of_fmap in How as (x&->&[i Hi]%list_elem_of_lookup).
    destruct (Forall_lookup_1 _ _ _ _ Ha Hi) as ((v&Hv&_&Ho)&_). simplify_eq.
    unfold stream_blocked in Hb. by rewrite Ho, (Hrl i x Hi) in Hb.
  - cbn. destruct (ap_assocs a !! i) as [x|] eqn:Hx; [|done]. unfold local_blocked. by rewrite (Hrl i x Hx).
Qed.

(** After the cancellation each task but the listener ends at its next chance,
    unless it waits. *)
Lemma cancel_ends t a : app_ok a -> ap_cancelled a = true -> spawned t a -> t <> T_Listen ->
  waiting t a = false -> task_over t (app_step (cancel_event t) a) = true.
Proof.
  intros Hok Hc Hsp Ht Hw. assert (Forall (assoc_ok (ap_out a)) (ap_assocs a)) as Ha by apply Hok.
  destruct t as [| | | | |i|i]; cbn [cancel_event App.app_step]; try done.
  - unfold poll_app. destruct (ap_poll a) eqn:Hp; [|cbn; by rewrite Hp]. cbn in Hw. rewrite Hw.
    destruct (ap_taken a) as [[? ?] ?]. by rewrite Hc.
  - unfold incoming_step, accept_step. rewrite Hc. cbn. by rewrite handler_task_cancelled.
  - unfold incoming_step, accept_step. rewrite Hc. cbn. by rewrite handler_task_cancelled.
  - unfold incoming_step, accept_step. rewrite Hc. cbn. by rewrite handler_task_cancelled.
  - cbn in Hsp. destruct (lookup_lt_is_Some_2 _ _ Hsp) as [x Hx]. unfold relay_app. rewrite Hx, Hc.
    destruct (Forall_lookup_1 _ _ _ _ Ha Hx) as ((u&Hu&_)&_). unfold relay_task, relay_step. rewrite Hu.
    destruct (as_relaying x) eqn:Hr; cbn; rewrite list_lookup_insert_eq by done; cbn; by rewrite ?Hr.
  - cbn in Hsp, Hw. destruct (lookup_lt_is_Some_2 _ _ Hsp) as [x Hx]. rewrite Hx in Hw.
    unfold local_app. rewrite Hx, Hw, Hc.
    unfold local_task, local_step.
    destruct (as_reading x) eqn:Hr; cbn; rewrite list_lookup_insert_eq by done; cbn; by rewrite ?Hr.
Qed.

(** Between two sessions the listener sees it too. *)
Lemma cancel_listener a : ap_cancelled a = true -> ls_state (ap_listener a) = Listening ->
  task_over T_Listen (app_step (Ev_Listen Socks_Cancelled) a) = true.
Proof.
  intros Hc Hl. cbn [App.app_step]. unfold listen_app, socks_listen_step. cbn [listen_ready].
  by rewrite Hc, Hl.
Qed.

Lemma flags_step ev a :
  (ap_cancelled a = true -> ap_cancelled (app_step ev a) = true) /\
  (ap_closed a = true -> ap_closed (app_step ev a) = true).
Proof.
  destruct ev; cbn [App.app_step]; try done;
    unfold poll_app, incoming_step, listen_app, relay_app, local_app, ap_set_out; repeat case_match; done.
Qed.

(** With the listener over no association is added. *)
Lemma assocs_length_step ev a : task_over T_Listen a = true ->
  length (ap_assocs (app_step ev a)) = length (ap_assocs a).
Proof.
  cbn. intros Ht. destruct (ls_state (ap_listener a)) eqn:Hl; try done.
  destruct ev; cbn [App.app_step]; try done;
    unfold poll_app, incoming_step, listen_app, relay_app, local_app, socks_listen_step, ap_set_out;
    rewrite ?Hl; repeat case_match; simplify_eq; cbn; rewrite ?length_insert; done.
Qed.

(** ** Schedules *)

Section schedule.
Context (sched : nat -> AppEvent) (a0 : App).

Fixpoint app_at (n : nat) : App :=
  match n with
  | O => a0
  | S n => app_step (sched n) (app_at n)
  end.

(** The listener is not in the middle of a session. *)
Definition between_sessions (a : App) : Prop :=
  ls_state (ap_listener a) = Listening \/ task_over T_Listen a = true.

(** A scheduler and an environment under which the program can stop: what the
    system answers is well formed; each spawned task keeps being scheduled
    when it could see the cancellation; each session ends; and [select!] does
    not for ever prefer the next client to the cancellation. *)
Record fair_schedule : Prop := {
  fs_events n : event_ok (sched n);
  fs_tasks t n : spawned t (app_at n) -> t <> T_Listen ->
    exists m, (n <= m)%nat /\ sched m = cancel_event t;
  fs_sessions n : exists m, (n <= m)%nat /\ between_sessions (app_at m);
  fs_listen : (forall n, exists m, (n <= m)%nat /\ between_sessions (app_at m)) ->
    forall n, exists m, (n <= m)%nat /\
      (task_over T_Listen (app_at m) = true \/
       (ls_state (ap_listener (app_at m)) = Listening /\ sched m = Ev_Listen Socks_Cancelled))
}.

Context (Hok : app_ok a0) (Hev : forall n, event_ok (sched n)).

Lemma app_at_ok n : app_ok (app_at n).
Proof. induction n as [|n IH]; [done|]. cbn. by apply app_ok_step. Qed.

(** Facts about one state that hold for ever. *)
Lemma from_then_on (P : App -> Prop) n m :
  (forall k, (n <= k)%nat -> P (app_at k) -> P (app_at (S k))) -> P (app_at n) -> (n <= m)%nat -> P (app_at m).
Proof. intros Hs Hn Hm. induction Hm as [|m Hm IH]; [done|]. by apply Hs. Qed.

Lemma over_for_ever t n m : spawned t (app_at n) -> task_over t (app_at n) = true -> (n <= m)%nat ->
  task_over t (app_at m) = true.
Proof.
  intros Hsp Ht Hm.
  apply (from_then_on (fun a => spawned t a /\ task_over t a = true) n m); [|done|done].
  intros k _ [Hk Ho]. cbn. pose proof (app_at_ok k) as Hk'. split; [|by apply task_over_step].
  destruct t as [| | | | |i|i]; cbn in *; try done;
    destruct (lookup_lt_is_Some_2 _ _ Hk) as [x Hx];
    destruct (assocs_step _ _ _ _ (Hev k) Hk' Hx) as (x'&Hx'&_); by eapply lookup_lt_Some.
Qed.

Lemma spawned_for_ever n m : task_over T_Listen (app_at n) = true -> (n <= m)%nat ->
  length (ap_assocs (app_at m)) = length (ap_assocs (app_at n)).
Proof.
  intros Ht Hm.
  apply (from_then_on (fun a => length (ap_assocs a) = length (ap_assocs (app_at n))) n m); [|done|done].
  intros k Hk Hl. cbn. rewrite assocs_length_step; [done|]. by eapply over_for_ever.
Qed.

Lemma flags_for_ever n m : (n <= m)%nat ->
  ap_cancelled (app_at n) = true -> ap_closed (app_at n) = true ->
  ap_cancelled (app_at m) = true /\ ap_closed (app_at m) = true.
Proof.
  intros Hm Hc Hcl. apply (from_then_on (fun a => ap_cancelled a = true /\ ap_closed a = true) n m); [|done|done].
  intros k _ [H1 H2]. cbn. destruct (flags_step (sched k) (app_at k)). auto.
Qed.

(** A spawned task whose turn comes while it does not wait is over for good. *)
Lemma ends_eventually t n :
  (forall m, (n <= m)%nat -> ap_cancelled (app_at m) = true) ->
  (forall m, (n <= m)%nat -> spawned t (app_at m)) ->
  (forall m, (n <= m)%nat -> waiting t (app_at m) = false) -> t <> T_Listen ->
  (exists m, (n <= m)%nat /\ sched m = cancel_event t) ->
  exists N, forall m, (N <= m)%nat -> task_over t (app_at m) = true.
Proof.
  intros Hc Hsp Hw Hne (m&Hm&Hs). exists (S m). intros k Hk.
  eapply (over_for_ever t (S m)); [apply Hsp; lia| |lia].
  cbn. rewrite Hs. apply cancel_ends; auto using app_at_ok.
Qed.
End schedule.

(** C6: a shutdown completes.  From a well-formed state, on every schedule that
    is fair to the tasks, in which sessions end and Ctrl-C arrives, there is a
    point from which on every task has ended: [main]'s wait returns.  Tasks
    that wait for room in a full channel are released when the task at its
    other end sees the cancellation. *)
Theorem shutdown_completes sched a0 n :
  app_ok a0 -> fair_schedule sched a0 -> sched n = Ev_Shutdown ->
  exists N, forall m, (N <= m)%nat -> main_result (app_at sched a0 m) = Ok ().
Proof.
  intros Hok [Hev Htasks Hsess Hlisten] Hn.
  assert (ap_cancelled (app_at sched a0 (S n)) = true /\ ap_closed (app_at sched a0 (S n)) = true) as [Hc Hcl].
  { cbn. by rewrite Hn. }
  pose proof (fun m Hm => flags_for_ever sched a0 (S n) m Hm Hc Hcl) as Hflags.
  pose proof (app_at_ok sched a0 Hok Hev) as Hoks.
  assert (exists N, (S n <= N)%nat /\ task_over T_Listen (app_at sched a0 N) = true) as (N&HN&Hl).
  { destruct (Hlisten Hsess (S n)) as (m&Hm&[Ho|[Hl Hs]]); [by exists m|].
    exists (S m). split; [lia|]. cbn. rewrite Hs. apply cancel_listener; [by apply Hflags|done]. }
  assert (forall t k, (N <= k)%nat -> spawned t (app_at sched a0 N) <-> spawned t (app_at sched a0 k)) as Hsp.
  { intros t k Hk. destruct t; cbn in *; try done; by rewrite (spawned_for_ever sched a0 Hok Hev N k). }
  assert (forall t n, (N <= n)%nat -> t ∈ tasks (app_at sched a0 N) -> t <> T_Listen ->
    (forall m, (n <= m)%nat -> waiting t (app_at sched a0 m) = false) ->
    exists N, forall m, (N <= m)%nat -> task_over t (app_at sched a0 m) = true) as Hends.
  { intros t k Hk Ht%elem_tasks Hne Hw. eapply (ends_eventually sched a0 Hok Hev t k); try done.
    - intros m Hm. apply Hflags. lia.
    - intros m Hm. apply Hsp; [lia|done].
    - apply Htasks; [|done]. by apply Hsp. }
  destruct (eventually_all (fun i m => task_over (T_Relay i) (app_at sched a0 m) = true)
    (seq 0 (length (ap_assocs (app_at sched a0 N))))) as [N1 HN1].
  { intros i Hi%elem_of_seq. apply (Hends _ N); [done| |done|done]. apply elem_tasks. cbn. lia. }
  destruct (eventually_all (fun t m => task_over t (app_at sched a0 m) = true) (tasks (app_at sched a0 N)))
    as [N' HN'].
  { intros t Ht. assert (t = T_Listen \/ t <> T_Listen) as [->|Hne] by (destruct t; auto).
    - exists N. intros m Hm. by eapply (over_for_ever sched a0 Hok Hev T_Listen N).
    - apply (Hends t (Nat.max N N1)); [lia|done|done|]. intros m Hm. apply nothing_waits; [done|].
      intros i Hi. specialize (HN1 m ltac:(lia)). rewrite Forall_forall in HN1. apply HN1, elem_of_seq.
      apply (Hsp (T_Relay i) m ltac:(lia)) in Hi. cbn in Hi. lia. }
  exists (Nat.max N N'). intros m Hm. unfold main_result, wait_ready.
  rewrite (proj2 (Hflags m ltac:(lia))). cbn [andb].
  rewrite (Is_true_eq_true (forallb _ _)); [done|]. apply forallb_True, Forall_forall. intros t Ht%elem_tasks.
  apply Is_true_eq_left. specialize (HN' m ltac:(lia)). rewrite Forall_forall in HN'. apply HN', elem_tasks.
  by apply (Hsp t m ltac:(lia)).
Qed.

(** ** One session at a time *)

(** The events of the client's own streams that a busy listener waits for. *)
Definition own_event (x : ListenState (CB:=manager)) (ev : AppEvent) : bool :=
  match x, ev with
  | Handshaking, Ev_Listen (Socks_Command _) => true
  | Serving (Await_Tcp _), Ev_Listen (Socks_Session (Session_Io _)) => true
  | Serving (Await_Udp _), Ev_Listen (Socks_Session (Session_ControlEnded _)) => true
  | _, _ => false
  end.

Definition busy (x : ListenState (CB:=manager)) : bool :=
  match x with Handshaking | Serving _ => true | Listening | Listened _ => false end.

Lemma drop_udp_total id h : exists r h', drop_udp id h = Returns (r, h') .
Proof.
  unfold drop_udp, open_uni, m_bind at 1, q_call. destruct (q_open_uni h) as [sid|]; [|by do 2 eexists].
  rewrite (encode_into_ok header_codec) by done. unfold encode_into, CmdCodec_encode, m_bind, m_local, m_from.
  cbn. unfold write_chunk, q_call, guard_unit. destruct (q_write_chunk _ _ _); by do 2 eexists.
Qed.

Lemma busy_step ev a : busy (ls_state (ap_listener a)) = true ->
  own_event (ls_state (ap_listener a)) ev = false ->
  let l := ap_listener (app_step ev a) in
  busy (ls_state l) = true /\ ls_log l = ls_log (ap_listener a) /\
  forall ev', own_event (ls_state l) ev' = own_event (ls_state (ap_listener a)) ev'.
Proof.
  intros Hb Ho. cbv zeta.
  assert (forall a', ap_listener a' = ap_listener a ->
    busy (ls_state (ap_listener a')) = true /\ ls_log (ap_listener a') = ls_log (ap_listener a) /\
    forall ev', own_event (ls_state (ap_listener a')) ev' = own_event (ls_state (ap_listener a)) ev') as Hsame
    by (by intros a' ->).
  destruct ev as [| | | | | | | | |ev| |]; cbn [App.app_step]; try (apply Hsame;
    unfold poll_app, relay_app, local_app, incoming_step, ap_set_out; repeat case_match; done).
  unfold listen_app. destruct (listen_ready _ _); [|by apply Hsame]. unfold socks_listen_step.
  destruct (ls_state (ap_listener a)) as [| |p|] eqn:Hl; try done; [destruct ev; try done; by apply Hsame|].
  destruct ev as [| | | |ev]; try (by apply Hsame).
  destruct p as [f|[f|]], ev; try done; cbn; try (rewrite <-Hl; by apply Hsame).
  destruct (drop_udp_total f (to_connection (ap_out a))) as (r&h'&Hd).
  unfold session_step, logged, call. m_unfold. cbn. unfold dissociate, udp_teardown. cbn [fst snd]. by rewrite Hd.
Qed.

(** C32: one client at a time.  From the moment a client is accepted until its
    own streams end the session, nothing else in the program, the cancellation
    included, makes the listener serve another client or return: a shutdown
    that is requested meanwhile times out. *)
Theorem session_blocks_listener a evs :
  busy (ls_state (ap_listener a)) = true ->
  Forall (fun ev => own_event (ls_state (ap_listener a)) ev = false) evs ->
  let a' := app_run overflow_checks log_info opts evs a in
  ls_log (ap_listener a') = ls_log (ap_listener a) /\
  main_result a' = Err (Report_Msg "deadline has elapsed").
Proof.
  intros Hb Hevs. cbv zeta. revert a Hb Hevs.
  induction evs as [|ev evs IH]; intros a Hb Hevs.
  - split; [done|]. unfold main_result, wait_ready, tasks. cbn [app forallb App.app_run foldl].
    unfold task_over at 5. destruct (ls_state (ap_listener a)); try done;
      rewrite ?andb_false_r; done.
  - apply Forall_cons in Hevs as [Ho Hevs]. destruct (busy_step ev a Hb Ho) as (Hb'&Hlog&Hown).
    destruct (IH (app_step ev a) Hb') as [Hl Hm].
    { eapply Forall_impl; [exact Hevs|]. intros e. by rewrite Hown. }
    split; [|done]. by rewrite <-Hlog.
Qed.

(** When the controlling stream of a UDP session ends, the callback's future
    is dropped: no [Dissociate] is sent, and the association's tasks and its
    entry in the session table stay as they are. *)
Lemma closed_association_stays a f eof :
  ls_state (ap_listener a) = Serving (Await_Udp f) ->
  let a' := app_step (Ev_Listen (Socks_Session (Session_ControlEnded eof))) a in
  ls_state (ap_listener a') = Listening /\ ap_assocs a' = ap_assocs a /\ ap_out a' = ap_out a.
Proof.
  intros Hl. cbn [App.app_step]. unfold listen_app, socks_listen_step. rewrite Hl. cbn [listen_ready].
  unfold session_step. assert (forall st, ap_out (ap_set_out st a) = st) as Ho by (intros; apply ap_out_set).
  destruct f as [f|]; cbn; (split_and!; [done..|]); apply Ho.
Qed.
End tasks.

(** ** Witnesses *)

(** A client associates, Ctrl-C, the association is torn down, the client
    leaves; then the tasks are scheduled in turns. *)
Definition demo_tasks : list Task := [T_Poll; T_Datagram; T_Bi; T_Uni; T_Listen; T_Relay 0; T_Local 0].

Definition demo_sched (n : nat) : AppEvent :=
  match n with
  | 0 => Ev_Listen Socks_Accepted
  | 1 => Ev_Listen (Socks_Command demo_client_session)
  | 2 => Ev_Shutdown
  | 3 => Ev_Listen (Socks_Session Session_Cancelled)
  | 4 => Ev_Listen (Socks_Session (Session_ControlEnded true))
  | n => cancel_event (nth ((n - 5) mod 7) demo_tasks T_Poll)
  end%nat.

Local Abbreviation demo_at := (app_at true true demo_opts demo_sched demo_app).

Lemma demo_app_ok : app_ok demo_app.
Proof.
  destruct demo_run_eq as [h Hrun].
  exact (proj1 (run_ok (ML:=bounded_map_laws) demo_connect_env demo_tuic true [] demo_app h Hrun)).
Qed.

Lemma demo_sched_ok n : event_ok (demo_sched n).
Proof.
  unfold demo_sched. do 5 (destruct n as [|n]; [exact I|]).
  by destruct (nth _ demo_tasks T_Poll).
Qed.

Lemma demo_over n : (12 <= n)%nat -> task_over T_Listen (demo_at n) = true.
Proof.
  intros Hn. apply (over_for_ever (BL:=list_bytes_laws) (UL:=list_uuid_laws) (ML:=bounded_map_laws) true true
    demo_opts demo_sched demo_app demo_app_ok demo_sched_ok T_Listen 12); [done| |done].
  vm_compute. reflexivity.
Qed.

Lemma demo_length n : (length (ap_assocs (demo_at n)) <= 1)%nat.
Proof.
  destruct (decide (12 <= n)%nat) as [Hn|Hn].
  - rewrite (spawned_for_ever (BL:=list_bytes_laws) (UL:=list_uuid_laws) (ML:=bounded_map_laws) true true
      demo_opts demo_sched demo_app demo_app_ok demo_sched_ok 12 n) by (done || by apply demo_over).
    apply Nat.leb_le. vm_compute. reflexivity.
  - apply Nat.leb_le. do 12 (destruct n as [|n]; [vm_compute; reflexivity|]). lia.
Qed.

Lemma demo_turn t i n : (i < 7)%nat -> nth i demo_tasks T_Poll = t ->
  exists m, (n <= m)%nat /\ demo_sched m = cancel_event t.
Proof.
  intros Hi Ht. exists (5 + (i + n * 7))%nat. split; [lia|]. unfold demo_sched. cbn [Nat.add].
  replace (S (S (S (S (S (i + n * 7))))) - 5)%nat with (i + n * 7)%nat by lia.
  rewrite Nat.Div0.mod_add, Nat.mod_small by done. by rewrite Ht.
Qed.

Lemma demo_fair : fair_schedule true true demo_opts demo_sched demo_app.
Proof.
  split.
  - apply demo_sched_ok.
  - intros t n Hsp Hne. pose proof (demo_length n).
    destruct t as [| | | | |i|i]; cbn [spawned] in Hsp; try (by destruct Hne);
      try (assert (i = 0%nat) as -> by lia).
    + by apply (demo_turn T_Poll 0); [lia|].
    + by apply (demo_turn T_Datagram 1); [lia|].
    + by apply (demo_turn T_Bi 2); [lia|].
    + by apply (demo_turn T_Uni 3); [lia|].
    + by apply (demo_turn (T_Relay 0) 5); [lia|].
    + by apply (demo_turn (T_Local 0) 6); [lia|].
  - intros n. exists (12 + n)%nat. split; [lia|]. right. apply demo_over. lia.
  - intros _ n. exists (12 + n)%nat. split; [lia|]. left. apply demo_over. lia.
Qed.

Lemma shutdown_completes_witness :
  exists N, forall m, (N <= m)%nat -> main_result (demo_at m) = Ok ().
Proof.
  apply (shutdown_completes (BL:=list_bytes_laws) (UL:=list_uuid_laws) (ML:=bounded_map_laws) true true
    demo_opts demo_sched demo_app 2 demo_app_ok demo_fair). reflexivity.
Defined.

Lemma session_blocks_listener_witness :
  let a := app_run true true demo_opts
    [Ev_Listen Socks_Accepted; Ev_Listen (Socks_Command demo_client_session)] demo_app in
  main_result (app_run true true demo_opts
    [Ev_Listen Socks_Accepted; Ev_Shutdown; Ev_PollCancelled; Ev_Listen Socks_Cancelled;
     Ev_Listen (Socks_Session Session_Cancelled)] a) = Err (Report_Msg "deadline has elapsed").
Proof.
  cbv zeta. apply (session_blocks_listener (BL:=list_bytes_laws)).
  - vm_compute. reflexivity.
  - repeat constructor; vm_compute; reflexivity.
Defined.
