(* ===== verification/Pipeline.v ===== *)
(** * UDP through the whole program

    The queues of every association at once: under every interleaving of all
    the program's tasks, with the channels' capacities, what an association
    sends is what its local socket delivered, what it hands to the local socket
    is what the datagrams for it carry, and no association sees another's
    packets. *)

From stdpp Require Import base list gmap strings list_numbers.
From S2P Require Import Prelude BytesCrate Types Codec Header Cmd Addr Quinn Io Callback.
From S2P Require Import Proto Messages Moka CoreUdp SocksUdp SocksInbound Tasks Reassembly ReassemblySpec.
From S2P Require Import Delivery Buffer UdpStream Outbound Client Traffic Association App AppProps Shutdown.

(** ** What happens to one association *)
Section trace.
Context {B : BytesOps} {U : UuidOps} {Q : QuinnOps} {MO : MokaOps}.
Context (overflow_checks log_info : bool) (opts : SocksInboundOpt).

(** The steps of its own tasks, and the datagrams the poll loop takes, in a
    state in which it exists. *)
Definition performed (i : nat) (ev : AppEvent) (a : App) : list AssocEvent :=
  match ap_assocs a !! i with
  | None => []
  | Some x =>
    match ev with
    | Ev_Relay j ev => if decide (j = i) then [As_Relay ev] else []
    | Ev_Local j ev =>
      if decide (j = i) then if as_reading x && negb (local_blocked x) then [As_Local ev] else [] else []
    | Ev_TakeDatagram now =>
      match ap_poll a, hd_forwarded (ih_datagram (ap_incoming a)) !! (ap_taken a).1.1 with
      | Polling _ _, Some data =>
        if poll_blocked (ap_out a) then [] else [As_Poll (Poll_Datagram now data)]
      | _, _ => []
      end
    | _ => []
    end
  end.

Fixpoint trace (i : nat) (evs : list AppEvent) (a : App) : list AssocEvent :=
  match evs with
  | [] => []
  | ev :: evs' => performed i ev a ++ trace i evs' (app_step overflow_checks log_info opts ev a)
  end.
End trace.

(** The messages for an association among the datagrams taken; the others are
    not packets of it. *)
Inductive heard {B : BytesOps} {U : UuidOps} (id : u16) : list bytes -> list RxMsg -> Prop :=
| heard_nil : heard id [] []
| heard_own m ds ms : rx_wf m -> heard id ds ms -> heard id (rx_datagram id m :: ds) (m :: ms)
| heard_other d ds ms : assoc_of d <> Some id -> heard id ds ms -> heard id (d :: ds) ms.

Section pipeline.
Context {B : BytesOps} {BL : BytesLaws B} {U : UuidOps} {UL : UuidLaws U}
        {Q : QuinnOps} {MO : MokaOps} {ML : MokaLaws MO}.
Context (overflow_checks log_info : bool) (opts : SocksInboundOpt).
Local Abbreviation app_step := (app_step overflow_checks log_info opts).
Local Abbreviation app_run := (app_run overflow_checks log_info opts).
Local Abbreviation trace := (trace overflow_checks log_info opts).

(** ** Identifiers *)

(** Associations are numbered in the order of their creation. *)
Definition ids_ok (a : App) : Prop :=
  to_udp_assoc_counter (ap_out a) = as_u16 (len (ap_assocs a)) /\
  (forall i x, ap_assocs a !! i = Some x -> as_id x = as_u16 (Z.of_nat i)) /\
  capacity (to_udp_session (ap_out a)) = 65535 /\
  forall id p, contents (to_udp_session (ap_out a)) !! id = Some p -> 0 <= id < len (ap_assocs a).

Lemma evolves_any n keep (st st' : TuicOutbound) : evolves n keep st st' -> evolves n (fun _ => False) st st'.
Proof.
  intros (?&[? ?]&?&Hst). split_and!; [done..|]. intros p u Hu.
  destruct (Hst p u Hu) as (u'&?&?&_&?). exists u'. by split_and!.
Qed.

Lemma ids_insert {A} (f : Association -> A) (l : list Association) i x x' :
  l !! i = Some x -> f x' = f x -> f <$> <[i := x']> l = f <$> l.
Proof. intros Hi Hf. rewrite list_fmap_insert, Hf, list_insert_id; [done|]. by rewrite list_lookup_fmap, Hi. Qed.

(** A step adds an association or keeps the identity of those there are. *)
Lemma step_shape ev a : event_ok ev -> app_ok a ->
  (exists n, evolves n (fun _ => False) (ap_out a) (ap_out (app_step ev a)) /\
     as_id <$> ap_assocs (app_step ev a) = as_id <$> ap_assocs a /\
     as_ptr <$> ap_assocs (app_step ev a) = as_ptr <$> ap_assocs a) \/
  (ap_out (app_step ev a) = (udp_associate (ap_out a)).2 /\
   ap_assocs (app_step ev a) = ap_assocs a ++ [(udp_associate (ap_out a)).1]).
Proof.
  intros He Hok. pose proof Hok as (Ho&Ha&Hn&Hp&_&_&_&Hl&_).
  assert (forall a', ap_out a' = ap_out a -> ap_assocs a' = ap_assocs a ->
    exists n, evolves n (fun _ => False) (ap_out a) (ap_out a') /\
     as_id <$> ap_assocs a' = as_id <$> ap_assocs a /\ as_ptr <$> ap_assocs a' = as_ptr <$> ap_assocs a) as Hsame.
  { intros a' -> ->. exists 0. split; [by apply evolves_refl|done]. }
  assert (forall pe t, exists n, evolves n (fun _ => False) (ap_out a)
    (ap_out (ap_set_taken t (ap_set_poll (poll_task overflow_checks log_info pe (ap_poll a)) a))) /\
     as_id <$> ap_assocs a = as_id <$> ap_assocs a /\ as_ptr <$> ap_assocs a = as_ptr <$> ap_assocs a) as Hpoll.
  { intros pe t. exists 1. split; [|done]. eapply evolves_any, (poll_task_ok overflow_checks log_info pe), Hp. }
  destruct ev as [| | | | | | | | |ev|j ev|j ev]; cbn [App.app_step]; try (left; by apply Hsame);
    try (left; unfold incoming_step; by apply Hsame);
    try (left; unfold poll_app; repeat case_match; try (by apply Hsame); apply (Hpoll _ (ap_taken a)) || apply Hpoll).
  - unfold listen_app. destruct (listen_ready _ _); [|left; by apply Hsame].
    destruct (socks_listen_step _ _ _ _) as [[l [st assocs]]|] eqn:Hs; [|left; by apply Hsame].
    destruct (listen_effect _ _ _ _ _ _ Hs Hl) as [Heff _].
    change (ap_out (ap_set_listener _ _)) with (ap_out (ap_set_out st a)). rewrite ap_out_set.
    cbn [ap_assocs ap_set_listener ap_set_assocs]. inversion Heff; subst; [left|by right].
    exists 0. split; [by apply evolves_connection|done].
  - left. unfold relay_app. destruct (ap_assocs a !! j) as [x|] eqn:Hj; [|by apply Hsame].
    destruct (match ev with Relay_Cancelled => _ | _ => _ end); [|by apply Hsame].
    destruct (relay_task_ok overflow_checks ev (ap_out a) x) as (Hev&_&Hptr&Hid&_); [by eapply Forall_lookup_1|].
    destruct (relay_task overflow_checks ev (ap_out a) x) as [st x']. cbn [fst snd] in *.
    change (ap_out (ap_set_assocs _ _)) with (ap_out (ap_set_out st a)). rewrite ap_out_set.
    exists 0. split; [by eapply evolves_any|]. cbn. split; by eapply ids_insert.
  - left. unfold local_app. destruct (ap_assocs a !! j) as [x|] eqn:Hj; [|by apply Hsame].
    destruct (local_blocked x); [by apply Hsame|].
    destruct (match ev with Local_Cancelled => _ | _ => _ end); [|by apply Hsame].
    destruct (local_task_frame ev x) as (Hptr&Hid&_).
    exists 0. split; [by apply evolves_refl|]. cbn. split; by eapply ids_insert.
Qed.

Lemma ids_step ev a : event_ok ev -> app_ok a -> ids_ok a -> ids_ok (app_step ev a).
Proof.
  intros He Hok (Hc&Hi&Hcap&Hdom). destruct (step_shape ev a He Hok) as [(n&(Hc'&[Hs Hs']&_)&Hid&_)|[Ho Ha]].
  - assert (len (ap_assocs (app_step ev a)) = len (ap_assocs a)) as Hlen.
    { apply (f_equal length) in Hid. rewrite !length_fmap in Hid. unfold len. by rewrite Hid. }
    unfold ids_ok. rewrite Hc', Hs, Hs', Hlen. split_and!; [done| |done|done]. intros i x Hx.
    assert ((as_id <$> ap_assocs (app_step ev a)) !! i = Some (as_id x)) as Hx' by by rewrite list_lookup_fmap, Hx.
    rewrite Hid, list_lookup_fmap in Hx'. apply fmap_Some in Hx' as (y&Hy&->). by apply Hi.
  - unfold ids_ok. rewrite Ho, Ha, len_app. change (len [_]) with 1. cbn. split_and!.
    + rewrite Hc. unfold as_u16. by rewrite Zplus_mod_idemp_l.
    + intros i x [Hx|[Hge Hx]]%lookup_app_Some; [by apply Hi|].
      apply list_lookup_singleton_Some in Hx as [Hz <-]. cbn. rewrite Hc. f_equal. unfold len. lia.
    + rewrite (proj1 (insert_config _ _ _)). done.
    + intros id p Hp. eapply lookup_weaken in Hp; [|apply insert_sub].
      apply lookup_insert_Some in Hp as [[<- _]|[_ Hp]]; [|apply Hdom in Hp; lia].
      rewrite Hc. unfold as_u16. pose proof (Z.mod_pos_bound (len (ap_assocs a)) (2 ^ 16)).
      pose proof (Z.mod_le (len (ap_assocs a)) (2 ^ 16) (len_nonneg _)). lia.
Qed.

(** ** What a step leaves alone *)

(** The poll loop, for one stream. *)
Lemma poll_task_view pe s p u : to_streams (poll_outbound s) !! p = Some u ->
  let s' := poll_task overflow_checks log_info pe s in
  exists u', to_streams (poll_outbound s') !! p = Some u' /\ same_ids u u' /\
    forall id, added (not_packet_of id) (to_connection (poll_outbound s)) (to_connection (poll_outbound s')).
Proof.
  intros Hu. cbv zeta. unfold poll_task. destruct (poll_step _ _ s pe) as [s'|] eqn:He.
  - by eapply poll_step_view.
  - exists u. cbn. split_and!; [done..|]. intros. apply added_refl.
Qed.

(** The first task of an association touches only its own stream, and sends
    only its own packets. *)
Lemma relay_task_frame ev st x : assoc_ok st x -> out_ok st ->
  let st' := (relay_task overflow_checks ev st x).1 in
  (forall p, p <> as_ptr x -> to_streams st' !! p = to_streams st !! p) /\
  to_udp_session st' = to_udp_session st /\ added (packet_of (as_id x)) (to_connection st) (to_connection st').
Proof.
  intros Hx Hs. pose proof Hx as ((u&Hu&Hid&Ho)&_). cbv zeta.
  assert (added (packet_of (as_id x)) (to_connection st) (to_connection (relay_task overflow_checks ev st x).1)) as Hadd.
  { apply relay_task_adds; [done|done|]. apply Forall_true. intros packet. apply allows_own.
    rewrite <-Hid. by destruct Hs as (_&Hs&_); destruct (Hs _ _ Hu). }
  apply and_assoc. split; [|done]. clear Hadd.
  assert (forall u', (forall p, p <> as_ptr x -> to_streams (to_set_stream (as_ptr x) u' st) !! p = to_streams st !! p) /\
    to_udp_session (to_set_stream (as_ptr x) u' st) = to_udp_session st) as Hset.
  { intros u'. split; [|done]. intros p Hp. cbn. by rewrite lookup_insert_ne. }
  assert ((forall p, p <> as_ptr x -> to_streams (relay_break st x).1 !! p = to_streams st !! p) /\
    to_udp_session (relay_break st x).1 = to_udp_session st) as Hbreak.
  { unfold relay_break. rewrite Hu. apply Hset. }
  unfold relay_task, relay_step. rewrite Hu. destruct (as_relaying x); [|done].
  destruct ev as [|ok| |now_ms]; [done| | |apply Hset].
  - destruct (us_receive u); [done|apply Hset].
  - destruct (as_queue x) as [|packet rest]; [by destruct (as_reading x)|].
    destruct (send_packet overflow_checks packet (u, to_connection st)) as [[r [u1 h1]]|] eqn:Hsend; [|done].
    exact (Hset u1).
Qed.

(** ** Outgoing *)

Lemma out_inv_poll id p pre st x pe : out_inv overflow_checks [] id p pre st x ->
  out_inv overflow_checks [] id p (pre ++ [As_Poll pe]) st x.
Proof. unfold out_inv. by rewrite outgoing_snoc, app_nil_r. Qed.
Lemma out_inv_relay id p pre st x re : out_inv overflow_checks [] id p pre st x ->
  out_inv overflow_checks [] id p (pre ++ [As_Relay re]) st x.
Proof. unfold out_inv. by rewrite outgoing_snoc, app_nil_r. Qed.

Definition out_pipe (i : nat) (tr : list AssocEvent) (a : App) : Prop :=
  match ap_assocs a !! i with
  | Some x => out_inv overflow_checks [] (as_id x) (as_ptr x) tr (ap_out a) x
  | None => tr = [] /\ added (not_packet_of (as_u16 (Z.of_nat i))) [] (to_connection (ap_out a))
  end.

(** A step of others. *)
Lemma out_frame i tr a a' : ids_ok a ->
  ap_assocs a' !! i = ap_assocs a !! i ->
  added (not_packet_of (as_u16 (Z.of_nat i))) (to_connection (ap_out a)) (to_connection (ap_out a')) ->
  (forall x u, ap_assocs a !! i = Some x -> to_streams (ap_out a) !! as_ptr x = Some u ->
     exists u', to_streams (ap_out a') !! as_ptr x = Some u' /\ same_ids u u') ->
  out_pipe i tr a -> out_pipe i tr a'.
Proof.
  intros (_&Hi&_) Ha Hc Hst. unfold out_pipe. rewrite Ha. destruct (ap_assocs a !! i) as [x|] eqn:Hx.
  - intros Hinv. pose proof Hinv as (_&taken&u&Hu&_). destruct (Hst x u eq_refl Hu) as (u'&Hu'&Hids).
    eapply (out_keep _ _ _ _ _ (ap_out a) x); try done. by rewrite (Hi i x Hx).
  - intros [-> Hadd]. split; [done|]. by eapply added_trans.
Qed.

Lemma as_u16_small n : 0 <= n < 65536 -> as_u16 n = n.
Proof. intros. unfold as_u16. by rewrite Z.mod_small. Qed.

(** Calls of one association are not another's. *)
Lemma packet_of_other i j c : Z.of_nat i < 65536 -> Z.of_nat j < 65536 -> i <> j ->
  packet_of (as_u16 (Z.of_nat j)) c -> not_packet_of (as_u16 (Z.of_nat i)) c.
Proof. intros Hi Hj Hne. rewrite !as_u16_small by lia. destruct c; cbn; try done. intros -> [=]. lia. Qed.

Lemma not_datagram_other id c : not_datagram c -> not_packet_of id c.
Proof. by destruct c. Qed.

(** Its own steps. *)
Lemma out_own_relay id p pre st x re : out_inv overflow_checks [] id p pre st x ->
  let r := relay_task overflow_checks re st x in
  out_inv overflow_checks [] id p (pre ++ [As_Relay re]) r.1 r.2.
Proof.
  intros Hinv. cbv zeta. apply out_inv_relay. unfold relay_task.
  destruct (relay_step _ _ _ _) as [[st' x']|] eqn:He; [by eapply out_step_relay|by apply out_break].
Qed.

Lemma out_own_local id p pre st x le : out_inv overflow_checks [] id p pre st x ->
  out_inv overflow_checks [] id p (pre ++ if as_reading x then [As_Local le] else []) st (local_task le x).
Proof.
  intros Hinv. unfold local_task. destruct (local_step le x) as [x'|] eqn:He.
  - destruct (as_reading x) eqn:Hr; [by eapply out_step_local|].
    unfold local_step in He. rewrite Hr in He. simplify_eq. by rewrite app_nil_r.
  - unfold local_step in He. destruct (as_reading x); [|done].
    destruct le as [|[[[n buf] meta]|e]]; try done. destruct (n =? 1) eqn:Hn; [|done].
    destruct (local_packets buf meta) as [ps|] eqn:Hps; [done|].
    destruct Hinv as (Hp&taken&u&?&?&?&?&?). split; [done|]. exists taken, u.
    rewrite outgoing_snoc. cbn [local_read]. rewrite Hn, Hps, app_nil_r. by split_and!.
Qed.

Lemma poll_task_conn pe s id :
  added (not_packet_of id) (to_connection (poll_outbound s))
    (to_connection (poll_outbound (poll_task overflow_checks log_info pe s))).
Proof. apply poll_task_adds, (heartbeat_foreign id). Qed.

(** The events of [performed] that are not reads add nothing to read. *)
Lemma out_pipe_quiet i tr es a : (es <> [] -> is_Some (ap_assocs a !! i)) -> concat (local_read <$> es) = [] ->
  out_pipe i tr a -> out_pipe i (tr ++ es) a.
Proof.
  intros Hs Hes. unfold out_pipe. destruct (ap_assocs a !! i) as [x|].
  - unfold out_inv, outgoing. by rewrite fmap_app, concat_app, Hes, app_nil_r.
  - destruct es as [|e es]; [by rewrite app_nil_r|]. by destruct (Hs ltac:(done)).
Qed.

Lemma performed_poll i ev a : (forall j e, ev <> Ev_Relay j e) -> (forall j e, ev <> Ev_Local j e) ->
  (performed i ev a <> [] -> is_Some (ap_assocs a !! i)) /\ concat (local_read <$> performed i ev a) = [].
Proof.
  intros Hr Hl. unfold performed. destruct (ap_assocs a !! i) as [x|]; [|done].
  split; [done|]. destruct ev; try done; repeat case_match; done || naive_solver.
Qed.

Lemma out_pipe_listen i tr ev a : app_ok a -> ids_ok a -> Z.of_nat i < 65536 ->
  len (ap_assocs (listen_app opts ev a)) <= 65536 -> out_pipe i tr a -> out_pipe i tr (listen_app opts ev a).
Proof.
  intros Hok Hids Hi Hlen Hpipe. pose proof Hok as (Ho&Ha&Hn&Hp&_&_&_&Hl&_). pose proof Hids as (Hc&Hid&_).
  unfold listen_app in *. destruct (listen_ready _ _); [|done].
  destruct (socks_listen_step _ _ _ _) as [[l [st assocs]]|] eqn:Hs; [|done].
  destruct (listen_effect _ _ _ _ _ _ Hs Hl) as [Heff _].
  assert (ap_out (ap_set_listener l (ap_set_assocs assocs (ap_set_out st a))) = st) as Hout
    by apply ap_out_set.
  inversion Heff as [h Hadd Heq|Heq]; simplify_eq.
  - eapply (out_frame i tr a); rewrite ?Hout; [done|done| |intros x u _ Hu; exists u; by split|done].
    eapply added_mono; [apply not_datagram_other|exact Hadd].
  - unfold out_pipe. rewrite Hout. cbn [ap_assocs ap_set_listener ap_set_assocs] in *.
    unfold out_pipe in Hpipe. destruct (ap_assocs a !! i) as [x|] eqn:Hx.
    + rewrite lookup_app_l, Hx by (by eapply lookup_lt_Some).
      destruct Hpipe as (Hp1&taken&u&Hu&Hrest). split; [done|]. exists taken, u. split; [|done].
      cbn. rewrite lookup_insert_ne; [done|]. intros Heq'. eapply (is_fresh (dom (to_streams (ap_out a)))).
      rewrite Heq'. by eapply elem_of_dom_2.
    + destruct Hpipe as [-> Hadd]. apply lookup_ge_None in Hx. rewrite lookup_app_r by done.
      destruct (decide (i = length (ap_assocs a))) as [->|Hne].
      * rewrite Nat.sub_diag. cbn. split; [done|]. exists [], (UdpStream_new (to_udp_assoc_counter (ap_out a))).
        cbn. rewrite lookup_insert_eq. split_and!; [done|done| |done|done].
        eapply sends_other; [constructor|]. rewrite Hc. exact Hadd.
      * rewrite (lookup_ge_None_2 [_]) by (cbn; lia). done.
Qed.

Lemma other_ptr i j x y (l : list Association) :
  NoDup (as_ptr <$> l) -> l !! i = Some x -> l !! j = Some y -> j <> i -> as_ptr x <> as_ptr y.
Proof.
  intros Hn Hx Hy Hne Heq. apply Hne.
  eapply (NoDup_lookup _ _ _ (as_ptr x) Hn); rewrite list_lookup_fmap; [by rewrite Hy, Heq|by rewrite Hx].
Qed.

Lemma performed_relay i j re a :
  performed i (Ev_Relay j re) a =
  if decide (j = i) then if ap_assocs a !! i then [As_Relay re] else [] else [].
Proof. unfold performed. by destruct (ap_assocs a !! i), (decide (j = i)). Qed.

Lemma out_pipe_relay i j tr ev a : app_ok a -> ids_ok a -> Z.of_nat i < 65536 -> len (ap_assocs a) <= 65536 ->
  out_pipe i tr a ->
  out_pipe i (tr ++ performed i (Ev_Relay j ev) a) (relay_app overflow_checks j ev a).
Proof.
  intros Hok Hids Hi Hlen Hpipe. pose proof Hok as (Ho&Ha&Hn&_). pose proof Hids as (_&Hid&_).
  rewrite performed_relay. unfold relay_app. destruct (ap_assocs a !! j) as [y|] eqn:Hj.
  2: { destruct (decide (j = i)) as [->|]; [rewrite Hj|]; by rewrite app_nil_r. }
  destruct (match ev with Relay_Cancelled => _ | _ => _ end).
  2: { destruct (decide (j = i)) as [->|]; [rewrite Hj|by rewrite app_nil_r].
       apply out_pipe_quiet; [by rewrite Hj|done|done]. }
  pose proof (Forall_lookup_1 _ _ _ _ Ha Hj) as Hy.
  destruct (relay_task_ok overflow_checks ev (ap_out a) y Hy) as (_&_&Hptr&Hid'&_).
  pose proof (relay_task_frame ev (ap_out a) y Hy Ho) as Hframe.
  pose proof (out_own_relay (as_id y) (as_ptr y) tr (ap_out a) y ev) as Hown.
  destruct (relay_task overflow_checks ev (ap_out a) y) as [st y']. cbn [fst snd] in *.
  pose proof (lookup_lt_Some _ _ _ Hj) as Hlt.
  assert (ap_out (ap_set_assocs (<[j := y']> (ap_assocs a)) (ap_set_out st a)) = st) as Hout by apply ap_out_set.
  destruct (decide (j = i)) as [->|Hne].
  - rewrite Hj. unfold out_pipe in *. rewrite Hj in Hpipe. rewrite Hout. cbn.
    rewrite list_lookup_insert_eq by done. rewrite Hptr, Hid'. by apply Hown.
  - rewrite app_nil_r. destruct Hframe as (Hst&_&Hadd). unfold len in Hlen.
    eapply (out_frame i tr a); rewrite ?Hout; [done| | | |done].
    + cbn. by rewrite list_lookup_insert_ne.
    + eapply added_mono; [|exact Hadd]. intros c. rewrite (Hid j y Hj). apply packet_of_other; [lia..|done].
    + intros x u Hx Hu. exists u. split; [|done]. rewrite Hst; [done|]. by eapply other_ptr.
Qed.

Lemma out_pipe_local i j tr ev a : out_pipe i tr a -> event_ok (Ev_Local j ev) -> app_ok a ->
  out_pipe i (tr ++ performed i (Ev_Local j ev) a) (local_app j ev a).
Proof.
  intros Hpipe He Hok. pose proof Hok as (_&Ha&_). unfold performed, local_app.
  destruct (ap_assocs a !! j) as [y|] eqn:Hj.
  2: { destruct (ap_assocs a !! i) as [x|] eqn:Hx; [|by rewrite app_nil_r].
       rewrite decide_False by congruence. by rewrite app_nil_r. }
  destruct (decide (j = i)) as [->|Hne].
  - rewrite Hj. destruct (local_blocked y); [by rewrite andb_false_r, app_nil_r|]. rewrite andb_true_r.
    destruct (match ev with Local_Cancelled => _ | _ => _ end) eqn:Hg.
    + destruct (local_task_frame ev y) as (Hptr&Hid&_).
      unfold out_pipe in *. rewrite Hj in Hpipe. cbn. rewrite list_lookup_insert_eq by (by eapply lookup_lt_Some).
      rewrite Hptr, Hid. by apply out_own_local.
    + apply out_pipe_quiet; [by rewrite Hj| |done]. by destruct ev, (as_reading y).
  - assert (forall a', ap_out a' = ap_out a -> ap_assocs a' !! i = ap_assocs a !! i -> out_pipe i tr a') as Hsame.
    { intros a' H1 H2. unfold out_pipe in *. by rewrite H1, H2. }
    assert (match ap_assocs a !! i with Some _ => [] | None => [] end = @nil AssocEvent) as Hnil
      by by destruct (ap_assocs a !! i).
    rewrite Hnil, app_nil_r. destruct (local_blocked y); [done|].
    destruct (match ev with Local_Cancelled => _ | _ => _ end); [|done].
    apply Hsame; [done|]. cbn. by rewrite list_lookup_insert_ne.
Qed.

Lemma out_pipe_step i tr ev a : event_ok ev -> app_ok a -> ids_ok a -> Z.of_nat i < 65536 ->
  len (ap_assocs (app_step ev a)) <= 65536 ->
  out_pipe i tr a -> out_pipe i (tr ++ performed i ev a) (app_step ev a).
Proof.
  intros He Hok Hids Hi Hlen Hpipe. pose proof Hok as (Ho&Ha&Hn&Hp&_&_&_&Hl&_).
  assert (forall es a', ap_out a' = ap_out a -> ap_assocs a' = ap_assocs a ->
    out_pipe i es a -> out_pipe i es a') as Hsame.
  { intros es a' H1 H2. unfold out_pipe. by rewrite H1, H2. }
  assert (forall es pe t, out_pipe i es a -> out_pipe i es
    (ap_set_taken t (ap_set_poll (poll_task overflow_checks log_info pe (ap_poll a)) a))) as Hpoll.
  { intros es pe t. apply out_frame; [done..|apply poll_task_conn|]. intros x u _ Hu.
    destruct (poll_task_view pe (ap_poll a) _ _ Hu) as (u'&?&?&_). by exists u'. }
  destruct ev as [| | | | | | | | |ev|j ev|j ev]; cbn [App.app_step] in *;
    try (match goal with |- out_pipe _ (_ ++ performed _ ?e _) _ =>
      destruct (performed_poll i e a) as [Hps1 Hps2]; [done..|];
      pose proof (out_pipe_quiet i tr _ a Hps1 Hps2 Hpipe) as Hq;
      clear Hps1 Hps2; set (es := tr ++ performed _ _ _) in *; clearbody es end);
    try (by apply Hsame);
    try (unfold poll_app; repeat case_match; try (by apply Hsame);
         by (apply (Hpoll _ _ (ap_taken a)) || apply Hpoll)).
  - by apply out_pipe_listen.
  - apply out_pipe_relay; try done. destruct (step_shape (Ev_Relay j ev) a He Hok) as [(_&_&Hid&_)|[_ Hnew]].
    + apply (f_equal length) in Hid. rewrite !length_fmap in Hid. cbn [App.app_step] in Hid.
      unfold len in *. by rewrite <-Hid.
    + cbn [App.app_step] in Hnew. rewrite Hnew, len_app in Hlen. change (len [_]) with 1 in Hlen. lia.
  - by apply out_pipe_local.
Qed.

(** ** Incoming *)

Definition in_pipe (i : nat) (tr : list AssocEvent) (ms : list RxMsg) (a : App) : Prop :=
  match ap_assocs a !! i with
  | Some x => in_inv (as_id x) (as_ptr x) tr ms (ap_out a) x
  | None => tr = [] /\ ms = []
  end.

Lemma in_inv_more id p pre es ms (st : TuicOutbound) x : in_inv id p pre ms st x -> in_inv id p (pre ++ es) ms st x.
Proof.
  intros (?&?&u&fw&?&?&?&?&?&?&Hall). split_and!; [done..|]. exists u, fw. split_and!; [done..|].
  intros [Hf _]%Forall_app. auto.
Qed.

(** A step of others. *)
Lemma in_frame i tr ms a a' :
  ap_assocs a' !! i = ap_assocs a !! i ->
  (forall x, ap_assocs a !! i = Some x ->
     to_streams (ap_out a') !! as_ptr x = to_streams (ap_out a) !! as_ptr x /\
     contents (to_udp_session (ap_out a')) !! as_id x = contents (to_udp_session (ap_out a)) !! as_id x) ->
  in_pipe i tr ms a -> in_pipe i tr ms a'.
Proof.
  intros Ha Hst. unfold in_pipe. rewrite Ha. destruct (ap_assocs a !! i) as [x|]; [|done].
  destruct (Hst x eq_refl) as [H1 H2]. unfold in_inv. by rewrite H1, H2.
Qed.

(** A datagram that is not for the association does not reach its stream. *)
Lemma on_datagram_foreign now data (st st' : TuicOutbound) p u :
  out_ok st -> to_streams st !! p = Some u -> assoc_of data <> Some (us_assoc_id u) ->
  on_datagram overflow_checks log_info now data st = Returns st' ->
  to_streams st' !! p = Some u /\ contents (to_udp_session st') = contents (to_udp_session st).
Proof.
  intros (_&_&Hsess) Hu Hno Hd.
  assert (contents (to_udp_session st') = contents (to_udp_session st)) as Hcont.
  { by apply (on_datagram_evolves _ _ (fun _ => True)) in Hd as (_&[? _]&_). }
  split; [|done]. unfold on_datagram, assoc_of in *.
  destruct (decode_header "datagram" data) as [[[header|e] buf]|]; [|by simplify_eq/=|done]. cbn [exec_bind] in Hd.
  destruct (decode_command _ _ buf) as [[[c|e] buf2]|]; [|by simplify_eq/=|done]. cbn [exec_bind] in Hd.
  destruct c as [| |id pkt total fid size| |]; try (by simplify_eq/=).
  destruct (decode_address _ buf2) as [[[addr|e] buf3]|]; [|by simplify_eq/=|done]. cbn [exec_bind] in Hd.
  destruct (copy_to_bytes size buf3) as [[payload rest]|]; [|done]. cbn [exec_bind] in Hd.
  destruct (if log_info then _ else _); [|done]. cbn [exec_bind] in Hd. simplify_eq.
  unfold deliver in *. pose proof (get_value id (to_udp_session st)) as Hv.
  destruct (cache_get id (to_udp_session st)) as [o c]. cbn [fst] in Hv. subst o.
  cbn [to_set_session to_streams] in *. destruct (contents (to_udp_session st) !! id) as [q|] eqn:Hq; [|done].
  destruct (Hsess id q Hq) as (v&Hv&Hvid). cbn [mbind option_bind] in *. rewrite Hv in *.
  assert (q <> p) as Hne by (intros ->; naive_solver). cbn [fmap option_fmap option_map].
  destruct (if 1 <? total then _ else _) as [[packet|] w]; cbn; by rewrite lookup_insert_ne.
Qed.

Lemma heard_nothing id ms : heard id [] ms -> ms = [].
Proof. by inversion 1. Qed.

Lemma id_u16 i : is_u16 (as_u16 (Z.of_nat i)).
Proof. unfold is_u16, as_u16. apply Z.mod_pos_bound. lia. Qed.

(** The poll loop takes a datagram. *)
Lemma in_pipe_datagram i tr ms ms' now data a st' :
  let id := as_u16 (Z.of_nat i) in
  app_ok a -> ids_ok a -> is_Some (ap_assocs a !! i) ->
  on_datagram overflow_checks log_info now data (ap_out a) = Returns st' ->
  heard id [data] ms' -> rx_room id ∅ (ms ++ ms') ->
  in_pipe i tr ms a -> forall a', ap_out a' = st' -> ap_assocs a' = ap_assocs a ->
  in_pipe i (tr ++ [As_Poll (Poll_Datagram now data)]) (ms ++ ms') a'.
Proof.
  intros id Hok (_&Hid&_) [x Hx] Hd Hh Hroom Hpipe a' Hout Has. unfold in_pipe in *.
  rewrite Has, Hx, Hout in *. specialize (Hid i x Hx).
  inversion Hh as [|m ds msr Hm Hr|d ds msr Hno Hr]; simplify_eq; apply heard_nothing in Hr as ->.
  - rewrite Hid in *. eapply in_step_datagram; [apply id_u16|done|exact Hroom|done|exact Hd].
  - rewrite app_nil_r. apply in_inv_more. destruct Hpipe as (Hp&Hs&u&fw&Hu&Hrest).
    assert (us_assoc_id u = as_id x) as Hua.
    { destruct Hok as (_&Ha&_). destruct (Forall_lookup_1 _ _ _ _ Ha Hx) as ((v&Hv&Hvid&_)&_). congruence. }
    destruct (on_datagram_foreign now data (ap_out a) (ap_out a') (as_ptr x) u) as [Hu' Hc]; [apply Hok|done| |done|].
    { by rewrite Hua, Hid. }
    split; [done|]. rewrite Hc. split; [done|]. by exists u, fw.
Qed.

(** The other branches of the poll loop do not touch the streams. *)
Lemma poll_task_streams pe s : received_datagram (As_Poll pe) = None ->
  let s' := poll_task overflow_checks log_info pe s in
  to_streams (poll_outbound s') = to_streams (poll_outbound s) /\
  to_udp_session (poll_outbound s') = to_udp_session (poll_outbound s).
Proof.
  intros Hno. cbv zeta. unfold poll_task. destruct (poll_step _ _ s pe) as [s'|] eqn:He; [|done].
  destruct s as [k st|r st]; cbn in He; [|by simplify_eq].
  destruct pe as [| | |now data|]; try done; try by simplify_eq.
  by apply heartbeat_step_conn in He as [ok ->].
Qed.

Lemma in_pipe_poll i tr ms ms' ev a :
  let id := as_u16 (Z.of_nat i) in
  match ev with Ev_PollCancelled | Ev_Heartbeat | Ev_TakeDatagram _ | Ev_TakeBi | Ev_TakeUni => True | _ => False end ->
  app_ok a -> ids_ok a -> is_polling (ap_poll (app_step ev a)) = true ->
  heard id (incoming (performed i ev a)) ms' -> rx_room id ∅ (ms ++ ms') ->
  in_pipe i tr ms a -> in_pipe i (tr ++ performed i ev a) (ms ++ ms') (app_step ev a).
Proof.
  intros id Hev Hok Hids Hpl Hh Hroom Hpipe.
  assert (forall a', ap_assocs a' = ap_assocs a -> to_streams (ap_out a') = to_streams (ap_out a) ->
    to_udp_session (ap_out a') = to_udp_session (ap_out a) -> in_pipe i tr ms a') as Hsame.
  { intros a' H1 H2 H3. eapply (in_frame i tr ms a); [by rewrite H1|by rewrite H2, H3|done]. }
  assert (forall pe t, received_datagram (As_Poll pe) = None ->
    in_pipe i tr ms (ap_set_taken t (ap_set_poll (poll_task overflow_checks log_info pe (ap_poll a)) a))) as Hother.
  { intros pe t Hno. destruct (poll_task_streams pe (ap_poll a) Hno). by apply Hsame. }
  destruct ev; try done; cbn [App.app_step] in *.
  3: {
    unfold poll_app, performed in *. destruct (ap_poll a) as [k st|r st] eqn:Hp.
    2: { by rewrite Hp in Hpl. }
    destruct (poll_blocked (ap_out a)) eqn:Hb.
    { repeat case_match; apply heard_nothing in Hh as ->; by rewrite !app_nil_r. }
    destruct (ap_taken a) as [[d b] u] eqn:Ht. cbn [fst snd] in *.
    destruct (hd_forwarded (ih_datagram (ap_incoming a)) !! d) as [data|] eqn:Hf.
    2: { repeat case_match; apply heard_nothing in Hh as ->; by rewrite !app_nil_r. }
    destruct (ap_assocs a !! i) as [x|] eqn:Hx.
    - unfold poll_task in *. cbn [poll_step] in *.
      destruct (on_datagram _ _ now data st) as [st'|] eqn:Hd; [|done].
      eapply (in_pipe_datagram i tr ms ms' now data a st'); try done; unfold ap_out; by rewrite Hp.
    - apply heard_nothing in Hh as ->. rewrite !app_nil_r. unfold in_pipe in *. cbn. by rewrite Hx in *.
  }
  all: unfold performed in *; (assert (forall o : option Association, match o with Some _ => [] | None => [] end = @nil AssocEvent) as Hnil
    by (by intros [])); rewrite Hnil in *; apply heard_nothing in Hh as ->; rewrite !app_nil_r;
    unfold poll_app; repeat case_match; try done;
    by (apply (Hother _ (ap_taken a)) || apply Hother).
Qed.

(** The cache has room for another entry while it has room for all
    associations. *)
Lemma session_room a : ids_ok a -> len (ap_assocs a) < 65535 ->
  forall id, cache_room id (to_udp_session (ap_out a)).
Proof.
  intros (_&_&Hcap&Hdom) Hlen id. right. rewrite Hcap.
  assert (size (contents (to_udp_session (ap_out a))) <= length (ap_assocs a))%nat; [|unfold len in Hlen; lia].
  rewrite <-size_dom. transitivity (size (list_to_set (C:=gset Z) (seqZ 0 (len (ap_assocs a))))).
  - apply subseteq_size. intros k [p Hp]%elem_of_dom. apply elem_of_list_to_set, elem_of_seqZ.
    apply Hdom in Hp. lia.
  - rewrite size_list_to_set by apply NoDup_seqZ. rewrite length_seqZ. unfold len. lia.
Qed.

Lemma in_pipe_listen i tr ms ev a : app_ok a -> ids_ok a ->
  len (ap_assocs (listen_app opts ev a)) <= 65535 -> in_pipe i tr ms a -> in_pipe i tr ms (listen_app opts ev a).
Proof.
  intros Hok Hids Hlen Hpipe. pose proof Hok as (Ho&Ha&Hn&Hp&_&_&_&Hl&_). pose proof Hids as (Hc&Hid&_).
  unfold listen_app in *. destruct (listen_ready _ _); [|done].
  destruct (socks_listen_step _ _ _ _) as [[l [st assocs]]|] eqn:Hs; [|done].
  destruct (listen_effect _ _ _ _ _ _ Hs Hl) as [Heff _].
  assert (ap_out (ap_set_listener l (ap_set_assocs assocs (ap_set_out st a))) = st) as Hout
    by apply ap_out_set.
  inversion Heff as [h Hadd Heq|Heq]; simplify_eq.
  - eapply (in_frame i tr ms a); rewrite ?Hout; [done|done|done].
  - cbn [ap_assocs ap_set_listener ap_set_assocs] in Hlen. rewrite len_app in Hlen. change (len [_]) with 1 in Hlen.
    assert (0 <= len (ap_assocs a) < 65536) as Hcnt by (pose proof (len_nonneg (ap_assocs a)); lia).
    rewrite as_u16_small in Hc by done.
    pose proof (session_room a Hids ltac:(lia) (to_udp_assoc_counter (ap_out a))) as Hroom.
    destruct (decide (i < length (ap_assocs a))%nat) as [Hlt|Hge].
    + destruct (lookup_lt_is_Some_2 _ _ Hlt) as [x Hx]. eapply (in_frame i tr ms a); rewrite ?Hout; [| |done].
      { cbn. by rewrite lookup_app_l. }
      intros y Hy. cbn. destruct (Forall_lookup_1 _ _ _ _ Ha Hy) as ((u&Hu&_)&_). split.
      * rewrite lookup_insert_ne; [done|]. intros Heq'. eapply (is_fresh (dom (to_streams (ap_out a)))).
        rewrite Heq'. by eapply elem_of_dom_2.
      * rewrite insert_room by done. rewrite lookup_insert_ne; [done|]. rewrite (Hid i y Hy), Hc.
        unfold len in *. rewrite as_u16_small; lia.
    + unfold in_pipe in *. rewrite Hout. cbn. rewrite lookup_app_r by lia.
      rewrite lookup_ge_None_2 in Hpipe by lia. destruct Hpipe as [-> ->].
      destruct (decide (i = length (ap_assocs a))) as [->|Hne].
      * rewrite Nat.sub_diag. cbn. split; [done|]. cbn. rewrite insert_room, lookup_insert_eq by done.
        split; [done|]. exists (UdpStream_new (to_udp_assoc_counter (ap_out a))), []. rewrite lookup_insert_eq.
        split_and!; try done; [apply frb_new_wf|apply frb_new_abs].
      * rewrite (lookup_ge_None_2 [_]) by (cbn; lia). done.
Qed.

Lemma in_own_relay id p pre ms st x re :
  in_inv id p pre ms st x -> as_relaying (relay_task overflow_checks re st x).2 = true ->
  let r := relay_task overflow_checks re st x in in_inv id p (pre ++ [As_Relay re]) ms r.1 r.2.
Proof.
  intros Hinv Hrl. cbv zeta. unfold relay_task in *.
  destruct (relay_step overflow_checks re st x) as [[st' x']|] eqn:Hs; [by eapply in_step_relay|].
  destruct (relay_break_assoc st x) as (_&_&_&_&Hbr&_). congruence.
Qed.

Lemma in_pipe_relay i j tr ms ev a : app_ok a ->
  (forall x, ap_assocs (relay_app overflow_checks j ev a) !! i = Some x -> as_relaying x = true) ->
  in_pipe i tr ms a -> in_pipe i (tr ++ performed i (Ev_Relay j ev) a) ms (relay_app overflow_checks j ev a).
Proof.
  intros Hok Hrl Hpipe. pose proof Hok as (Ho&Ha&Hn&_).
  rewrite performed_relay. unfold relay_app in *. destruct (ap_assocs a !! j) as [y|] eqn:Hj.
  2: { destruct (decide (j = i)) as [->|]; [rewrite Hj|]; by rewrite app_nil_r. }
  destruct (match ev with Relay_Cancelled => _ | _ => _ end).
  2: { destruct (decide (j = i)) as [->|]; [|by rewrite app_nil_r].
       unfold in_pipe in *. rewrite Hj in *. by apply in_inv_more. }
  pose proof (Forall_lookup_1 _ _ _ _ Ha Hj) as Hy.
  destruct (relay_task_ok overflow_checks ev (ap_out a) y Hy) as (_&_&Hptr&Hid'&_).
  pose proof (relay_task_frame ev (ap_out a) y Hy Ho) as Hframe.
  pose proof (in_own_relay (as_id y) (as_ptr y) tr ms (ap_out a) y ev) as Hown.
  destruct (relay_task overflow_checks ev (ap_out a) y) as [st y']. cbn [fst snd] in *.
  assert (ap_out (ap_set_assocs (<[j := y']> (ap_assocs a)) (ap_set_out st a)) = st) as Hout by apply ap_out_set.
  destruct (decide (j = i)) as [->|Hne].
  - unfold in_pipe in *. rewrite Hj, Hout in *. cbn in *.
    rewrite list_lookup_insert_eq in * by (by eapply lookup_lt_Some). rewrite Hptr, Hid'. auto.
  - rewrite app_nil_r. eapply (in_frame i tr ms a); rewrite ?Hout; [cbn; by rewrite list_lookup_insert_ne| |done].
    intros x Hx. destruct Hframe as (Hst&->&_). split; [|done]. apply Hst. by eapply other_ptr.
Qed.

Lemma in_pipe_local i j tr ms ev a : event_ok (Ev_Local j ev) -> app_ok a -> in_pipe i tr ms a ->
  in_pipe i (tr ++ performed i (Ev_Local j ev) a) ms (local_app j ev a).
Proof.
  intros He (_&Ha&_) Hpipe.
  assert (in_pipe i (tr ++ performed i (Ev_Local j ev) a) ms a) as Hmore.
  { unfold in_pipe, performed in *. destruct (ap_assocs a !! i); [by apply in_inv_more|by rewrite app_nil_r]. }
  unfold local_app. destruct (ap_assocs a !! j) as [y|] eqn:Hj; [|done].
  destruct (local_blocked y); [done|]. destruct (match ev with Local_Cancelled => _ | _ => _ end); [|done].
  destruct (decide (j = i)) as [->|Hne].
  - destruct (local_task_frame ev y) as (Hptr&Hid&_).
    unfold in_pipe in *. rewrite Hj in *. cbn. rewrite list_lookup_insert_eq by (by eapply lookup_lt_Some).
    rewrite Hptr, Hid. destruct Hmore as (?&?&u&fw&Hrest). split_and!; [done..|]. exists u, fw.
    assert (as_local (local_task ev y) = as_local y) as ->; [|done].
    unfold local_task, local_step, exec_bind. repeat case_match; by simplify_eq/=.
  - eapply (in_frame i _ ms a); [|by intros|exact Hmore]. cbn. by rewrite list_lookup_insert_ne.
Qed.

Lemma in_pipe_step i tr ms ms' ev a :
  let id := as_u16 (Z.of_nat i) in
  event_ok ev -> app_ok a -> ids_ok a -> len (ap_assocs (app_step ev a)) <= 65535 ->
  is_polling (ap_poll (app_step ev a)) = true ->
  (forall x, ap_assocs (app_step ev a) !! i = Some x -> as_relaying x = true) ->
  heard id (incoming (performed i ev a)) ms' -> rx_room id ∅ (ms ++ ms') ->
  in_pipe i tr ms a -> in_pipe i (tr ++ performed i ev a) (ms ++ ms') (app_step ev a).
Proof.
  intros id He Hok Hids Hlen Hpl Hrl Hh Hroom Hpipe.
  assert (match ev with Ev_TakeDatagram _ => True | _ => ms' = [] end) as Hms.
  { destruct ev; try done; unfold performed in Hh; repeat case_match; by apply heard_nothing in Hh. }
  assert (in_pipe i (tr ++ performed i ev a) ms a) as Hmore.
  { unfold in_pipe, performed in *. destruct (ap_assocs a !! i); [by apply in_inv_more|by rewrite app_nil_r]. }
  assert (forall a', ap_out a' = ap_out a -> ap_assocs a' = ap_assocs a ->
    in_pipe i (tr ++ performed i ev a) ms a') as Hsame.
  { intros a' H1 H2. unfold in_pipe in *. by rewrite H1, H2. }
  destruct ev as [| | | | | | | | |ev|j ev|j ev]; try (by apply (in_pipe_poll i tr ms ms' _ a));
    subst ms'; rewrite app_nil_r; cbn [App.app_step] in *; try (by apply Hsame).
  - by apply in_pipe_listen.
  - by apply in_pipe_relay.
  - by apply in_pipe_local.
Qed.

(** ** Runs *)

Lemma heard_app id ds1 ds2 ms : heard id (ds1 ++ ds2) ms ->
  exists ms1 ms2, ms = ms1 ++ ms2 /\ heard id ds1 ms1 /\ heard id ds2 ms2.
Proof.
  revert ms; induction ds1 as [|d ds1 IH]; intros ms H; [exists [], ms; split_and!; [done|constructor|done]|].
  cbn in H. inversion H as [|m ds ms' Hm Hr|d' ds ms' Hno Hr]; simplify_eq; destruct (IH _ Hr) as (m1&m2&->&?&?).
  - exists (m :: m1), m2. split_and!; [done|by constructor|done].
  - exists m1, m2. split_and!; [done|by constructor|done].
Qed.

Lemma step_assocs_len ev a : event_ok ev -> app_ok a -> len (ap_assocs a) <= len (ap_assocs (app_step ev a)).
Proof.
  intros He Hok. destruct (step_shape ev a He Hok) as [(_&_&Hid&_)|[_ ->]].
  - apply (f_equal length) in Hid. rewrite !length_fmap in Hid. unfold len. lia.
  - rewrite len_app. change (len [_]) with 1. lia.
Qed.

(** What still holds at the end held before. *)
Lemma run_before i evs a : Forall event_ok evs -> app_ok a ->
  len (ap_assocs a) <= len (ap_assocs (app_run evs a)) /\
  (is_polling (ap_poll (app_run evs a)) = true -> is_polling (ap_poll a) = true) /\
  ((forall x, ap_assocs (app_run evs a) !! i = Some x -> as_relaying x = true) ->
   forall x, ap_assocs a !! i = Some x -> as_relaying x = true).
Proof.
  intros He. revert a. induction He as [|ev evs Hev _ IH]; intros a Hok; [done|]. cbn.
  destruct (IH (app_step ev a)) as (Hl&Hp&Hr); [by apply app_ok_step|]. split_and!.
  - etrans; [by apply (step_assocs_len ev)|done].
  - intros H%Hp. apply not_false_iff_true. intros Hno.
    pose proof (task_over_step overflow_checks log_info opts T_Poll ev a Hev Hok I) as Ho. cbn in Ho.
    unfold is_polling in *. destruct (ap_poll a); [done|]. specialize (Ho eq_refl). by destruct (ap_poll (app_step ev a)).
  - intros H x Hx. destruct (assocs_step overflow_checks log_info opts ev a i x Hev Hok Hx) as (x'&Hx'&Hrl&_).
    apply not_false_iff_true. intros Hno%Hrl. by rewrite (Hr H x' Hx') in Hno.
Qed.

Lemma out_pipe_run i tr evs a : Forall event_ok evs -> app_ok a -> ids_ok a -> Z.of_nat i < 65536 ->
  len (ap_assocs (app_run evs a)) <= 65536 -> out_pipe i tr a -> out_pipe i (tr ++ trace i evs a) (app_run evs a).
Proof.
  intros He. revert tr a. induction He as [|ev evs Hev He IH]; intros tr a Hok Hids Hi Hlen Hpipe.
  { by rewrite app_nil_r. }
  cbn [Pipeline.trace]. rewrite app_assoc. change (app_run (ev :: evs) a) with (app_run evs (app_step ev a)) in *.
  destruct (run_before i evs (app_step ev a) He) as (Hl&_); [by apply app_ok_step|].
  apply IH; [by apply app_ok_step|by apply ids_step|done|done|]. apply out_pipe_step; try done. lia.
Qed.

Lemma in_pipe_run i tr evs ms ms' a :
  let id := as_u16 (Z.of_nat i) in let a' := app_run evs a in
  Forall event_ok evs -> app_ok a -> ids_ok a -> len (ap_assocs a') <= 65535 ->
  is_polling (ap_poll a') = true -> (forall x, ap_assocs a' !! i = Some x -> as_relaying x = true) ->
  heard id (incoming (trace i evs a)) ms' -> rx_room id ∅ (ms ++ ms') ->
  in_pipe i tr ms a -> in_pipe i (tr ++ trace i evs a) (ms ++ ms') a'.
Proof.
  intros id a' He. subst a'. revert tr ms ms' a.
  induction He as [|ev evs Hev He IH]; intros tr ms ms' a Hok Hids Hlen Hpl Hrl Hh Hroom Hpipe.
  { apply heard_nothing in Hh as ->. by rewrite !app_nil_r. }
  cbn [Pipeline.trace] in *. unfold incoming in Hh. rewrite omap_app in Hh.
  apply heard_app in Hh as (m1&m2&->&Hh1&Hh2). rewrite !app_assoc in *.
  change (app_run (ev :: evs) a) with (app_run evs (app_step ev a)) in *.
  assert (app_ok (app_step ev a)) as Hok' by by apply app_ok_step.
  destruct (run_before i evs (app_step ev a) He Hok') as (Hl&Hp&Hr).
  apply IH; try done; [by apply ids_step|].
  apply in_pipe_step; try done; [lia|by apply Hp|by apply Hr|]. by eapply rx_room_app.
Qed.

Lemma run_ids env o bind_ok h a h' : run env o bind_ok h = Returns (Ok a, h') ->
  ids_ok a /\ added not_datagram h (to_connection (ap_out a)).
Proof.
  unfold run, TuicOutbound_new, check. intros H. pose proof (adds_send_auth (oo_auth o).1 (oo_auth o).2) as Hadds.
  m_unfold. repeat (case_match; simplify_eq/=). unfold m_ret in *. simplify_eq. split; [|by eapply Hadds].
  unfold ids_ok. cbn. rewrite contents_new, capacity_new. split_and!; [done| |done|].
  - intros i x. by rewrite lookup_nil.
  - intros id p. by rewrite lookup_empty.
Qed.

(** C2: UDP through the whole program.  Once [run] has succeeded, under every
    interleaving of all its tasks with their bounded channels, as long as at
    most 65535 associations have been created: the [i]-th has the id [i].

    Outgoing: [send_packet] is called for it, whatever each call returns, on
    exactly the packets its local socket delivered, in order and each once, the
    rest of them waiting, none skipped while its first task runs; and the
    connection carries no other packet with its id.

    Incoming, while the poll loop and the association's first task run, if the
    datagrams taken that are packets of this association are well formed and
    never make more than 1000 of its packets incomplete at a time: the payloads
    written to its local socket are, in order, those that the specification
    delivers for these datagrams, whatever arrives for others in between, the
    rest waiting in its channel, and only a failed local write drops one. *)
Theorem udp_pipeline env o bind_ok a0 h evs i x :
  run env o bind_ok [] = Returns (Ok a0, h) -> Forall event_ok evs ->
  let a := app_run evs a0 in let tr := trace i evs a0 in let id := as_id x in
  ap_assocs a !! i = Some x -> len (ap_assocs a) <= 65535 ->
  id = Z.of_nat i /\
  (exists taken u,
     to_streams (ap_out a) !! as_ptr x = Some u /\
     sends overflow_checks id [] taken (us_next_pkt_id u) (to_connection (ap_out a)) /\
     taken ++ as_queue x `prefix_of` outgoing tr /\
     (as_relaying x = true -> taken ++ as_queue x = outgoing tr)) /\
  (forall ms, heard id (incoming tr) ms -> rx_room id ∅ ms ->
     is_polling (ap_poll a) = true -> as_relaying x = true ->
     exists forwarded u,
       to_streams (ap_out a) !! as_ptr x = Some u /\
       forwarded ++ us_receive u = (rx_spec id ms ∅).1 /\
       as_local x `sublist_of` (pkt_payload <$> forwarded) /\
       (Forall (fun ev => local_send_failed ev = false) tr -> as_local x = pkt_payload <$> forwarded)).
Proof.
  intros Hrun He a tr id Hx Hlen. destruct (run_ok _ _ _ _ _ _ Hrun) as [Hok Hnone].
  destruct (run_ids _ _ _ _ _ _ Hrun) as [Hids Hconn].
  pose proof (lookup_lt_Some _ _ _ Hx) as Hlt. assert (Z.of_nat i < 65535) as Hi by (unfold len in Hlen; lia).
  assert (ids_ok a) as (_&Hid&_).
  { clear -He Hok Hids BL UL ML. subst a. revert a0 Hok Hids.
    induction He as [|ev evs Hev He IH]; intros a0 Hok Hids; [done|].
    apply (IH (app_step ev a0)); [by apply app_ok_step|by apply ids_step]. }
  specialize (Hid i x Hx). fold id in Hid. split; [by rewrite Hid, as_u16_small by lia|]. split.
  - assert (out_pipe i tr a) as Hpipe.
    { apply (out_pipe_run i [] evs a0); try done; [lia|fold a; lia|]. unfold out_pipe. rewrite Hnone, lookup_nil.
      split; [done|]. eapply added_mono; [apply not_datagram_other|exact Hconn]. }
    unfold out_pipe in Hpipe. rewrite Hx in Hpipe. destruct Hpipe as (_&taken&u&?&_&?&?&?). by exists taken, u.
  - intros ms Hh Hroom Hpl Hrl. rewrite Hid in Hh, Hroom.
    assert (in_pipe i tr ms a) as Hpipe.
    { apply (in_pipe_run i [] evs [] ms a0); try done.
      - fold a. intros y. rewrite Hx. by intros [= <-].
      - unfold in_pipe. by rewrite Hnone, lookup_nil. }
    unfold in_pipe in Hpipe. rewrite Hx in Hpipe. destruct Hpipe as (_&_&u&fw&?&_&_&_&?&?&?). by exists fw, u.
Qed.

(** ** A full channel *)

(** Everything but the heartbeat. *)
Definition not_heartbeat (c : QuicCall) : Prop := c <> SendDatagram [VER; 4].

Lemma packet_not_heartbeat id c : packet_of id c -> not_heartbeat c.
Proof. intros Hp ->. by apply (heartbeat_foreign id). Qed.

(** The channel of the [i]-th association holds the poll loop up, with [k]
    failed heartbeats so far. *)
Definition stalled (i : nat) (k : usize) (u : UdpStream) (a : App) : Prop :=
  (exists st, ap_poll a = Polling k st) /\
  exists x, ap_assocs a !! i = Some x /\ to_streams (ap_out a) !! as_ptr x = Some u.

Definition stalls (i : nat) (a : App) : bool :=
  is_polling (ap_poll a) &&
  from_option stream_blocked false (x ← ap_assocs a !! i; to_streams (ap_out a) !! as_ptr x).

Lemma stalls_now i a : stalls i a = true -> exists k u, stalled i k u a /\ stream_blocked u = true.
Proof.
  unfold stalls. intros [Hp Hb]%andb_true_iff.
  destruct (ap_poll a) as [k st|] eqn:Hpoll; [|done].
  destruct (x ← _; _) as [u|] eqn:Hu; [|done]. apply bind_Some in Hu as (x&Hx&Hu).
  exists k, u. split; [split|done]; [by eexists|by exists x].
Qed.

(** A step that leaves the stream of the association as it is. *)
Lemma stalled_keep i k u a a' st' x x' st : ap_poll a = Polling k st ->
  ap_poll a' = ap_poll (ap_set_out st' a) -> ap_assocs a' !! i = Some x' ->
  as_ptr x' = as_ptr x -> ap_taken a' = ap_taken a -> to_streams st' !! as_ptr x = Some u ->
  added not_heartbeat (to_connection (ap_out a)) (to_connection st') ->
  stalled i k u a' /\ ap_taken a' = ap_taken a /\
  added not_heartbeat (to_connection (ap_out a)) (to_connection (ap_out a')).
Proof.
  intros Hst H1 H2 H3 H4 H5 H6. assert (ap_out a' = st') as Hout.
  { unfold ap_out. rewrite H1. apply (ap_out_set st' a). }
  unfold stalled. rewrite Hout. split_and!; [|exists x'; by rewrite H3|done|done].
  rewrite H1. unfold ap_set_out. cbn. rewrite Hst. by eexists.
Qed.

Lemma stalled_step i k u ev a : event_ok ev -> app_ok a -> stream_blocked u = true -> stalled i k u a ->
  match ev with Ev_Relay j _ => j <> i | _ => True end ->
  stalled i k u (app_step ev a) /\ ap_taken (app_step ev a) = ap_taken a /\
  added not_heartbeat (to_connection (ap_out a)) (to_connection (ap_out (app_step ev a))).
Proof.
  intros He Hok Hbl ([st Hst]&x&Hx&Hu) Hev. pose proof Hok as (Ho&Ha&Hn&_&_&_&_&Hl&_).
  assert (poll_blocked (ap_out a) = true) as Hpb by (apply bool_decide_eq_true; by exists (as_ptr x), u).
  pose proof (fun a' st' x' => stalled_keep i k u a a' st' x x' st Hst) as Hstep.
  assert (ap_poll a = ap_poll (ap_set_out (ap_out a) a)) as Hself
    by (unfold ap_set_out, ap_out; cbn; by rewrite Hst).
  assert (forall a', ap_poll a' = ap_poll a -> ap_assocs a' = ap_assocs a -> ap_taken a' = ap_taken a ->
    stalled i k u a' /\ ap_taken a' = ap_taken a /\
    added not_heartbeat (to_connection (ap_out a)) (to_connection (ap_out a'))) as Hsame.
  { intros a' H1 H2 H3. apply (Hstep a' (ap_out a) x); [congruence|by rewrite H2|done|done|done|apply added_refl]. }
  destruct ev as [| | | | | | | | |ev|j ev|j ev]; cbn [App.app_step];
    try (unfold poll_app; rewrite Hst, Hpb); try (by apply Hsame).
  - unfold listen_app. destruct (listen_ready _ _); [|by apply Hsame].
    destruct (socks_listen_step _ _ _ _) as [[l [st' assocs]]|] eqn:Hs; [|by apply Hsame].
    destruct (listen_effect _ _ _ _ _ _ Hs Hl) as [Heff _].
    inversion Heff as [h Hadd Heq|Heq]; simplify_eq; eapply (Hstep _ _ x); try done.
    + eapply added_mono; [|exact Hadd]. intros c Hc ->. done.
    + cbn. by rewrite lookup_app_l by (by eapply lookup_lt_Some).
    + cbn. rewrite lookup_insert_ne; [done|]. intros Heq'. eapply (is_fresh (dom (to_streams (ap_out a)))).
      rewrite Heq'. by eapply elem_of_dom_2.
    + apply added_refl.
  - unfold relay_app. destruct (ap_assocs a !! j) as [y|] eqn:Hj; [|by apply Hsame].
    destruct (match ev with Relay_Cancelled => _ | _ => _ end); [|by apply Hsame].
    destruct (relay_task_frame ev (ap_out a) y) as (Hfr&_&Hadd); [by eapply Forall_lookup_1|done|].
    destruct (relay_task overflow_checks ev (ap_out a) y) as [st' y'].
    eapply (Hstep _ st' x); try done.
    + cbn. by rewrite list_lookup_insert_ne.
    + cbn in Hfr. rewrite Hfr; [done|]. by eapply other_ptr.
    + eapply added_mono; [|exact Hadd]. intros c. apply packet_not_heartbeat.
  - unfold local_app. destruct (ap_assocs a !! j) as [y|] eqn:Hj; [|by apply Hsame].
    destruct (local_blocked y); [by apply Hsame|].
    destruct (match ev with Local_Cancelled => _ | _ => _ end); [|by apply Hsame].
    destruct (local_task_frame ev y) as (Hptr&_).
    destruct (decide (j = i)) as [->|Hne].
    + simplify_eq. eapply (Hstep _ (ap_out a) (local_task ev x)); try done; [|apply added_refl].
      cbn. by rewrite list_lookup_insert_eq by (by eapply lookup_lt_Some).
    + eapply (Hstep _ (ap_out a) x); try done; [|apply added_refl]. cbn. by rewrite list_lookup_insert_ne.
Qed.

(** C37: one slow association holds up the program.  While the channel to the
    local socket of one association is full and its task does not take from
    it, the poll loop waits: whatever else happens, no heartbeat is sent, no
    datagram of any association is taken, and a shutdown times out. *)
Theorem full_channel_stalls i k u evs a :
  app_ok a -> stalled i k u a -> stream_blocked u = true -> Forall event_ok evs ->
  Forall (fun ev => match ev with Ev_Relay j _ => j <> i | _ => True end) evs ->
  let a' := app_run evs a in
  ap_taken a' = ap_taken a /\ added not_heartbeat (to_connection (ap_out a)) (to_connection (ap_out a')) /\
  main_result a' = Err (Report_Msg "deadline has elapsed").
Proof.
  intros Hok Hst Hbl He Hno. cbv zeta. revert a Hok Hst.
  induction He as [|ev evs Hev He IH]; intros a Hok Hst.
  - split_and!; [done|apply added_refl|]. destruct Hst as ([st Hp]&_). unfold main_result, wait_ready, tasks.
    cbn [app forallb App.app_run foldl task_over]. rewrite Hp. by rewrite andb_false_r.
  - apply Forall_cons in Hno as [Hne Hno]. change (app_run (ev :: evs) a) with (app_run evs (app_step ev a)).
    destruct (stalled_step i k u ev a) as (Hst'&Ht&Hadd); try done.
    destruct (IH Hno (app_step ev a)) as (Ht'&Hadd'&Hm); [by apply app_ok_step|done|].
    split_and!; [congruence|by eapply added_trans|done].
Qed.

(** Identifiers repeat after 65536 associations: the new association takes over
    the entry of an old one, which may still be running and no longer receives
    anything. *)
Lemma reused_id_takes_over (st : TuicOutbound) x : assoc_ok st x ->
  contents (to_udp_session st) !! as_id x = Some (as_ptr x) -> to_udp_assoc_counter st = as_id x ->
  let r := udp_associate st in
  as_id r.1 = as_id x /\ contents (to_udp_session r.2) !! as_id x = Some (as_ptr r.1) /\ as_ptr r.1 <> as_ptr x /\
  assoc_ok r.2 x.
Proof.
  intros ((u&Hu&Hid&Ho)&Hq) Hx Hc. cbn. rewrite Hc.
  assert (fresh (dom (to_streams st)) <> as_ptr x) as Hne.
  { intros Heq. apply (is_fresh (dom (to_streams st))). rewrite Heq. by eapply elem_of_dom_2. }
  split_and!; [done| |done|].
  - rewrite insert_room by (left; by rewrite Hx). by rewrite lookup_insert_eq.
  - split; [|done]. exists u. cbn. by rewrite lookup_insert_ne.
Qed.
End pipeline.

(** ** Witnesses *)

Definition demo_msg : RxMsg :=
  {| rx_pkt := 4; rx_total := 1; rx_id := 0; rx_addr := Address_IPv4 [10; 0; 0; 2] 53; rx_payload := [9; 8] |}.
Definition demo_datagram : bytes := rx_datagram (U:=list_uuid) 0 demo_msg.

(** A client associates; one packet in each direction, with a heartbeat and a
    datagram of no association in between. *)
Definition pipe_events : list AppEvent :=
  demo_events ++
  [Ev_Datagram (Accept_Ok [5; 4] true); Ev_Datagram (Accept_Ok demo_datagram true); Ev_TakeDatagram 1; Ev_Heartbeat;
   Ev_TakeDatagram 2; Ev_Relay 0 (Relay_Receive true)].

Local Abbreviation demo_run := (app_run (B:=list_bytes) (U:=list_uuid) (Q:=demo_quic) (MO:=bounded_map) true true demo_opts).
Local Abbreviation demo_trace := (trace (B:=list_bytes) (U:=list_uuid) (Q:=demo_quic) (MO:=bounded_map) true true demo_opts).

Definition pipe_assoc : Association :=
  default (udp_associate (ap_out demo_app)).1 (ap_assocs (demo_run pipe_events demo_app) !! 0%nat).

Lemma pipe_assoc_eq : ap_assocs (demo_run pipe_events demo_app) !! 0%nat = Some pipe_assoc.
Proof.
  assert (bool_decide (is_Some (ap_assocs (demo_run pipe_events demo_app) !! 0%nat)) = true) as H
    by (vm_compute; reflexivity).
  apply bool_decide_eq_true in H as [x Hx]. unfold pipe_assoc. by rewrite Hx.
Qed.

Lemma udp_pipeline_witness :
  as_id pipe_assoc = 0 /\
  (exists taken, taken ++ as_queue pipe_assoc = outgoing (demo_trace 0 pipe_events demo_app)) /\
  exists forwarded, as_local pipe_assoc = pkt_payload <$> forwarded.
Proof.
  destruct demo_run_eq as [h Hrun].
  destruct (udp_pipeline (BL:=list_bytes_laws) (UL:=list_uuid_laws) (ML:=bounded_map_laws) true true demo_opts
    demo_connect_env demo_tuic true demo_app h pipe_events 0 pipe_assoc Hrun ltac:(by_compute) pipe_assoc_eq
    ltac:(apply Z.leb_le; vm_compute; reflexivity)) as (Hid&(taken&u&_&_&_&Hout)&Hin).
  split; [exact Hid|]. split; [exists taken; apply Hout; vm_compute; reflexivity|].
  destruct (Hin [demo_msg]) as (fw&v&_&_&_&Hloc).
  - replace (incoming _) with [[5; 4]; demo_datagram] by (vm_compute; reflexivity).
    rewrite Hid. apply heard_other; [vm_compute; discriminate|]. apply heard_own; [by_compute|constructor].
  - rewrite Hid. apply (rx_room_keys _ _ _ (rx_keys 0 [demo_msg])); by_compute.
  - vm_compute. reflexivity.
  - vm_compute. reflexivity.
  - exists fw. apply Hloc. by_compute.
Defined.

(** 129 datagrams for an association whose task takes none. *)
Definition full_events : list AppEvent :=
  [Ev_Listen Socks_Accepted; Ev_Listen (Socks_Command demo_client_session)] ++
  concat (replicate 129 [Ev_Datagram (Accept_Ok demo_datagram true); Ev_TakeDatagram 1]).

Definition full_app : App := demo_run full_events demo_app.

Lemma full_app_ok : app_ok full_app.
Proof.
  destruct demo_run_eq as [h Hrun]. destruct (run_ok (ML:=bounded_map_laws) _ _ _ _ _ _ Hrun) as [Hok _].
  apply (app_ok_run (BL:=list_bytes_laws) (UL:=list_uuid_laws) (ML:=bounded_map_laws)); [by_compute|exact Hok].
Qed.

(** A heartbeat is due, one more datagram arrives and the program is asked to
    stop. *)
Definition stall_events : list AppEvent :=
  [Ev_Heartbeat; Ev_Datagram (Accept_Ok demo_datagram true); Ev_TakeDatagram 3; Ev_Shutdown; Ev_PollCancelled].

Lemma full_channel_stalls_witness :
  ap_taken (demo_run stall_events full_app) = ap_taken full_app /\
  main_result (demo_run stall_events full_app) = Err (Report_Msg "deadline has elapsed").
Proof.
  destruct (stalls_now 0 full_app) as (k&u&Hst&Hb); [vm_compute; reflexivity|].
  destruct (full_channel_stalls (BL:=list_bytes_laws) (UL:=list_uuid_laws) (ML:=bounded_map_laws) true true demo_opts
    0 k u stall_events full_app full_app_ok Hst Hb ltac:(by_compute) ltac:(repeat constructor)) as (Ht&_&Hm).
  exact (conj Ht Hm).
Defined.
