(* ===== verification/Connect.v ===== *)
(** * A SOCKS5 CONNECT through the whole program

    The listener, [Manager], the TUIC client, the wire and the TUIC server
    composed: what a client asks the SOCKS5 server for is what the TUIC server
    connects to, and what is relayed is what was read. *)

From stdpp Require Import base list gmap strings list_numbers.
From S2P Require Import Prelude BytesCrate Types Codec Header Cmd Addr Quinn Io Callback.
From S2P Require Import Proto Messages Moka CoreUdp SocksUdp SocksInbound Tasks Reassembly UdpStream.
From S2P Require Import Outbound Client Inbound Server App AppProps.

Section session.
Context {S : Type} {CB : InboundCallback S} (opts : SocksInboundOpt).

(** A CONNECT that passes the gate: a success reply, then the callback. *)
Lemma handle_income_connect env addr s :
  gate opts env = true -> ss_command env = Some (TCPConnect, addr) -> ss_reply_success env = true ->
  handle_income opts env ([], s) =
  let acts := [ReplySuccess (SocketAddr_V4 Ipv4Addr_LOCALHOST 0); HandleTcp (convert_target_addr addr)] in
  match handle_tcpstream (convert_target_addr addr) s with
  | Returns (Ok f, s') => Returns (Ok (Some (Await_Tcp f)), (acts, s'))
  | Returns (Err _, s') => Returns (Err Error_Callback, (acts, s'))
  | Panics => Panics
  end.
Proof.
  intros Hg Hc Hr. rewrite handle_income_gate, Hg.
  unfold handle_income, reply_success, or_err, act, call, no_auth. cbn [so_auth ss_handshake ss_command ss_reply_success].
  rewrite Hc, Hr. m_unfold. cbn. by destruct (handle_tcpstream _ s) as [[[f|e] s']|].
Qed.
End session.

(** A session that relays through the TUIC client. *)
Definition relaying `{BytesOps} `{UuidOps} `{QuinnOps} `{MokaOps} (s : CopyState) : ListenState (CB:=manager) :=
  Serving (Await_Tcp (CB:=manager) s).

Definition io_event (ev : IoEvent) : AppEvent := Ev_Listen (Socks_Session (Session_Io ev)).

Section connect.
Context {B : BytesOps} {BL : BytesLaws B} {U : UuidOps} {UL : UuidLaws U}
        {Q : QuinnOps} {MO : MokaOps} {R : RecvOps} {RL : RecvLaws R}.
Context (overflow_checks log_info : bool) (opts : SocksInboundOpt).
Context (cb : TargetAddr -> RecvStream -> result unit Report).
Local Abbreviation app_step := (app_step overflow_checks log_info opts).
Local Abbreviation app_run := (app_run overflow_checks log_info opts).

(** One read of the relay, as a step of the program. *)
Lemma relay_io_step ev a s : ls_state (ap_listener a) = relaying s ->
  let a' := app_step (io_event ev) a in
  ap_out a' = ap_out a /\ ap_assocs a' = ap_assocs a /\
  ls_state (ap_listener a') =
    match copy_step s ev with inl s' => relaying s' | inr _ => Listening end.
Proof.
  intros Hl. cbn [App.app_step io_event]. unfold listen_app, socks_listen_step. rewrite Hl. cbn [listen_ready].
  unfold session_step, relaying, call, m_bind. cbn. unfold relay_poll.
  destruct (copy_step s ev) as [s'|[s' [e|]]]; cbn; (split_and!; [exact (ap_out_set (ap_out a) a)|done..]).
Qed.

Lemma idle_io_run script a : ls_state (ap_listener a) = Listening ->
  let a' := app_run (io_event <$> script) a in ap_listener a' = ap_listener a.
Proof.
  cbv zeta. revert a; induction script as [|ev script IH]; intros a Hl; [done|].
  change (app_run (io_event <$> ev :: script) a) with (app_run (io_event <$> script) (app_step (io_event ev) a)).
  assert (ap_listener (app_step (io_event ev) a) = ap_listener a) as He.
  { cbn [App.app_step io_event]. unfold listen_app, socks_listen_step. cbn [listen_ready]. by rewrite Hl. }
  rewrite IH; [done|]. by rewrite He.
Qed.

(** The whole relay: [copy_io], read by read. *)
Lemma relay_io_run script a s : ls_state (ap_listener a) = relaying s ->
  ls_state (ap_listener (app_run (io_event <$> script) a)) =
  if forallb is_data script
  then relaying {| a2b_num := a2b_num s + len (from_a script);
         b2a_num := b2a_num s + len (from_b script);
         to_b := to_b s ++ from_a script; to_a := to_a s ++ from_b script |}
  else Listening.
Proof.
  revert a s; induction script as [|ev script IH]; intros a s Hl.
  { cbn. rewrite Hl, !app_nil_r, !len_nil, !Z.add_0_r. by destruct s. }
  destruct (relay_io_step ev a s Hl) as (_&_&Hs).
  change (app_run (io_event <$> ev :: script) a) with (app_run (io_event <$> script) (app_step (io_event ev) a)).
  cbn [forallb]. destruct (is_data ev) eqn:Hd; cbn [andb].
  - pose proof (copy_loop_data s [ev] []) as Hone. cbn [forallb copy_loop] in Hone.
    assert (exists s', copy_step s ev = inl s' /\
      a2b_num s' = a2b_num s + len (read_a ev) /\ b2a_num s' = b2a_num s + len (read_b ev) /\
      to_b s' = to_b s ++ read_a ev /\ to_a s' = to_a s ++ read_b ev) as (s'&Hs'&H1&H2&H3&H4).
    { destruct ev as [[d|e] [|]|[d|e] [|]]; try done; cbn in Hd |- *; destruct (len d =? 0); try done;
        eexists; (split; [done|]); cbn; by rewrite ?len_nil, ?Z.add_0_r, ?app_nil_r. }
    rewrite Hs' in Hs. rewrite (IH _ s' Hs), H1, H2, H3, H4.
    unfold from_a, from_b. cbn [fmap list_fmap concat]. by rewrite !len_app, !app_assoc, !Z.add_assoc.
  - edestruct (copy_step_stop s ev Hd) as (out&err&He&_). rewrite He in Hs. by rewrite idle_io_run.
Qed.

(** C5: a SOCKS5 CONNECT from one end to the other.  A client that passes the
    gate and names an address is either refused because the transport refuses,
    with the listener free again, or there is a new TUIC stream on which the
    request was written.  An authenticated server that reads this request,
    followed by whatever the client relays, waits for the client to finish the
    stream: if it then holds at most 512 bytes after the header, address
    included, the server relays to exactly the named address, with none of that
    data left to relay; if not, it reports an error and relays nothing.  The
    client's session meanwhile relays every byte read on either side, in order,
    until the first end of stream or error, which frees the listener. *)
Theorem socks_connect_end_to_end env addr a :
  let t := convert_target_addr addr in
  let h := to_connection (ap_out a) in
  ls_state (ap_listener a) = Handshaking -> gate opts env = true ->
  ss_command env = Some (TCPConnect, addr) -> ss_reply_success env = true ->
  TargetAddr_ok t -> target_fits t ->
  let a1 := app_step (Ev_Listen (Socks_Command env)) a in
  (ls_state (ap_listener a1) = Listening /\
   (to_connection (ap_out a1) = h ++ [(OpenBi, false)] \/
    exists sid data, to_connection (ap_out a1) = h ++ [(OpenBi, true); (WriteChunk sid data, false)])) \/
  exists sid data,
    to_connection (ap_out a1) = h ++ [(OpenBi, true); (WriteChunk sid data, true)] /\
    (forall recv c recv1 early,
       is_Some (ic_uuid c) -> recv_rest recv = data ++ early ->
       read_exact 2 recv = (Some (ztake 2 data), recv1) ->
       match read_to_end 512 recv1 with
       | (Some _, recv2) =>
         len data + len early <= 514 /\ recv_rest recv2 = [] /\
         handle_bi_stream cb recv c = Returns (cb t recv2, ic_push_tcp t recv2 c)
       | (None, _) => handle_bi_stream cb recv c = Returns (Err (Report_Msg "Failed to read address"), c)
       end) /\
    forall script,
      ls_state (ap_listener (app_run (io_event <$> script) a1)) =
      if forallb is_data script
      then relaying {| a2b_num := len (from_a script); b2a_num := len (from_b script);
             to_b := from_a script; to_a := from_b script |}
      else Listening.
Proof.
  intros t h Hl Hg Hc Hr Ht Hf. cbv zeta.
  destruct (open_tcp t [] h) as [[r h']|] eqn:Hopen.
  2: { rewrite open_tcp_run in Hopen by done. unfold open_bi, write_chunk, q_call, guard_unit, m_bind in Hopen.
       repeat case_match; done. }
  assert (app_step (Ev_Listen (Socks_Command env)) a =
    ap_set_listener {| ls_state := match r with Ok _ => relaying copy_init | Err _ => Listening end;
                       ls_log := ls_log (ap_listener a) ++ [(env,
                         [ReplySuccess (SocketAddr_V4 Ipv4Addr_LOCALHOST 0); HandleTcp t])] |}
      (ap_set_assocs (ap_assocs a) (ap_set_out (to_set_connection h' (ap_out a)) a))) as ->.
  { cbn [App.app_step]. unfold listen_app, socks_listen_step. rewrite Hl. cbn [listen_ready].
    rewrite (handle_income_connect _ env addr) by done. fold t.
    cbn [handle_tcpstream manager Manager out_handle_tcp tuic_outbound]. unfold on_connection, m_bind, m_ret.
    cbn [fst snd]. fold h. rewrite Hopen. by destruct r. }
  set (a1 := ap_set_listener _ _).
  assert (ap_out a1 = to_set_connection h' (ap_out a)) as ->
    by exact (ap_out_set (to_set_connection h' (ap_out a)) a). cbn [to_connection to_set_connection].
  destruct (tcp_request_end_to_end cb t [] h r h' Ht Hf Hopen) as [[-> ->]|(sid&data&ok&->&Hno&Hyes&Hserver)].
  - left. split; [done|by left].
  - destruct ok; [right|left; pose proof (Hno eq_refl); clear Hopen; subst r; split; [done|right; by do 2 eexists]].
    exists sid, data. split_and!; [done|done|]. intros script.
    rewrite (relay_io_run script a1 copy_init); [done|]. subst a1. cbn. by rewrite Hyes.
Qed.
End connect.

(** ** Witness *)

Definition demo_connect_session : SessionEnv :=
  {| ss_handshake := true; ss_credentials := ([117], [112]);
     ss_command := Some (TCPConnect, Socks_Ip (SocketAddr_V4 [10; 0; 0; 1] 80));
     ss_reply_success := true; ss_reply_error := true; ss_sockets := demo_sockets;
     ss_local_addr := true; ss_virtual_socket := true |}.

Definition demo_accepted : App (B:=list_bytes) (U:=list_uuid) (Q:=demo_quic) (MO:=bounded_map) :=
  app_run true true demo_opts [Ev_Listen Socks_Accepted] demo_app.
Definition demo_asked : App (B:=list_bytes) (U:=list_uuid) (Q:=demo_quic) (MO:=bounded_map) :=
  app_step true true demo_opts (Ev_Listen (Socks_Command demo_connect_session)) demo_accepted.

(** The relay has carried [71; 69; 84] to the server and [50; 48; 48] back. *)
Lemma socks_connect_end_to_end_witness :
  ls_state (ap_listener (app_run true true demo_opts
    (io_event <$> [ReadA (Ok [71; 69; 84]) Written; ReadB (Ok [50; 48; 48]) Written]) demo_asked)) =
  relaying {| a2b_num := 3; b2a_num := 3; to_b := [71; 69; 84]; to_a := [50; 48; 48] |}.
Proof.
  assert (match ls_state (ap_listener demo_asked) with Listening => false | _ => true end = true) as Hb
    by (vm_compute; reflexivity). unfold demo_asked in *.
  destruct (socks_connect_end_to_end (BL:=list_bytes_laws) (UL:=list_uuid_laws) (RL:=finished_stream_laws)
    true true demo_opts demo_cb demo_connect_session (Socks_Ip (SocketAddr_V4 [10; 0; 0; 1] 80)) demo_accepted)
    as [[Hbad _]|(sid&data&_&_&Hs)]; [reflexivity|reflexivity|reflexivity|reflexivity|by_compute|by_compute| |].
  - rewrite Hbad in Hb. discriminate Hb.
  - exact (Hs [ReadA (Ok [71; 69; 84]) Written; ReadB (Ok [50; 48; 48]) Written]).
Defined.
