(* ===== verification/Tunnel.v ===== *)
(** * Both ends of the tunnel

    What this client says and what this server makes of it.  Every byte the
    running program puts on its connection belongs to one of a few kinds of
    message ([says]); a server that receives such messages, in whatever order
    and on whatever kind of stream, never panics, and connects only where a
    SOCKS5 client of the program, past its access control, asked to be
    connected. *)

From stdpp Require Import base list gmap strings list_numbers.
From S2P Require Import Prelude BytesCrate Types Codec Header Cmd Addr Quinn Io Callback.
From S2P Require Import Proto Messages Moka CoreUdp SocksUdp SocksInbound Tasks Reassembly ReassemblySpec.
From S2P Require Import Delivery Buffer UdpStream Outbound Client Traffic Association Inbound Server App AppProps Connect.

(** ** The messages of a client *)
Section says.
Context {B : BytesOps} {U : UuidOps} {Q : QuinnOps}.

(** A client that authenticates as [auth] and connects to what [asked]
    allows. *)
Inductive says (auth : Uuid * bytes) (asked : TargetAddr -> Prop) : QuicCall -> Prop :=
| says_open_uni : says auth asked OpenUni
| says_open_bi : says auth asked OpenBi
| says_auth sid token :
    q_export_keying_material 32 (uuid_as_bytes auth.1) auth.2 = Some token ->
    says auth asked (WriteChunk sid (message_wire (Command_Auth auth.1 token) None))
| says_dissociate sid id : is_u16 id ->
    says auth asked (WriteChunk sid (message_wire (Command_Dissociate id) None))
| says_connect sid t : asked t -> TargetAddr_ok t -> target_fits t ->
    says auth asked (WriteChunk sid (message_wire Command_Connect (Some (Address_from_TargetAddr t))))
| says_heartbeat : says auth asked (SendDatagram (message_wire Command_Heartbeat None))
| says_packet id pkt total fid a payload :
    command_wf CmdType_Packet (Command_Packet id pkt total fid (as_u16 (len payload))) -> address_wf a ->
    says auth asked (SendDatagram
      (message_wire (Command_Packet id pkt total fid (as_u16 (len payload))) (Some a) ++ payload)).

Lemma says_mono auth (asked asked' : TargetAddr -> Prop) c :
  (forall t, asked t -> asked' t) -> says auth asked c -> says auth asked' c.
Proof. intros Hm. destruct 1; constructor; auto. Qed.
End says.

Section client.
Context {B : BytesOps} {BL : BytesLaws B} {U : UuidOps} {UL : UuidLaws U} {Q : QuinnOps} {QL : QuinnLaws Q}.
Context (auth : Uuid * bytes) (asked : TargetAddr -> Prop).
Local Abbreviation says := (says auth asked).

(** An address that is encoded at all fits. *)
Lemma encode_address_fits t dst dst' :
  AddressCodec_encode (Address_from_TargetAddr t) dst = Returns (Ok (), dst') -> target_fits t.
Proof.
  destruct t as [d p|ip p|ip p]; [|done..]. cbn. unfold AddressCodec_encode. m_unfold. cbn.
  destruct (Z.ltb_spec 255 (len d)); [done|]. by intros.
Qed.

Lemma says_allows id target : is_u16 id -> TargetAddr_ok target -> allows id says target.
Proof.
  intros Hid Hok pkt total fid a payload buf Hp Ht Hf Ha He.
  assert (address_wf a) as Hwf.
  { destruct Ha as [->| ->]; [|done]. apply address_from_target_wf; [done|]. by eapply encode_address_fits. }
  rewrite (fc_encode (FrameCodec:=addr_codec)) in He by done. injection He as <-.
  replace (packet_prefix _ _ _ _ _ ++ _)
    with (message_wire (Command_Packet id pkt total fid (as_u16 (len payload))) (Some a))
    by (unfold packet_prefix, message_wire; by rewrite <-app_assoc).
  constructor; [|done].
  split; [done|]. split_and!; try done. unfold is_u16, as_u16. apply Z.mod_pos_bound. lia.
Qed.

Lemma says_open_tcp t script : asked t -> TargetAddr_ok t -> adds says (open_tcp t script).
Proof.
  intros Ha Ht. destruct (decide (target_fits t)) as [Hf|Hf].
  - intros h r h'. rewrite open_tcp_run by done. revert h r h'.
    change (adds says (m_bind open_bi (fun send =>
      write_chunk send (message_wire Command_Connect (Some (Address_from_TargetAddr t))) ;;!
      match copy_io script with
      | None => m_ret None
      | Some (a, b, Some e) => m_throw (Report_Io "copy_io")
      | Some (a, b, None) => m_ret (Some (a, b))
      end))).
    apply adds_bind; [apply adds_call; constructor|intros sid].
    apply adds_bind; [apply adds_call; by constructor|intros _].
    repeat case_match; by (apply adds_ret || apply adds_throw).
  - unfold open_tcp. apply adds_bind; [apply adds_call; constructor|intros sid].
    apply adds_bind; [apply adds_encode|intros b1]. apply adds_bind; [apply adds_encode|intros b2].
    intros h r h'. unfold encode_into, m_bind at 1, m_bind at 1, m_local, m_from.
    destruct (AddressCodec_encode _ b2) as [[[[]|e] d]|] eqn:He; [by apply encode_address_fits in He|..|done].
    intros [= <- <-]. apply added_refl.
Qed.

Lemma says_drop_udp id : is_u16 id -> adds says (drop_udp id).
Proof.
  assert (adds says open_uni) as Hopen by (apply adds_call; constructor).
  intros Hid h r h'. unfold drop_udp, m_bind at 1. destruct (open_uni h) as [[[sid|e] h1]|] eqn:Ho; [..|done].
  2: { intros [= <- <-]. by eapply Hopen. }
  rewrite (encode_into_ok header_codec) by done. rewrite (encode_into_ok (cmd_codec _)) by done. intros Hw.
  eapply added_trans; [by eapply Hopen|]. revert Hw.
  apply adds_bind; [|intros; apply adds_ret]. apply adds_call.
  replace (_ ++ _) with (message_wire (Command_Dissociate id) None) by (unfold message_wire; by rewrite app_nil_r).
  by constructor.
Qed.

Lemma says_send_auth : adds says (send_auth auth.1 auth.2).
Proof.
  intros h r h' Hs.
  destruct (q_export_keying_material 32 (uuid_as_bytes auth.1) auth.2) as [token|] eqn:Ht.
  - rewrite (send_auth_run _ _ token) in Hs by done. revert Hs.
    apply adds_bind; [apply adds_call; constructor|intros sid].
    apply adds_bind; [|intros; apply adds_ret]. apply adds_call. by constructor.
  - unfold send_auth in Hs. rewrite Ht in Hs. injection Hs as <- <-. apply added_refl.
Qed.
End client.

(** ** What the running program says *)
Section program.
Context {B : BytesOps} {BL : BytesLaws B} {U : UuidOps} {UL : UuidLaws U}
        {Q : QuinnOps} {QL : QuinnLaws Q} {MO : MokaOps} {ML : MokaLaws MO}.
Context (overflow_checks log_info : bool) (opts : SocksInboundOpt) (auth : Uuid * bytes).
Local Abbreviation app_step := (app_step overflow_checks log_info opts).
Local Abbreviation app_run := (app_run overflow_checks log_info opts).

(** Some session of the listener asked to be connected to [t], and was allowed
    to. *)
Definition asked_for (l : Listener (CB:=manager)) (t : TargetAddr) : Prop :=
  exists env acts, (env, acts) ∈ ls_log l /\ HandleTcp t ∈ acts /\ permitted opts env (HandleTcp t).

Definition targets_ok (x : Association) : Prop :=
  Forall (fun packet => TargetAddr_ok (pkt_target packet)) (as_queue x).

Definition spoken (a : App) : Prop :=
  Forall (fun e => says auth (asked_for (ap_listener a)) e.1) (to_connection (ap_out a)) /\
  Forall targets_ok (ap_assocs a).

(** What Rust's types say of the addresses in an event. *)
Definition event_typed (ev : AppEvent) : Prop :=
  match ev with
  | Ev_Local _ (Local_Recv (Ok (_, _, meta))) =>
    TargetAddr_ok (TargetAddr_from_SocketAddr (rm_addr meta)) /\
    match rm_destination meta with Some t => TargetAddr_ok t | None => True end
  | Ev_Listen (Socks_Command env) =>
    match ss_command env with Some (_, addr) => TargetAddr_ok (convert_target_addr addr) | None => True end
  | _ => True
  end.
#[export] Instance event_typed_dec ev : Decision (event_typed ev).
Proof. unfold event_typed. repeat case_match; apply _. Defined.

Lemma local_target_ok i n buf meta :
  event_typed (Ev_Local i (Local_Recv (Ok (n, buf, meta)))) -> TargetAddr_ok (local_target meta).
Proof.
  cbn. intros [Ha Hd]. unfold local_target. destruct (rm_destination meta) as [[| |]|]; done.
Qed.

Lemma spoken_intro a a' : spoken a ->
  (forall t, asked_for (ap_listener a) t -> asked_for (ap_listener a') t) ->
  added (says auth (asked_for (ap_listener a'))) (to_connection (ap_out a)) (to_connection (ap_out a')) ->
  Forall targets_ok (ap_assocs a') -> spoken a'.
Proof.
  intros [Hs _] Hm (ext&Hc&He) Ht. split; [|done]. rewrite Hc. apply Forall_app. split; [|done].
  eapply Forall_impl; [exact Hs|]. intros e. by apply says_mono.
Qed.

(** What one step of the listener does to the connection. *)
Lemma listen_says ev l s l' s' :
  socks_listen_step (CB:=manager) opts ev l s = Returns (l', s') ->
  event_typed (Ev_Listen ev) -> listener_ok l s.2 -> Forall (fun x => is_u16 (as_id x)) s.2 ->
  (forall t, asked_for l t -> asked_for l' t) /\
  added (says auth (asked_for l')) (to_connection s.1) (to_connection s'.1) /\
  (s'.2 = s.2 \/ exists x, s'.2 = s.2 ++ [x] /\ as_queue x = []).
Proof.
  unfold socks_listen_step. intros H Hty Hl Hids.
  destruct (ls_state l) as [| |p|] eqn:Hst; destruct ev as [| | |env|ev]; simplify_eq;
    try (split_and!; [done|apply added_refl|by left]).
  - destruct (handle_income opts env ([], s)) as [[r [acts s1]]|] eqn:Hi; [|done]. cbn in H. simplify_eq.
    split.
    { intros t (env'&acts'&?&?&?). exists env', acts'. cbn. split; [|done]. apply elem_of_app. by left. }
    pose proof (handle_income_actions _ _ _ _ _ _ Hi) as [Hperm _].
    apply handle_income_state in Hi as [[-> Hr]|[(t&rr&Ht&->&Hact)|(rr&Hu&->)]].
    + split; [apply added_refl|by left].
    + assert (TargetAddr_ok t) as Hok.
      { rewrite Forall_forall in Hperm. destruct (Hperm _ Hact) as (_&addr&Hc&->). cbn in Hty. by rewrite Hc in Hty. }
      assert (permitted opts env (HandleTcp t)) as Hpt by (rewrite Forall_forall in Hperm; auto).
      split; [|left; by eapply manager_tcp]. revert Ht. cbn. unfold on_connection. m_unfold.
      destruct (open_tcp t [] (to_connection s.1)) as [[[?|?] h]|] eqn:Ho; [..|done]; intros [= _ <-]; cbn;
        (eapply says_open_tcp; [|exact Hok|exact Ho]); exists env, acts; (split; [|done]);
        cbn; apply elem_of_app; right; by apply list_elem_of_singleton.
    + injection Hu as <- <-. split; [apply added_refl|]. right. by eexists.
  - destruct (session_step ev p ([], s)) as [[r [acts s1]]|] eqn:Hi; [|done]. cbn in H. simplify_eq.
    split; [done|].
    apply session_step_state in Hi as [[-> Hr]|[(f&e&rr&->&Hp&->)|(f&rr&->&->&Hc&->)]].
    + split; [apply added_refl|by left].
    + apply manager_poll in Hp as ->. split; [apply added_refl|by left].
    + unfold listener_ok in Hl. rewrite Hst in Hl. destruct Hl as (x&Hx&<-).
      assert (is_u16 (as_id x)) as Hid by (rewrite Forall_forall in Hids; auto).
      split; [|left; by eapply manager_cancel]. revert Hc. cbn. unfold dissociate, udp_teardown. m_unfold.
      destruct (drop_udp (as_id x) (to_connection s.1)) as [[r h]|] eqn:Hd; [|done]. intros [= _ <-]. cbn.
      by eapply says_drop_udp.
Qed.
Lemma assoc_ids_ok a : app_ok a -> Forall (fun x => is_u16 (as_id x)) (ap_assocs a).
Proof.
  intros ((_&Hs&_)&Ha&_). eapply Forall_impl; [exact Ha|]. intros x ((u&Hu&<-&_)&_). by destruct (Hs _ _ Hu).
Qed.

Lemma spoken_poll ev a : spoken a -> spoken (poll_app overflow_checks log_info ev a).
Proof.
  intros Hs. unfold poll_app. destruct (ap_poll a) eqn:Hp; [|done]. rewrite <-Hp.
  destruct (poll_blocked (ap_out a)); [done|]. destruct (ap_taken a) as [[d b] u].
  assert (forall pe t, spoken (ap_set_taken t (ap_set_poll (poll_task overflow_checks log_info pe (ap_poll a)) a))) as Ht.
  { intros pe t. eapply spoken_intro; [exact Hs|done|apply poll_task_adds; constructor|apply Hs]. }
  assert (forall pe, spoken (ap_set_poll (poll_task overflow_checks log_info pe (ap_poll a)) a)) as Hpe.
  { intros pe. exact (Ht pe (ap_taken a)). }
  destruct ev; try done; repeat case_match; done.
Qed.

Lemma spoken_listen ev a : event_typed (Ev_Listen ev) -> app_ok a -> spoken a -> spoken (listen_app opts ev a).
Proof.
  intros Hty Hok Hs. unfold listen_app. destruct (listen_ready _ _); [|done].
  destruct (socks_listen_step opts ev (ap_listener a) (ap_out a, ap_assocs a)) as [[l [st assocs]]|] eqn:Hl; [|done].
  destruct (listen_says _ _ _ _ _ Hl Hty) as (Hm&Hadd&Has); [apply Hok|by apply assoc_ids_ok|].
  eapply spoken_intro; [exact Hs|exact Hm| |].
  - change (ap_out (ap_set_listener _ _)) with (ap_out (ap_set_out st a)). by rewrite ap_out_set.
  - cbn in *. destruct Hs as [_ Ht]. destruct Has as [->|(x&->&Hq)]; [done|]. apply Forall_app. split; [done|].
    constructor; [|done]. unfold targets_ok. by rewrite Hq.
Qed.

(** The first task only takes from its queue. *)
Lemma relay_task_targets ev st x : targets_ok x -> targets_ok (relay_task overflow_checks ev st x).2.
Proof.
  intros Hx. assert (targets_ok (relay_break st x).2) as Hb.
  { unfold targets_ok. by destruct (relay_break_assoc st x) as (_&_&->&_). }
  unfold relay_task, relay_step. destruct (as_relaying x); [|done]. destruct (to_streams st !! as_ptr x) as [u|]; [|done].
  destruct ev as [|ok| |]; [done| | |done].
  - by destruct (us_receive u), ok.
  - destruct (as_queue x) as [|packet rest] eqn:Hq; [by destruct (as_reading x)|].
    destruct (send_packet _ packet _) as [[r [u1 h1]]|]; [|done]. unfold targets_ok in *. rewrite Hq in Hx. cbn.
    by apply Forall_cons in Hx as [_ ?].
Qed.

Lemma local_task_targets i ev x : event_typed (Ev_Local i ev) -> targets_ok x -> targets_ok (local_task ev x).
Proof.
  intros Hty Hx. unfold local_task, local_step. destruct (as_reading x); [|done].
  destruct ev as [|[[[n buf] meta]|e]]; [done| |done]. destruct (n =? 1); [|done].
  apply local_target_ok in Hty. unfold local_packets. destruct (local_payloads buf meta) as [ps|]; [|done]. cbn [exec_bind].
  destruct (as_relaying x); [|done]. unfold targets_ok. cbn. apply Forall_app. split; [done|].
  apply Forall_fmap, Forall_true. done.
Qed.

Lemma spoken_step ev a : event_typed ev -> app_ok a -> spoken a -> spoken (app_step ev a).
Proof.
  intros Hty Hok Hs. pose proof Hs as [_ Ht]. pose proof Hok as (Ho&Ha&_).
  destruct ev as [| | | | | | | | |ev|i ev|i ev]; cbn [App.app_step]; try done; try (by apply spoken_poll).
  - by apply spoken_listen.
  - unfold relay_app. destruct (ap_assocs a !! i) as [x|] eqn:Hi; [|done].
    destruct (match ev with Relay_Cancelled => _ | _ => _ end); [|done].
    pose proof (Forall_lookup_1 _ _ _ _ Ht Hi) as Hx. pose proof (relay_task_targets ev (ap_out a) x Hx) as Hx'.
    assert (added (says auth (asked_for (ap_listener a))) (to_connection (ap_out a))
      (to_connection (relay_task overflow_checks ev (ap_out a) x).1)) as Hadd.
    { apply relay_task_adds; [by eapply Forall_lookup_1|done|]. eapply Forall_impl; [exact Hx|].
      intros packet Hp. apply says_allows; [|done]. by eapply (Forall_lookup_1 _ _ _ _ (assoc_ids_ok a Hok)). }
    destruct (relay_task overflow_checks ev (ap_out a) x) as [st x']. eapply spoken_intro; [exact Hs|done| |].
    + change (ap_out (ap_set_assocs _ _)) with (ap_out (ap_set_out st a)). by rewrite ap_out_set.
    + cbn. by apply Forall_insert.
  - unfold local_app. destruct (ap_assocs a !! i) as [x|] eqn:Hi; [|done]. destruct (local_blocked x); [done|].
    destruct (match ev with Local_Cancelled => _ | _ => _ end); [|done].
    eapply spoken_intro; [exact Hs|done|apply added_refl|]. cbn. apply Forall_insert; [done|].
    eapply local_task_targets; [done|]. by eapply Forall_lookup_1.
Qed.

Lemma spoken_run evs a : Forall event_ok evs -> Forall event_typed evs -> app_ok a -> spoken a -> spoken (app_run evs a).
Proof.
  intros He. revert a. induction He as [|ev evs Hev He IH]; intros a Hty Hok Hs; [done|].
  apply Forall_cons in Hty as [Hty Htys]. change (app_run (ev :: evs) a) with (app_run evs (app_step ev a)).
  apply IH; [done|by apply app_ok_step|by apply spoken_step].
Qed.
End program.

Section start.
Context {B : BytesOps} {BL : BytesLaws B} {U : UuidOps} {UL : UuidLaws U}
        {Q : QuinnOps} {QL : QuinnLaws Q} {MO : MokaOps}.

Lemma run_spoken opts env o bind_ok a h : run env o bind_ok [] = Returns (Ok a, h) -> spoken opts (oo_auth o) a.
Proof.
  unfold run, TuicOutbound_new, check. intros H.
  pose proof (says_send_auth (oo_auth o) (asked_for opts (socks_listen bind_ok))) as Hadds.
  m_unfold. repeat (case_match; simplify_eq/=). unfold m_ret in *. simplify_eq. split; [|done]. cbn.
  match goal with Hs : send_auth _ _ [] = _ |- _ => destruct (Hadds _ _ _ Hs) as (ext&->&Hext) end. done.
Qed.
End start.

(** ** What the server makes of it *)
Section server.
Context {B : BytesOps} {BL : BytesLaws B} {U : UuidOps} {UL : UuidLaws U}
        {Q : QuinnOps} {QL : QuinnLaws Q} {MO : MokaOps} {R : RecvOps} {RL : RecvLaws R}.
Context (cb : TargetAddr -> RecvStream -> result unit Report).

(** Only a [Packet] command makes the handler of a unidirectional stream
    panic. *)
Lemma handle_uni_panics recv c : handle_uni_stream recv c = Panics ->
  exists rest, recv_rest recv = header_wire (Header_new CmdType_Packet) ++ rest.
Proof.
  unfold handle_uni_stream. destruct (read_to_end 65536 recv) as [[data|] recv'] eqn:Hr; cbn [fst]; [|done].
  destruct (read_to_end_sound _ _ _ _ Hr) as (->&_&_). unfold read_or at 1. rewrite run_ret.
  unfold decode_header, decode_command, decode_address. pose proof (recv_rest_ok recv) as Hok.
  destruct (decode_some_cases header_codec (recv_rest recv) (incomplete "header" "uni stream") Hok)
    as [(?&?&Hd)|(h&r1&Hd&[Hv Hh]&Hw&Hok1)]; [by erewrite run_local_err by done|].
  erewrite run_local_ok by done.
  destruct (decode_some_cases (cmd_codec (hdr_command h)) r1 (incomplete "command" "uni stream") Hok1)
    as [(?&?&Hd2)|(cmd&r2&Hd2&Hc&->&Hok2)]; [by erewrite run_local_err by done|].
  erewrite run_local_ok by done. destruct cmd as [u token| |a pkt total id size|a|]; cbn beta iota; try done.
  - rewrite handle_auth_eq. by repeat case_match.
  - intros _. exists (command_wire (Command_Packet a pkt total id size) ++ r2). rewrite Hw. f_equal.
    destruct Hc as [Hty _]. destruct h as [v ty]. cbn in Hv, Hty |- *. by subst.
Qed.

(** What a bidirectional stream does, and what it must have carried if it led
    to a relay. *)
Lemma handle_bi_cases recv c : exists r c',
  handle_bi_stream cb recv c = Returns (r, c') /\
  (c' = c \/ exists t s addr rest, c' = ic_push_tcp t s c /\ address_wf addr /\ address_to_target addr = Ok t /\
     recv_rest recv = header_wire (Header_new CmdType_Connect) ++ address_wire addr ++ rest).
Proof.
  unfold handle_bi_stream. rewrite run_get, run_if. case_bool_decide as Hu; [by do 2 eexists; split; [done|left]|].
  destruct (read_exact 2 recv) as [[hb|] recv1] eqn:He; [|by do 2 eexists; split; [done|left]].
  destruct (read_exact_sound 2 _ _ _ ltac:(done) He) as [Hlen Hrest]. unfold read_or at 1. rewrite run_ret.
  pose proof (recv_rest_ok recv) as Hok. rewrite Hrest in Hok. apply bytes_ok_app in Hok as [Hok1 Hok2].
  unfold decode_header.
  destruct (decode_some_cases header_codec hb (incomplete "header" "bi stream") Hok1)
    as [(?&?&Hd)|(h&r1&Hd&[Hv Hh]&Hw&_)].
  { erewrite run_local_err by done. by do 2 eexists; split; [done|left]. }
  erewrite run_local_ok by done. cbn beta iota.
  destruct (hdr_command h) eqn:Hcmd; try (by do 2 eexists; split; [done|left]).
  unfold decode_command.
  erewrite run_local_ok by (by apply (decode_some_ok (cmd_codec CmdType_Connect) Command_Connect [])).
  destruct (read_to_end 512 recv1) as [[ad|] recv2] eqn:Ha; [|by do 2 eexists; split; [done|left]].
  destruct (read_to_end_sound _ _ _ _ Ha) as (->&_&_). unfold read_or. rewrite run_ret. unfold decode_address.
  destruct (decode_some_cases addr_codec (recv_rest recv1) (incomplete "address" "bi stream") Hok2)
    as [(?&?&Hd3)|(addr&rest&Hd3&Hwf&Hw3&_)].
  { erewrite run_local_err by done. by do 2 eexists; split; [done|left]. }
  erewrite run_local_ok by done. cbn beta iota. unfold m_bind, m_of_result.
  destruct (address_to_target addr) as [t|e] eqn:Ht; [|by do 2 eexists; split; [done|left]].
  do 2 eexists. split; [done|]. right. exists t, recv2, addr, rest. split_and!; [done..|].
  rewrite Hrest, Hw3. f_equal. rewrite Hw in Hlen |- *. destruct h as [v ty]. cbn in Hv, Hcmd. subst.
  destruct r1; [by rewrite app_nil_r|]. exfalso. revert Hlen. unfold len. cbn. lia.
Qed.

(** A datagram of a client never panics. *)
Lemma handle_datagram_says auth asked data c : says auth asked (SendDatagram data) ->
  exists r, handle_datagram data c = Returns (r, c).
Proof.
  intros Hs. unfold handle_datagram. rewrite run_get, run_if. case_bool_decide; [by eexists|].
  remember (SendDatagram data) as call eqn:Hcall.
  destruct Hs as [| | | | | |id pkt total fid a payload Hc Ha]; try done;
    apply (f_equal (fun call => match call with SendDatagram d => d | _ => [] end)) in Hcall; rewrite <-Hcall;
    unfold decode_header, message_wire.
  - erewrite run_local_ok by (by apply (decode_some_ok header_codec)). by eexists.
  - rewrite <-!app_assoc. erewrite run_local_ok by (by apply (decode_some_ok header_codec)).
    cbn beta iota. cbn [Header_new hdr_command CmdType_from_Command]. unfold decode_command.
    erewrite run_local_ok by (by apply (decode_some_ok (cmd_codec CmdType_Packet))). cbn beta iota.
    unfold decode_address. erewrite run_local_ok by (by apply (decode_some_ok addr_codec)). cbn beta iota.
    pose proof (len_nonneg payload). assert (0 <= as_u16 (len payload) <= len payload) as Hle.
    { unfold as_u16. split; [by apply Z.mod_pos_bound|by apply Z.mod_le]. }
    erewrite run_lift by (apply split_to_le; lia). cbn beta iota. unfold m_bind, m_of_result.
    destruct (address_to_target a); by eexists.
Qed.
(** What a connection with the peer's calls [h] can produce: a datagram, or a
    stream with what the peer wrote on it, as far as it got, and behind it
    whatever was relayed; nothing is assumed of order, repetition or of which
    kind a stream is. *)
Inductive delivered (h : QHist) : ConnEvent -> Prop :=
| delivered_uni sid chunk ok r : (WriteChunk sid chunk, ok) ∈ h -> recv_rest r `prefix_of` chunk ->
    delivered h (Conn_Uni (Some r))
| delivered_bi sid chunk ok relayed r : (WriteChunk sid chunk, ok) ∈ h -> recv_rest r `prefix_of` chunk ++ relayed ->
    delivered h (Conn_Bi (Some r))
| delivered_datagram data ok : (SendDatagram data, ok) ∈ h -> delivered h (Conn_Datagram (Some data))
| delivered_no_uni : delivered h (Conn_Uni None)
| delivered_no_bi : delivered h (Conn_Bi None)
| delivered_no_datagram : delivered h (Conn_Datagram None)
| delivered_timeout : delivered h Conn_AuthTimeout.

Context (auth : Uuid * bytes) (asked : TargetAddr -> Prop).
Local Abbreviation says := (says auth asked).

(** The messages of a client on a stream, by their first bytes. *)
Lemma says_chunk_packet sid chunk more rest : says (WriteChunk sid chunk) ->
  chunk ++ more = header_wire (Header_new CmdType_Packet) ++ rest -> False.
Proof.
  remember (WriteChunk sid chunk) as call eqn:Hcall. destruct 1; try done; injection Hcall as -> <-; cbn; discriminate.
Qed.

Lemma says_chunk_connect sid chunk more addr rest : says (WriteChunk sid chunk) -> address_wf addr ->
  chunk ++ more = header_wire (Header_new CmdType_Connect) ++ address_wire addr ++ rest ->
  exists t, asked t /\ addr = Address_from_TargetAddr t.
Proof.
  intros Hs Hwf. remember (WriteChunk sid chunk) as call eqn:Hcall.
  destruct Hs as [| | | |sid' t Ha Hok Hf| |]; try done;
    apply (f_equal (fun call => match call with WriteChunk _ d => d | _ => [] end)) in Hcall; rewrite <-Hcall;
    unfold message_wire; [cbn; discriminate..|].
  rewrite <-!app_assoc. intros Heq%app_inv_head. cbn [command_wire app] in Heq. exists t. split; [done|].
  pose proof (decode_some_ok addr_codec (Address_from_TargetAddr t) more (Report_Msg "")) as H1.
  pose proof (decode_some_ok addr_codec addr rest (Report_Msg "")) as H2.
  rewrite Heq, H2 in H1 by done. by injection (H1 (address_from_target_wf t Hok Hf)).
Qed.

Lemma says_chunk_auth sid chunk more u token rest : says (WriteChunk sid chunk) ->
  chunk ++ more = message_wire (Command_Auth u token) None ++ rest -> u = auth.1.
Proof.
  intros Hs. remember (WriteChunk sid chunk) as call eqn:Hcall.
  destruct Hs as [| |sid' tk Ht| | | |]; try done;
    apply (f_equal (fun call => match call with WriteChunk _ d => d | _ => [] end)) in Hcall; rewrite <-Hcall;
    unfold message_wire; [|cbn; discriminate..].
  rewrite !app_nil_r, <-!app_assoc. intros Heq%app_inv_head. cbn [command_wire] in Heq. rewrite <-!app_assoc in Heq.
  apply app_inj_1 in Heq as [Heq _].
  - rewrite <-(uuid_from_as u), <-(uuid_from_as auth.1). by rewrite Heq.
  - pose proof (uuid_len u). pose proof (uuid_len auth.1). unfold len in *. lia.
Qed.

(** The connection's context, as far as such a client can bring it. *)
Definition served (c : InboundCtx) : Prop :=
  (ic_uuid c = None \/ ic_uuid c = Some auth.1) /\ Forall (fun e => asked e.1) (ic_tcp c).

Lemma conn_step_says h s ev : Forall (fun e => says e.1) h -> delivered h ev -> served (cs_ctx s) ->
  exists s', conn_step cb s ev = Returns s' /\ served (cs_ctx s').
Proof.
  intros Hh Hd Hc. rewrite Forall_forall in Hh. unfold conn_step, conn_handler.
  destruct Hd as [sid chunk ok r Hin Hp|sid chunk ok relayed r Hin Hp|data ok Hin| | | |];
    try (destruct (cs_running s); [|by eexists]; apply Hh in Hin; cbn in Hin).
  - destruct Hp as [more Hp]. rewrite <-(app_nil_r chunk) in Hp.
    destruct (handle_uni_stream r (cs_ctx s)) as [[x c']|] eqn:Hu; cbn [exec_bind].
    + eexists. split; [done|]. cbn. apply handle_uni_effect in Hu as [->|[(u&(pw&tk&rest&_&_&He)&->&_)|(a&->)]]; [done| |done].
      destruct Hc as [_ Ht]. split; [|done]. right. cbn. f_equal. rewrite He, <-app_assoc in Hp. by eapply says_chunk_auth.
    + apply handle_uni_panics in Hu as [rest Hr]. rewrite Hr, <-app_assoc in Hp. by edestruct says_chunk_packet.
  - destruct (handle_bi_cases r (cs_ctx s)) as (x&c'&->&Hc'). cbn [exec_bind]. eexists. split; [done|]. cbn.
    destruct Hc' as [->|(t&s'&addr&rest&->&Hwf&Ht&Hr)]; [done|]. destruct Hp as [more Hp].
    rewrite Hr, <-!app_assoc in Hp. destruct (says_chunk_connect _ _ _ _ _ Hin Hwf Hp) as (t'&Ha&->).
    rewrite address_to_from_target in Ht. injection Ht as ->. destruct Hc as [Hu Ht]. split; [done|]. cbn.
    apply Forall_app. split; [done|]. by constructor.
  - destruct (handle_datagram_says auth asked data (cs_ctx s) Hin) as [x ->]. by eexists.
  - destruct (cs_running s); by eexists.
  - destruct (cs_running s); by eexists.
  - destruct (cs_running s); by eexists.
  - eexists. split; [done|]. cbn. unfold auth_timeout. destruct (ic_uuid (cs_ctx s)) eqn:He; [done|].
    destruct Hc as [_ Ht]. split; [by left|done].
Qed.

Lemma conn_run_says h evs s : Forall (fun e => says e.1) h -> Forall (delivered h) evs -> served (cs_ctx s) ->
  exists s', conn_run cb s evs = Returns s' /\ served (cs_ctx s').
Proof.
  intros Hh He. revert s. induction He as [|ev evs Hev _ IH]; intros s Hs; [by exists s|].
  destruct (conn_step_says h s ev Hh Hev Hs) as (s1&Hst&Hs1). cbn [conn_run]. rewrite Hst. cbn [exec_bind]. by apply IH.
Qed.
End server.

Section tunnel.
Context {B : BytesOps} {BL : BytesLaws B} {U : UuidOps} {UL : UuidLaws U}
        {Q : QuinnOps} {QL : QuinnLaws Q} {MO : MokaOps} {ML : MokaLaws MO} {R : RecvOps} {RL : RecvLaws R}.
Context (overflow_checks log_info : bool) (opts : SocksInboundOpt).
Context (cb : TargetAddr -> RecvStream -> result unit Report).

(** C3: both ends of the tunnel.  Take any run of the program and a server
    that receives what the program sent, in any order, any number of times,
    streams cut off anywhere, with any users configured.  The server does not
    panic, authenticates the connection as the configured user or not at all,
    and every address it connects to is one that a SOCKS5 session of the
    program named in a CONNECT command, with the configured credentials. *)
Theorem tunnel_safe env o bind_ok a0 h evs users sevs :
  run env o bind_ok [] = Returns (Ok a0, h) -> Forall event_ok evs -> Forall event_typed evs ->
  let a := app_run overflow_checks log_info opts evs a0 in
  Forall (delivered (to_connection (ap_out a))) sevs ->
  exists s,
    conn_run cb {| cs_running := true; cs_ctx := InboundCtx_new users |} sevs = Returns s /\
    (ic_uuid (cs_ctx s) = None \/ ic_uuid (cs_ctx s) = Some (oo_auth o).1) /\
    forall t r, (t, r) ∈ ic_tcp (cs_ctx s) ->
      exists session acts addr,
        (session, acts) ∈ ls_log (ap_listener a) /\ authorised opts session /\
        ss_command session = Some (TCPConnect, addr) /\ t = convert_target_addr addr.
Proof.
  intros Hrun He Hty a Hd. destruct (run_ok _ _ _ _ _ _ Hrun) as [Hok _].
  assert (spoken opts (oo_auth o) a) as [Hsay _] by (apply spoken_run; try done; by eapply run_spoken).
  destruct (conn_run_says cb (oo_auth o) (asked_for opts (ap_listener a)) (to_connection (ap_out a)) sevs
    {| cs_running := true; cs_ctx := InboundCtx_new users |} Hsay Hd) as (s&Hs&Hu&Ht); [by split; [left|]|].
  exists s. split_and!; [done|done|]. intros t r Hin. rewrite Forall_forall in Ht.
  specialize (Ht _ Hin). cbn in Ht. destruct Ht as (session&acts&Hl&_&Hauth&addr&Hc&->). by exists session, acts, addr.
Qed.
End tunnel.

(** ** Witness *)

(** A client of the program asks to be connected and a heartbeat is sent. *)
Definition tunnel_events : list AppEvent :=
  [Ev_Listen Socks_Accepted; Ev_Listen (Socks_Command demo_connect_session); Ev_Heartbeat].

(** The server gets the request before the authentication and again after it,
    a request that was cut, and the heartbeat twice. *)
Definition tunnel_auth : bytes :=
  message_wire (U:=list_uuid) (Command_Auth demo_user (default [] (toy_ekm 32 (replicate 16 7) [112]))) None.
Definition tunnel_server_events : list (ConnEvent (R:=finished_stream)) :=
  [Conn_Bi (R:=finished_stream) (Some demo_connect); Conn_Datagram (R:=finished_stream) (Some [5; 4]);
   Conn_Uni (R:=finished_stream) (Some tunnel_auth); Conn_Bi (R:=finished_stream) (Some (take 4 demo_connect));
   Conn_Datagram (R:=finished_stream) (Some [5; 4]); Conn_Bi (R:=finished_stream) (Some (demo_connect ++ [71; 69]))].

Local Abbreviation tunnel_state := (app_run (B:=list_bytes) (U:=list_uuid) (Q:=demo_quic) (MO:=bounded_map)
  true true demo_opts tunnel_events demo_app).
Definition tunnel_users : gmap (Uuid (UuidOps:=list_uuid)) str := {[demo_user := [112]]}.
Local Abbreviation tunnel_ctx := (InboundCtx_new (U:=list_uuid) (MO:=bounded_map) (R:=finished_stream) tunnel_users).

Lemma tunnel_delivered : Forall (delivered (R:=finished_stream) (to_connection (ap_out tunnel_state))) tunnel_server_events.
Proof.
  assert (to_connection (ap_out tunnel_state) =
    [(OpenUni, true); (WriteChunk 0 tunnel_auth, true); (OpenBi, true); (WriteChunk 2 demo_connect, true);
     (SendDatagram [5; 4], true)]) as -> by (vm_compute; reflexivity).
  repeat constructor.
  - eapply (delivered_bi (R:=finished_stream) _ 2 demo_connect true []); [rewrite !elem_of_cons; naive_solver|]. exists []. by_compute.
  - eapply delivered_datagram with true. rewrite !elem_of_cons; naive_solver.
  - eapply (delivered_uni (R:=finished_stream) _ 0 tunnel_auth true); [rewrite !elem_of_cons; naive_solver|]. exists []. by_compute.
  - eapply (delivered_bi (R:=finished_stream) _ 2 demo_connect true []); [rewrite !elem_of_cons; naive_solver|].
    exists (drop 4 demo_connect). by_compute.
  - eapply delivered_datagram with true. rewrite !elem_of_cons; naive_solver.
  - eapply (delivered_bi (R:=finished_stream) _ 2 demo_connect true [71; 69]); [rewrite !elem_of_cons; naive_solver|]. exists []. by_compute.
Qed.

Lemma tunnel_safe_witness : exists s session acts,
  conn_run (B:=list_bytes) (Q:=demo_quic) (R:=finished_stream) demo_cb
    {| cs_running := true; cs_ctx := tunnel_ctx |} tunnel_server_events = Returns s /\
  fst <$> ic_tcp (cs_ctx s) = [TargetAddr_IPv4 [10; 0; 0; 1] 80] /\
  (session, acts) ∈ ls_log (ap_listener tunnel_state) /\ authorised demo_opts session.
Proof.
  destruct demo_run_eq as [h Hrun].
  destruct (tunnel_safe (Q:=demo_quic) (BL:=list_bytes_laws) (UL:=list_uuid_laws) (QL:=loopback_laws (Some 1200))
    (ML:=bounded_map_laws) (RL:=finished_stream_laws) true true demo_opts demo_cb demo_connect_env demo_tuic true
    demo_app h tunnel_events tunnel_users tunnel_server_events Hrun ltac:(by_compute) ltac:(by_compute)
    tunnel_delivered) as (s&Hs&_&Hall).
  assert (match conn_run (B:=list_bytes) (Q:=demo_quic) (R:=finished_stream) demo_cb
    {| cs_running := true; cs_ctx := tunnel_ctx |} tunnel_server_events with
    | Returns s => fst <$> ic_tcp (cs_ctx s) | Panics => [] end = [TargetAddr_IPv4 [10; 0; 0; 1] 80]) as Ht
    by (vm_compute; reflexivity).
  rewrite Hs in Ht. destruct (ic_tcp (cs_ctx s)) as [|[t r] l] eqn:He; [discriminate Ht|].
  destruct (Hall t r) as (session&acts&addr&Hl&Hauth&_); [constructor|].
  exists s, session, acts. rewrite He. exact (conj Hs (conj Ht (conj Hl Hauth))).
Defined.
