(* ===== verification/UnitTests.v ===== *)
(** * The unit tests of the crates

    The tests that header.rs, cmd.rs, addr.rs, proto/tests.rs, udp_stream.rs,
    types.rs and log.rs carry, as programs over the model: a failed assertion or [unwrap]
    panics, [?] returns an error.  They pass, whatever implementations of the
    crates they use, as long as these keep their contracts. *)

From stdpp Require Import base list gmap strings.
From S2P Require Import Prelude BytesCrate Types Logging NetText TargetText Codec Header Cmd Addr Quinn.
From S2P Require Import Moka Reassembly ReassemblySpec Delivery Buffer UdpStream Fragmentation.

(** ** [hex::encode]: two lower-case digits for each byte *)
Class HexOps := { hex_encode : bytes -> str }.

Class HexLaws (H : HexOps) : Prop := {
  hex_encode_nil : hex_encode [] = [];
  hex_encode_cons b l : is_u8 b -> hex_encode (b :: l) = digit_char (b / 16) :: digit_char (b mod 16) :: hex_encode l
}.

Definition plain_hex : HexOps :=
  {| hex_encode := fix go l := match l with [] => [] | b :: l => digit_char (b / 16) :: digit_char (b mod 16) :: go l end |}.
Lemma plain_hex_laws : HexLaws plain_hex.
Proof. by split. Qed.

(** ** [tokio_util::codec], as an interface

    [FramedWrite] over a [Vec<u8>] and [FramedRead] over a slice.  A reader
    calls [decode] on what has arrived so far, however the reads cut the
    slice, and [decode_eof] when nothing more comes. *)
Class FramedOps := {
  FramedRead : Type;
  framed_read : bytes -> FramedRead;
  (** what has not been returned as a frame *)
  unframed : FramedRead -> bytes;
  framed_next {A} : M bytes ProtoError (option A) -> M bytes ProtoError (option A) -> FramedRead ->
    exec (option (result A ProtoError) * FramedRead);
  (** [writer.send(item)]: the vector afterwards *)
  framed_send : M bytes ProtoError unit -> bytes -> exec (result unit ProtoError * bytes)
}.

Class FramedLaws (F : FramedOps) : Prop := {
  unframed_new d : unframed (framed_read d) = d;
  (** a frame that needs all of [w] is returned and leaves what follows it *)
  next_frame {A} (decode eof : M bytes ProtoError (option A)) r w rest a :
    unframed r = w ++ rest ->
    (forall p q, w = p ++ q -> q <> [] -> decode p = Returns (Ok None, p)) ->
    (forall more, decode (w ++ more) = Returns (Ok (Some a), more)) ->
    (forall more, eof (w ++ more) = Returns (Ok (Some a), more)) ->
    exists r', framed_next decode eof r = Returns (Some (Ok a), r') /\ unframed r' = rest;
  (** an input that never becomes a frame is up to [decode_eof] *)
  next_eof {A} (decode eof : M bytes ProtoError (option A)) r e b :
    (forall p q, unframed r = p ++ q -> decode p = Returns (Ok None, p)) ->
    eof (unframed r) = Returns (Err e, b) ->
    exists r', framed_next decode eof r = Returns (Some (Err e), r');
  send_ok encode w image : encode [] = Returns (Ok (), image) ->
    framed_send encode w = Returns (Ok (), w ++ image)
}.

(** A reader that gets everything at once. *)
Definition slice_framed : FramedOps := {|
  FramedRead := bytes;
  framed_read d := d;
  unframed r := r;
  framed_next A decode eof r :=
    match decode r with
    | Returns (Ok (Some a), r') => Returns (Some (Ok a), r')
    | Returns (Ok None, r') =>
      match eof r' with
      | Returns (Ok o, r'') => Returns (Ok <$> o, r'')
      | Returns (Err e, r'') => Returns (Some (Err e), r'')
      | Panics => Panics
      end
    | Returns (Err e, r') => Returns (Some (Err e), r')
    | Panics => Panics
    end;
  framed_send encode w :=
    match encode [] with
    | Returns (r, image) => Returns (r, w ++ image)
    | Panics => Panics
    end
|}.

Lemma slice_framed_laws : FramedLaws slice_framed.
Proof.
  split; cbn; [done|..].
  - intros A decode eof r w rest a -> _ Hd _. rewrite Hd. by eexists.
  - intros A decode eof r e b Hd He. rewrite (Hd r []) by (by rewrite app_nil_r). rewrite He. by eexists.
  - intros encode w image ->. done.
Qed.

(** ** Assertions *)

(** A test that returns [eyre::Result<()>], or nothing. *)
Abbreviation test := (exec (result unit Report)) (only parsing).

Definition assert (b : bool) : exec unit := if b then Returns () else Panics.
Definition finish (m : exec unit) : test := exec_bind m (fun _ => Returns (Ok ())).

(** [m?; k] *)
Definition and_then (m k : test) : test :=
  exec_bind m (fun r => match r with Ok _ => k | Err e => Returns (Err e) end).

Fixpoint for_each {A} (body : A -> test) (vars : list A) : test :=
  match vars with
  | [] => Returns (Ok ())
  | var :: vars' => and_then (body var) (for_each body vars')
  end.

Definition unwrap {A} (o : option A) : exec A := match o with Some a => Returns a | None => Panics end.

(** ** The codecs (header.rs, cmd.rs, addr.rs) *)
Section codec_tests.
Context {B : BytesOps} {U : UuidOps} {FO : FramedOps}.

(** [writer.send(x).await?] *)
Definition send_then {A} (encode : A -> M bytes ProtoError unit) (x : A) (writer : bytes) (k : bytes -> test) : test :=
  exec_bind (framed_send (encode x) writer) (fun '(r, writer) =>
  match r with Ok _ => k writer | Err e => Returns (Err (Report_Proto e)) end).

(** [assert_eq!(reader.next().await.unwrap()?, x)] *)
Definition next_is {A} `{EqDecision A} (decode : M bytes ProtoError (option A)) (x : A) (reader : FramedRead)
    (k : FramedRead -> test) : test :=
  exec_bind (framed_next decode (decode_eof_of decode) reader) (fun '(o, reader) =>
  exec_bind (unwrap o) (fun r =>
  match r with
  | Ok frame => exec_bind (assert (bool_decide (x = frame))) (fun _ => k reader)
  | Err e => Returns (Err (Report_Proto e))
  end)).

Definition is_remaining {A} (o : option (result A ProtoError)) : bool :=
  match o with Some (Err BytesRemaining) => true | _ => false end.

Definition done_ok (_ : FramedRead) : test := Returns (Ok ()).

(** One value: its length on the wire, and back. *)
Definition one_value {A} `{EqDecision A} (encode : A -> M bytes ProtoError unit)
    (decode : M bytes ProtoError (option A)) (expect_len : A -> usize) (x : A) : test :=
  send_then encode x [] (fun writer =>
  exec_bind (assert (len writer =? expect_len x)) (fun _ =>
  next_is decode x (framed_read writer) done_ok)).

(** Its first half is an error at the end of the input, both halves are it. *)
Definition two_halves {A} `{EqDecision A} (encode : A -> M bytes ProtoError unit)
    (decode : M bytes ProtoError (option A)) (x : A) : test :=
  send_then encode x [] (fun buffer =>
  let full_len := len buffer in
  let half_a := ztake (full_len / 2) buffer in
  let half_b := zdrop (full_len / 2) buffer in
  exec_bind (framed_next decode (decode_eof_of decode) (framed_read half_a)) (fun '(o, _) =>
  exec_bind (assert (is_remaining o)) (fun _ =>
  next_is decode x (framed_read (half_a ++ half_b)) done_ok))).

#[export] Instance Header_eq_dec : EqDecision Header.
Proof. solve_decision. Defined.

Definition test_header_1 : test :=
  one_value HeaderCodec_encode HeaderCodec_decode (fun _ => 2) {| hdr_version := VER; hdr_command := CmdType_Connect |}.
Definition test_header_2 : test :=
  two_halves HeaderCodec_encode HeaderCodec_decode {| hdr_version := VER; hdr_command := CmdType_Auth |}.

(** [uuid] is what [Uuid::parse_str] returned. *)
Definition cmd_vars (uuid : Uuid) : list Command :=
  [Command_Auth uuid (replicate 32 1); Command_Connect; Command_Packet 123 123 5 1 8; Command_Dissociate 23;
   Command_Heartbeat].
Definition cmd_expect_len (cmd : Command) : usize :=
  match cmd with
  | Command_Auth _ _ => 16 + 32
  | Command_Connect => 0
  | Command_Packet _ _ _ _ _ => 8
  | Command_Dissociate _ => 2
  | Command_Heartbeat => 0
  end.
Definition test_cmd_1 (uuid : Uuid) : test :=
  for_each (fun cmd => one_value (CmdCodec_encode (CmdType_from_Command cmd))
    (CmdCodec_decode (CmdType_from_Command cmd)) cmd_expect_len cmd) (cmd_vars uuid).
Definition test_cmd_2 (uuid : Uuid) : test :=
  for_each (fun cmd => two_halves (CmdCodec_encode (CmdType_from_Command cmd))
    (CmdCodec_decode (CmdType_from_Command cmd)) cmd)
    [Command_Auth uuid (replicate 32 1); Command_Packet 123 123 5 1 8; Command_Dissociate 23].

Definition addr_vars : list Address :=
  [Address_None; Address_IPv4 Ipv4Addr_LOCALHOST 80; Address_IPv6 Ipv6Addr_UNSPECIFIED 12;
   Address_Domain (ascii_str "www.google.com") 443].
Definition addr_expect_len (var : Address) : usize :=
  match var with
  | Address_None => 1
  | Address_Domain domain _ => 1 + 1 + len domain + 2
  | Address_IPv4 _ _ => 1 + 4 + 2
  | Address_IPv6 _ _ => 1 + 16 + 2
  end.

Fixpoint write_addrs (vars : list Address) (writer : bytes) (expect_len : usize) (k : bytes -> test) : test :=
  match vars with
  | [] => k writer
  | var :: vars' =>
    let expect_len := expect_len + addr_expect_len var in
    send_then AddressCodec_encode var writer (fun writer =>
    exec_bind (assert (len writer =? expect_len)) (fun _ => write_addrs vars' writer expect_len k))
  end.
Fixpoint read_addrs (vars : list Address) (reader : FramedRead) : test :=
  match vars with
  | [] => Returns (Ok ())
  | var :: vars' => next_is AddressCodec_decode var reader (read_addrs vars')
  end.

Definition test_addr_1 : test :=
  write_addrs addr_vars [] 0 (fun buffer => read_addrs addr_vars (framed_read buffer)).
Definition test_addr_2 : test := for_each (two_halves AddressCodec_encode AddressCodec_decode) (drop 1 addr_vars).
(** Only prints what it encodes. *)
Definition hex_check : test :=
  send_then AddressCodec_encode (Address_IPv4 Ipv4Addr_LOCALHOST 80) [] (fun _ => Returns (Ok ())).

(** Codecs called one after the other on a buffer, with [?], and a check of
    the result. *)
Definition encoded_as {H : HexOps} (encode : M bytes ProtoError unit) (text : str) : test :=
  match encode [] with
  | Returns (Ok _, buffer) =>
    exec_bind (assert (bool_decide (text = hex_encode buffer))) (fun _ => Returns (Ok ()))
  | Returns (Err e, _) => Returns (Err (Report_Proto e))
  | Panics => Panics
  end.

Definition hex_check_connect_encode {H : HexOps} : test :=
  encoded_as (HeaderCodec_encode (Header_new CmdType_Connect) ;;!
              CmdCodec_encode CmdType_Connect Command_Connect ;;!
              AddressCodec_encode (Address_IPv4 Ipv4Addr_LOCALHOST 80))
    (ascii_str "0501017f0000010050").
(** The UUID is [Uuid::from_u128(0)]. *)
Definition hex_check_auth_encode {H : HexOps} : test :=
  encoded_as (HeaderCodec_encode (Header_new CmdType_Auth) ;;!
              CmdCodec_encode CmdType_Auth (Command_Auth (uuid_from_bytes (replicate 16 0)) (replicate 32 1)))
    (ascii_str "0500000000000000000000000000000000000101010101010101010101010101010101010101010101010101010101010101").
End codec_tests.

Section codecs_pass.
Context {B : BytesOps} {BL : BytesLaws B} {U : UuidOps} {UL : UuidLaws U} {FO : FramedOps} {FL : FramedLaws FO}
        {H : HexOps} {HL : HexLaws H}.

Section one_codec.
Context {A : Type} `{EqDecision A} {wf : A -> Prop} {wire : A -> bytes}
        {encode : A -> M bytes ProtoError unit} {decode : M bytes ProtoError (option A)}
        (F : FrameCodec wf wire encode decode).

Lemma send_then_ok x writer k : wf x -> send_then encode x writer k = k (writer ++ wire x).
Proof. intros Hx. unfold send_then. by rewrite (send_ok _ _ (wire x)) by (by apply (fc_encode x [])). Qed.

Lemma next_is_ok x reader rest k : wf x -> unframed reader = wire x ++ rest ->
  exists reader', unframed reader' = rest /\ next_is decode x reader k = k reader'.
Proof.
  intros Hx Hr.
  destruct (next_frame decode (decode_eof_of decode) reader (wire x) rest x) as (reader'&Hn&Hr'); [done|..].
  - intros p q Hw Hq. by eapply fc_partial.
  - intros more. by apply fc_decode.
  - intros more. unfold decode_eof_of, m_match. by rewrite (fc_decode x more Hx).
  - exists reader'. split; [done|]. unfold next_is. rewrite Hn. cbn. by rewrite bool_decide_true.
Qed.

Lemma one_value_passes expect_len x : wf x -> len (wire x) = expect_len x ->
  one_value encode decode expect_len x = Returns (Ok ()).
Proof.
  intros Hx Hl. unfold one_value. rewrite send_then_ok by done. cbn [app]. rewrite Hl, Z.eqb_refl. cbn.
  destruct (next_is_ok x (framed_read (wire x)) [] done_ok Hx) as (r&_&->); [|done].
  by rewrite unframed_new, app_nil_r.
Qed.

Lemma two_halves_passes x : wf x -> 0 < len (wire x) -> two_halves encode decode x = Returns (Ok ()).
Proof.
  intros Hx Hl. unfold two_halves. rewrite send_then_ok by done. cbn [app]. cbv zeta.
  set (k := len (wire x) / 2). assert (0 <= k < len (wire x)) as Hk.
  { split; [by apply Z.div_pos; lia|by apply Z.div_lt]. }
  pose proof (ztake_zdrop k (wire x)) as Hsplit.
  assert (zdrop k (wire x) <> []) as Hne.
  { intros He. rewrite He, app_nil_r in Hsplit. pose proof (len_ztake k (wire x)) as Hlt. rewrite Hsplit in Hlt. lia. }
  destruct (next_eof decode (decode_eof_of decode) (framed_read (ztake k (wire x))) BytesRemaining
    (ztake k (wire x))) as (r&->); rewrite ?unframed_new.
  - intros p q Hpq. eapply (fc_partial x p (q ++ zdrop k (wire x))); [done| |by intros [_ ?]%app_eq_nil].
    by rewrite app_assoc, <-Hpq.
  - by eapply decode_eof_partial.
  - cbn [exec_bind is_remaining assert]. rewrite Hsplit.
    destruct (next_is_ok x (framed_read (wire x)) [] done_ok Hx) as (r'&_&->); [|done].
    by rewrite unframed_new, app_nil_r.
Qed.
End one_codec.

Lemma for_each_passes {A} (body : A -> test) vars :
  Forall (fun var => body var = Returns (Ok ())) vars -> for_each body vars = Returns (Ok ()).
Proof. induction 1 as [|var vars Hv _ IH]; cbn; [done|]. by rewrite Hv. Qed.

Lemma write_addrs_ok vars writer expect_len k : Forall address_wf vars -> len writer = expect_len ->
  write_addrs vars writer expect_len k = k (writer ++ concat (address_wire <$> vars)).
Proof.
  intros Hv. revert writer expect_len. induction Hv as [|var vars Hvar _ IH]; intros writer expect_len Hl; cbn.
  { by rewrite app_nil_r. }
  rewrite (send_then_ok addr_codec) by done.
  assert (len (writer ++ address_wire var) = expect_len + addr_expect_len var) as Hl'.
  { rewrite len_app, Hl, address_wire_len by done. by destruct var. }
  rewrite Hl', Z.eqb_refl. cbn. rewrite IH by done. by rewrite app_assoc.
Qed.

Lemma read_addrs_ok vars reader : Forall address_wf vars -> unframed reader = concat (address_wire <$> vars) ->
  read_addrs vars reader = Returns (Ok ()).
Proof.
  intros Hv. revert reader. induction Hv as [|var vars Hvar _ IH]; intros reader Hr; cbn; [done|].
  destruct (next_is_ok addr_codec var reader _ (read_addrs vars) Hvar Hr) as (r&Hr'&->).
  by apply IH.
Qed.

Lemma cmd_vars_wf uuid : Forall (fun cmd => command_wf (CmdType_from_Command cmd) cmd) (cmd_vars uuid).
Proof. repeat (apply Forall_cons; split; [split; [done|by_compute]|]). by apply Forall_nil. Qed.

Lemma encoded_as_ok (encode : M bytes ProtoError unit) text image :
  encode [] = Returns (Ok (), image) -> bytes_ok image ->
  text = concat ((fun b => [digit_char (b / 16); digit_char (b mod 16)]) <$> image) ->
  encoded_as encode text = Returns (Ok ()).
Proof.
  intros He Hok ->. unfold encoded_as. rewrite He, bool_decide_true; [done|]. symmetry. clear He.
  induction Hok as [|b l Hb _ IH]; [apply hex_encode_nil|]. rewrite hex_encode_cons by done.
  cbn [fmap list_fmap concat app]. f_equal. by f_equal.
Qed.

Lemma hex_tests_pass : Forall (fun t => t = Returns (Ok ())) [hex_check_connect_encode; hex_check_auth_encode].
Proof.
  apply Forall_cons; split; [|apply Forall_cons; split; [|by apply Forall_nil]].
  - apply (encoded_as_ok _ _ [5; 1; 1; 127; 0; 0; 1; 0; 80]); [|by_compute|vm_compute; reflexivity].
    unfold m_bind. rewrite (fc_encode (Header_new CmdType_Connect)) by done. cbn beta iota.
    rewrite (fc_encode (FrameCodec:=cmd_codec CmdType_Connect) Command_Connect) by done. cbn beta iota.
    by rewrite (fc_encode (Address_IPv4 Ipv4Addr_LOCALHOST 80)) by by_compute.
  - apply (encoded_as_ok _ _ ([5; 0] ++ replicate 16 0 ++ replicate 32 1)); [|by_compute|vm_compute; reflexivity].
    unfold m_bind. rewrite (fc_encode (Header_new CmdType_Auth)) by done. cbn beta iota.
    rewrite (fc_encode (FrameCodec:=cmd_codec CmdType_Auth) (Command_Auth (uuid_from_bytes (replicate 16 0)) (replicate 32 1)))
      by (split; [done|by_compute]).
    cbn [command_wire]. by rewrite uuid_as_from by by_compute.
Qed.

Lemma codec_tests_pass uuid :
  Forall (fun t => t = Returns (Ok ()))
    [test_header_1; test_header_2; test_cmd_1 uuid; test_cmd_2 uuid; test_addr_1; test_addr_2; hex_check].
Proof.
  repeat constructor.
  - by apply (one_value_passes header_codec).
  - by apply (two_halves_passes header_codec).
  - apply for_each_passes. eapply Forall_impl; [apply (cmd_vars_wf uuid)|]. intros cmd Hc.
    apply (one_value_passes (cmd_codec _)); [done|]. rewrite (command_wire_len _ _ Hc). by destruct cmd.
  - apply for_each_passes.
    assert (Forall (fun cmd => command_wf (CmdType_from_Command cmd) cmd /\ 0 < command_size cmd)
      [Command_Auth uuid (replicate 32 1); Command_Packet 123 123 5 1 8; Command_Dissociate 23]) as Hv
      by (repeat (apply Forall_cons; split; [by split; by_compute|]); by apply Forall_nil).
    eapply Forall_impl; [exact Hv|]. intros cmd [Hc Hs]. apply (two_halves_passes (cmd_codec _)); [done|].
    by rewrite (command_wire_len _ _ Hc).
  - unfold test_addr_1. assert (Forall address_wf addr_vars) as Hwf by by_compute.
    rewrite write_addrs_ok by done. apply read_addrs_ok; [done|]. by rewrite unframed_new.
  - apply for_each_passes. assert (Forall (fun a => address_wf a /\ 0 < address_size a) (drop 1 addr_vars)) as Hv by by_compute.
    eapply Forall_impl; [exact Hv|]. intros a [Ha Hs]. apply (two_halves_passes addr_codec); [done|].
    by rewrite address_wire_len.
  - unfold hex_check. by rewrite (send_then_ok addr_codec) by by_compute.
Qed.
End codecs_pass.

(** ** Reassembly (udp_stream.rs) *)
Section reassembly_tests.
Context {MO : MokaOps}.
(** The clock at each call. *)
Context (now : nat -> u64).

Definition test_target : TargetAddr := TargetAddr_IPv4 [127; 0; 0; 1] 8080.
Definition frag_info (pkt_id : u16) (frag_total frag_id : u8) : FragmentInfo :=
  {| fi_assoc_id := 1; fi_pkt_id := pkt_id; fi_frag_total := frag_total; fi_frag_id := frag_id;
     fi_source := None; fi_target := test_target |}.

(** [assert!(result.is_none())], and [assert!(result.is_some());
    assert_eq!(result.unwrap().payload, payload)]. *)
Definition none_yet (result : option UdpPacket) : exec unit := assert (bool_decide (result = None)).
Definition completes (result : option UdpPacket) (payload : bytes) : exec unit :=
  exec_bind (assert (bool_decide (is_Some result))) (fun _ =>
  exec_bind (unwrap result) (fun packet => assert (bool_decide (pkt_payload packet = payload)))).

Definition test_fragment_reassembly_single_fragment : test :=
  let payload := ascii_str "test payload" in
  let '(result, buffer) := add_fragment (now 0) (frag_info 100 1 0) payload FragmentReassemblyBuffer_new in
  finish (completes result payload).

Definition test_fragment_reassembly_multiple_fragments : test :=
  let '(result1, buffer) := add_fragment (now 0) (frag_info 200 2 0) (ascii_str "Hello ") FragmentReassemblyBuffer_new in
  finish (exec_bind (none_yet result1) (fun _ =>
  let '(result2, buffer) := add_fragment (now 1) (frag_info 200 2 1) (ascii_str "World") buffer in
  completes result2 (ascii_str "Hello World"))).

Definition test_fragment_reassembly_out_of_order : test :=
  let '(result, buffer) := add_fragment (now 0) (frag_info 300 3 2) (ascii_str "C") FragmentReassemblyBuffer_new in
  finish (exec_bind (none_yet result) (fun _ =>
  let '(result, buffer) := add_fragment (now 1) (frag_info 300 3 0) (ascii_str "A") buffer in
  exec_bind (none_yet result) (fun _ =>
  let '(result, buffer) := add_fragment (now 2) (frag_info 300 3 1) (ascii_str "B") buffer in
  completes result (ascii_str "ABC")))).

Definition test_multiple_simultaneous_fragmentations : test :=
  let '(_, buffer) := add_fragment (now 0) (frag_info 100 2 0) (ascii_str "A1") FragmentReassemblyBuffer_new in
  let '(_, buffer) := add_fragment (now 1) (frag_info 101 2 0) (ascii_str "B1") buffer in
  let '(result1, buffer) := add_fragment (now 2) (frag_info 100 2 1) (ascii_str "A2") buffer in
  finish (exec_bind (completes result1 (ascii_str "A1A2")) (fun _ =>
  let '(result2, buffer) := add_fragment (now 3) (frag_info 101 2 1) (ascii_str "B2") buffer in
  completes result2 (ascii_str "B1B2"))).

(** Removes the entry itself: [cleanup_expired] is not called. *)
Definition test_fragment_cleanup : test :=
  let '(_, buffer) := add_fragment (now 0) (frag_info 400 2 0) (ascii_str "test") FragmentReassemblyBuffer_new in
  let fragments := cache_run_pending_tasks (frb_fragments buffer) in
  finish (exec_bind (assert (cache_entry_count fragments =? 1)) (fun _ =>
  let fragments := cache_run_pending_tasks (cache_remove (1, 400) fragments).2 in
  assert (cache_entry_count fragments =? 0))).

(** The sizes, as the tests compute them. *)
Definition calculate_addr_size (target : TargetAddr) : usize :=
  match target with
  | TargetAddr_IPv4 _ _ => 1 + 4 + 2
  | TargetAddr_IPv6 _ _ => 1 + 16 + 2
  | TargetAddr_Domain domain _ => 1 + 1 + len domain + 2
  end.
Definition MAX_DATAGRAM_SIZE : usize := 1200.
Definition size_target : TargetAddr := TargetAddr_IPv4 [192; 168; 1; 1] 8080.
Definition first_frag_overhead : usize := 2 + 8 + calculate_addr_size size_target.
Definition subsequent_frag_overhead : usize := 2 + 8 + 1.

(** The arithmetic of the tests, which are built with overflow checks. *)
Definition calc_frags (first_frag_max subsequent_frag_max payload_size : usize) : exec usize :=
  if payload_size <=? first_frag_max then Returns 1
  else
    exec_bind (usize_sub true payload_size first_frag_max) (fun remaining =>
    exec_bind (usize_div_ceil remaining subsequent_frag_max) (fun q => Returns (1 + q))).

Definition with_frag_max (k : usize -> usize -> exec unit) : test :=
  finish (
    exec_bind (usize_sub true MAX_DATAGRAM_SIZE first_frag_overhead) (fun first_frag_max =>
    exec_bind (usize_sub true MAX_DATAGRAM_SIZE subsequent_frag_overhead) (k first_frag_max))).

Fixpoint check_counts (calc : usize -> exec usize) (cases : list (usize * usize)) : exec unit :=
  match cases with
  | [] => Returns ()
  | (payload_size, expected) :: cases' =>
    exec_bind (calc payload_size) (fun n => exec_bind (assert (n =? expected)) (fun _ => check_counts calc cases'))
  end.

Definition test_fragment_count_calculation : test :=
  with_frag_max (fun first sub =>
  exec_bind (calc_frags first sub 10000) (fun large =>
  check_counts (calc_frags first sub)
    [(1000, 1); (first, 1); (first + 1, 2); (first + sub, 2); (first + sub + 1, 3); (10000, large)])).

Definition test_max_fragment_limit : test :=
  with_frag_max (fun first sub =>
  let max_payload := first + sub * (MAX_FRAGMENTS - 1) in
  exec_bind (usize_sub true max_payload first) (fun remaining =>
  exec_bind (usize_div_ceil remaining sub) (fun q =>
  let fragment_count := 1 + q in
  exec_bind (assert (fragment_count =? 255)) (fun _ =>
  exec_bind (assert (fragment_count <=? MAX_FRAGMENTS)) (fun _ =>
  let oversized_payload := max_payload + 1 in
  exec_bind (usize_sub true oversized_payload first) (fun oversized_remaining =>
  exec_bind (usize_div_ceil oversized_remaining sub) (fun q =>
  assert (MAX_FRAGMENTS <? 1 + q)))))))).

Definition test_saturating_sub_prevents_underflow : test := finish (assert (saturating_sub 10 100 =? 0)).
End reassembly_tests.

Section reassembly_pass.
Context {MO : MokaOps} {ML : MokaLaws MO}.

(** One call, against the abstract table. *)
Lemma add_fragment_step now info payload (b : FragmentReassemblyBuffer) s :
  frb_wf b -> frb_abs b = s -> 1 <= fi_frag_total info -> (size s < 1000)%nat ->
  exists b', add_fragment now info payload b = ((spec_add info payload s).1, b') /\
    frb_wf b' /\ frb_abs b' = (spec_add info payload s).2.
Proof.
  intros Hwf <- Ht Hs. destruct (add_fragment_refines now info payload b) as (Hwf1&Ho&Habs); [done| |done|].
  { apply (frb_room b _ ({[fi_key info]} ∪ dom (frb_abs b))); [done|set_solver|set_solver|].
    rewrite <-size_dom in Hs. pose proof (size_union_alt {[fi_key info]} (dom (frb_abs b))) as ->.
    rewrite size_singleton. assert (size (dom (frb_abs b) ∖ {[fi_key info]}) <= size (dom (frb_abs b)))%nat
      by (apply subseteq_size; set_solver). lia. }
  destruct (add_fragment now info payload b) as [o b1]. cbn in *. subst. by exists b1.
Qed.

Local Ltac add_next :=
  match goal with
  | Hwf : frb_wf ?b, Habs : frb_abs ?b = _ |- context [add_fragment ?now ?info ?payload ?b] =>
    let b' := fresh "b" in let Hwf' := fresh "Hwf" in let Habs' := fresh "Habs" in
    destruct (add_fragment_step now info payload b _ Hwf Habs) as (b'&->&Hwf'&Habs'); [by_compute|by_compute|];
    clear Hwf Habs
  end.

Lemma reassembly_tests_pass now :
  Forall (fun t => t = Returns (Ok ()))
    [test_fragment_count_calculation; test_max_fragment_limit; test_fragment_reassembly_single_fragment now;
     test_fragment_reassembly_multiple_fragments now; test_fragment_reassembly_out_of_order now;
     test_multiple_simultaneous_fragmentations now; test_fragment_cleanup now;
     test_saturating_sub_prevents_underflow].
Proof.
  pose proof frb_new_wf as Hwf. pose proof frb_new_abs as Habs.
  repeat (apply Forall_cons; split); [vm_compute; reflexivity|vm_compute; reflexivity|..|vm_compute; reflexivity|by apply Forall_nil].
  - unfold test_fragment_reassembly_single_fragment. add_next. vm_compute. reflexivity.
  - unfold test_fragment_reassembly_multiple_fragments. add_next. cbn beta iota. add_next. vm_compute. reflexivity.
  - unfold test_fragment_reassembly_out_of_order. do 3 (add_next; cbn beta iota). vm_compute. reflexivity.
  - unfold test_multiple_simultaneous_fragmentations. do 4 (add_next; cbn beta iota). vm_compute. reflexivity.
  - unfold test_fragment_cleanup. add_next. cbn beta iota zeta.
    pose proof (frb_abs_dom _ Hwf0) as Hd. rewrite Habs0 in Hd.
    assert (capacity (frb_fragments b) = 1000) as Hcap by apply Hwf0.
    assert (Z.of_nat (size (contents (frb_fragments b))) = 1) as Hsz.
    { rewrite <-size_dom, <-Hd. vm_compute. reflexivity. }
    assert (contents (cache_run_pending_tasks (frb_fragments b)) = contents (frb_fragments b)) as Hp
      by (apply pending_contents; lia).
    rewrite !pending_count. rewrite (pending_contents (cache_remove _ _).2).
    2: { destruct (remove_config (1, 400) (cache_run_pending_tasks (frb_fragments b))) as [-> _].
         destruct (pending_config (frb_fragments b)) as [-> _]. rewrite remove_contents, Hp.
         rewrite <-size_dom, dom_delete_L, <-Hd, Hcap. vm_compute. congruence. }
    rewrite remove_contents, Hp.
    rewrite <-!size_dom, dom_delete_L, <-Hd. vm_compute. reflexivity.
Qed.

(** What the tests compute is what the code sends: the number of fragments of
    a packet that is fragmented. *)
Lemma calc_frags_fragment_count packet mds : 0 < sub_max mds ->
  calc_frags (first_max packet mds) (sub_max mds) (len (pkt_payload packet)) = Returns (packet_frag_count packet mds).
Proof.
  intros Hs. unfold calc_frags, packet_frag_count, frag_count. destruct (Z.leb_spec (len (pkt_payload packet)) (first_max packet mds)); [done|].
  unfold usize_sub. rewrite (proj2 (Z.leb_le _ _)) by lia. cbn. unfold usize_div_ceil.
  rewrite (proj2 (Z.eqb_neq _ _)) by lia. done.
Qed.
End reassembly_pass.

(** ** Addresses as text (types.rs) *)

(** [serde_json] on strings: a text of printable characters that need no
    escape is quoted as it is. *)
Class JsonOps := { json_of_str : str -> str; str_of_json : str -> option str }.

Definition json_plain (s : str) : Prop := Forall (fun b => 32 <= b <= 126 /\ b <> 34 /\ b <> 92) s.
Definition quoted (s : str) : str := [34] ++ s ++ [34].

Class JsonLaws (J : JsonOps) : Prop := {
  json_quotes s : json_plain s -> json_of_str s = quoted s;
  json_reads s : json_plain s -> str_of_json (quoted s) = Some s
}.

(** Quotes and nothing else. *)
Definition plain_json : JsonOps :=
  {| json_of_str := quoted;
     str_of_json s := match s with 34 :: r => Some (take (length r - 1) r) | _ => None end |}.

Lemma plain_json_laws : JsonLaws plain_json.
Proof.
  split; [done|]. intros s _. cbn. f_equal. rewrite length_app, Nat.add_sub. by rewrite take_app_length.
Qed.

Section text_tests.
Context {J : JsonOps}.

(** [serde_json::from_str] at [TargetAddr] *)
Definition target_of_json (s : str) : exec (result TargetAddr string) :=
  match str_of_json s with
  | Some t => TargetAddr_deserialize t
  | None => Returns (Err "invalid JSON"%string)
  end.

Definition is_err {A E} (r : result A E) : bool := match r with Ok _ => false | Err _ => true end.
Definition expect {A E} (r : result A E) : exec A := match r with Ok a => Returns a | Err _ => Panics end.

Definition displays (addr : TargetAddr) (expected : string) : exec unit :=
  assert (bool_decide (TargetAddr_to_string addr = ascii_str expected)).
Definition json_round_trip (addr : TargetAddr) (expected : string) : exec unit :=
  let serialized := json_of_str (TargetAddr_serialize addr) in
  exec_bind (assert (bool_decide (serialized = quoted (ascii_str expected)))) (fun _ =>
  exec_bind (target_of_json serialized) (fun r =>
  exec_bind (expect r) (fun deserialized => assert (bool_decide (deserialized = addr))))).
Definition refuses (s : string) : exec unit :=
  exec_bind (target_of_json (quoted (ascii_str s))) (fun result => assert (is_err result)).

(** ["..".parse().unwrap()] *)
Definition ipv4_of (s : string) : exec Ipv4Addr := unwrap (parse_ipv4 (ascii_str s)).
Definition ipv6_of (s : string) : exec Ipv6Addr := unwrap (parse_ipv6 (ascii_str s)).

Definition test_display_ipv4 : test :=
  finish (exec_bind (ipv4_of "127.0.0.1") (fun ip => displays (TargetAddr_IPv4 ip 8080) "127.0.0.1:8080")).
Definition test_display_ipv6 : test :=
  finish (exec_bind (ipv6_of "::1") (fun ip => displays (TargetAddr_IPv6 ip 8080) "[::1]:8080")).
Definition test_display_domain : test :=
  finish (displays (TargetAddr_Domain (ascii_str "example.com") 443) "example.com:443").
Definition test_serialize_deserialize_ipv4 : test :=
  finish (exec_bind (ipv4_of "192.168.1.1") (fun ip => json_round_trip (TargetAddr_IPv4 ip 1234) "192.168.1.1:1234")).
Definition test_serialize_deserialize_ipv6 : test :=
  finish (exec_bind (ipv6_of "2001:db8::1") (fun ip =>
  json_round_trip (TargetAddr_IPv6 ip 5678) "[2001:db8::1]:5678")).
Definition test_serialize_deserialize_domain : test :=
  finish (json_round_trip (TargetAddr_Domain (ascii_str "test.org") 80) "test.org:80").
Definition test_deserialize_invalid_ipv6 : test := finish (refuses "[invalid]:1234").
Definition test_deserialize_invalid_port : test := finish (refuses "127.0.0.1:notaport").
Definition test_deserialize_missing_bracket : test := finish (refuses "[::1:8080").
Definition test_deserialize_invalid_format : test := finish (refuses "justastring").
End text_tests.

Section text_pass.
Context {J : JsonOps} {JL : JsonLaws J}.

Lemma json_round_trip_eq addr expected : json_plain (ascii_str expected) ->
  TargetAddr_serialize addr = ascii_str expected ->
  TargetAddr_deserialize (ascii_str expected) = Returns (Ok addr) ->
  json_round_trip addr expected = Returns ().
Proof.
  intros Hp Hs Hd. unfold json_round_trip, target_of_json. rewrite Hs, json_quotes by done.
  rewrite bool_decide_true by done. cbn [exec_bind assert]. rewrite json_reads, Hd by done. cbn. by rewrite bool_decide_true.
Qed.

Lemma refuses_eq s e : json_plain (ascii_str s) -> TargetAddr_deserialize (ascii_str s) = Returns (Err e) ->
  refuses s = Returns ().
Proof. intros Hp Hd. unfold refuses, target_of_json. rewrite json_reads by done. by rewrite Hd. Qed.

Local Ltac concrete := vm_compute; reflexivity.
Local Ltac plain := unfold json_plain; by_compute.

Lemma text_tests_pass :
  Forall (fun t => t = Returns (Ok ()))
    [test_display_ipv4; test_display_ipv6; test_display_domain; test_serialize_deserialize_ipv4;
     test_serialize_deserialize_ipv6; test_serialize_deserialize_domain; test_deserialize_invalid_ipv6;
     test_deserialize_invalid_port; test_deserialize_missing_bracket; test_deserialize_invalid_format].
Proof.
  repeat (apply Forall_cons; split); [concrete|concrete|concrete|..|by apply Forall_nil].
  - unfold test_serialize_deserialize_ipv4. replace (ipv4_of _) with (Returns [192; 168; 1; 1]) by concrete. cbn [exec_bind].
    rewrite json_round_trip_eq; [done|plain|concrete|concrete].
  - unfold test_serialize_deserialize_ipv6.
    replace (ipv6_of _) with (Returns [32; 1; 13; 184; 0; 0; 0; 0; 0; 0; 0; 0; 0; 0; 0; 1]) by concrete. cbn [exec_bind].
    rewrite json_round_trip_eq; [done|plain|concrete|concrete].
  - unfold test_serialize_deserialize_domain. rewrite json_round_trip_eq; [done|plain|concrete|concrete].
  - unfold test_deserialize_invalid_ipv6. erewrite refuses_eq; [done|plain|concrete].
  - unfold test_deserialize_invalid_port. erewrite refuses_eq; [done|plain|concrete].
  - unfold test_deserialize_missing_bracket. erewrite refuses_eq; [done|plain|concrete].
  - unfold test_deserialize_invalid_format. erewrite refuses_eq; [done|plain|concrete].
Qed.
End text_pass.

(** ** The crate name (log.rs) *)

(** [module_path!()] in the test modules *)
Definition log_tests_path : str := ascii_str "wind_core::log::tests".
Definition nested_path : str := log_tests_path ++ ascii_str "::nested".
Definition deeply_nested_path : str := log_tests_path ++ ascii_str "::deeply::nested::module".

(** [s.contains("::")] *)
Fixpoint contains_sep (s : str) : bool :=
  match s with
  | 58 :: 58 :: _ => true
  | _ :: r => contains_sep r
  | [] => false
  end.

(** [c.is_alphanumeric() || c == '_'] for every character, of an ASCII text *)
Definition is_ident (s : str) : bool :=
  forallb (fun b => in_range 48 57 b || in_range 65 90 b || in_range 97 122 b || (b =? 95)) s.

Definition named_wind_core (path : str) : test :=
  finish (exec_bind (extract_crate_name path) (fun crate_name =>
  assert (bool_decide (crate_name = ascii_str "wind_core")))).
Definition test_extract_crate_name : test := named_wind_core log_tests_path.
Definition test_extract_crate_name_with_logging : test :=
  finish (exec_bind (extract_crate_name log_tests_path) (fun crate_name =>
  exec_bind (assert (bool_decide (crate_name <> []))) (fun _ => assert (negb (contains_sep crate_name))))).
Definition test_extract_crate_name_nested : test := named_wind_core nested_path.
Definition test_extract_crate_name_deeply_nested : test := named_wind_core deeply_nested_path.
Definition test_crate_name_is_valid_identifier : test :=
  finish (exec_bind (extract_crate_name log_tests_path) (fun crate_name =>
  exec_bind (assert (bool_decide (crate_name <> []))) (fun _ =>
  exec_bind (assert (negb (contains_sep crate_name))) (fun _ => assert (is_ident crate_name))))).

Lemma log_tests_pass :
  Forall (fun t => t = Returns (Ok ()))
    [test_extract_crate_name; test_extract_crate_name_with_logging; test_extract_crate_name_nested;
     test_extract_crate_name_deeply_nested; test_crate_name_is_valid_identifier].
Proof. repeat (apply Forall_cons; split); [vm_compute; reflexivity..|by apply Forall_nil]. Qed.

(** ** All of them *)
Section all.
Context {B : BytesOps} {U : UuidOps} {FO : FramedOps} {MO : MokaOps} {J : JsonOps} {H : HexOps}.

Definition unit_tests (uuid : Uuid) (now : nat -> u64) : list test :=
  [test_header_1; test_header_2; test_cmd_1 uuid; test_cmd_2 uuid; test_addr_1; test_addr_2; hex_check] ++
  [hex_check_connect_encode; hex_check_auth_encode] ++
  [test_fragment_count_calculation; test_max_fragment_limit; test_fragment_reassembly_single_fragment now;
   test_fragment_reassembly_multiple_fragments now; test_fragment_reassembly_out_of_order now;
   test_multiple_simultaneous_fragmentations now; test_fragment_cleanup now;
   test_saturating_sub_prevents_underflow] ++
  [test_display_ipv4; test_display_ipv6; test_display_domain; test_serialize_deserialize_ipv4;
   test_serialize_deserialize_ipv6; test_serialize_deserialize_domain; test_deserialize_invalid_ipv6;
   test_deserialize_invalid_port; test_deserialize_missing_bracket; test_deserialize_invalid_format] ++
  [test_extract_crate_name; test_extract_crate_name_with_logging; test_extract_crate_name_nested;
   test_extract_crate_name_deeply_nested; test_crate_name_is_valid_identifier].
End all.

(** The repository's unit tests pass, for every implementation of the [bytes],
    [uuid], [hex], [tokio_util], [moka] and [serde_json] operations they use
    that keeps its contract, however a reader cuts its input and whatever the
    clock shows. *)
Lemma unit_tests_pass {B : BytesOps} {U : UuidOps} {FO : FramedOps} {MO : MokaOps} {J : JsonOps} {H : HexOps}
    (BL : BytesLaws B) (UL : UuidLaws U) (FL : FramedLaws FO) (ML : MokaLaws MO) (JL : JsonLaws J)
    (HL : HexLaws H) (uuid : Uuid) (now : nat -> u64) :
  Forall (fun t => t = Returns (Ok ())) (unit_tests uuid now).
Proof.
  repeat (apply Forall_app; split);
    [apply codec_tests_pass|apply hex_tests_pass|apply reassembly_tests_pass|apply text_tests_pass|apply log_tests_pass].
Qed.

(** The contracts can be kept. *)
Lemma unit_tests_pass_lists :
  Forall (fun t => t = Returns (Ok ()))
    (unit_tests (B:=list_bytes) (U:=list_uuid) (FO:=slice_framed) (MO:=bounded_map) (J:=plain_json) (H:=plain_hex)
      (uuid_from_bytes (UuidOps:=list_uuid) (replicate 16 7)) Z.of_nat).
Proof.
  apply (unit_tests_pass list_bytes_laws list_uuid_laws slice_framed_laws bounded_map_laws plain_json_laws
    plain_hex_laws).
Qed.
