(* ===== verification/Startup.v ===== *)
(** * Starting the program (wind/src/main.rs, conf/persistent.rs)

    [main] from the command line to its result: [wind init] writes the default
    configuration, otherwise the configuration is loaded from the files and
    the environment, the services are started, and the program waits for
    Ctrl-C and for its tasks.  The files are a map from paths to contents.  A
    configuration that is written is loaded again, the sources override each
    other setting by setting, and a setting that is nowhere is an error. *)

From stdpp Require Import base list gmap strings list_numbers.
From S2P Require Import Prelude BytesCrate Types NetText TargetText Logging Codec Quinn Io Callback Moka.
From S2P Require Import CoreUdp SocksUdp SocksInbound Tasks UdpStream Outbound Config ConfigValue App.

(** [str::to_lowercase] on ASCII. *)
Definition to_lowercase (s : str) : str :=
  (fun b => if (65 <=? b) && (b <=? 90) then b + 32 else b) <$> s.

Section startup.
Context {U : UuidOps} {S : SerdeOps}.

(** What the operating system does: which files can be created, how many
    bytes of a write succeed if not all, which directories can be made. *)
Record FsEnv := {
  fe_create : str -> bool;
  fe_write : str -> option nat;
  fe_create_dir : str -> bool
}.
Context (fe : FsEnv).

(** [File::create(path)?] then [write_all(content)?]. *)
Definition write_file (path : str) (content : bytes) : M FileSystem Report unit :=
  m_ensure (fe_create fe path) (Report_Io "create") ;;!
  match fe_write fe path with
  | None => m_modify (fun fs => <[path := content]> fs)
  | Some n =>
    m_modify (fun fs => <[path := take n content]> fs) ;;!
    m_throw (Report_Io "write_all")
  end.

Definition serialized (o : option bytes) : M FileSystem Report bytes :=
  match o with Some text => m_ret text | None => m_throw (Report_Msg "serialize") end.

Definition export_to_file (self : PersistentConfig) (file_path format : str) : M FileSystem Report unit :=
  if bool_decide (to_lowercase format = ascii_str "yaml") then
    let! yaml_content := serialized (yaml_to_string (PersistentConfig_serialize self)) in
    write_file file_path yaml_content
  else if bool_decide (to_lowercase format = ascii_str "toml") then
    let! toml_content := serialized (toml_to_string (PersistentConfig_serialize self)) in
    write_file file_path toml_content
  else m_throw (Report_Msg "Unsupported file format").

(** *** Reading *)

Definition provider_data (vars : list (str * str)) (fs : FileSystem) (p : Provider) : ProviderData :=
  match p with
  | Provider_Toml path => Data_Toml (figment_find fs path)
  | Provider_Yaml path => Data_Yaml (figment_find fs path)
  | Provider_Env _ => Data_Env vars
  end.

(** [vars] are the variables with the prefix. *)
Definition load_from (vars : list (str * str)) (fs : FileSystem) (config_path config_dir : option str) :
    option PersistentConfig :=
  load (fun ps => figment_extract (provider_data vars fs <$> ps))
    (fun p => bool_decide (is_Some (fs !! p))) config_path config_dir.

(** The arm of [main] for [wind init]. *)
Definition run_init (create_dir : option str) (path format : str) : M FileSystem Report unit :=
  match create_dir with
  | Some d => m_ensure (fe_create_dir fe d) (Report_Io "create_dir_all")
  | None => m_ret ()
  end ;;!
  export_to_file PersistentConfig_default path format.
End startup.

(** ** [main] *)
Section main.
Context {B : BytesOps} {U : UuidOps} {Q : QuinnOps} {MO : MokaOps} {S : SerdeOps} {T : TargetsOps}.
Context (fe : FsEnv) (overflow_checks : bool).

(** The rest of the world: the parsed command line, the environment, name
    resolution, whether a subscriber is installed, the connection's set-up,
    the SOCKS5 port, and what happens until the wait ends. *)
Record MainEnv := {
  me_subscriber_set : bool;
  me_cli : option Cli;
  me_vars : list (str * str);
  me_resolve : str -> u16 -> option (list SocketAddr);
  me_connect : ConnectEnv;
  me_bind : bool;
  me_ctrl_c : bool;
  me_events : list AppEvent
}.

(** [main] returns what it printed or waited for; its log lines are enabled
    by the filter it installs. *)
Definition main (env : MainEnv) : M FileSystem Report unit :=
  match init_log (T:=T) (me_subscriber_set env) TRACE with
  | Err _ => m_throw (Report_Msg "init_log")
  | Ok filter =>
    let! fs := m_get in
    let! startup := m_lift (main_startup (fun ps => figment_extract (provider_data (me_vars env) fs <$> ps))
                      (fun p => bool_decide (is_Some (fs !! p))) (me_resolve env) (me_cli env)) in
    match startup with
    | PrintUsage | PrintVersion => m_ret ()
    | WriteDefault dir path format => run_init fe dir path format
    | ConfigError => m_throw (Report_Msg "configuration")
    | RunServices config =>
      let! r := m_local (run (MO:=MO) (me_connect env) (cf_tuic_opt config) (me_bind env)) [] in
      m_ensure (me_ctrl_c env) (Report_Io "ctrl_c") ;;!
      let log_info := filter (ascii_str "wind_tuic [OUT]") INFO in
      m_of_result (main_result (app_run overflow_checks log_info (cf_socks_opt config) (me_events env) r.1))
    end
  end.
End main.

(** ** What is written is what is loaded *)

#[export] Instance ConfigFormat_eq_dec : EqDecision ConfigFormat.
Proof. solve_decision. Defined.

Section roundtrip.
Context {U : UuidOps} {S : SerdeOps} {SL : SerdeLaws S}.
Context (fe : FsEnv).

Definition serialize_as (f : ConfigFormat) : Value -> option bytes :=
  match f with Format_Yaml => yaml_to_string | Format_Toml => toml_to_string end.

Definition config_file (dir : option str) (f : ConfigFormat) : str :=
  let name := ascii_str "config." ++ format_str f in
  match dir with Some d => path_join d name | None => name end.

Definition other (f : ConfigFormat) : ConfigFormat :=
  match f with Format_Yaml => Format_Toml | Format_Toml => Format_Yaml end.

(** Relative names are appended to a prefix that depends on the directory. *)
Lemma path_join_relative dir : exists prefix, forall name, head name <> Some 47 ->
  path_join dir name = prefix ++ name.
Proof.
  exists (if bool_decide (dir = []) || bool_decide (last dir = Some 47) then dir else dir ++ [47]).
  intros name Hn. unfold path_join. rewrite bool_decide_eq_false_2 by done.
  destruct (_ || _); [done|]. by rewrite <-app_assoc.
Qed.

Lemma config_file_ne dir f : config_file dir (other f) <> config_file dir f.
Proof.
  unfold config_file. destruct dir as [d|]; [|by destruct f].
  destruct (path_join_relative d) as [pre Hpre]. rewrite !Hpre by done.
  intros H%app_inv_head%app_inv_head. by destruct f.
Qed.

Lemma export_eq (c : PersistentConfig) (path : str) (f : ConfigFormat) (fs : FileSystem) (text : bytes) :
  serialize_as f (PersistentConfig_serialize c) = Some text ->
  fe_create fe path = true -> fe_write fe path = None ->
  export_to_file fe c path (format_str f) fs = Returns (Ok (), <[path := text]> fs).
Proof.
  intros Ht Hc Hw. unfold export_to_file, serialized, write_file, serialize_as in *.
  destruct f; cbn [format_str]; rewrite ?bool_decide_eq_true_2, ?bool_decide_eq_false_2 by done;
    rewrite Ht; m_unfold; by rewrite Hc, Hw.
Qed.

(** *** The sources of a configuration *)

Definition contributes (o : option ProviderData) (d : Dict) : Prop :=
  match o with Some p => provide p = Some d | None => d = ∅ end.

(** The file of the configuration directory, read in its format. *)
Definition file_data (f : ConfigFormat) (text : bytes) : ProviderData :=
  match f with Format_Yaml => Data_Yaml (Some text) | Format_Toml => Data_Toml (Some text) end.
Definition dir_data (fs : FileSystem) (dir : option str) (f : ConfigFormat) : option ProviderData :=
  file_data f <$> fs !! config_file dir f.

(** The file named on the command line, YAML by its extension. *)
Definition named_data (fs : FileSystem) (path : str) : ProviderData :=
  if ends_with (ascii_str ".yaml") path || ends_with (ascii_str ".yml") path
  then Data_Yaml (figment_find fs path) else Data_Toml (figment_find fs path).

Lemma ends_with_both long short s : ends_with long s = true -> ends_with short s = true ->
  (length short <= length long)%nat -> ends_with short long = true.
Proof.
  intros Hl%bool_decide_eq_true Hs%bool_decide_eq_true Hle. apply bool_decide_eq_true.
  assert (length long <= length s)%nat by (rewrite <-Hl, length_drop; lia).
  rewrite <-Hl at 2. rewrite drop_drop. rewrite <-Hs. f_equal. rewrite Hs. lia.
Qed.

Lemma named_provider vars fs path :
  provider_data vars fs <$>
    (if ends_with (ascii_str ".toml") path then [Provider_Toml path]
     else if ends_with (ascii_str ".yaml") path || ends_with (ascii_str ".yml") path then [Provider_Yaml path]
     else [Provider_Toml path]) = [named_data fs path].
Proof.
  unfold named_data. destruct (ends_with (ascii_str ".toml") path) eqn:Ht; [|by destruct (_ || _)].
  replace (_ || _) with false; [done|]. symmetry. apply orb_false_iff.
  split; (apply not_true_iff_false; intros H; apply (ends_with_both _ _ _ Ht) in H; [by vm_compute in H|cbn; lia]).
Qed.

(** A source that is absent counts as an empty one. *)
Definition sources (vars : list (str * str)) (fs : FileSystem) (config_path config_dir : option str) :
    list ProviderData :=
  option_list (dir_data fs config_dir Format_Toml) ++ option_list (dir_data fs config_dir Format_Yaml) ++
  option_list (named_data fs <$> config_path) ++ [Data_Env vars].

Lemma load_sources vars fs config_path config_dir :
  load_from vars fs config_path config_dir = figment_extract (sources vars fs config_path config_dir).
Proof.
  unfold load_from, load, load_providers, sources. rewrite !fmap_app. f_equal.
  change (ascii_str "config.toml") with (ascii_str "config." ++ format_str Format_Toml).
  change (ascii_str "config.yaml") with (ascii_str "config." ++ format_str Format_Yaml).
  fold (config_file config_dir Format_Toml) (config_file config_dir Format_Yaml).
  f_equal; [|f_equal; [|f_equal]].
  - unfold dir_data. destruct (fs !! config_file config_dir Format_Toml) as [text|] eqn:Hf.
    + rewrite bool_decide_eq_true_2 by done. cbn. by rewrite (find_existing _ _ _ Hf).
    + rewrite bool_decide_eq_false_2; [done|]. by intros [].
  - unfold dir_data. destruct (fs !! config_file config_dir Format_Yaml) as [text|] eqn:Hf.
    + rewrite bool_decide_eq_true_2 by done. cbn. by rewrite (find_existing _ _ _ Hf).
    + rewrite bool_decide_eq_false_2; [done|]. by intros [].
  - destruct config_path; [apply named_provider|done].
Qed.

(** One source after another. *)
Definition extract_onto (d : Dict) (ps : list ProviderData) : option PersistentConfig :=
  ds ← mapM provide ps; PersistentConfig_deserialize (V_Dict (foldl dict_merge d ds)).

Lemma extract_option d o ps c :
  extract_onto d (option_list o ++ ps) = Some c <->
  exists d', contributes o d' /\ extract_onto (dict_merge d d') ps = Some c.
Proof.
  unfold extract_onto. destruct o as [p|]; cbn [option_list option_rect app contributes].
  - cbn [mapM]. destruct (provide p) as [d'|]; cbn [mbind option_bind]; [|naive_solver].
    destruct (mapM provide ps) as [ds|]; cbn; naive_solver.
  - split; [intros H; exists ∅; by rewrite merge_empty_r|]. intros (d'&->&H). by rewrite merge_empty_r in H.
Qed.

Lemma load_iff vars fs config_path config_dir c :
  load_from vars fs config_path config_dir = Some c <->
  exists toml yaml named env,
    contributes (dir_data fs config_dir Format_Toml) toml /\
    contributes (dir_data fs config_dir Format_Yaml) yaml /\
    contributes (named_data fs <$> config_path) named /\
    provide (Data_Env vars) = Some env /\
    PersistentConfig_deserialize (V_Dict (merge_all [toml; yaml; named; env])) = Some c.
Proof.
  rewrite load_sources. change (figment_extract ?l) with (extract_onto ∅ l). unfold sources.
  change [Data_Env vars] with (option_list (Some (Data_Env vars)) ++ []).
  setoid_rewrite extract_option. setoid_rewrite extract_option. setoid_rewrite extract_option.
  setoid_rewrite extract_option. unfold merge_all. cbn [foldl contributes extract_onto mapM].
  unfold extract_onto. cbn [mapM mret option_ret mbind option_bind foldl].
  split; [intros (?&?&?&?&?&?&?&?&?)|intros (?&?&?&?&?&?&?&?&?)]; eauto 20.
Qed.

(** *** Theorems *)

(** C34: a configuration that is exported is loaded again.  Let a
    configuration have well-formed addresses (a server domain without colon,
    leading bracket or IPv4 spelling, an IPv6 listening address without flow
    information), durations that the code can represent and, for YAML, no
    password.  If it is exported as the configuration file of a
    directory, in either format, the file being created and written without an
    error, then a start with that directory, in which there is no file of the
    other format, with no file named on the command line and no [WIND_]
    variables, loads exactly that configuration. *)
Theorem export_then_load (c : PersistentConfig) (dir : option str) (f : ConfigFormat) (fs : FileSystem) (text : bytes) :
  config_ok c -> (f = Format_Yaml -> po_auth (pc_socks_opt c) = AuthModeConfig_NoAuth) ->
  serialize_as f (PersistentConfig_serialize c) = Some text ->
  fe_create fe (config_file dir f) = true -> fe_write fe (config_file dir f) = None ->
  fs !! config_file dir (other f) = None ->
  exists fs', export_to_file fe c (config_file dir f) (format_str f) fs = Returns (Ok (), fs') /\
    load_from [] fs' None dir = Some c.
Proof.
  intros Hok Hy Ht Hc Hw Ho. eexists. split; [by apply export_eq|]. apply load_iff.
  assert (forall g, dir_data (<[config_file dir f := text]> fs) dir g =
    if decide (g = f) then Some (file_data f text) else None) as Hd.
  { intros g. unfold dir_data. case_decide as Hg; [subst g; by rewrite lookup_insert_eq|].
    assert (g = other f) as -> by (by destruct f, g). rewrite lookup_insert_ne; [by rewrite Ho|].
    apply not_eq_sym, config_file_ne. }
  destruct f; cbn [serialize_as] in Ht.
  - exists ∅, (list_to_map (config_fields c)), ∅, ∅. rewrite !Hd. repeat apply conj; try done.
    + apply yaml_read; [|done]. apply untagged_config; auto.
    + apply no_variables.
    + unfold merge_all. cbn [foldl]. rewrite !merge_empty_l, !merge_empty_r. apply yaml_roundtrip; auto.
  - eexists _, ∅, ∅, ∅. rewrite !Hd. repeat apply conj; try done.
    + by apply toml_read.
    + apply no_variables.
    + unfold merge_all. cbn [foldl]. rewrite !merge_empty_l, !merge_empty_r. by apply toml_roundtrip.
Qed.

(** [wind init] writes the default configuration, which is then loaded. *)
Lemma init_eq (dir : option str) (f : ConfigFormat) (fs fs' : FileSystem) :
  match dir with Some d => fe_create_dir fe d = true | None => True end ->
  export_to_file fe PersistentConfig_default (config_file dir f) (format_str f) fs = Returns (Ok (), fs') ->
  run_init fe dir (config_file dir f) (format_str f) fs = Returns (Ok (), fs').
Proof.
  intros Hd He. unfold run_init.
  assert (match dir with
    | Some d => m_ensure (S:=FileSystem) (fe_create_dir fe d) (Report_Io "create_dir_all")
    | None => m_ret () end fs = Returns (Ok (), fs)) as Hdir by (destruct dir; [by rewrite Hd|done]).
  unfold m_bind. by rewrite Hdir.
Qed.

Lemma default_ok : config_ok PersistentConfig_default.
Proof. split; try done; try (vm_compute; intuition congruence); by_compute. Qed.


(** C35: there are no default values.  If no source sets one of the settings,
    [public_addr] apart, loading fails; without any file and variable it
    always does. *)
Theorem load_has_no_defaults vars fs config_path config_dir section key ds :
  required section key ->
  mapM provide (sources vars fs config_path config_dir) = Some ds ->
  Forall (fun d => table_with_value section key d /\ setting section key d = None) ds ->
  load_from vars fs config_path config_dir = None /\
  (forall dir, load_from [] ∅ None dir = None).
Proof.
  intros Hreq Hds Hun. split.
  - rewrite load_sources. unfold figment_extract. rewrite Hds. cbn [mbind option_bind].
    destruct (merged_unset _ _ _ Hun) as [Ht Hs]. apply eq_None_not_Some. intros [c Hc].
    apply (deserialize_required _ _ _ _ Hreq Ht) in Hc as [v Hv]. congruence.
  - intros dir. rewrite load_sources. unfold sources, dir_data. rewrite !lookup_empty.
    unfold figment_extract. cbn [fmap option_fmap option_map option_list option_rect app mapM].
    rewrite no_variables. cbn [mbind option_bind mret option_ret]. unfold merge_all. cbn [foldl].
    by rewrite merge_empty_l.
Qed.
End roundtrip.

(** ** Witnesses *)

Definition demo_fs : FsEnv :=
  {| fe_create _ := true; fe_write _ := None; fe_create_dir _ := true |}.

(** A configuration with a password, IPv6 addresses and a domain. *)
Definition demo_config : PersistentConfig (U:=list_uuid) :=
  {| pc_socks_opt := {|
       po_listen_addr := SocketAddr_V6 [32; 1; 13; 184; 0; 0; 0; 0; 0; 0; 0; 0; 0; 0; 0; 1] 1080 0 7;
       po_public_addr := Some (IpAddr_V6 [254; 128; 0; 0; 0; 0; 0; 0; 0; 0; 0; 0; 0; 0; 0; 2]);
       po_auth := AuthModeConfig_Password (ascii_str "user") (ascii_str "secret");
       po_skip_auth := true; po_allow_udp := false |};
     pc_tuic_opt := {|
       pt_server_addr := TargetAddr_Domain (ascii_str "example.com") 443;
       pt_sni := ascii_str "example.com"; pt_uuid := uuid_from_bytes (UuidOps:=list_uuid) (replicate 16 9);
       pt_password := []; pt_zero_rtt_handshake := true; pt_heartbeat := 3000; pt_gc_interval := 0;
       pt_gc_lifetime := 1; pt_skip_cert_verify := false; pt_alpn := [] |} |}.

Lemma export_then_load_witness :
  exists fs', export_to_file (S:=bits_serde) demo_fs demo_config (ascii_str "etc/config.toml") (ascii_str "toml") ∅
      = Returns (Ok (), fs') /\
    load_from (S:=bits_serde) [] fs' None (Some (ascii_str "etc")) = Some demo_config.
Proof.
  apply (export_then_load (SL:=bits_serde_laws) demo_fs demo_config (Some (ascii_str "etc")) Format_Toml ∅
    (write_bits (toml_value (PersistentConfig_serialize (S:=bits_serde) demo_config))));
    [|discriminate|reflexivity..|apply lookup_empty].
  split; cbn [socket_addr_ok from_option ip_addr_ok demo_config pc_socks_opt po_listen_addr po_public_addr].
  - split; [by_compute|]. split; [by_compute|]. split; [reflexivity|lia].
  - by_compute.
  - by_compute.
  - by_compute.
  - vm_compute; intuition congruence.
  - vm_compute; intuition congruence.
  - vm_compute; intuition congruence.
Defined.

(** A YAML file that overrides one setting of the TOML file beside it. *)
Definition demo_toml : Dict :=
  omap (toml_field toml_value) (list_to_map (config_fields (S:=bits_serde) PersistentConfig_default)).


(** A file with one of the two sections. *)
Definition demo_partial : Dict :=
  delete (ascii_str "tuic_opt") demo_toml.

Lemma load_has_no_defaults_witness :
  load_from (S:=bits_serde) [] {[ ascii_str "config.toml" := write_bits (V_Dict demo_partial) ]} None None = None /\
  (forall dir, load_from (S:=bits_serde) [] ∅ None dir = None).
Proof.
  apply (load_has_no_defaults (SL:=bits_serde_laws) [] {[ ascii_str "config.toml" := write_bits (V_Dict demo_partial) ]}
    None None (ascii_str "tuic_opt") (ascii_str "sni") [demo_partial; ∅]).
  - right. split; [reflexivity|]. by_compute.
  - unfold sources, dir_data. rewrite lookup_singleton_eq.
    rewrite lookup_singleton_ne by done. cbn [fmap option_fmap option_map option_list option_rect app mapM].
    change (provide (file_data Format_Toml ?t)) with (read_bits t). rewrite read_write_bits. reflexivity.
  - repeat constructor.
Defined.
