(* ===== verification/TestProxy.v ===== *)
(** * The test proxy (wind-test/src/socks5.rs)

    The crate tests the SOCKS5 server with a proxy of its own: a callback that
    connects directly to the targets.  Modelled are that callback, the set-up
    of the proxy, and the packets the UDP tests send and how they judge the
    responses.  Connecting and reading are the environment. *)

From stdpp Require Import base list gmap strings list_numbers.
From S2P Require Import Prelude BytesCrate Types NetText TargetText Codec Quinn Io Callback CoreUdp SocksUdp.
From S2P Require Import SocksInbound Moka UdpStream Outbound Config Inbound.

(** ** The large test packet ([test_socks5_udp_large_packet]) *)

Definition as_u32 (z : Z) : u32 := z mod 2 ^ 32.

(** [u32::to_be_bytes] *)
Definition be32 (z : u32) : bytes :=
  [(z / 2 ^ 24) mod 2 ^ 8; (z / 2 ^ 16) mod 2 ^ 8; (z / 2 ^ 8) mod 2 ^ 8; z mod 2 ^ 8].
Definition of_be32 (b : bytes) : u32 :=
  match b with
  | [w; x; y; z] => w * 2 ^ 24 + x * 2 ^ 16 + y * 2 ^ 8 + z
  | _ => 0
  end.

Definition MAGIC : bytes := ascii_str "WIND_FRAG_TEST".
Definition pattern : bytes := ascii_str "0123456789ABCDEF".

(** [while large_packet.len() < packet_size]; [n] bounds the rounds. *)
Fixpoint fill (n : nat) (packet_size pattern_offset : usize) (large_packet : bytes) : exec bytes :=
  match n with
  | O => Returns large_packet
  | S n' =>
    if len large_packet <? packet_size then
      let remaining := packet_size - len large_packet in
      let copy_len := Z.min remaining (len pattern - pattern_offset) in
      exec_bind (slice pattern_offset (pattern_offset + copy_len) pattern) (fun d =>
      fill n' packet_size ((pattern_offset + copy_len) mod len pattern) (large_packet ++ d))
    else Returns large_packet
  end.

Definition checksum_of (packet : bytes) : u32 := foldl (fun c b => as_u32 (c + b)) 0 packet.

(** The packet, and the checksum of what it held before the checksum was
    written over its last four bytes. *)
Definition build_packet (packet_size : usize) : exec (bytes * u32) :=
  let header := MAGIC ++ be32 (as_u32 packet_size) in
  exec_bind (fill (S (Z.to_nat packet_size)) packet_size 0 header) (fun large_packet =>
  let checksum := checksum_of large_packet in
  Returns (if 4 <=? len large_packet
           then ztake (len large_packet - 4) large_packet ++ be32 checksum
           else large_packet, checksum)).

(** What [recv_from] gives within ten seconds: nothing, an error, or the
    [len] bytes it wrote to the buffer. *)
Inductive Response :=
| Response_Timeout
| Response_Error
| Response_Data (received_data : bytes).

Inductive TestError :=
| Timeout
| ReceiveError
| SizeMismatch
| HeaderMismatch
| ChecksumMismatch
| DataMismatch (first_diff : option (usize * u8 * u8)).

Fixpoint find_diff (i : usize) (sent recv : bytes) : option (usize * u8 * u8) :=
  match sent, recv with
  | s :: sent', r :: recv' => if s =? r then find_diff (i + 1) sent' recv' else Some (i, s, r)
  | _, _ => None
  end.

Definition has_prefix (prefix s : bytes) : bool := bool_decide (take (length prefix) s = prefix).

Definition verify_response (large_packet : bytes) (checksum : u32) (response : Response) :
    result unit TestError :=
  match response with
  | Response_Timeout => Err Timeout
  | Response_Error => Err ReceiveError
  | Response_Data received_data =>
    if len received_data =? len large_packet then
      if has_prefix MAGIC received_data then
        if (len received_data <? 4) ||
           (of_be32 (zdrop (len received_data - 4) received_data) =? checksum)
        then
          if bool_decide (received_data = large_packet) then Ok ()
          else Err (DataMismatch (find_diff 0 large_packet received_data))
        else Err ChecksumMismatch
      else Err HeaderMismatch
    else Err SizeMismatch
  end.

(** ** The packet of the echo test ([test_direct_udp_with_echo_server]) *)

Fixpoint echo_fill (n : nat) (packet_size : usize) (test_packet : bytes) : bytes :=
  match n with
  | O => test_packet
  | S n' =>
    if len test_packet <? packet_size
    then echo_fill n' packet_size (test_packet ++ [as_u8 (len test_packet mod 256)])
    else test_packet
  end.

Definition echo_packet (packet_size : usize) : bytes :=
  echo_fill (Z.to_nat packet_size) packet_size (ascii_str "TEST_DIRECT" ++ be32 (as_u32 packet_size)).

Definition echo_verify (packet_size : usize) (response : option bytes) : result unit TestError :=
  match response with
  | None => Err Timeout
  | Some d =>
    if (len d =? len (echo_packet packet_size)) && bool_decide (d = echo_packet packet_size)
    then Ok () else Err SizeMismatch
  end.

(** ** Direct connections ([TestManager]) *)

(** The two copies of [handle_tcp_direct]: each runs until its reader ends and
    then shuts its writer down. *)
Record DirectTcp := {
  dt_to_b : bytes;
  dt_to_a : bytes;
  dt_a_done : bool;
  dt_b_done : bool
}.

(** Datagrams relayed by [handle_udp_direct]: the sockets by target text, with
    the address captured for replies; the targets whose receiving task has
    ended; what was sent to targets and back. *)
Record DirectUdp := {
  du_running : bool;
  du_sockets : gmap str (nat * SocketAddr);
  du_ended : gset str;
  du_to_target : list (nat * str * bytes);
  du_replies : list Transmit
}.

Record DirectState := {
  ds_connected : list str;
  ds_relays : list DirectUdp
}.

Definition direct_udp_new : DirectUdp :=
  {| du_running := true; du_sockets := ∅; du_ended := ∅; du_to_target := []; du_replies := [] |}.

Section direct.
(** Which targets can be connected to. *)
Context (connects : str -> bool).

Definition handle_tcp_direct (target_addr : TargetAddr) : M DirectState Report DirectTcp :=
  let addr := TargetAddr_to_string target_addr in
  m_ensure (connects addr) (Report_Io "connect") ;;!
  m_modify (fun s => {| ds_connected := ds_connected s ++ [addr]; ds_relays := ds_relays s |}) ;;!
  m_ret {| dt_to_b := []; dt_to_a := []; dt_a_done := false; dt_b_done := false |}.

(** [try_join!]: the first error wins, else both must end.  The outcome of an
    event at the end of a stream is that of the shutdown. *)
Definition direct_step (ev : IoEvent) (d : DirectTcp) : result DirectTcp IoError :=
  match ev with
  | ReadA r w =>
    if dt_a_done d then Ok d
    else match r, w with
    | Err e, _ => Err e
    | Ok _, WriteFailed _ e => Err e
    | Ok data, Written =>
      Ok {| dt_to_b := dt_to_b d ++ data; dt_to_a := dt_to_a d; dt_a_done := len data =? 0;
            dt_b_done := dt_b_done d |}
    end
  | ReadB r w =>
    if dt_b_done d then Ok d
    else match r, w with
    | Err e, _ => Err e
    | Ok _, WriteFailed _ e => Err e
    | Ok data, Written =>
      Ok {| dt_to_b := dt_to_b d; dt_to_a := dt_to_a d ++ data; dt_a_done := dt_a_done d;
            dt_b_done := len data =? 0 |}
    end
  end.

Definition poll_tcp_direct (ev : IoEvent) (d : DirectTcp) : M DirectState Report (option DirectTcp) :=
  match direct_step ev d with
  | Err _ => m_throw (Report_Io "copy")
  | Ok d' => m_ret (if dt_a_done d' && dt_b_done d' then None else Some d')
  end.

(** [handle_udp_direct] spawns the relay and returns at once. *)
Definition handle_udp_direct : M DirectState Report unit :=
  m_modify (fun s => {| ds_connected := ds_connected s; ds_relays := ds_relays s ++ [direct_udp_new] |}).

(** [TestManager]; its UDP method has returned by the time the session waits,
    so nothing is left to do on a cancellation. *)
Definition TestManager : InboundCallback DirectState := {|
  TcpFuture := DirectTcp;
  UdpFuture := unit;
  handle_tcpstream target_addr := handle_tcp_direct target_addr;
  poll_tcpstream := poll_tcp_direct;
  handle_udpsocket := handle_udp_direct;
  cancel_udpsocket _ := m_ret ()
|}.
End direct.

(** One datagram of a read: the socket of its target, made on first use.
    [UdpSocket::bind(..).unwrap()] is the only way to panic. *)
Definition relay_datagram (bind_ok : bool) (recv_meta : RecvMeta) (buf : bytes) (d : DirectUdp) :
    exec DirectUdp :=
  exec_bind (slice_to (rm_len recv_meta) buf) (fun data =>
  match rm_destination recv_meta with
  | None => Returns d
  | Some target_addr =>
    let target_key := TargetAddr_to_string target_addr in
    match du_sockets d !! target_key with
    | Some (sock, _) =>
      Returns {| du_running := du_running d; du_sockets := du_sockets d; du_ended := du_ended d;
                 du_to_target := du_to_target d ++ [(sock, target_key, data)]; du_replies := du_replies d |}
    | None =>
      if bind_ok then
        let sock := size (du_sockets d) in
        Returns {| du_running := du_running d;
                   du_sockets := <[target_key := (sock, rm_addr recv_meta)]> (du_sockets d);
                   du_ended := du_ended d;
                   du_to_target := du_to_target d ++ [(sock, target_key, data)];
                   du_replies := du_replies d |}
      else Panics
    end
  end).

(** The first task, and the task of each target socket; one buffer, so a read
    yields at most one datagram. *)
Inductive DirectEvent :=
| Direct_Recv (r : result (usize * bytes * RecvMeta) IoError) (bind_ok : bool)
| Direct_Reply (target_key : str) (r : result bytes IoError).

Definition du_stop (d : DirectUdp) : DirectUdp :=
  {| du_running := false; du_sockets := du_sockets d; du_ended := du_ended d;
     du_to_target := du_to_target d; du_replies := du_replies d |}.

(** The body of a target's receiving task; the result of [try_send] is
    dropped. *)
Definition direct_reply (target_key : str) (r : result bytes IoError) (d : DirectUdp) : DirectUdp :=
  match du_sockets d !! target_key with
  | Some (_, source_addr) =>
    if decide (target_key ∈ du_ended d) then d
    else match r with
    | Ok data =>
      {| du_running := du_running d; du_sockets := du_sockets d; du_ended := du_ended d;
         du_to_target := du_to_target d;
         du_replies := du_replies d ++
           [{| tx_destination := source_addr; tx_ecn := None; tx_contents := data;
               tx_segment_size := None; tx_src_ip := None |}] |}
    | Err _ =>
      {| du_running := du_running d; du_sockets := du_sockets d; du_ended := {[target_key]} ∪ du_ended d;
         du_to_target := du_to_target d; du_replies := du_replies d |}
    end
  | None => d
  end.

Definition direct_udp_step (ev : DirectEvent) (d : DirectUdp) : exec DirectUdp :=
  match ev with
  | Direct_Recv r bind_ok =>
    if du_running d then
      match r with
      | Ok (count, buf, meta) =>
        if 0 <? count then relay_datagram bind_ok meta buf d else Returns (du_stop d)
      | Err _ => Returns (du_stop d)
      end
    else Returns d
  | Direct_Reply target_key r => Returns (direct_reply target_key r d)
  end.

Fixpoint direct_udp_run (evs : list DirectEvent) (d : DirectUdp) : exec DirectUdp :=
  match evs with
  | [] => Returns d
  | ev :: evs' => exec_bind (direct_udp_step ev d) (fun d' => direct_udp_run evs' d')
  end.

(** ** Setting the proxy up ([start_test_proxy]) *)

Definition test_socks_opt (socks_port : u16) : SocksInboundOpt :=
  {| so_listen_addr := SocketAddr_V4 [127; 0; 0; 1] socks_port; so_public_addr := None;
     so_auth := AuthMode_NoAuth; so_skip_auth := false; so_allow_udp := true |}.

(** [run_test_proxy]: the TUIC server's options, with a generated certificate
    and one user. *)
Definition test_tuic_opt {U : UuidOps} (tuic_port : u16) (cert_der key_der : bytes) : TuicInboundOpts :=
  let d := TuicInboundOpts_default in
  {| io_listen_addr := SocketAddr_V4 [127; 0; 0; 1] tuic_port; io_certificate := [cert_der];
     io_private_key := key_der; io_alpn := [ascii_str "h3"];
     io_users := {[uuid_from_bytes [193; 230; 219; 226; 244; 23; 72; 144; 153; 76; 158; 225; 91; 146; 101; 151]
                   := ascii_str "test_passwd"]};
     io_auth_timeout := 3000; io_max_idle_time := 15000;
     io_max_concurrent_bi_streams := io_max_concurrent_bi_streams d;
     io_max_concurrent_uni_streams := io_max_concurrent_uni_streams d;
     io_send_window := io_send_window d; io_receive_window := io_receive_window d;
     io_zero_rtt := io_zero_rtt d; io_initial_mtu := io_initial_mtu d; io_min_mtu := io_min_mtu d;
     io_gso := io_gso d |}.

(** A test's clean-up: [token.cancel()] and [tasks.wait()], without
    [tasks.close()]: the wait needs both a closed and an empty tracker. *)
Record TestContext := { tc_cancelled : bool; tc_closed : bool; tc_tasks : nat }.

Definition test_cleanup (c : TestContext) (tasks_left : nat) : TestContext * bool :=
  let c := {| tc_cancelled := true; tc_closed := tc_closed c; tc_tasks := tasks_left |} in
  (c, tc_closed c && bool_decide (tc_tasks c = 0%nat)).

(** ** The packet is what the test means it to be *)

(** The pattern, endlessly repeated. *)
Definition pat (i : Z) : u8 := default 0 (pattern !! Z.to_nat (i mod 16)).
Definition cyc (off : Z) (k : nat) : bytes := (fun i => pat (off + i)) <$> seqZ 0 (Z.of_nat k).

Lemma cyc_length off k : length (cyc off k) = k.
Proof. unfold cyc. rewrite length_fmap, length_seqZ. lia. Qed.

Lemma cyc_lookup off k i : (i < k)%nat -> cyc off k !! i = Some (pat (off + Z.of_nat i)).
Proof. intros Hi. unfold cyc. rewrite list_lookup_fmap, lookup_seqZ_lt by lia. cbn. by rewrite Z.add_0_l. Qed.

Lemma pat_mod i : pat (i mod 16) = pat i.
Proof. unfold pat. by rewrite Z.mod_mod. Qed.

Lemma cyc_split off c k : cyc off (c + k) = cyc off c ++ cyc ((off + Z.of_nat c) mod 16) k.
Proof.
  apply list_eq. intros i. destruct (decide (i < c + k)%nat) as [Hi|Hi].
  - rewrite cyc_lookup by done. destruct (decide (i < c)%nat) as [Hc|Hc].
    + rewrite lookup_app_l by (rewrite cyc_length; lia). by rewrite cyc_lookup.
    + rewrite lookup_app_r by (rewrite cyc_length; lia). rewrite cyc_length, cyc_lookup by lia. f_equal.
      rewrite <-(pat_mod (_ + Z.of_nat (i - c))), <-(pat_mod (off + _)), Zplus_mod_idemp_l. do 2 f_equal. lia.
  - rewrite !lookup_ge_None_2; [done|rewrite length_app, !cyc_length; lia|rewrite cyc_length; lia].
Qed.

Lemma pattern_slice off c : 0 <= off -> 0 <= c -> off + c <= 16 ->
  slice off (off + c) pattern = Returns (cyc off (Z.to_nat c)).
Proof.
  intros Ho Hc Hl. unfold slice. change (len pattern) with 16. rewrite !(proj2 (Z.leb_le _ _)) by lia.
  cbn [andb]. f_equal. apply list_eq. intros i. unfold ztake, zdrop.
  destruct (decide (i < Z.to_nat c)%nat) as [Hi|Hi].
  - rewrite lookup_take_lt, lookup_drop, cyc_lookup by lia. unfold pat.
    rewrite Z.mod_small by lia. replace (Z.to_nat (off + Z.of_nat i)) with (Z.to_nat off + i)%nat by lia.
    destruct (lookup_lt_is_Some_2 pattern (Z.to_nat off + i)) as [x Hx]; [change (length pattern) with 16%nat; lia|].
    by rewrite Hx.
  - rewrite lookup_take_ge by lia. by rewrite lookup_ge_None_2 by (rewrite cyc_length; lia).
Qed.

(** The loop of the echo test has ended by the bound it is given. *)
Lemma echo_fill_len n size p : size - len p <= Z.of_nat n -> len (echo_fill n size p) = Z.max size (len p).
Proof.
  revert p; induction n as [|n IH]; intros p Hn; cbn [echo_fill]; [lia|].
  destruct (Z.ltb_spec (len p) size); [|lia].
  rewrite IH; unfold len in *; rewrite length_app; cbn [length]; lia.
Qed.

(** Its packet has the size asked for, or just the 15 bytes of its header. *)
Lemma echo_packet_len size : 0 <= size -> len (echo_packet size) = Z.max size 15.
Proof. intros Hs. unfold echo_packet. rewrite echo_fill_len; [done|]. unfold len; lia. Qed.

(** The loop ends, having added the missing bytes of the pattern. *)
Lemma fill_spec n size off lp : 0 <= off < 16 -> size - len lp < Z.of_nat n ->
  fill n size off lp = Returns (lp ++ cyc off (Z.to_nat (size - len lp))).
Proof.
  revert off lp; induction n as [|n IH]; intros off lp Ho Hn.
  { cbn. replace (Z.to_nat (size - len lp)) with 0%nat by lia. by rewrite app_nil_r. }
  cbn [fill]. change (len pattern) with 16. cbv zeta. destruct (Z.ltb_spec (len lp) size) as [Hlt|Hge].
  - set (c := Z.min (size - len lp) (16 - off)). assert (0 < c /\ off + c <= 16) as [Hc Hoc] by lia.
    rewrite pattern_slice by lia. cbn [exec_bind].
    assert (len (lp ++ cyc off (Z.to_nat c)) = len lp + c) as Hlen.
    { rewrite len_app. unfold len at 2. rewrite cyc_length. lia. }
    rewrite IH; [|apply Z.mod_pos_bound; lia|lia]. rewrite Hlen, <-app_assoc. do 2 f_equal.
    replace (Z.to_nat (size - len lp)) with (Z.to_nat c + Z.to_nat (size - (len lp + c)))%nat by lia.
    rewrite cyc_split, Z2Nat.id by lia. done.
  - replace (Z.to_nat (size - len lp)) with 0%nat by lia. by rewrite app_nil_r.
Qed.

Lemma be32_roundtrip z : 0 <= z < 2 ^ 32 -> of_be32 (be32 z) = z.
Proof.
  intros Hz. unfold of_be32, be32. Z.div_mod_to_equations. lia.
Qed.

Lemma checksum_range packet : 0 <= checksum_of packet < 2 ^ 32.
Proof.
  unfold checksum_of. destruct packet as [|b packet] using rev_ind; [done|].
  rewrite foldl_app. cbn. apply Z.mod_pos_bound. lia.
Qed.

(** The packet before the checksum is written. *)
Definition plain_packet (size : Z) : bytes :=
  MAGIC ++ be32 (as_u32 size) ++ cyc 0 (Z.to_nat (size - 18)).

Lemma plain_packet_len size : 0 <= size -> len (plain_packet size) = Z.max 18 size.
Proof.
  intros Hs. unfold plain_packet. rewrite !len_app. change (len MAGIC) with 14. change (len (be32 _)) with 4.
  unfold len. rewrite cyc_length. lia.
Qed.

Lemma build_packet_eq size : 0 <= size ->
  build_packet size =
  let p := plain_packet size in
  Returns (ztake (len p - 4) p ++ be32 (checksum_of p), checksum_of p).
Proof.
  intros Hs. unfold build_packet.
  assert (len (MAGIC ++ be32 (as_u32 size)) = 18) as Hh by done.
  rewrite fill_spec by lia. rewrite Hh, <-app_assoc. fold (plain_packet size). cbn [exec_bind]. cbv zeta.
  rewrite (proj2 (Z.leb_le _ _)); [done|]. rewrite plain_packet_len; lia.
Qed.

(** ** The verdict on a response *)

Lemma find_diff_spec i sent recv : length sent = length recv ->
  match find_diff i sent recv with
  | None => sent = recv
  | Some (j, s, r) => exists k, j = i + Z.of_nat k /\ sent !! k = Some s /\ recv !! k = Some r /\ s <> r /\
      take k sent = take k recv
  end.
Proof.
  revert i recv; induction sent as [|s sent IH]; intros i [|r recv] Hl; try done. cbn.
  destruct (Z.eqb_spec s r) as [->|Hne].
  - specialize (IH (i + 1) recv ltac:(cbn in Hl; lia)).
    destruct (find_diff (i + 1) sent recv) as [[[j s'] r']|]; [|congruence].
    destruct IH as (k&->&?&?&?&Ht). exists (S k). cbn. rewrite Ht. split_and!; [lia|done..].
  - exists 0%nat. cbn. split_and!; [lia|done..].
Qed.

Lemma has_prefix_app p s : has_prefix p (p ++ s) = true.
Proof. unfold has_prefix. rewrite take_app_length. by apply bool_decide_eq_true. Qed.

(** The verdict, for a packet with its own header and checksum. *)
Lemma verify_exact p c : has_prefix MAGIC p = true -> of_be32 (zdrop (len p - 4) p) = c ->
  (forall response, verify_response p c response = Ok () <-> response = Response_Data p) /\
  (forall response diff, verify_response p c response = Err (DataMismatch diff) ->
     exists d k s r, response = Response_Data d /\ diff = Some (Z.of_nat k, s, r) /\
       p !! k = Some s /\ d !! k = Some r /\ s <> r /\ take k p = take k d).
Proof.
  intros Hm Hc. split.
  - intros [| |d]; cbn [verify_response]; [done|done|]. split.
    + destruct (len d =? len p); [|done]. destruct (has_prefix MAGIC d); [|done].
      destruct (_ || _); [|done]. case_bool_decide; congruence.
    + intros [= ->]. rewrite Z.eqb_refl, Hm, Hc, Z.eqb_refl, orb_true_r. by rewrite bool_decide_true.
  - intros [| |d] diff; cbn [verify_response]; [done|done|].
    destruct (Z.eqb_spec (len d) (len p)) as [Hl|]; [|done]. destruct (has_prefix MAGIC d); [|done].
    destruct (_ || _); [|done]. case_bool_decide as Hne; [done|]. intros [= <-].
    pose proof (find_diff_spec 0 p d ltac:(unfold len in Hl; lia)) as Hf.
    destruct (find_diff 0 p d) as [[[j s] r]|]; [|by destruct Hne].
    destruct Hf as (k&->&?&?&?&?). exists d, k, s, r. by split_and!.
Qed.

(** The bytes between the header and the checksum. *)
Lemma plain_packet_lookup size i : (18 <= i)%nat -> Z.of_nat i < size ->
  plain_packet size !! i = pattern !! ((i - 18) mod 16)%nat.
Proof.
  intros Hi Hlt. unfold plain_packet. rewrite (app_assoc MAGIC).
  rewrite lookup_app_r by (change (length (_ ++ _)) with 18%nat; lia). change (length (_ ++ _)) with 18%nat.
  rewrite cyc_lookup by lia. unfold pat. rewrite Z.add_0_l.
  replace (Z.to_nat (Z.of_nat (i - 18) mod 16)) with ((i - 18) mod 16)%nat
    by (change 16 with (Z.of_nat 16); by rewrite <-Nat2Z.inj_mod, Nat2Z.id).
  destruct (lookup_lt_is_Some_2 pattern ((i - 18) mod 16)) as [x ->]; [|done].
  change (length pattern) with 16%nat. apply Nat.mod_upper_bound. lia.
Qed.

(** The packet built carries its header and its checksum. *)
Lemma build_packet_parts size : 0 <= size ->
  exists p c, build_packet size = Returns (p, c) /\ len p = Z.max 18 size /\ has_prefix MAGIC p = true /\
    of_be32 (zdrop (len p - 4) p) = c /\ take (length p - 4) p = take (length p - 4) (plain_packet size).
Proof.
  intros Hs. rewrite build_packet_eq by done. cbv zeta. set (q := plain_packet size).
  pose proof (plain_packet_len size Hs) as Hq. fold q in Hq.
  set (p := ztake (len q - 4) q ++ be32 (checksum_of q)). exists p, (checksum_of q).
  assert (len p = Z.max 18 size) as Hp.
  { unfold p. rewrite len_app, len_ztake by lia. change (len (be32 _)) with 4. lia. }
  assert (take (length p - 4) p = take (length p - 4) q) as Ht.
  { unfold p at 2. unfold ztake. rewrite take_app_le by (rewrite length_take; unfold len in *; lia).
    rewrite take_take. f_equal. unfold len in *; lia. }
  assert (has_prefix MAGIC p = true) as Hm.
  { unfold has_prefix. apply bool_decide_eq_true. change (length MAGIC) with 14%nat.
    rewrite <-(Nat.min_l 14 (length p - 4)), <-take_take, Ht, take_take by (unfold len in *; lia).
    rewrite Nat.min_l by (unfold len in *; lia). done. }
  split; [done|]. split; [done|]. split; [done|]. split; [|done].
  unfold p. rewrite zdrop_app_eq; [apply be32_roundtrip, checksum_range|].
  rewrite len_app. change (len (be32 _)) with 4. lia.
Qed.

(** The large-packet test is exact.  For every packet size the test packet
    is built without a panic, at least 18 bytes long, its identifying header
    first and then the repeated pattern up to the final checksum; the test
    passes for a response if and only if the response is that packet, byte for
    byte; and a difference it reports is the first one. *)
Lemma large_packet_test_exact size : 0 <= size ->
  exists p c,
    build_packet size = Returns (p, c) /\ len p = Z.max 18 size /\ has_prefix MAGIC p = true /\
    (forall i : nat, (18 <= i)%nat -> Z.of_nat i < size - 4 -> p !! i = pattern !! ((i - 18) mod 16)%nat) /\
    (forall response, verify_response p c response = Ok () <-> response = Response_Data p) /\
    (forall response diff, verify_response p c response = Err (DataMismatch diff) ->
       exists d k s r, response = Response_Data d /\ diff = Some (Z.of_nat k, s, r) /\
         p !! k = Some s /\ d !! k = Some r /\ s <> r /\ take k p = take k d).
Proof.
  intros Hs. destruct (build_packet_parts size Hs) as (p&c&Hb&Hl&Hm&Hc&Ht). exists p, c.
  split; [done|]. split; [done|]. split; [done|]. split; [|by apply verify_exact].
  intros i Hi Hlt. unfold len in Hl. rewrite <-(lookup_take_lt p (length p - 4)), Ht by lia.
  rewrite lookup_take_lt by lia. apply plain_packet_lookup; lia.
Qed.

Lemma large_packet_test_exact_witness :
  exists p c, build_packet 40 = Returns (p, c) /\ len p = 40 /\ p !! 20%nat = Some 50 /\
    verify_response p c (Response_Data p) = Ok () /\ verify_response p c (Response_Data (<[20%nat := 0]> p)) <> Ok ().
Proof.
  destruct (large_packet_test_exact 40 ltac:(lia)) as (p&c&Hb&Hl&_&Hpat&Hok&_). exists p, c.
  split; [exact Hb|]. split; [exact Hl|]. split; [exact (Hpat 20%nat ltac:(lia) ltac:(lia))|].
  split; [by apply Hok|]. intros [= He]%Hok. assert (p !! 20%nat = Some 50) as H20 by exact (Hpat 20%nat ltac:(lia) ltac:(lia)).
  assert (<[20%nat := 0]> p !! 20%nat = Some 50) as H0 by by rewrite He.
  rewrite list_lookup_insert_eq in H0 by (eapply lookup_lt_Some; exact H20). discriminate H0.
Defined.

(** ** Direct TCP: each direction ends by itself *)

(** What one side sends up to its end of stream, and whether it ended. *)
Fixpoint until_eof (read : IoEvent -> option bytes) (script : list IoEvent) : bytes * bool :=
  match script with
  | [] => ([], false)
  | ev :: script' =>
    match read ev with
    | None => until_eof read script'
    | Some d =>
      if len d =? 0 then ([], true)
      else let r := until_eof read script' in (d ++ r.1, r.2)
    end
  end.

Definition side_a (ev : IoEvent) : option bytes := match ev with ReadA (Ok d) _ => Some d | _ => None end.
Definition side_b (ev : IoEvent) : option bytes := match ev with ReadB (Ok d) _ => Some d | _ => None end.

Definition clean (ev : IoEvent) : bool :=
  match ev with ReadA (Ok _) Written | ReadB (Ok _) Written => true | _ => false end.

Section direct_tcp.
Context (connects : str -> bool).
#[local] Instance test_manager : InboundCallback DirectState := TestManager connects.

(** Unlike [copy_io], which stops at the first end of stream, the direct relay
    ends when both sides have ended, and has then delivered all that either
    sent. *)
Lemma direct_relay_script script d s :
  forallb clean script = true -> dt_a_done d && dt_b_done d = false ->
  let ra := until_eof side_a script in let rb := until_eof side_b script in
  let a_end := dt_a_done d || ra.2 in let b_end := dt_b_done d || rb.2 in
  relay_script script (d : TcpFuture) s =
  Returns (Ok (if a_end && b_end then None
               else Some {| dt_to_b := dt_to_b d ++ (if dt_a_done d then [] else ra.1);
                            dt_to_a := dt_to_a d ++ (if dt_b_done d then [] else rb.1);
                            dt_a_done := a_end; dt_b_done := b_end |}), s).
Proof.
  revert d; induction script as [|ev script IH]; intros d Hcl Hd; cbv zeta in *.
  { destruct d as [tb ta [] []]; cbn in *; try done; by rewrite !app_nil_r. }
  cbn [forallb] in Hcl. apply andb_true_iff in Hcl as [Hev Hcl].
  cbn [relay_script until_eof]. unfold m_bind. cbn. unfold poll_tcp_direct, direct_step, m_ret.
  destruct d as [tb ta da db]; cbn in Hd.
  destruct ev as [[x|e] [|]|[x|e] [|]]; try done; cbn [side_a side_b dt_a_done dt_b_done dt_to_a dt_to_b].
  - destruct da; cbn [dt_a_done dt_b_done andb orb] in *.
    + subst db. by rewrite IH.
    + destruct (len x =? 0) eqn:Hx; cbn [dt_a_done dt_b_done andb orb].
      * apply Z.eqb_eq, len_zero_inv in Hx as ->. destruct db; [done|].
        rewrite IH by done. cbn. by rewrite !app_nil_r.
      * rewrite IH by done. cbn. by rewrite <-app_assoc.
  - destruct db; cbn [dt_a_done dt_b_done andb orb] in *.
    + rewrite andb_true_r in Hd. subst da. cbn [andb]. by rewrite IH.
    + destruct (len x =? 0) eqn:Hx; cbn [dt_a_done dt_b_done andb orb].
      * apply Z.eqb_eq, len_zero_inv in Hx as ->. destruct da; [by rewrite ?orb_true_r|].
        cbn [andb]. rewrite IH by done. cbn. by rewrite !app_nil_r, ?orb_true_r.
      * rewrite andb_false_r. rewrite IH by (rewrite ?andb_false_r; done). cbn. by rewrite <-app_assoc.
Qed.
End direct_tcp.

(** ** Direct UDP: one socket for each target *)

(** The datagrams with a destination, until the first read that is not one. *)
Fixpoint relayed (evs : list DirectEvent) : list (str * bytes) :=
  match evs with
  | [] => []
  | Direct_Reply _ _ :: evs' => relayed evs'
  | Direct_Recv (Ok (count, buf, meta)) _ :: evs' =>
    if 0 <? count then
      match rm_destination meta with
      | Some t => (TargetAddr_to_string t, ztake (rm_len meta) buf) :: relayed evs'
      | None => relayed evs'
      end
    else []
  | Direct_Recv (Err _) _ :: _ => []
  end.

(** Every datagram left through the socket of its own target; no two targets
    share one. *)
Definition direct_ok (d : DirectUdp) : Prop :=
  (forall s k x, (s, k, x) ∈ du_to_target d -> exists a, du_sockets d !! k = Some (s, a)) /\
  (forall k1 k2 s a1 a2, du_sockets d !! k1 = Some (s, a1) -> du_sockets d !! k2 = Some (s, a2) -> k1 = k2) /\
  (forall k s a, du_sockets d !! k = Some (s, a) -> (s < size (du_sockets d))%nat).

Lemma relay_datagram_ok bind_ok meta buf d d' : direct_ok d ->
  relay_datagram bind_ok meta buf d = Returns d' ->
  direct_ok d' /\ du_running d' = du_running d /\
  (fun e => (e.1.2, e.2)) <$> du_to_target d' =
    ((fun e => (e.1.2, e.2)) <$> du_to_target d) ++
    option_list ((fun t => (TargetAddr_to_string t, ztake (rm_len meta) buf)) <$> rm_destination meta) /\
  (forall k v, du_sockets d !! k = Some v -> du_sockets d' !! k = Some v).
Proof.
  intros (Hto&Hinj&Hlt). unfold relay_datagram, slice_to. destruct (_ <=? _); [|done]. cbn [exec_bind].
  destruct (rm_destination meta) as [t|]; [|intros [= <-]; cbn; rewrite app_nil_r; by split_and!].
  cbn [fmap option_fmap option_map option_list]. set (key := TargetAddr_to_string t). set (data := ztake _ _).
  destruct (du_sockets d !! key) as [[sock a]|] eqn:Hk.
  - intros [= <-]. cbn. rewrite fmap_app. split_and!; try done. split_and!; cbn; try done.
    intros s k x [?|[= -> -> ->]%list_elem_of_singleton]%elem_of_app; [by eapply Hto|by exists a].
  - destruct bind_ok; [|done]. intros [= <-]. cbn. rewrite fmap_app.
    assert (forall k v, du_sockets d !! k = Some v ->
      <[key := (size (du_sockets d), rm_addr meta)]> (du_sockets d) !! k = Some v) as Hmono.
    { intros k v Hv. rewrite lookup_insert_ne; [done|]. congruence. }
    split_and!; try done. split_and!; cbn.
    + intros s k x [[a ?]%Hto|[= -> -> ->]%list_elem_of_singleton]%elem_of_app;
        [exists a; by apply Hmono|eexists; cbn; by rewrite lookup_insert_eq].
    + intros k1 k2 s a1 a2 [[<- [= <- <-]]|[? H1]]%lookup_insert_Some [[<- [= <-]]|[? H2]]%lookup_insert_Some;
        [done| | |by eapply Hinj]; [apply Hlt in H2; lia|]. subst. apply Hlt in H1. lia.
    + intros k s a. rewrite map_size_insert_None by done.
      intros [[<- [= <- <-]]|[? H1%Hlt]]%lookup_insert_Some; lia.
Qed.

Lemma direct_reply_keeps key r d :
  du_sockets (direct_reply key r d) = du_sockets d /\ du_to_target (direct_reply key r d) = du_to_target d /\
  du_running (direct_reply key r d) = du_running d.
Proof. unfold direct_reply. by repeat case_match. Qed.

(** The direct relay is faithful: in every run it sends, in order, exactly the
    datagrams read, each with its payload to its own destination, domain names
    included, through one socket for each destination. *)
Lemma direct_udp_faithful evs d' : direct_udp_run evs direct_udp_new = Returns d' ->
  direct_ok d' /\ (fun e => (e.1.2, e.2)) <$> du_to_target d' = relayed evs.
Proof.
  assert (direct_ok direct_udp_new) as H0.
  { split_and!; cbn; [by intros s k x ?%elem_of_nil|intros *; by rewrite lookup_empty..]. }
  assert (forall d, direct_ok d -> direct_udp_run evs d = Returns d' ->
    direct_ok d' /\ (fun e => (e.1.2, e.2)) <$> du_to_target d' =
      ((fun e => (e.1.2, e.2)) <$> du_to_target d) ++ (if du_running d then relayed evs else [])) as Hgen.
  2: { intros Hr. by apply (Hgen direct_udp_new). }
  induction evs as [|ev evs IH]; intros d Hok Hr; cbn in Hr.
  { simplify_eq. split; [done|]. destruct (du_running d'); by rewrite app_nil_r. }
  destruct (direct_udp_step ev d) as [d1|] eqn:Hs; [|done]. cbn in Hr.
  destruct ev as [[[[count buf] meta]|e] bind_ok|key r]; cbn in Hs.
  - destruct (du_running d) eqn:Hrun.
    + cbn [relayed]. destruct (0 <? count).
      * apply relay_datagram_ok in Hs as (Hok1&Hrun1&Hto&_); [|done]. destruct (IH d1 Hok1 Hr) as [? ->].
        split; [done|]. rewrite Hto, Hrun1, Hrun, <-app_assoc.
        by destruct (rm_destination meta).
      * simplify_eq. by (apply IH in Hr; [|exact Hok]).
    + simplify_eq. destruct (IH _ Hok Hr) as [? ->]. by rewrite Hrun.
  - destruct (du_running d) eqn:Hrun; simplify_eq; [by (apply IH in Hr; [|exact Hok])|].
    destruct (IH _ Hok Hr) as [? ->]. by rewrite Hrun.
  - cbn [relayed]. simplify_eq. destruct (direct_reply_keeps key r d) as (H1&H2&H3).
    apply IH in Hr; [by rewrite H2, H3 in Hr|]. by unfold direct_ok; rewrite H1, H2.
Qed.

(** Replies of a target go to the sender of the first datagram to it, also
    when another client has sent to the same target since. *)
Lemma direct_reply_to_first key data s a d :
  du_sockets d !! key = Some (s, a) -> key ∉ du_ended d ->
  tx_destination <$> last (du_replies (direct_reply key (Ok data) d)) = Some a.
Proof. intros Hk He. unfold direct_reply. rewrite Hk, decide_False by done. cbn. by rewrite last_snoc. Qed.

(** The default client configuration names the test server's user. *)
Lemma test_user_is_default {U : UuidOps} port cert key :
  io_users (test_tuic_opt port cert key) !! pt_uuid (TuicOpt_default (U:=U)) = Some (pt_password (TuicOpt_default (U:=U))).
Proof. cbn. apply lookup_singleton_eq. Qed.

(** A clean-up never sees its wait complete: the tracker is not closed. *)
Lemma test_cleanup_waits c n : tc_closed c = false -> (test_cleanup c n).2 = false.
Proof. unfold test_cleanup. cbn. by intros ->. Qed.
