(* ===== verification/TestRuns.v ===== *)
(** * The network tests (wind-test/src/socks5.rs)

    The probes of the crate and the tests that run them, over a network that
    answers their calls from the history of calls so far.  What they print is
    left out, except the reading of a DNS response.  A failed assertion is a
    panic; an error is the text its [Display] shows, since that is what the
    tests look at. *)

From stdpp Require Import base list strings list_numbers.
From S2P Require Import Prelude Types NetText TestProxy.

(** ** The network *)

Inductive NetCall :=
| Net_TcpConnect (addr : str)
| Net_SocksConnect (proxy_addr target_host : str) (target_port : u16)
| Net_UdpBind (local_addr : str)
| Net_UdpConnect (addr : str)
| Net_Associate (local_addr : str)
| Net_LocalAddr
| Net_Write (data : bytes)
| Net_Flush
| Net_Read (capacity : usize)
| Net_ReadToEnd
| Net_Send (data : bytes)
| Net_SendTo (data : bytes) (host : str) (port : u16)
| Net_Recv (capacity : usize)
(** [println!] of the details of a DNS response *)
| Net_Details (response_code questions answers authorities additional : Z).

Abbreviation NetHist := (list NetCall) (only parsing).

(** A call returns data (none but for reads) or the text of its error;
    [late h] is that a timeout fires before the pending call completes. *)
Class Network := {
  net : NetHist -> NetCall -> result bytes str;
  late : NetHist -> bool
}.

(** An [eyre::Report]: the text shown, and the error it wraps, which [Display]
    does not show. *)
Record TestReport := { tr_text : str; tr_source : option str }.

Definition report (text : str) : TestReport := {| tr_text := text; tr_source := None |}.

Section runs.
Context {N : Network}.

Definition net_call (wrap : str -> TestReport) (c : NetCall) : M NetHist TestReport bytes :=
  fun h => Returns (result_map_err wrap (net h c), h ++ [c]).

Definition timed (c : NetCall) : M NetHist TestReport (option (result bytes str)) :=
  fun h => Returns (Ok (if late h then None else Some (net h c)), h ++ [c]).

(** ** Probes without a proxy *)

Definition crlf : bytes := [13; 10].
Definition colon_port (port : u16) : str := 58 :: show port.

Definition http_get (target_host : str) (agent : bytes) : bytes :=
  ascii_str "GET / HTTP/1.1" ++ crlf ++ ascii_str "Host: " ++ target_host ++ crlf ++
  ascii_str "Connection: close" ++ crlf ++ agent ++ crlf.

(** A standard query for the address of example.com. *)
Definition dns_query (id : bytes) : bytes :=
  id ++ [1; 0; 0; 1; 0; 0; 0; 0; 0; 0; 7; 101; 120; 97; 109; 112; 108; 101; 3; 99; 111; 109; 0; 0; 1; 0; 1].

Definition test_direct_tcp (target_host : str) (target_port : u16) : M NetHist TestReport unit :=
  net_call report (Net_TcpConnect (target_host ++ colon_port target_port)) ;;!
  net_call report (Net_Write (http_get target_host [])) ;;!
  net_call report (Net_Read 1024) ;;!
  m_ret ().

Definition test_direct_udp (target_host : str) (target_port : u16) : M NetHist TestReport unit :=
  net_call report (Net_UdpBind (ascii_str "0.0.0.0:0")) ;;!
  net_call report (Net_UdpConnect (target_host ++ colon_port target_port)) ;;!
  net_call report (Net_Send (dns_query [18; 52])) ;;!
  net_call report (Net_Recv 512) ;;!
  m_ret ().

(** [test_direct_udp_with_echo_server] *)
Definition test_direct_echo (host : str) (port : u16) (packet_size : usize) : M NetHist TestReport unit :=
  net_call report (Net_UdpBind (ascii_str "127.0.0.1:0")) ;;!
  net_call report (Net_SendTo (echo_packet packet_size) host port) ;;!
  let! response := timed (Net_Recv (packet_size + 100)) in
  match response with
  | None => m_throw (report (ascii_str "deadline has elapsed"))
  | Some (Err e) => m_throw (report e)
  | Some (Ok data) =>
    match echo_verify packet_size (Some data) with
    | Ok _ => m_ret ()
    | Err _ => m_throw (report (ascii_str "Echo response mismatch: expected " ++ show (len (echo_packet packet_size))
                                ++ ascii_str " bytes, got " ++ show (len data) ++ ascii_str " bytes"))
    end
  end.

(** ** Probes through the proxy *)

Definition test_socks5_tcp (proxy_addr target_host : str) (target_port : u16) : M NetHist TestReport unit :=
  net_call (fun e => report (ascii_str "SOCKS5 connection failed: " ++ e))
    (Net_SocksConnect proxy_addr target_host target_port) ;;!
  net_call report (Net_Write (http_get target_host (ascii_str "User-Agent: wind-test/1.0" ++ crlf))) ;;!
  net_call report Net_Flush ;;!
  let! response := net_call report Net_ReadToEnd in
  (if 0 <? len response
   then let! _ := m_lift (slice_to (Z.min 500 (len response)) response) in m_ret ()
   else m_ret ()) ;;!
  m_ret ().

(** The set-up both UDP probes begin with. *)
Definition socks_associate (proxy_addr : str) : M NetHist TestReport unit :=
  net_call (fun e => report (ascii_str "Failed to connect to proxy: " ++ e)) (Net_TcpConnect proxy_addr) ;;!
  net_call (fun e => {| tr_text := ascii_str "SOCKS5 UDP association failed"; tr_source := Some e |})
    (Net_Associate (ascii_str "127.0.0.1:0")) ;;!
  net_call report Net_LocalAddr ;;!
  m_ret ().

Definition be16_at (i : usize) (d : bytes) : exec u16 :=
  exec_bind (index i d) (fun hi => exec_bind (index (i + 1) d) (fun lo => Returns (of_be hi lo))).

(** The details of a DNS response of at least twelve bytes are printed. *)
Definition dns_details (dns_response : bytes) : M NetHist TestReport unit :=
  if 12 <=? len dns_response then
    let! flags := m_lift (be16_at 2 dns_response) in
    let! questions := m_lift (be16_at 4 dns_response) in
    let! answers := m_lift (be16_at 6 dns_response) in
    let! authorities := m_lift (be16_at 8 dns_response) in
    let! additional := m_lift (be16_at 10 dns_response) in
    m_modify (fun h => h ++ [Net_Details (Z.land flags 15) questions answers authorities additional])
  else m_ret ().

Definition test_socks5_udp (proxy_addr target_host : str) (target_port : u16) : M NetHist TestReport unit :=
  socks_associate proxy_addr ;;!
  net_call report (Net_SendTo (dns_query [171; 205]) target_host target_port) ;;!
  let! response := timed (Net_Recv 1024) in
  match response with
  | Some (Ok data) => dns_details data
  | Some (Err e) => m_throw (report (ascii_str "UDP receive error: " ++ e))
  | None => m_ret ()
  end.

(** [{:0nX}] *)
Definition hex_upper (n : nat) (z : Z) : str :=
  let digits := (fun b => if 97 <=? b then b - 32 else b) <$> show_hex z in
  replicate (n - length digits) 48 ++ digits.

(** The texts of the errors of [test_socks5_udp_large_packet]; [data] is what
    was received. *)
Definition test_error_text (large_packet data : bytes) (checksum : u32) (e : TestError) : str :=
  match e with
  | Timeout => ascii_str "Large packet test timeout"
  | ReceiveError => ascii_str "UDP receive error: "
  | SizeMismatch => ascii_str "Response size mismatch: expected " ++ show (len large_packet) ++
                    ascii_str " bytes, got " ++ show (len data) ++ ascii_str " bytes"
  | HeaderMismatch => ascii_str "Packet header mismatch"
  | ChecksumMismatch =>
    ascii_str "Packet integrity check failed: expected checksum 0x" ++ hex_upper 8 checksum ++
    ascii_str ", received 0x" ++ hex_upper 8 (of_be32 (zdrop (len data - 4) data)) ++
    ascii_str ", calculated 0x" ++ hex_upper 8 (as_u32 (checksum_of (ztake (len data - 4) data) + checksum))
  | DataMismatch (Some (i, sent, recv)) =>
    ascii_str "Packet data mismatch detected at byte " ++ show i ++ ascii_str ": sent 0x" ++ hex_upper 2 sent ++
    ascii_str ", received 0x" ++ hex_upper 2 recv
  | DataMismatch None => ascii_str "Packet data mismatch detected"
  end.

Definition test_socks5_udp_large_packet (proxy_addr target_host : str) (target_port : u16) (packet_size : usize) :
    M NetHist TestReport unit :=
  socks_associate proxy_addr ;;!
  let! p := m_lift (build_packet packet_size) in
  net_call report (Net_SendTo p.1 target_host target_port) ;;!
  let! response := timed (Net_Recv (packet_size + 1024)) in
  match response with
  | Some (Ok data) =>
    match verify_response p.1 p.2 (Response_Data data) with
    | Ok _ => m_ret ()
    | Err e => m_throw (report (test_error_text p.1 data p.2 e))
    end
  | Some (Err e) => m_throw (report (test_error_text p.1 [] p.2 ReceiveError ++ e))
  | None => m_throw (report (test_error_text p.1 [] p.2 Timeout))
  end.

(** ** The tests *)

(** [hay.contains(needle)] *)
Fixpoint contains (needle hay : str) : bool :=
  has_prefix needle hay || match hay with [] => false | _ :: hay' => contains needle hay' end.

Definition unsupported : str := ascii_str "Command not supported".
Definition localhost : str := ascii_str "127.0.0.1".

(** [assert!(result.is_ok())]; the clean-up before it waits and drops the
    outcome ([test_cleanup]). *)
Definition assert_ok (m : M NetHist TestReport unit) : M NetHist TestReport unit :=
  m_match m (fun r => match r with Ok _ => m_ret () | Err _ => m_panic end).

Definition test_direct_tcp_connection : M NetHist TestReport unit :=
  assert_ok (test_direct_tcp (ascii_str "example.com") 80).
Definition test_direct_udp_connection : M NetHist TestReport unit :=
  assert_ok (test_direct_udp (ascii_str "8.8.8.8") 53).
Definition test_tcp_through_proxy : M NetHist TestReport unit :=
  assert_ok (test_socks5_tcp (localhost ++ colon_port 16666) (ascii_str "example.com") 80).

(** The echo server has two seconds to stop. *)
Definition stop_echo (in_time : bool) : M NetHist TestReport unit := if in_time then m_ret () else m_panic.

(** Both arms of its [Err] case panic. *)
Definition test_udp_through_proxy (echo_port : u16) (stops : bool) : M NetHist TestReport unit :=
  m_match (test_socks5_udp (localhost ++ colon_port 16667) localhost echo_port) (fun r =>
  stop_echo stops ;;!
  match r with Ok _ => m_ret () | Err _ => m_panic end).

(** The probes of [test_udp_large_packet_through_proxy], each if the one
    before passed; every failure panics. *)
Definition test_udp_large_packet_through_proxy (echo_port : u16) (stops : bool) : M NetHist TestReport unit :=
  assert_ok (test_direct_echo localhost echo_port 512) ;;!
  assert_ok (test_socks5_udp_large_packet (localhost ++ colon_port 16668) localhost echo_port 512) ;;!
  assert_ok (test_socks5_udp_large_packet (localhost ++ colon_port 16668) localhost echo_port 2000) ;;!
  stop_echo stops.

Definition test_sizes : list usize := [512; 1400; 1472; 1500; 2000; 4000].

(** The loop of [test_udp_fragmentation_demonstration]. *)
Fixpoint demonstration_loop (echo_port : u16) (sizes : list usize) : M NetHist TestReport unit :=
  match sizes with
  | [] => m_ret ()
  | size :: sizes' =>
    assert_ok (test_direct_echo localhost echo_port size) ;;!
    demonstration_loop echo_port sizes'
  end.

Definition test_udp_fragmentation_demonstration (echo_port : u16) : M NetHist TestReport unit :=
  demonstration_loop echo_port test_sizes.

(** The loop of [test_udp_multiple_mtu_sizes]: it ends, or is skipped at a size where
    the server says it has no UDP support, or panics. *)
Inductive Ending := Finished | Skipped.

Fixpoint mtu_loop (echo_port : u16) (sizes : list usize) : M NetHist TestReport Ending :=
  match sizes with
  | [] => m_ret Finished
  | size :: sizes' =>
    m_match (test_socks5_udp_large_packet (localhost ++ colon_port 16669) localhost echo_port size) (fun r =>
    match r with
    | Ok _ => mtu_loop echo_port sizes'
    | Err e => if contains unsupported (tr_text e) then m_ret Skipped else m_panic
    end)
  end.

Definition test_udp_multiple_mtu_sizes (echo_port : u16) (stops : bool) : M NetHist TestReport unit :=
  let! e := mtu_loop echo_port test_sizes in
  match e with Finished => stop_echo stops | Skipped => m_ret () end.
End runs.

(** ** The echo server the tests start *)

Record EchoServer := { es_running : bool; es_packet_count : Z; es_sent : list (bytes * SocketAddr) }.

(** One round of its loop: the flag is read, then [recv_from] has 100 ms. *)
Inductive EchoEvent :=
| Echo_Packet (data : bytes) (from_addr : SocketAddr) (send_ok : bool)
| Echo_Error
| Echo_Timeout.

Definition echo_step (flag : bool) (ev : EchoEvent) (s : EchoServer) : EchoServer :=
  if es_running s && flag then
    match ev with
    | Echo_Packet data from_addr send_ok =>
      {| es_running := true; es_packet_count := es_packet_count s + 1;
         es_sent := es_sent s ++ if send_ok then [(data, from_addr)] else [] |}
    | Echo_Error => {| es_running := false; es_packet_count := es_packet_count s; es_sent := es_sent s |}
    | Echo_Timeout => s
    end
  else {| es_running := false; es_packet_count := es_packet_count s; es_sent := es_sent s |}.

(** ** What a passed test says *)
Section verdicts.
Context {N : Network}.

(** A network on which every call succeeds in time and a datagram sent is what
    is received next. *)
Definition echoing : Prop :=
  (forall h c, exists d, net h c = Ok d) /\ (forall h, late h = false) /\
  (forall h data host port capacity, net (h ++ [Net_SendTo data host port]) (Net_Recv capacity) = Ok data).

Lemma run_call {A} wrap c (k : bytes -> M NetHist TestReport A) h :
  m_bind (net_call wrap c) k h =
  match net h c with Ok d => k d (h ++ [c]) | Err e => Returns (Err (wrap e), h ++ [c]) end.
Proof. unfold m_bind, net_call. by destruct (net h c). Qed.

Lemma run_timed {A} c (k : option (result bytes str) -> M NetHist TestReport A) h :
  m_bind (timed c) k h = k (if late h then None else Some (net h c)) (h ++ [c]).
Proof. done. Qed.

(** The calls of a UDP probe up to its receive. *)
Definition probe_calls (proxy_addr target_host : str) (target_port : u16) (data : bytes) : NetHist :=
  [Net_TcpConnect proxy_addr; Net_Associate (ascii_str "127.0.0.1:0"); Net_LocalAddr;
   Net_SendTo data target_host target_port].

(** Step through a call that succeeds by [H]. *)
Ltac call_ok H := rewrite ?run_bind_assoc, run_call; edestruct H as [? ->].

(** A run of the large-packet probe that passes received the packet it sent,
    in time, and a run that does so passes. *)
Lemma large_packet_probe proxy host port size h : 0 <= size ->
  exists p c, build_packet size = Returns (p, c) /\
  let h1 := h ++ probe_calls proxy host port p in
  let h2 := h1 ++ [Net_Recv (size + 1024)] in
  (forall h', test_socks5_udp_large_packet proxy host port size h = Returns (Ok (), h') ->
     h' = h2 /\ late h1 = false /\ net h1 (Net_Recv (size + 1024)) = Ok p) /\
  (echoing -> test_socks5_udp_large_packet proxy host port size h = Returns (Ok (), h2)).
Proof.
  intros Hs. destruct (build_packet_parts size Hs) as (p&c&Hb&_&Hm&Hc&_). exists p, c. split; [done|].
  destruct (verify_exact p c Hm Hc) as [Hv _]. cbv zeta.
  unfold test_socks5_udp_large_packet, socks_associate, probe_calls. rewrite Hb. split.
  - intros h'. repeat (rewrite ?run_bind_assoc, ?run_call; destruct (net _ _); [|done]).
    rewrite run_ret, (run_lift _ _ _ (p, c)), run_call by done. destruct (net _ _); [|done].
    rewrite run_timed, <-!app_assoc. cbn [app fst snd].
    destruct (late _); [done|]. destruct (net _ _) as [d|]; [|done].
    destruct (verify_response _ _ _) as [[]|] eqn:Hok; [|done]. apply Hv in Hok as [= ->]. by intros [= <-].
  - intros (Hok&Hlate&Hecho).
    do 3 call_ok Hok. rewrite run_ret, (run_lift _ _ _ (p, c)) by done. call_ok Hok.
    rewrite run_timed, <-!app_assoc, Hlate. cbn [app fst snd].
    pose proof (Hecho (h ++ take 3 (probe_calls proxy host port p)) p host port (size + 1024)) as He.
    rewrite <-app_assoc in He. cbn [take probe_calls app] in He.
    by rewrite He, (proj2 (Hv _) eq_refl), <-?app_assoc.
Qed.

(** When the tests over all sizes finish, each size was received back
    unchanged; and on an echoing network they finish. *)
Definition received (port : u16) (h : NetHist) (size : usize) : Prop :=
  exists h1 p c, build_packet size = Returns (p, c) /\ h1 ++ [Net_Recv (size + 1024)] `prefix_of` h /\
    last h1 = Some (Net_SendTo p localhost port) /\
    late h1 = false /\ net h1 (Net_Recv (size + 1024)) = Ok p.

Lemma mtu_loop_received port sizes h h' : Forall (fun s => 0 <= s) sizes ->
  mtu_loop port sizes h = Returns (Ok Finished, h') -> h `prefix_of` h' /\ Forall (received port h') sizes.
Proof.
  intros Hs. revert h. induction Hs as [|size sizes Hsize Hs IH]; intros h; cbn [mtu_loop].
  { intros [= <-]. by split. }
  unfold m_match. destruct (large_packet_probe (localhost ++ colon_port 16669) localhost port size h Hsize)
    as (p&c&Hb&Hpass&_). cbv zeta in Hpass.
  destruct (test_socks5_udp_large_packet _ _ _ _ _) as [[[[]|e] h1]|]; [|by destruct (contains _ _)|done].
  destruct (Hpass h1 eq_refl) as (->&Hlate&Hnet). intros Hr. apply IH in Hr as [Hpre Hall].
  split; [etrans; [|exact Hpre]; rewrite <-app_assoc; by apply prefix_app_r|]. constructor; [|done].
  eexists _, p, c. split_and!; [done|exact Hpre| |done..]. by rewrite last_app.
Qed.

Lemma mtu_loop_echoing port sizes h : Forall (fun s => 0 <= s) sizes -> echoing ->
  exists h', mtu_loop port sizes h = Returns (Ok Finished, h').
Proof.
  intros Hs He. revert h. induction Hs as [|size sizes Hsize Hs IH]; intros h; cbn [mtu_loop]; [by eexists|].
  unfold m_match. destruct (large_packet_probe (localhost ++ colon_port 16669) localhost port size h Hsize)
    as (p&c&_&_&Hecho). cbv zeta in Hecho. rewrite Hecho by done. apply IH.
Qed.

(** A server that refuses the association makes the test panic, whatever the
    text of its refusal: the text the loop looks at is that of the context.
    The test means to be skipped then. *)
Lemma refused_association_panics port size sizes h :
  let addr := localhost ++ colon_port 16669 in
  (exists d, net h (Net_TcpConnect addr) = Ok d) ->
  net (h ++ [Net_TcpConnect addr]) (Net_Associate (ascii_str "127.0.0.1:0")) = Err unsupported ->
  mtu_loop port (size :: sizes) h = Panics.
Proof.
  cbv zeta. intros [d Hc] Ha. cbn [mtu_loop]. unfold m_match, test_socks5_udp_large_packet, socks_associate.
  by rewrite !run_bind_assoc, run_call, Hc, run_bind_assoc, run_call, Ha.
Qed.

(** The DNS probe passes when nothing comes back, too. *)
Lemma unanswered_probe_passes proxy host port h :
  (forall h c, exists d, net h c = Ok d) -> (forall h, late h = true) ->
  exists h', test_socks5_udp proxy host port h = Returns (Ok (), h').
Proof.
  intros Hok Hlate. unfold test_socks5_udp, socks_associate. do 3 call_ok Hok. rewrite run_ret. call_ok Hok.
  rewrite run_timed, Hlate. by eexists.
Qed.

(** No response makes the reading of its details panic. *)
Lemma dns_details_total data h : exists h', dns_details data h = Returns (Ok (), h').
Proof.
  unfold dns_details. destruct (Z.leb_spec 12 (len data)) as [Hl|]; [|by eexists].
  assert (forall i, 0 <= i < 11 -> exists v, be16_at i data = Returns v) as Hat.
  { intros i Hi. unfold be16_at, index, len in *.
    destruct (lookup_lt_is_Some_2 data (Z.to_nat i)) as [? ->]; [lia|]. cbn [exec_bind].
    destruct (lookup_lt_is_Some_2 data (Z.to_nat (i + 1))) as [? ->]; [lia|]. by eexists. }
  repeat (edestruct Hat as [? Hv]; [|rewrite (run_lift _ _ _ _ Hv); clear Hv]; [lia|]). by eexists.
Qed.
End verdicts.

(** ** A network that echoes *)

Definition echo_network : Network := {|
  net h c := match c, last h with Net_Recv _, Some (Net_SendTo data _ _) => Ok data | _, _ => Ok [] end;
  late _ := false
|}.

Lemma echo_network_echoing : echoing (N:=echo_network).
Proof.
  split_and!; [|done|].
  - intros h c. cbn. repeat case_match; by eexists.
  - intros *. cbn. by rewrite last_snoc.
Qed.

Lemma test_sizes_pass : exists h, mtu_loop (N:=echo_network) 9999 test_sizes [] = Returns (Ok Finished, h).
Proof. apply mtu_loop_echoing; [by_compute|apply echo_network_echoing]. Qed.

(** The server sends every packet back to where it came from, in order. *)
Lemma echo_server_echoes evs s : es_running s = true -> Forall (fun ev => ev <> Echo_Error) evs ->
  es_sent (foldl (fun s ev => echo_step true ev s) s evs) =
  es_sent s ++ omap (fun ev => match ev with Echo_Packet d a true => Some (d, a) | _ => None end) evs.
Proof.
  intros Hr Hevs. revert s Hr. induction Hevs as [|ev evs Hev Hevs IH]; intros s Hr; cbn; [by rewrite app_nil_r|].
  rewrite IH; unfold echo_step; rewrite Hr; [|by destruct ev]. cbn.
  destruct ev as [d a []| |]; cbn; [by rewrite <-app_assoc|by rewrite app_nil_r|done|done].
Qed.
